(* ===== verification/_CoqProject ===== *)
-Q . S2P
Prelude.v
Errors.v
GoStd.v
Sha256.v
Kube.v
Api.v
Store.v
DeepCopy.v
Prog.v
Effects.v
KubeReference.v
Sample.v
Naming.v
Intent.v
Autoscaling.v
Deploy.v
ServiceIntent.v
Availability.v
Route.v
Builder.v
Capability.v
Engine.v
Cluster.v
ClusterReference.v
Conditions.v
Status.v
Failures.v
Gates.v
Controller.v
Watches.v
Registration.v
Telemetry.v
Manager.v
Contract.v
Safety.v
Gating.v
EngineTheorems.v
ReconcileTheorems.v
Ordering.v
Convergence.v
Watching.v
Quiescence.v
Settling.v
Repeats.v
PlanTheorems.v
Regex.v
Schema.v
Admission.v
Bringup.v
StatusTheorems.v
GateTheorems.v
OperatorTheorems.v
Informer.v
ControlLoop.v
Budget.v
