(* ===== verification/Prelude.v ===== *)
(** * AWCP: a verification development of the AI workload control plane

    The AI workload control plane is a Kubernetes operator in Go.  A custom resource, the
    [AIWorkload], describes one service; the controller keeps a set of child objects for it and
    reports their state.  This development translates the operator into Rocq and proves what makes
    it correct.  Paths below are relative to the repository's root.

    ** The program and its parts

    [cmd/main.go] parses flags and starts what [manager.New] (internal/manager/manager.go) sets up:
    the cache restricted to the watched namespaces, leader election, the metrics with their
    refresher (internal/telemetry), the readiness check, and the reconciler with its watches
    ([SetupWithManager], internal/controller/aiworkload_controller.go, and watches.go).  An event on
    a watched object becomes a request, and [Reconcile] answers it in five parts:
    - it reads the workload, and returns at once for an unwatched namespace or a deleted workload;
    - the gates: the tenant profile, the referenced Secrets' external sources, the Gateway
      (secrets.go, external_secrets.go, exposure.go, over internal/capability/catalog.go);
    - the plan: [WorkloadBuilder.Build] (internal/resource) makes an intent per child, present with
      a mutation or absent, and [decorateExternalSecretRevision] stamps the pod template;
    - the engine (engine.go): [ValidatePlan] orders the intents, and [Apply] brings each child to its
      intent by reading, comparing, and one create, merge patch or delete;
    - the report: direct Secrets, the route's and the rollout's state become conditions (status.go,
      autoscaling.go, availability.go) in one status patch; an error on any path is classified and
      reported instead (failures.go).

    ** How it is modelled

    Pure Go functions are Rocq functions; one that can fail or panic returns [res] ([Ok], [Err],
    [Panic]).  A Go struct is a record, a pointer an [option], a map a [gmap], and the mutation of an
    object in place a function from the object to its new value.  Functions that call out are
    programs ([Prog], [Effects]): finite trees of one event per call, whose continuation takes the
    call's answer.  All answers are possible; a theorem that needs the API server or the client to
    behave says so in a relation on calls and answers.  Loops of the code run over finite lists, so no
    definition needs fuel, and the loops are structural recursions; SHA-256 runs its 64 rounds over a
    window, and [refresh_loop] runs over the list of the ticks it is given.

    Integers are kept as [Z].  The sums the code computes on int32 and int64 values are a
    replica bound minus one and counters of conditions; durations are constants; the theorems
    state the ranges where one matters ([ChildName_is_dns_label], [mutatePDB_spec]).

    ** Files

    Foundations.
    - [Prelude]: Go maps and slices, generic lemmas, tactics and hint databases (this file).
    - [Errors]: error values, wrapping, [errors.Is] and [errors.As]; the outcome monad [res].
    - [GoStd], [Sha256]: the standard library the code uses: strings, stable sorting, SHA-256.
    - [Kube]: the Kubernetes structs, and the library functions the code calls as classes
      ([Conditions], [Quantities], [OwnerHelpers], ...) with their documented laws.
    - [Api]: api/v1alpha1/aiworkload_types.go and groupversion_info.go.
    - [Prog], [Effects]: programs of calls, their runs, and the rely/guarantee calculus [safe].
    - [KubeReference], [Sample]: executable instances of the classes, with the laws proved, and a
      sample API server: what witnesses evaluate.

    Components, one file each.
    - [Naming], [Intent]: internal/resource/plan.go; child name, identity labels, intents, and the
      interface a mutation owes the engine (classes [SafeMutation], [Mutation]).
    - [Deploy]: deployment.go, [mutateDeployment] and the resource amounts; [ServiceIntent]:
      service.go, identity.go, network.go; [Autoscaling], [Availability], [Route]: autoscaling.go,
      availability.go, exposure.go of internal/resource; [Builder]: [Build].
    - [Capability]: internal/capability/catalog.go.
    - [Engine]: internal/controller/engine.go.
    - [Conditions], [Status], [Failures]: status.go, autoscaling.go, availability.go, failures.go.
    - [Gates]: [validateTenant], secrets.go, external_secrets.go, exposure.go.
    - [Controller]: [Reconcile] and the decoration of the plan.
    - [Watches], [Registration]: watches.go and [SetupWithManager]; [Telemetry]: telemetry.go;
      [Manager]: manager.go and cmd/main.go.
    - [Store], [DeepCopy]: api/v1alpha1/zz_generated.deepcopy.go over a store of memory cells with
      pointers, slices and maps; elsewhere values are immutable, which a copy that shares nothing
      justifies.
    - [Regex], [Schema]: the validation markers, CEL rules and defaults of aiworkload_types.go, which
      the API server enforces before the controller reads a workload and when it writes a status.

    Specifications.
    - [Contract]: the calls a reconciliation may issue ([event_ok]) and what it assumes of their
      answers ([api_contract]), given what is known of the objects in them ([knowledge]).
    - [Cluster]: an abstract API server for the child objects; [served] is one call against it,
      [serves] a history.  [ClusterReference] is an executable instance.

    Theorems.
    - [Safety], [Gating], [ReconcileTheorems]: a reconciliation calls only what the contract permits,
      writes no child before the gates passed, never panics, terminates, ends in one of few ways,
      and shows users only texts of the source.
    - [EngineTheorems], [Ordering]: the engine writes only owned objects, keeps their identity, and
      writes in dependency order.
    - [Convergence]: against the abstract cluster a pass without an error establishes every intent
      and the next one writes nothing, and no pass changes what is not its own.
    - [Quiescence], [Settling]: what the stages of a pass leave in the stored status, and that a whole
      further pass over what the first one left does nothing.
    - [Repeats]: the report of a failure the status already shows is silent.
    - [Bringup]: a pass that meets no failure ends without one, and every child is as the plan wants it.
    - [Admission]: the schema and the controller agree: on plans, on defaults, on statuses; and which
      existing children the mutations accept ([fits]).
    - [PlanTheorems]: what [Build] makes of a specification, child by child.
    - [StatusTheorems]: assessment, status patches, failure reports.
    - [GateTheorems]: the external Secrets, their revision, and the plan they feed.
    - [Watching]: every relevant change brings the workload back, and a route is polled.
    - [Informer], [ControlLoop]: the whole loop as a transition system: API server, informers whose
      copies lag behind, watch events on their way, work queue, other clients, restarts, and the
      calls of a reconciliation one by one; when it is at rest, every typed child is as the plan of
      the current specification and Secret versions wants it.
    - [Budget]: how many API requests a pass may make, and that competing writers can make it so many.
    - [OperatorTheorems]: discovery, Secret events, metrics, options, startup and exit.

    ** Conventions

    - A nil and an empty slice are the same list: the code tells them apart nowhere, and the one
      comparison that sees the objects, [Semantic.DeepEqual], identifies them.  A nil map is [None].
    - The fields of a Kubernetes struct that no line of the code names travel together in its
      [_other] field; a mutation leaves them alone.
    - An answer of the API server holds quantities as they were sent: the canonical form it may
      store is the same amount, which the semantic comparison identifies.
    - A nil [*unstructured.Unstructured] is not a value of the model: [childOrder] reads its group,
      version and kind, which panics, before [ValidatePlan] tests the pointer for nil.
    - A program's event about the clock, an event record or a metric changes no state the theorems
      speak of.

    ** Not modelled

    - The scheme, the manager, the clients and the health endpoints of controller-runtime: what the
      code asks of them is an event or an answer.  Its cache and work queue are modelled by what
      they promise, in [ControlLoop] only; elsewhere a read may answer anything.
    - The log sink, the parsing of command-line flags (its results are given), and signals.
    - The demonstration server (examples/demo-app), tests, manifests, scripts and documents.  *)
From stdpp Require Export base tactics option list gmap strings pretty.
From Stdlib Require Export ZArith Ascii Sorted.

Create HintDb awcp discriminated.
Create Rewrite HintDb awcp.
Create Rewrite HintDb awcp_bool.

Declare Scope awcp_scope.
Delimit Scope awcp_scope with awcp.

(** ** Go values *)

(** A Go map read with [m[k]]: the zero value of the element type when the key is absent. *)
Definition map_read {V} (zero : V) (m : gmap string V) (k : string) : V :=
  default zero (m !! k).

(** A nil-able Go map: [None] is the nil map, which reads like an empty one. *)
Abbreviation nilmap V := (option (gmap string V)) (only parsing).

Definition map_of {V} (m : nilmap V) : gmap string V := default ∅ m.

(** ** Generic lemmas on options and lists *)

Lemma lookup_union_Some_l' {V} (m1 m2 : gmap string V) k v :
  m1 !! k = Some v → (m1 ∪ m2) !! k = Some v.
Proof. intros H. rewrite lookup_union, H. by destruct (m2 !! k). Qed.

Lemma lookup_union_None_l {V} (m1 m2 : gmap string V) k :
  m1 !! k = None → (m1 ∪ m2) !! k = m2 !! k.
Proof. intros H. rewrite lookup_union, H. by destruct (m2 !! k). Qed.

(** Index of the first element a Go [for i := range l { if f(l[i]) { break } }] loop stops at. *)
Fixpoint first_index {A} (f : A → bool) (l : list A) : option nat :=
  match l with
  | [] => None
  | x :: l' => if f x then Some 0%nat else S <$> first_index f l'
  end.

(** The element the same loop stops at. *)
Fixpoint first_match {A} (f : A → bool) (l : list A) : option A :=
  match l with
  | [] => None
  | x :: l' => if f x then Some x else first_match f l'
  end.

Lemma first_match_Some {A} (f : A → bool) l x :
  first_match f l = Some x → x ∈ l ∧ f x = true.
Proof.
  induction l as [|y l IHl]; simpl; [done|].
  destruct (f y) eqn:E; intros H; [simplify_eq; set_solver|].
  destruct (IHl H); set_solver.
Qed.

Lemma first_match_None {A} (f : A → bool) l :
  first_match f l = None ↔ ∀ x, x ∈ l → f x = false.
Proof.
  induction l as [|y l IHl]; simpl; [set_solver|].
  destruct (f y) eqn:E; split.
  - done.
  - intros H. specialize (H y). rewrite H in E; set_solver.
  - intros H x. rewrite elem_of_cons. intros [->|?]; [done|]. by apply IHl.
  - intros H. apply IHl. set_solver.
Qed.

Lemma first_index_Some {A} (f : A → bool) l i :
  first_index f l = Some i →
  ∃ x, l !! i = Some x ∧ f x = true ∧ first_match f l = Some x.
Proof.
  revert i. induction l as [|y l IHl]; intros i; simpl; [done|].
  destruct (f y) eqn:E; intros H; simplify_eq; [by exists y|].
  destruct (first_index f l) as [j|]; simplify_eq/=.
  destruct (IHl j eq_refl) as (x&?&?&?). by exists x.
Qed.

Lemma first_index_None {A} (f : A → bool) l :
  first_index f l = None ↔ ∀ x, x ∈ l → f x = false.
Proof.
  rewrite <-first_match_None.
  induction l as [|y l IHl]; simpl; [done|].
  destruct (f y); [done|]. rewrite <-IHl. by destruct (first_index f l).
Qed.

(** Boolean tests of the code reflected in [Prop]. *)
#[export] Hint Rewrite andb_true_iff orb_true_iff negb_true_iff negb_false_iff
  Z.ltb_lt Z.leb_le Z.eqb_eq bool_decide_eq_true bool_decide_eq_false : awcp_bool.

Ltac reflect_bool := repeat (progress autorewrite with awcp_bool in * ).

(** Splits every [match] of the goal or of a named hypothesis, closing absurd branches. *)
Ltac split_matches :=
  repeat (case_match; simplify_eq/=; try done).
