(* ===== verification/Errors.v ===== *)
(** * Go error values

    The error values of the controller ([internal/resource], [internal/controller]) with Go's
    wrapping: sentinels compared by identity with [errors.Is], the three curated
    configuration errors found with [errors.As], [fmt.Errorf] wrapping with the verb %w,
    [safeRetry], and the errors the API client returns.  [res] is the outcome of a pure Go
    function that may return an error or panic. *)
From S2P Require Import Prelude.

(** ** Error values *)

(** Package-level [errors.New] values, compared by identity. *)
Inductive sentinel :=
  | ErrOwnershipConflict
  | ErrInvalidConfiguration
  | ErrChildDeleting
  | ErrImmutableSelector
  | ErrImmutableServiceAllocation
  | ErrSecretNotFound.

(** The error an API client call returns: the reason of its [metav1.Status] and the text
    its [Error] method gives. *)
Record StatusError := { status_reason : string; status_text : string }.

Inductive error :=
  | Sentinel (s : sentinel)
  | TenantConfigurationError (reason message : string)
  | ExternalSecretConfigurationError (reason message : string)
  | ExposureConfigurationError (reason message : string)
  | APIError (e : StatusError)
  | NewError (text : string)
  | Errorf (prefix : string) (cause : error)
  | SafeRetry (cause : error) (category : string).

(** [ErrInvalidPlan = resource.ErrInvalidConfiguration]: one value under two names. *)
Definition ErrInvalidPlan : sentinel := ErrInvalidConfiguration.

#[export] Instance sentinel_eq_dec : EqDecision sentinel.
Proof. solve_decision. Defined.

#[export] Instance StatusError_eq_dec : EqDecision StatusError.
Proof. solve_decision. Defined.

#[export] Instance error_eq_dec : EqDecision error.
Proof. solve_decision. Defined.

(** The text of each sentinel, as passed to [errors.New]. *)
Definition sentinel_text (s : sentinel) : string :=
  match s with
  | ErrOwnershipConflict => "ResourceOwnershipConflict"
  | ErrInvalidConfiguration => "InvalidConfiguration"
  | ErrChildDeleting => "owned child is still deleting"
  | ErrImmutableSelector => "owned Deployment has an incompatible immutable selector"
  | ErrImmutableServiceAllocation => "owned Service has an incompatible immutable cluster allocation"
  | ErrSecretNotFound => "one or more referenced Secrets are unavailable"
  end.

(** [err.Error()] *)
Fixpoint Error (e : error) : string :=
  match e with
  | Sentinel s => sentinel_text s
  | TenantConfigurationError reason _ => reason
  | ExternalSecretConfigurationError reason _ => reason
  | ExposureConfigurationError reason _ => reason
  | APIError a => status_text a
  | NewError t => t
  | Errorf p c => p +:+ ": " +:+ Error c
  | SafeRetry _ category => "reconciliation failed: " +:+ category
  end.

(** [errors.Unwrap] *)
Definition Unwrap (e : error) : option error :=
  match e with
  | Errorf _ c => Some c
  | SafeRetry c _ => Some c
  | _ => None
  end.

(** [errors.Is(e, target)] for a sentinel target: some error of the chain is the target. *)
Fixpoint errors_Is (e : error) (target : sentinel) : bool :=
  match e with
  | Sentinel s => bool_decide (s = target)
  | Errorf _ c | SafeRetry c _ => errors_Is c target
  | _ => false
  end.

(** [errors.As(e, &target)] for the three curated types: the first error of the chain of that
    type, as its reason and message. *)
Fixpoint errors_As_Tenant (e : error) : option (string * string) :=
  match e with
  | TenantConfigurationError reason message => Some (reason, message)
  | Errorf _ c | SafeRetry c _ => errors_As_Tenant c
  | _ => None
  end.

Fixpoint errors_As_ExternalSecret (e : error) : option (string * string) :=
  match e with
  | ExternalSecretConfigurationError reason message => Some (reason, message)
  | Errorf _ c | SafeRetry c _ => errors_As_ExternalSecret c
  | _ => None
  end.

Fixpoint errors_As_Exposure (e : error) : option (string * string) :=
  match e with
  | ExposureConfigurationError reason message => Some (reason, message)
  | Errorf _ c | SafeRetry c _ => errors_As_Exposure c
  | _ => None
  end.

(** The last error of the wrapping chain. *)
Fixpoint root_cause (e : error) : error :=
  match e with
  | Errorf _ c | SafeRetry c _ => root_cause c
  | _ => e
  end.

(** ** Outcomes of pure Go functions *)

(** A function that returns [(value, error)] and may panic on a nil dereference. *)
Inductive res (A : Type) :=
  | Ok (a : A)
  | Err (e : error)
  | Panic.
Arguments Ok {A} a.
Arguments Err {A} e.
Arguments Panic {A}.

#[export] Instance res_ret : MRet res := λ _ a, Ok a.

#[export] Instance res_bind : MBind res := λ _ _ f m,
  match m with
  | Ok a => f a
  | Err e => Err e
  | Panic => Panic
  end.

#[export] Instance res_fmap : FMap res := λ _ _ f m,
  match m with
  | Ok a => Ok (f a)
  | Err e => Err e
  | Panic => Panic
  end.

(** Reading through a pointer: a nil pointer panics. *)
Definition deref {A} (p : option A) : res A :=
  match p with
  | Some a => Ok a
  | None => Panic
  end.

(** [return nil, ErrInvalidConfiguration] *)
Definition invalid {A} : res A := Err (Sentinel ErrInvalidConfiguration).

Definition is_Ok {A} (m : res A) : Prop := ∃ a, m = Ok a.

Definition no_panic {A} (m : res A) : Prop := m ≠ Panic.

(** It fails with an [errors.New] value only: a sentinel of the package, or one made on the spot. *)
Definition local_errors {A} (m : res A) : Prop :=
  match m with
  | Err (Sentinel _) | Err (NewError _) | Ok _ | Panic => True
  | Err _ => False
  end.

(** ** Lemmas *)

Lemma errors_Is_root e s : errors_Is e s = true ↔ root_cause e = Sentinel s.
Proof.
  induction e; simpl; try (split; [done|intros; simplify_eq]); try done.
  rewrite bool_decide_eq_true. split; [by intros -> | by intros [= ->]].
Qed.

Lemma errors_As_Tenant_root e r m :
  errors_As_Tenant e = Some (r, m) ↔ root_cause e = TenantConfigurationError r m.
Proof. induction e; simpl; naive_solver. Qed.

Lemma errors_As_ExternalSecret_root e r m :
  errors_As_ExternalSecret e = Some (r, m) ↔ root_cause e = ExternalSecretConfigurationError r m.
Proof. induction e; simpl; naive_solver. Qed.

Lemma errors_As_Exposure_root e r m :
  errors_As_Exposure e = Some (r, m) ↔ root_cause e = ExposureConfigurationError r m.
Proof. induction e; simpl; naive_solver. Qed.

Lemma res_bind_Ok {A B} (m : res A) (f : A → res B) b :
  m ≫= f = Ok b ↔ ∃ a, m = Ok a ∧ f a = Ok b.
Proof. destruct m; unfold mbind; simpl; naive_solver. Qed.

Lemma res_bind_no_panic {A B} (m : res A) (f : A → res B) :
  no_panic m → (∀ a, m = Ok a → no_panic (f a)) → no_panic (m ≫= f).
Proof. unfold no_panic. destruct m; unfold mbind; simpl; naive_solver. Qed.

Lemma no_panic_Ok {A} (a : A) : no_panic (Ok a).
Proof. done. Qed.

Lemma no_panic_Err {A} (e : error) : no_panic (@Err A e).
Proof. done. Qed.

Lemma local_errors_bind {A B} (m : res A) (f : A → res B) :
  local_errors m → (∀ a, m = Ok a → local_errors (f a)) → local_errors (m ≫= f).
Proof. destruct m; unfold mbind; simpl; auto. Qed.

Lemma local_errors_deref {A} (o : option A) : local_errors (deref o).
Proof. by destruct o. Qed.

Lemma local_errors_Ok {A} (a : A) : local_errors (Ok a).
Proof. done. Qed.

Lemma local_errors_invalid {A} : local_errors (@invalid A).
Proof. done. Qed.

#[export] Hint Resolve local_errors_Ok local_errors_invalid no_panic_Ok no_panic_Err local_errors_bind local_errors_deref : awcp.
#[export] Hint Resolve res_bind_no_panic : awcp.

(** Peels successful binds off a hypothesis. *)
Ltac inv_Ok H :=
  repeat match type of H with
  | (_ ≫= _) = Ok _ => apply res_bind_Ok in H; destruct H as (? & ? & H)
  end.
