(* ===== verification/GoStd.v ===== *)
(** * The Go standard library the controller uses

    Byte strings ([strings], [fmt]), [sort.SliceStable], and SHA-256 ([crypto/sha256]), as
    executable functions.  Go strings are byte sequences, so Rocq's [string] (a list of
    8-bit characters) is used for them directly. *)
From S2P Require Import Prelude.

(** ** strings *)

(** [s[:n]] for [n <= len(s)], [s] itself for a larger [n]. *)
Fixpoint take_bytes (n : nat) (s : string) : string :=
  match n, s with
  | S n', String a s' => String a (take_bytes n' s')
  | _, _ => ""
  end.

(** [strings.ReplaceAll(s, old, new)] for one-byte [old] and [new]. *)
Fixpoint ReplaceAll (s : string) (old new : ascii) : string :=
  match s with
  | "" => ""
  | String a s' => String (if bool_decide (a = old) then new else a) (ReplaceAll s' old new)
  end.

(** [strings.TrimRight(s, c)] for a one-byte cutset. *)
Fixpoint TrimRight (s : string) (c : ascii) : string :=
  match s with
  | "" => ""
  | String a s' =>
      match TrimRight s' c with
      | "" => if bool_decide (a = c) then "" else String a ""
      | t => String a t
      end
  end.

(** [strings.Split(s, sep)] for a one-byte separator: never empty. *)
Fixpoint Split (s : string) (sep : ascii) : list string :=
  match s with
  | "" => [""]
  | String a s' =>
      if bool_decide (a = sep) then "" :: Split s' sep
      else match Split s' sep with
           | [] => [String a ""]
           | w :: ws => String a w :: ws
           end
  end.

(** [strings.Join(ws, sep)] for a one-byte separator. *)
Fixpoint Join (ws : list string) (sep : ascii) : string :=
  match ws with
  | [] => ""
  | [w] => w
  | w :: ws' => w +:+ String sep (Join ws' sep)
  end.

(** [strings.HasPrefix] *)
Fixpoint HasPrefix (s prefix : string) : bool :=
  match prefix, s with
  | "", _ => true
  | String a p, String b t => bool_decide (a = b) && HasPrefix t p
  | _, "" => false
  end.

(** [strings.Contains] *)
Fixpoint Contains (s substr : string) : bool :=
  HasPrefix s substr ||
  match s with
  | "" => false
  | String _ s' => Contains s' substr
  end.

(** [strings.ToLower] on bytes.  Its only use searches the result for a text without [i] or
    [k], the two ASCII letters some non-ASCII rune lowers to. *)
Definition lower_byte (a : ascii) : ascii :=
  let n := N_of_ascii a in
  if (65 <=? n)%N && (n <=? 90)%N then ascii_of_N (n + 32) else a.

Fixpoint ToLower (s : string) : string :=
  match s with
  | "" => ""
  | String a s' => String (lower_byte a) (ToLower s')
  end.

(** The bytes of a string, and the predicate "every byte satisfies f". *)
Definition bytes (s : string) : list N := N_of_ascii <$> String.list_ascii_of_string s.

Fixpoint all_bytes (f : ascii → bool) (s : string) : bool :=
  match s with
  | "" => true
  | String a s' => f a && all_bytes f s'
  end.

(** ** fmt *)

(** [%x] of one byte, lower-case. *)
Definition hex_digit (n : N) : ascii :=
  if (n <? 10)%N then ascii_of_N (48 + n) else ascii_of_N (87 + n).

Definition hex_byte (n : N) : string :=
  String (hex_digit (n / 16 mod 16)) (String (hex_digit (n mod 16)) "").

(** [%x] of a byte slice, [hex.EncodeToString]. *)
Fixpoint hex (bs : list N) : string :=
  match bs with
  | [] => ""
  | b :: bs' => hex_byte b +:+ hex bs'
  end.

(** ** sort *)

Section SliceStable.
Context {A : Type} (less : A → A → bool).

Fixpoint stable_insert (x : A) (l : list A) : list A :=
  match l with
  | [] => [x]
  | y :: l' => if less y x then y :: stable_insert x l' else x :: y :: l'
  end.

(** [sort.SliceStable]: the stable sort by [less]. *)
Definition SliceStable (l : list A) : list A := foldr stable_insert [] l.

Lemma stable_insert_perm x l : stable_insert x l ≡ₚ x :: l.
Proof.
  induction l as [|y l IH]; simpl; [done|].
  destruct (less y x); [|done]. rewrite IH. by constructor.
Qed.

Lemma SliceStable_perm l : SliceStable l ≡ₚ l.
Proof. induction l as [|x l IH]; simpl; [done|]. by rewrite stable_insert_perm, IH. Qed.

End SliceStable.

(** Sorting by a key: the result is sorted, and a sorted list is left alone. *)
Section SliceStable_key.
Context {A : Type} (key : A → Z).
Let less (x y : A) : bool := (key x <? key y)%Z.

Lemma stable_insert_sorted x l :
  Sorted (λ a b, key a ≤ key b)%Z l → Sorted (λ a b, key a ≤ key b)%Z (stable_insert less x l).
Proof.
  induction l as [|y l IH]; simpl; intros H; [by repeat constructor|].
  unfold less. destruct (Z.ltb_spec (key y) (key x)).
  - apply Sorted_inv in H as [H1 H2]. constructor; [by apply IH|].
    destruct l as [|z l]; simpl; [constructor; lia|].
    inversion H2; subst. unfold less. destruct (key z <? key x)%Z; constructor; lia.
  - constructor; [done|]. constructor. lia.
Qed.

Lemma SliceStable_sorted l : Sorted (λ a b, key a ≤ key b)%Z (SliceStable less l).
Proof. induction l; simpl; [constructor|by apply stable_insert_sorted]. Qed.

Lemma SliceStable_id l : Sorted (λ a b, key a ≤ key b)%Z l → SliceStable less l = l.
Proof.
  induction l as [|x l IH]; simpl; [done|]. intros [Hl Hx]%Sorted_inv.
  rewrite (IH Hl). destruct l as [|y l]; simpl; [done|].
  inversion Hx; subst. unfold less. destruct (Z.ltb_spec (key y) (key x)); [lia|done].
Qed.

Lemma SliceStable_id_keys l : Sorted Z.le (key <$> l) → SliceStable less l = l.
Proof.
  intros Hk. apply SliceStable_id. induction l as [|x l IH]; [constructor|]. rewrite fmap_cons in Hk.
  apply Sorted_inv in Hk as [Hl Hx]. constructor; [by apply IH|]. destruct l; constructor. by inversion Hx.
Qed.

(** An element whose key none exceeds stays last. *)
Lemma stable_insert_snoc x l y : (key x ≤ key y)%Z → stable_insert less x (l ++ [y]) = stable_insert less x l ++ [y].
Proof.
  intros Hy. induction l as [|z l IH]; simpl.
  - unfold less. by destruct (Z.ltb_spec (key y) (key x)); [lia|].
  - destruct (less z x); [by rewrite IH|done].
Qed.

Lemma SliceStable_snoc l y : Forall (λ x, key x ≤ key y)%Z l → SliceStable less (l ++ [y]) = SliceStable less l ++ [y].
Proof.
  induction l as [|x l IH]; simpl; [done|]. intros [Hx Hl]%Forall_cons. rewrite IH by done. by apply stable_insert_snoc.
Qed.

End SliceStable_key.

(** ** Facts on byte strings *)

Lemma append_nil_l t : "" +:+ t = t.
Proof. done. Qed.

Lemma append_cons a s t : String a s +:+ t = String a (s +:+ t).
Proof. done. Qed.

Create Rewrite HintDb awcp_string.
#[export] Hint Rewrite append_nil_l append_cons : awcp_string.

Lemma length_append s t : String.length (s +:+ t) = (String.length s + String.length t)%nat.
Proof. induction s as [|a s IH]; autorewrite with awcp_string; simpl; [done|by rewrite IH]. Qed.

Lemma append_inj_r s s' t t' :
  String.length t = String.length t' → s +:+ t = s' +:+ t' → s = s' ∧ t = t'.
Proof.
  revert s'. induction s as [|a s IH]; intros [|b s'] Hl; autorewrite with awcp_string.
  - done.
  - intros ->. simpl in Hl. rewrite length_append in Hl. lia.
  - intros <-. simpl in Hl. rewrite length_append in Hl. lia.
  - intros [= -> H]. destruct (IH _ Hl H) as [-> ->]. done.
Qed.

Lemma append_inj_l s s' t t' :
  String.length s = String.length s' → s +:+ t = s' +:+ t' → s = s' ∧ t = t'.
Proof.
  revert s'. induction s as [|a s IH]; intros [|b s'] Hl; autorewrite with awcp_string;
    simplify_eq/=; [done|].
  intros [= -> H]. destruct (IH _ Hl H) as [-> ->]. done.
Qed.

Lemma all_bytes_append f s t : all_bytes f (s +:+ t) = all_bytes f s && all_bytes f t.
Proof.
  induction s as [|a s IH]; autorewrite with awcp_string; simpl; [done|]. by rewrite IH, andb_assoc.
Qed.

Lemma length_take_bytes n s : String.length (take_bytes n s) = (n `min` String.length s)%nat.
Proof. revert s. induction n as [|n IH]; intros [|a s]; simpl; [done..|]. by rewrite IH. Qed.

Lemma all_bytes_take f n s : all_bytes f s = true → all_bytes f (take_bytes n s) = true.
Proof.
  revert s. induction n as [|n IH]; intros [|a s]; simpl; [done..|].
  rewrite !andb_true_iff. naive_solver.
Qed.

Lemma length_ReplaceAll s old new : String.length (ReplaceAll s old new) = String.length s.
Proof. induction s as [|a s IH]; simpl; [done|by rewrite IH]. Qed.

Lemma all_bytes_ReplaceAll f g s old new :
  all_bytes f s = true → g new = true → (∀ a, f a = true → a ≠ old → g a = true) →
  all_bytes g (ReplaceAll s old new) = true.
Proof.
  intros Hf Hnew Hfg. induction s as [|a s IH]; simpl in *; [done|].
  apply andb_true_iff in Hf as [Ha Hs]. rewrite IH by done. case_bool_decide; simpl.
  - by rewrite Hnew.
  - by rewrite Hfg.
Qed.

Lemma TrimRight_cons a s c :
  TrimRight (String a s) c = String a (TrimRight s c) ∨
  TrimRight (String a s) c = "" ∧ a = c.
Proof. simpl. destruct (TrimRight s c); [case_bool_decide; auto|auto]. Qed.

Lemma length_TrimRight s c : (String.length (TrimRight s c) ≤ String.length s)%nat.
Proof.
  induction s as [|a s IH]; [done|].
  destruct (TrimRight_cons a s c) as [->|[-> _]]; simpl; lia.
Qed.

Lemma all_bytes_TrimRight f s c : all_bytes f s = true → all_bytes f (TrimRight s c) = true.
Proof.
  induction s as [|a s IH]; [done|]. simpl all_bytes at 1. intros [Ha Hs]%andb_true_iff.
  destruct (TrimRight_cons a s c) as [->|[-> _]]; simpl; [|done]. by rewrite Ha, IH.
Qed.

Lemma length_hex bs : String.length (hex bs) = (2 * length bs)%nat.
Proof.
  induction bs as [|b bs IH]; [done|]. simpl hex. rewrite length_append, IH. simpl. lia.
Qed.

Lemma hex_digit_inj m n : (m < 16)%N → (n < 16)%N → hex_digit m = hex_digit n → m = n.
Proof.
  intros Hm Hn H. apply (f_equal N_of_ascii) in H. unfold hex_digit in H.
  destruct (N.ltb_spec m 10), (N.ltb_spec n 10); rewrite !N_ascii_embedding in H; lia.
Qed.

Lemma hex_byte_inj m n : (m < 256)%N → (n < 256)%N → hex_byte m = hex_byte n → m = n.
Proof.
  unfold hex_byte. intros Hm Hn [= H1 H2].
  apply hex_digit_inj in H1; [|apply N.mod_lt; lia..].
  apply hex_digit_inj in H2; [|apply N.mod_lt; lia..].
  rewrite !(N.mod_small (_ / 16)) in H1 by (apply N.Div0.div_lt_upper_bound; lia).
  rewrite (N.div_mod m 16), (N.div_mod n 16) by lia. by rewrite H1, H2.
Qed.

Lemma hex_inj xs ys :
  Forall (λ n, n < 256)%N xs → Forall (λ n, n < 256)%N ys → hex xs = hex ys → xs = ys.
Proof.
  intros Hx. revert ys. induction Hx as [|x xs Hx Hxs IH]; intros [|y ys] Hy; [done..|].
  apply Forall_cons in Hy as [Hy Hys]. simpl hex. intros [H1 H2]%append_inj_l; [|done].
  apply hex_byte_inj in H1; [|done..]. subst. f_equal. by apply IH.
Qed.
