(* ===== verification/Sha256.v ===== *)
(** * SHA-256

    The hash function of [crypto/sha256] (FIPS 180-4): the compression runs over a sliding
    window of sixteen schedule words.  Words are 32-bit values in [N], bytes 8-bit. *)
From S2P Require Import Prelude GoStd.
Local Open Scope N_scope.

(** ** 32-bit words *)

Definition w32 (x : N) : N := x mod 2 ^ 32.
Definition plus32 (x y : N) : N := w32 (x + y).
Definition right_rotate (x n : N) : N := N.lor (N.shiftr x n) (w32 (N.shiftl x (32 - n))).
Definition not32 (x : N) : N := N.lxor x (2 ^ 32 - 1).

(** Words and bytes, most significant first. *)
Definition word_of_bytes (b0 b1 b2 b3 : N) : N := ((b0 * 256 + b1) * 256 + b2) * 256 + b3.

Definition bytes_of_word (x : N) : list N :=
  [x / 2 ^ 24 mod 256; x / 2 ^ 16 mod 256; x / 2 ^ 8 mod 256; x mod 256].

Definition bytes_of_length (x : N) : list N :=
  bytes_of_word (x / 2 ^ 32) ++ bytes_of_word (w32 x).

(** ** Compression *)

Record digest := Digest { hA : N; hB : N; hC : N; hD : N; hE : N; hF : N; hG : N; hH : N }.

(** FIPS 180-4 takes its constants from the primes: the first 32 bits of the fractional parts of
    the square roots of the first eight, and of the cube roots of the first sixty-four. *)
Definition is_prime (n : N) : bool :=
  forallb (λ d, negb (n mod N.of_nat d =? 0)) (seq 2 (N.to_nat n - 2)).

Definition primes : list N :=
  Eval vm_compute in List.filter is_prime (N.of_nat <$> seq 2 310).

(** The largest [x < acc + 2 ^ bits] with [x ^ e <= n], found bit by bit. *)
Fixpoint root_bits (bits : nat) (e n acc : N) : N :=
  match bits with
  | O => acc
  | S bits' =>
      let acc' := acc + 2 ^ N.of_nat bits' in
      root_bits bits' e n (if acc' ^ e <=? n then acc' else acc)
  end.

Definition fractional_root (e p : N) : N := w32 (root_bits 40 e (p * 2 ^ (32 * e)) 0).

Definition initial : digest :=
  Eval vm_compute in
  match fractional_root 2 <$> primes with
  | a :: b :: c :: d :: e :: f :: g :: h :: _ => Digest a b c d e f g h
  | _ => Digest 0 0 0 0 0 0 0 0
  end.

Definition round_constants : list N := Eval vm_compute in fractional_root 3 <$> primes.

Definition round (s : digest) (kw : N) : digest :=
  let s1 := N.lxor (N.lxor (right_rotate (hE s) 6) (right_rotate (hE s) 11)) (right_rotate (hE s) 25) in
  let ch := N.lxor (N.land (hE s) (hF s)) (N.land (not32 (hE s)) (hG s)) in
  let t1 := plus32 (plus32 (plus32 (hH s) s1) ch) kw in
  let s0 := N.lxor (N.lxor (right_rotate (hA s) 2) (right_rotate (hA s) 13)) (right_rotate (hA s) 22) in
  let maj := N.lxor (N.lxor (N.land (hA s) (hB s)) (N.land (hA s) (hC s))) (N.land (hB s) (hC s)) in
  let t2 := plus32 s0 maj in
  Digest (plus32 t1 t2) (hA s) (hB s) (hC s) (plus32 (hD s) t1) (hE s) (hF s) (hG s).

(** The word sixteen places after the head of the window. *)
Definition next_word (window : list N) : N :=
  let at_ i := nth i window 0 in
  let g0 := N.lxor (N.lxor (right_rotate (at_ 1%nat) 7) (right_rotate (at_ 1%nat) 18)) (N.shiftr (at_ 1%nat) 3) in
  let g1 := N.lxor (N.lxor (right_rotate (at_ 14%nat) 17) (right_rotate (at_ 14%nat) 19)) (N.shiftr (at_ 14%nat) 10) in
  plus32 (plus32 (plus32 g1 (at_ 9%nat)) g0) (at_ 0%nat).

Fixpoint rounds (ks : list N) (window : list N) (s : digest) : digest :=
  match ks with
  | [] => s
  | k :: ks' => rounds ks' (tail window ++ [next_word window]) (round s (plus32 k (nth 0 window 0)))
  end.

Definition compress (s : digest) (block : list N) : digest :=
  let r := rounds round_constants block s in
  Digest (plus32 (hA s) (hA r)) (plus32 (hB s) (hB r)) (plus32 (hC s) (hC r)) (plus32 (hD s) (hD r))
         (plus32 (hE s) (hE r)) (plus32 (hF s) (hF r)) (plus32 (hG s) (hG r)) (plus32 (hH s) (hH r)).

(** ** Padding and blocks *)

Definition pad (msg : list N) : list N :=
  let n := Z.of_nat (length msg) in
  msg ++ [0x80] ++ replicate (Z.to_nat ((55 - n) mod 64)) 0 ++ bytes_of_length (Z.to_N (8 * n)).

Fixpoint words (bs : list N) : list N :=
  match bs with
  | b0 :: b1 :: b2 :: b3 :: bs' => word_of_bytes b0 b1 b2 b3 :: words bs'
  | _ => []
  end.

(** Sixteen words at a time; the fuel is the number of words. *)
Fixpoint absorb (fuel : nat) (ws : list N) (s : digest) : digest :=
  match fuel, ws with
  | S fuel', _ :: _ => absorb fuel' (drop 16 ws) (compress s (take 16 ws))
  | _, _ => s
  end.

Definition output (s : digest) : list N :=
  mjoin (bytes_of_word <$> [hA s; hB s; hC s; hD s; hE s; hF s; hG s; hH s]).

(** [sha256.Sum256] *)
Definition Sum256 (msg : list N) : list N :=
  let ws := words (pad msg) in
  output (absorb (length ws) ws initial).

#[global] Arguments Sum256 : simpl never.

(** ** Facts *)

Lemma length_Sum256 msg : length (Sum256 msg) = 32%nat.
Proof. done. Qed.

(** FIPS 180-4 examples: the empty message and a two-block message. *)
Example Sum256_empty :
  hex (Sum256 []) = "e3b0c44298fc1c149afbf4c8996fb92427ae41e4649b934ca495991b7852b855".
Proof. vm_compute. reflexivity. Qed.

Example Sum256_two_blocks :
  hex (Sum256 (bytes "abcdbcdecdefdefgefghfghighijhijkijkljklmklmnlmnomnopnopq")) =
  "248d6a61d20638b8e5c026930c3e6039a33ce45964ff2167f6ecedd419db06c1".
Proof. vm_compute. reflexivity. Qed.

Lemma bytes_of_word_range x : Forall (λ b, b < 256) (bytes_of_word x).
Proof. unfold bytes_of_word. repeat constructor; apply N.mod_lt; lia. Qed.

Lemma Sum256_range msg : Forall (λ b, b < 256) (Sum256 msg).
Proof.
  unfold Sum256, output. set (s := absorb _ _ _).
  change (mjoin _) with (bytes_of_word (hA s) ++ bytes_of_word (hB s) ++ bytes_of_word (hC s) ++
    bytes_of_word (hD s) ++ bytes_of_word (hE s) ++ bytes_of_word (hF s) ++ bytes_of_word (hG s) ++
    bytes_of_word (hH s) ++ []).
  rewrite !Forall_app. repeat split; auto using bytes_of_word_range.
Qed.
