(* ===== verification/Kube.v ===== *)
(** * Kubernetes objects and the libraries around them

    Part 1 declares the Kubernetes API structs as data, with the fields the controller reads or
    writes; the remaining fields of a struct, which no line of the controller names, travel in
    its [_other] field.  Part 2 declares, as classes of operations, the library functions the
    controller calls ([apimachinery], [controller-runtime], quantities); their bodies are not
    part of this repository, so they are parameters, and the law classes state the documented
    behaviour the theorems rely on. *)
From S2P Require Import Prelude Errors.

(** ** Untyped values *)

(** A Go [any] holding decoded JSON.  A [map[string]any] is its list of entries. *)
Inductive any :=
  | ANil
  | ABool (b : bool)
  | AInt (z : Z)
  | AString (s : string)
  | ASlice (l : list any)
  | AMap (m : list (string * any)).

Abbreviation gomap := (list (string * any)) (only parsing).

(** [m[k]] on a [map[string]any]: nil when absent. *)
Fixpoint any_get (m : gomap) (k : string) : any :=
  match m with
  | [] => ANil
  | (k', v) :: m' => if bool_decide (k = k') then v else any_get m' k
  end.

(** [m[k] = v] *)
Fixpoint any_set (m : gomap) (k : string) (v : any) : gomap :=
  match m with
  | [] => [(k, v)]
  | (k', v') :: m' => if bool_decide (k = k') then (k, v) :: m' else (k', v') :: any_set m' k v
  end.

(** Comparison of an interface value with a string constant. *)
Definition any_is_string (v : any) (s : string) : bool :=
  match v with
  | AString t => bool_decide (t = s)
  | _ => false
  end.

(** The type assertions [v.(map[string]any)], [v.([]any)], [v.(string)]. *)
Definition any_map (v : any) : option gomap := match v with AMap m => Some m | _ => None end.
Definition any_slice (v : any) : option (list any) := match v with ASlice l => Some l | _ => None end.
Definition any_string (v : any) : option string := match v with AString s => Some s | _ => None end.

(** Fields of an API struct that the controller does not name. *)
Abbreviation others := (list (string * any)) (only parsing).

(** ** metav1 *)

(** [metav1.Time], as nanoseconds. *)
Abbreviation Time := Z (only parsing).

Record OwnerReference := {
  or_APIVersion : string;
  or_Kind : string;
  or_Name : string;
  or_UID : string;
  or_Controller : option bool;
  or_BlockOwnerDeletion : option bool
}.

Record ObjectMeta := {
  om_Name : string;
  om_Namespace : string;
  om_UID : string;
  om_ResourceVersion : string;
  om_Generation : Z;
  om_DeletionTimestamp : option Time;
  om_Labels : nilmap string;
  om_Annotations : nilmap string;
  om_OwnerReferences : list OwnerReference;
  om_Finalizers : list string;
  om_other : others
}.

(** [metav1.ObjectMeta{Name: name, Namespace: namespace}] *)
Definition new_meta (name namespace : string) : ObjectMeta := {|
  om_Name := name; om_Namespace := namespace; om_UID := ""; om_ResourceVersion := "";
  om_Generation := 0; om_DeletionTimestamp := None; om_Labels := None; om_Annotations := None;
  om_OwnerReferences := []; om_Finalizers := []; om_other := [] |}.

Definition set_labels (l : gmap string string) (m : ObjectMeta) : ObjectMeta := {|
  om_Name := om_Name m; om_Namespace := om_Namespace m; om_UID := om_UID m;
  om_ResourceVersion := om_ResourceVersion m; om_Generation := om_Generation m;
  om_DeletionTimestamp := om_DeletionTimestamp m; om_Labels := Some l;
  om_Annotations := om_Annotations m; om_OwnerReferences := om_OwnerReferences m;
  om_Finalizers := om_Finalizers m; om_other := om_other m |}.

Definition set_annotations (a : gmap string string) (m : ObjectMeta) : ObjectMeta := {|
  om_Name := om_Name m; om_Namespace := om_Namespace m; om_UID := om_UID m;
  om_ResourceVersion := om_ResourceVersion m; om_Generation := om_Generation m;
  om_DeletionTimestamp := om_DeletionTimestamp m; om_Labels := om_Labels m;
  om_Annotations := Some a; om_OwnerReferences := om_OwnerReferences m;
  om_Finalizers := om_Finalizers m; om_other := om_other m |}.

Definition set_owner_references (r : list OwnerReference) (m : ObjectMeta) : ObjectMeta := {|
  om_Name := om_Name m; om_Namespace := om_Namespace m; om_UID := om_UID m;
  om_ResourceVersion := om_ResourceVersion m; om_Generation := om_Generation m;
  om_DeletionTimestamp := om_DeletionTimestamp m; om_Labels := om_Labels m;
  om_Annotations := om_Annotations m; om_OwnerReferences := r;
  om_Finalizers := om_Finalizers m; om_other := om_other m |}.

Record LabelSelectorRequirement := { lsr_Key : string; lsr_Operator : string; lsr_Values : list string }.

Record LabelSelector := {
  ls_MatchLabels : gmap string string;
  ls_MatchExpressions : list LabelSelectorRequirement
}.

Inductive ConditionStatus := ConditionTrue | ConditionFalse | ConditionUnknown | ConditionOther (s : string).

(** The three statuses the API knows; the Go type is a string and holds any other. *)
Definition known_status (s : ConditionStatus) : bool :=
  match s with
  | ConditionOther _ => false
  | _ => true
  end.

Record Condition := {
  c_Type : string;
  c_Status : ConditionStatus;
  c_ObservedGeneration : Z;
  c_LastTransitionTime : Time;
  c_Reason : string;
  c_Message : string
}.

Record GroupVersionKind := { gvk_Group : string; gvk_Version : string; gvk_Kind : string }.

Inductive IntOrString := FromInt32 (n : Z) | FromString (s : string).

(** A [resource.Quantity], by its canonical text. *)
Record Quantity := MkQuantity { quantity_text : string }.

Abbreviation ResourceList := (option (gmap string Quantity)) (only parsing).

(** ** core/v1 *)

Record ContainerPort := {
  cp_Name : string; cp_ContainerPort : Z; cp_Protocol : string; cp_other : others }.

Record SecretEnvSource := { ses_Name : string; ses_Optional : option bool }.

Record EnvFromSource := { efs_SecretRef : option SecretEnvSource; efs_other : others }.

Record HTTPGetAction := { hg_Path : string; hg_Port : IntOrString; hg_Scheme : string; hg_other : others }.

Record Probe := {
  pr_HTTPGet : option HTTPGetAction;
  pr_InitialDelaySeconds : Z;
  pr_PeriodSeconds : Z;
  pr_TimeoutSeconds : Z;
  pr_SuccessThreshold : Z;
  pr_FailureThreshold : Z;
  pr_other : others
}.

Record SeccompProfile := { sp_Type : string; sp_other : others }.

Record Capabilities := { cap_Add : list string; cap_Drop : list string }.

Record SecurityContext := {
  sc_RunAsNonRoot : option bool;
  sc_Privileged : option bool;
  sc_AllowPrivilegeEscalation : option bool;
  sc_Capabilities : option Capabilities;
  sc_SeccompProfile : option SeccompProfile;
  sc_other : others
}.

Definition new_SecurityContext : SecurityContext := {|
  sc_RunAsNonRoot := None; sc_Privileged := None; sc_AllowPrivilegeEscalation := None;
  sc_Capabilities := None; sc_SeccompProfile := None; sc_other := [] |}.

Record PodSecurityContext := {
  psc_RunAsNonRoot : option bool;
  psc_SeccompProfile : option SeccompProfile;
  psc_other : others
}.

Definition new_PodSecurityContext : PodSecurityContext := {|
  psc_RunAsNonRoot := None; psc_SeccompProfile := None; psc_other := [] |}.

Record Container := {
  co_Name : string;
  co_Image : string;
  co_ImagePullPolicy : string;
  co_Requests : ResourceList;
  co_Limits : ResourceList;
  co_Ports : list ContainerPort;
  co_EnvFrom : list EnvFromSource;
  co_ReadinessProbe : option Probe;
  co_LivenessProbe : option Probe;
  co_SecurityContext : option SecurityContext;
  co_other : others
}.

(** [corev1.Container{Name: name}] *)
Definition new_Container (name : string) : Container := {|
  co_Name := name; co_Image := ""; co_ImagePullPolicy := ""; co_Requests := None; co_Limits := None;
  co_Ports := []; co_EnvFrom := []; co_ReadinessProbe := None; co_LivenessProbe := None;
  co_SecurityContext := None; co_other := [] |}.

Record PodSpec := {
  ps_ServiceAccountName : string;
  ps_DeprecatedServiceAccount : string;
  ps_AutomountServiceAccountToken : option bool;
  ps_SecurityContext : option PodSecurityContext;
  ps_Containers : list Container;
  ps_other : others
}.

Record PodTemplateSpec := { pt_meta : ObjectMeta; pt_Spec : PodSpec }.

Record CoreServicePort := {
  svp_Name : string; svp_Protocol : string; svp_Port : Z; svp_TargetPort : IntOrString;
  svp_other : others }.

Record Service := {
  sv_meta : ObjectMeta;
  sv_Type : string;
  sv_ClusterIP : string;
  sv_ClusterIPs : list string;
  sv_IPFamilies : list string;
  sv_IPFamilyPolicy : option string;
  sv_Selector : gmap string string;
  sv_Ports : list CoreServicePort;
  sv_other : others
}.

Record ServiceAccount := {
  sa_meta : ObjectMeta; sa_AutomountServiceAccountToken : option bool; sa_other : others }.

Record ConfigMap := { cm_meta : ObjectMeta; cm_Data : gmap string string; cm_other : others }.

(** ** apps/v1 *)

Record RollingUpdateDeployment := {
  ru_MaxUnavailable : option IntOrString; ru_MaxSurge : option IntOrString }.

Record DeploymentStrategy := { st_Type : string; st_RollingUpdate : option RollingUpdateDeployment }.

Record DeploymentCondition := {
  dc_Type : string; dc_Status : ConditionStatus; dc_Reason : string; dc_other : others }.

Record DeploymentStatus := {
  ds_ObservedGeneration : Z;
  ds_Replicas : Z;
  ds_UpdatedReplicas : Z;
  ds_ReadyReplicas : Z;
  ds_AvailableReplicas : Z;
  ds_Conditions : list DeploymentCondition;
  ds_other : others
}.

Record Deployment := {
  dp_meta : ObjectMeta;
  dp_Replicas : option Z;
  dp_Selector : option LabelSelector;
  dp_Template : PodTemplateSpec;
  dp_Strategy : DeploymentStrategy;
  dp_MinReadySeconds : Z;
  dp_Paused : bool;
  dp_ProgressDeadlineSeconds : option Z;
  dp_other : others;
  dp_Status : DeploymentStatus
}.

(** ** networking/v1 *)

Record NetworkPolicyPort := { npp_Protocol : option string; npp_Port : option IntOrString; npp_other : others }.
Record NetworkPolicyPeer := { npe_PodSelector : option LabelSelector; npe_other : others }.
Record NetworkPolicyIngressRule := { npr_From : list NetworkPolicyPeer; npr_Ports : list NetworkPolicyPort }.

Record NetworkPolicySpec := {
  nps_PodSelector : LabelSelector;
  nps_PolicyTypes : list string;
  nps_Ingress : list NetworkPolicyIngressRule;
  nps_other : others
}.

Record NetworkPolicy := { np_meta : ObjectMeta; np_Spec : NetworkPolicySpec; np_other : others }.

(** ** autoscaling/v2 *)

Record CrossVersionObjectReference := { cv_APIVersion : string; cv_Kind : string; cv_Name : string }.

Record MetricTarget := {
  mt_Type : string;
  mt_Value : option Quantity;
  mt_AverageValue : option Quantity;
  mt_AverageUtilization : option Z
}.

Record MetricIdentifier := { mi_Name : string; mi_other : others }.

(** The union [autoscalingv2.MetricSpec], with the source kinds the controller builds. *)
Inductive MetricSpec :=
  | ResourceMetric (name : string) (target : MetricTarget)
  | PodsMetric (metric : MetricIdentifier) (target : MetricTarget)
  | ExternalMetric (metric : MetricIdentifier) (target : MetricTarget)
  | OtherMetric (m : others).

Record HPAScalingRules := { sr_StabilizationWindowSeconds : option Z; sr_other : others }.
Record HPABehavior := { hb_ScaleDown : option HPAScalingRules; hb_ScaleUp : option HPAScalingRules }.
Record HPACondition := { hc_Type : string; hc_Status : ConditionStatus; hc_other : others }.

Record HorizontalPodAutoscaler := {
  hpa_meta : ObjectMeta;
  hpa_ScaleTargetRef : CrossVersionObjectReference;
  hpa_MinReplicas : option Z;
  hpa_MaxReplicas : Z;
  hpa_Metrics : list MetricSpec;
  hpa_Behavior : option HPABehavior;
  hpa_Conditions : list HPACondition;
  hpa_other : others
}.

(** ** policy/v1 *)

Record PodDisruptionBudget := {
  pdb_meta : ObjectMeta;
  pdb_Selector : option LabelSelector;
  pdb_MinAvailable : option IntOrString;
  pdb_MaxUnavailable : option IntOrString;
  pdb_other : others
}.

(** ** unstructured *)

(** An [unstructured.Unstructured]: its kind, its metadata, and its other top-level fields. *)
Record Unstructured := { un_GVK : GroupVersionKind; un_meta : ObjectMeta; un_Object : gomap }.

(** ** Objects *)

(** The dynamic types a [client.Object] has in the controller's type switches; [OOther] is any
    type outside them. *)
Inductive Object :=
  | OServiceAccount (o : ServiceAccount)
  | ODeployment (o : Deployment)
  | OService (o : Service)
  | ONetworkPolicy (o : NetworkPolicy)
  | OHorizontalPodAutoscaler (o : HorizontalPodAutoscaler)
  | OPodDisruptionBudget (o : PodDisruptionBudget)
  | OUnstructured (o : Unstructured)
  | OOther (m : ObjectMeta).

Inductive TypedKind :=
  | KServiceAccount | KDeployment | KService | KNetworkPolicy
  | KHorizontalPodAutoscaler | KPodDisruptionBudget.

(** An interface value holding a pointer: the nil interface, a nil pointer of one of the typed
    kinds, or a pointer to an object. *)
Inductive ObjectPtr :=
  | NilInterface
  | NilPointer (k : TypedKind)
  | Pointer (o : Object).

(** The [metav1.Object] accessors. *)
Definition obj_meta (o : Object) : ObjectMeta :=
  match o with
  | OServiceAccount o => sa_meta o
  | ODeployment o => dp_meta o
  | OService o => sv_meta o
  | ONetworkPolicy o => np_meta o
  | OHorizontalPodAutoscaler o => hpa_meta o
  | OPodDisruptionBudget o => pdb_meta o
  | OUnstructured o => un_meta o
  | OOther m => m
  end.

Definition with_sa_meta (m : ObjectMeta) (o : ServiceAccount) : ServiceAccount := {|
  sa_meta := m; sa_AutomountServiceAccountToken := sa_AutomountServiceAccountToken o;
  sa_other := sa_other o |}.

Definition with_dp_meta (m : ObjectMeta) (o : Deployment) : Deployment := {|
  dp_meta := m; dp_Replicas := dp_Replicas o; dp_Selector := dp_Selector o;
  dp_Template := dp_Template o; dp_Strategy := dp_Strategy o;
  dp_MinReadySeconds := dp_MinReadySeconds o; dp_Paused := dp_Paused o;
  dp_ProgressDeadlineSeconds := dp_ProgressDeadlineSeconds o; dp_other := dp_other o;
  dp_Status := dp_Status o |}.

Definition with_sv_meta (m : ObjectMeta) (o : Service) : Service := {|
  sv_meta := m; sv_Type := sv_Type o; sv_ClusterIP := sv_ClusterIP o;
  sv_ClusterIPs := sv_ClusterIPs o; sv_IPFamilies := sv_IPFamilies o;
  sv_IPFamilyPolicy := sv_IPFamilyPolicy o; sv_Selector := sv_Selector o;
  sv_Ports := sv_Ports o; sv_other := sv_other o |}.

Definition with_np_meta (m : ObjectMeta) (o : NetworkPolicy) : NetworkPolicy :=
  {| np_meta := m; np_Spec := np_Spec o; np_other := np_other o |}.

Definition with_hpa_meta (m : ObjectMeta) (o : HorizontalPodAutoscaler) : HorizontalPodAutoscaler := {|
  hpa_meta := m; hpa_ScaleTargetRef := hpa_ScaleTargetRef o; hpa_MinReplicas := hpa_MinReplicas o;
  hpa_MaxReplicas := hpa_MaxReplicas o; hpa_Metrics := hpa_Metrics o;
  hpa_Behavior := hpa_Behavior o; hpa_Conditions := hpa_Conditions o; hpa_other := hpa_other o |}.

Definition with_pdb_meta (m : ObjectMeta) (o : PodDisruptionBudget) : PodDisruptionBudget := {|
  pdb_meta := m; pdb_Selector := pdb_Selector o; pdb_MinAvailable := pdb_MinAvailable o;
  pdb_MaxUnavailable := pdb_MaxUnavailable o; pdb_other := pdb_other o |}.

Definition with_un_meta (m : ObjectMeta) (o : Unstructured) : Unstructured :=
  {| un_GVK := un_GVK o; un_meta := m; un_Object := un_Object o |}.

Definition with_meta (m : ObjectMeta) (o : Object) : Object :=
  match o with
  | OServiceAccount o => OServiceAccount (with_sa_meta m o)
  | ODeployment o => ODeployment (with_dp_meta m o)
  | OService o => OService (with_sv_meta m o)
  | ONetworkPolicy o => ONetworkPolicy (with_np_meta m o)
  | OHorizontalPodAutoscaler o => OHorizontalPodAutoscaler (with_hpa_meta m o)
  | OPodDisruptionBudget o => OPodDisruptionBudget (with_pdb_meta m o)
  | OUnstructured o => OUnstructured (with_un_meta m o)
  | OOther _ => OOther m
  end.

(** ** Library operations and their documented behaviour *)

(** [k8s.io/apimachinery/pkg/api/errors]: the reason tests. *)
Inductive status_reason_test :=
  | NotFound | AlreadyExists | Conflict | Forbidden | Timeout | ServerTimeout
  | TooManyRequests | Invalid.

Class ApiErrors := api_error_is : status_reason_test → error → bool.

Abbreviation IsNotFound := (api_error_is NotFound).
Abbreviation IsAlreadyExists := (api_error_is AlreadyExists).
Abbreviation IsConflict := (api_error_is Conflict).
Abbreviation IsForbidden := (api_error_is Forbidden).
Abbreviation IsTimeout := (api_error_is Timeout).
Abbreviation IsServerTimeout := (api_error_is ServerTimeout).
Abbreviation IsTooManyRequests := (api_error_is TooManyRequests).
Abbreviation IsInvalid := (api_error_is Invalid).

(** "It supports wrapped errors"; an error that carries no API status has no reason. *)
Class ApiErrorsLaws `{ApiErrors} : Prop := {
  api_error_is_wrapped t p e : api_error_is t (Errorf p e) = api_error_is t e;
  api_error_is_retry t e c : api_error_is t (SafeRetry e c) = api_error_is t e;
  api_error_is_sentinel t s : api_error_is t (Sentinel s) = false;
  api_error_is_tenant t r m : api_error_is t (TenantConfigurationError r m) = false;
  api_error_is_external t r m : api_error_is t (ExternalSecretConfigurationError r m) = false;
  api_error_is_exposure t r m : api_error_is t (ExposureConfigurationError r m) = false
}.

(** [resource.Quantity] *)
Class Quantities := {
  ParseQuantity : string → option Quantity;
  Quantity_Sign : Quantity → Z;
  Quantity_Cmp : Quantity → Quantity → Z
}.

Class QuantitiesLaws `{Quantities} : Prop := {
  Quantity_Cmp_refl q : Quantity_Cmp q q = 0%Z
}.

(** [metav1.Time], [metav1.GetControllerOf] and [controllerutil.SetControllerReference].  The
    last one is given the API version and kind the scheme holds for the owner, the owner's
    metadata, the [BlockOwnerDeletion] option, and the controlled object's namespace and owner
    references; it returns the new owner references, or nothing on an error. *)
Class OwnerHelpers := {
  Time_IsZero : option Time → bool;
  Time_Equal : option Time → option Time → bool;
  GetControllerOf : list OwnerReference → option OwnerReference;
  SetControllerReference :
    string → string → ObjectMeta → bool → string → list OwnerReference → option (list OwnerReference)
}.

Class OwnerHelpersLaws `{OwnerHelpers} : Prop := {
  Time_IsZero_nil : Time_IsZero None = true;
  Time_Equal_refl t : Time_Equal t t = true;
  GetControllerOf_in refs r : GetControllerOf refs = Some r → r ∈ refs ∧ or_Controller r = Some true;
  (* "sets owner as a Controller OwnerReference on controlled" *)
  SetControllerReference_controller v k owner b ns refs refs' :
    SetControllerReference v k owner b ns refs = Some refs' →
    GetControllerOf refs' = Some {| or_APIVersion := v; or_Kind := k; or_Name := om_Name owner;
      or_UID := om_UID owner; or_Controller := Some true; or_BlockOwnerDeletion := Some b |};
  (* setting the reference that is already there changes nothing *)
  SetControllerReference_idemp v k owner b ns refs refs' :
    SetControllerReference v k owner b ns refs = Some refs' →
    SetControllerReference v k owner b ns refs' = Some refs';
  (* the reference is made of the owner's name, namespace and UID *)
  SetControllerReference_owner v k owner owner' b ns refs :
    om_Name owner' = om_Name owner → om_Namespace owner' = om_Namespace owner → om_UID owner' = om_UID owner →
    SetControllerReference v k owner' b ns refs = SetControllerReference v k owner b ns refs;
  (* it fails for an owner of another namespace, or when another object is the controller *)
  SetControllerReference_defined v k owner b ns refs :
    om_Namespace owner = ns →
    (∀ r, GetControllerOf refs = Some r → or_APIVersion r = v ∧ or_Kind r = k ∧ or_Name r = om_Name owner) →
    is_Some (SetControllerReference v k owner b ns refs)
}.

(** [k8s.io/apimachinery/pkg/api/meta]: status conditions.  [SetStatusCondition] reads the clock,
    its first argument. *)
Class Conditions := {
  FindStatusCondition : list Condition → string → option Condition;
  SetStatusCondition : Time → list Condition → Condition → list Condition;
  RemoveStatusCondition : list Condition → string → list Condition;
  IsStatusConditionTrue : list Condition → string → bool
}.

(** A condition without its transition time. *)
Definition same_observation (c d : Condition) : Prop :=
  c_Type c = c_Type d ∧ c_Status c = c_Status d ∧ c_ObservedGeneration c = c_ObservedGeneration d ∧
  c_Reason c = c_Reason d ∧ c_Message c = c_Message d.

Class ConditionsLaws `{Conditions} : Prop := {
  Find_Some cs t c : FindStatusCondition cs t = Some c → c ∈ cs ∧ c_Type c = t;
  Find_None cs t : FindStatusCondition cs t = None ↔ ∀ c, c ∈ cs → c_Type c ≠ t;
  (* the first condition of the type *)
  Find_app cs ds t :
    FindStatusCondition (cs ++ ds) t =
    if FindStatusCondition cs t is Some c then Some c else FindStatusCondition ds t;
  Find_Set_same now cs c :
    ∃ d, FindStatusCondition (SetStatusCondition now cs c) (c_Type c) = Some d ∧ same_observation d c;
  Find_Set_other now cs c t :
    t ≠ c_Type c → FindStatusCondition (SetStatusCondition now cs c) t = FindStatusCondition cs t;
  (* a known type keeps its place, a new one is appended *)
  Set_types now cs c :
    c_Type <$> SetStatusCondition now cs c =
    if FindStatusCondition cs (c_Type c) is Some _ then c_Type <$> cs else (c_Type <$> cs) ++ [c_Type c];
  (* every condition of the result is an old one or the new observation *)
  Set_members now cs c d : d ∈ SetStatusCondition now cs c → same_observation d c ∨ d ∈ cs;
  (* setting what is already observed changes nothing *)
  Set_unchanged now cs c d :
    FindStatusCondition cs (c_Type c) = Some d → same_observation d c → SetStatusCondition now cs c = cs;
  Remove_members cs t d : d ∈ RemoveStatusCondition cs t ↔ d ∈ cs ∧ c_Type d ≠ t;
  (* the others keep their order *)
  Remove_sublist cs t : RemoveStatusCondition cs t `sublist_of` cs;
  Find_Remove_other cs t u :
    u ≠ t → FindStatusCondition (RemoveStatusCondition cs t) u = FindStatusCondition cs u;
  (* removing what is not there changes nothing *)
  Remove_absent cs t : FindStatusCondition cs t = None → RemoveStatusCondition cs t = cs;
  IsStatusConditionTrue_iff cs t :
    IsStatusConditionTrue cs t = true ↔
    ∃ c, FindStatusCondition cs t = Some c ∧ c_Status c = ConditionTrue
}.

(** [unstructured.NestedString], [NestedSlice] (nothing stands for a non-nil error, the boolean
    is [found]) and [SetNestedField] (the object after the call, and its error). *)
Class UnstructuredHelpers := {
  NestedString : gomap → list string → option (string * bool);
  NestedSlice : gomap → list string → option (list any * bool);
  SetNestedField : gomap → any → list string → gomap * option error
}.

Class UnstructuredHelpersLaws `{UnstructuredHelpers} : Prop := {
  (* a path of one field is an assignment to the top-level map *)
  SetNestedField_top m v k : SetNestedField m v [k] = (any_set m k v, None)
}.

(** [equality.Semantic.DeepEqual] at one type. *)
Class SemanticDeepEqual (A : Type) := DeepEqual : A → A → bool.

Class SemanticDeepEqualLaws (A : Type) `{SemanticDeepEqual A} : Prop :=
  DeepEqual_refl : ∀ a : A, DeepEqual a a = true.

(** It is the equality of the model at a type without quantities, where the model tells no empty
    slice from nil. *)
Class SemanticDeepEqualExact (A : Type) `{SemanticDeepEqual A} : Prop :=
  DeepEqual_eq : ∀ a b : A, DeepEqual a b = true → a = b.

(** ** Decidable equality *)

Fixpoint any_eqb (x y : any) : bool :=
  let fix slice_eqb (l k : list any) : bool :=
    match l, k with
    | [], [] => true
    | a :: l', b :: k' => any_eqb a b && slice_eqb l' k'
    | _, _ => false
    end in
  let fix map_eqb (l k : gomap) : bool :=
    match l, k with
    | [], [] => true
    | (i, a) :: l', (j, b) :: k' => bool_decide (i = j) && any_eqb a b && map_eqb l' k'
    | _, _ => false
    end in
  match x, y with
  | ANil, ANil => true
  | ABool a, ABool b => bool_decide (a = b)
  | AInt a, AInt b => bool_decide (a = b)
  | AString a, AString b => bool_decide (a = b)
  | ASlice l, ASlice k => slice_eqb l k
  | AMap l, AMap k => map_eqb l k
  | _, _ => false
  end.

Fixpoint any_eqb_eq (x y : any) {struct x} : any_eqb x y = true ↔ x = y.
Proof.
  destruct x as [| | | |l|m], y as [| | | |k|m']; simpl;
    rewrite ?bool_decide_eq_true; try (split; congruence).
  - revert k. induction l as [|a l IHl]; intros [|b k]; simpl; try (split; congruence).
    rewrite andb_true_iff, any_eqb_eq, IHl. split; [intros [-> [= ->]]; done|intros [= -> ->]; done].
  - revert m'. induction m as [|[i a] m IHm]; intros [|[j b] m']; simpl; try (split; congruence).
    rewrite !andb_true_iff, any_eqb_eq, IHm, bool_decide_eq_true.
    split; [intros [[-> ->] [= ->]]; done|intros [= -> -> ->]; done].
Qed.

#[export] Instance any_eq_dec : EqDecision any.
Proof. refine (λ x y, cast_if (decide (any_eqb x y = true))); by rewrite <-any_eqb_eq. Defined.

#[export] Instance OwnerReference_eq_dec : EqDecision OwnerReference.
Proof. solve_decision. Defined.
#[export] Instance ObjectMeta_eq_dec : EqDecision ObjectMeta.
Proof. solve_decision. Defined.
#[export] Instance LabelSelectorRequirement_eq_dec : EqDecision LabelSelectorRequirement.
Proof. solve_decision. Defined.
#[export] Instance LabelSelector_eq_dec : EqDecision LabelSelector.
Proof. solve_decision. Defined.
#[export] Instance ConditionStatus_eq_dec : EqDecision ConditionStatus.
Proof. solve_decision. Defined.
#[export] Instance Condition_eq_dec : EqDecision Condition.
Proof. solve_decision. Defined.
#[export] Instance GroupVersionKind_eq_dec : EqDecision GroupVersionKind.
Proof. solve_decision. Defined.
#[export] Instance IntOrString_eq_dec : EqDecision IntOrString.
Proof. solve_decision. Defined.
#[export] Instance Quantity_eq_dec : EqDecision Quantity.
Proof. solve_decision. Defined.
#[export] Instance ContainerPort_eq_dec : EqDecision ContainerPort.
Proof. solve_decision. Defined.
#[export] Instance SecretEnvSource_eq_dec : EqDecision SecretEnvSource.
Proof. solve_decision. Defined.
#[export] Instance EnvFromSource_eq_dec : EqDecision EnvFromSource.
Proof. solve_decision. Defined.
#[export] Instance HTTPGetAction_eq_dec : EqDecision HTTPGetAction.
Proof. solve_decision. Defined.
#[export] Instance Probe_eq_dec : EqDecision Probe.
Proof. solve_decision. Defined.
#[export] Instance SeccompProfile_eq_dec : EqDecision SeccompProfile.
Proof. solve_decision. Defined.
#[export] Instance Capabilities_eq_dec : EqDecision Capabilities.
Proof. solve_decision. Defined.
#[export] Instance SecurityContext_eq_dec : EqDecision SecurityContext.
Proof. solve_decision. Defined.
#[export] Instance PodSecurityContext_eq_dec : EqDecision PodSecurityContext.
Proof. solve_decision. Defined.
#[export] Instance Container_eq_dec : EqDecision Container.
Proof. solve_decision. Defined.
#[export] Instance PodSpec_eq_dec : EqDecision PodSpec.
Proof. solve_decision. Defined.
#[export] Instance PodTemplateSpec_eq_dec : EqDecision PodTemplateSpec.
Proof. solve_decision. Defined.
#[export] Instance CoreServicePort_eq_dec : EqDecision CoreServicePort.
Proof. solve_decision. Defined.
#[export] Instance Service_eq_dec : EqDecision Service.
Proof. solve_decision. Defined.
#[export] Instance ServiceAccount_eq_dec : EqDecision ServiceAccount.
Proof. solve_decision. Defined.
#[export] Instance ConfigMap_eq_dec : EqDecision ConfigMap.
Proof. solve_decision. Defined.
#[export] Instance RollingUpdateDeployment_eq_dec : EqDecision RollingUpdateDeployment.
Proof. solve_decision. Defined.
#[export] Instance DeploymentStrategy_eq_dec : EqDecision DeploymentStrategy.
Proof. solve_decision. Defined.
#[export] Instance DeploymentCondition_eq_dec : EqDecision DeploymentCondition.
Proof. solve_decision. Defined.
#[export] Instance DeploymentStatus_eq_dec : EqDecision DeploymentStatus.
Proof. solve_decision. Defined.
#[export] Instance Deployment_eq_dec : EqDecision Deployment.
Proof. solve_decision. Defined.
#[export] Instance NetworkPolicyPort_eq_dec : EqDecision NetworkPolicyPort.
Proof. solve_decision. Defined.
#[export] Instance NetworkPolicyPeer_eq_dec : EqDecision NetworkPolicyPeer.
Proof. solve_decision. Defined.
#[export] Instance NetworkPolicyIngressRule_eq_dec : EqDecision NetworkPolicyIngressRule.
Proof. solve_decision. Defined.
#[export] Instance NetworkPolicySpec_eq_dec : EqDecision NetworkPolicySpec.
Proof. solve_decision. Defined.
#[export] Instance NetworkPolicy_eq_dec : EqDecision NetworkPolicy.
Proof. solve_decision. Defined.
#[export] Instance CrossVersionObjectReference_eq_dec : EqDecision CrossVersionObjectReference.
Proof. solve_decision. Defined.
#[export] Instance MetricTarget_eq_dec : EqDecision MetricTarget.
Proof. solve_decision. Defined.
#[export] Instance MetricIdentifier_eq_dec : EqDecision MetricIdentifier.
Proof. solve_decision. Defined.
#[export] Instance MetricSpec_eq_dec : EqDecision MetricSpec.
Proof. solve_decision. Defined.
#[export] Instance HPAScalingRules_eq_dec : EqDecision HPAScalingRules.
Proof. solve_decision. Defined.
#[export] Instance HPABehavior_eq_dec : EqDecision HPABehavior.
Proof. solve_decision. Defined.
#[export] Instance HPACondition_eq_dec : EqDecision HPACondition.
Proof. solve_decision. Defined.
#[export] Instance HorizontalPodAutoscaler_eq_dec : EqDecision HorizontalPodAutoscaler.
Proof. solve_decision. Defined.
#[export] Instance PodDisruptionBudget_eq_dec : EqDecision PodDisruptionBudget.
Proof. solve_decision. Defined.
#[export] Instance Unstructured_eq_dec : EqDecision Unstructured.
Proof. solve_decision. Defined.
#[export] Instance Object_eq_dec : EqDecision Object.
Proof. solve_decision. Defined.
