(* ===== verification/Api.v ===== *)
(** * The AIWorkload API (api/v1alpha1)

    The Go types of the custom resource.  A pointer field is an [option]; a string field that
    JSON may omit is the empty string; int32 and int64 fields are integers. *)
From S2P Require Import Prelude Kube.

Abbreviation SecretReference := string (only parsing).
Abbreviation ResourceQuantity := string (only parsing).
Abbreviation ResourceQuantities := (gmap string ResourceQuantity) (only parsing).

Record ContainerSpec := { cs_Port : Z }.

Record ResourceRequirements := {
  rr_Requests : ResourceQuantities;
  rr_Limits : ResourceQuantities
}.

Record HTTPProbeSpec := { hp_Path : string }.

Record HealthSpec := {
  hs_Readiness : option HTTPProbeSpec;
  hs_Liveness : option HTTPProbeSpec
}.

Record ServiceSpec := { ss_Enabled : option bool; ss_Port : option Z }.

(** [AutoscalingMetricType] is a string; any other text is representable. *)
Inductive AutoscalingMetricType :=
  | AutoscalingCPU
  | AutoscalingMemory
  | AutoscalingPods
  | AutoscalingExternal
  | AutoscalingOtherType (s : string).

Record AutoscalingMetricSpec := {
  am_Type : AutoscalingMetricType;
  am_TargetUtilization : option Z;
  am_MetricName : string;
  am_TargetValue : option ResourceQuantity
}.

Record AutoscalingSpec := {
  as_Enabled : option bool;
  as_MinReplicas : option Z;
  as_MaxReplicas : option Z;
  as_Metrics : list AutoscalingMetricSpec;
  as_ScaleDownStabilizationSeconds : option Z
}.

Record AvailabilitySpec := {
  av_Enabled : option bool;
  av_MinAvailable : option Z;
  av_MaxUnavailable : option Z
}.

Inductive ExposureMode :=
  | ExposureClusterLocal
  | ExposureHTTPRoute
  | ExposureOtherMode (s : string).

Record ExposureSpec := {
  ex_Mode : ExposureMode;
  ex_Gateway : string;
  ex_SectionName : string;
  ex_Hostname : string;
  ex_Path : string
}.

Record ExternalSecretReference := {
  er_ExternalSecret : SecretReference;
  er_TargetSecret : SecretReference
}.

Record NetworkSpec := { ns_Enabled : option bool }.

Record AIWorkloadSpec := {
  sp_Environment : string;
  sp_Tenant : string;
  sp_Policy : string;
  sp_Image : string;
  sp_Replicas : option Z;
  sp_Autoscaling : option AutoscalingSpec;
  sp_Availability : option AvailabilitySpec;
  sp_Container : ContainerSpec;
  sp_Resources : option ResourceRequirements;
  sp_Health : option HealthSpec;
  sp_Service : option ServiceSpec;
  sp_Exposure : option ExposureSpec;
  sp_SecretRefs : list SecretReference;
  sp_ExternalSecrets : list ExternalSecretReference;
  sp_Network : option NetworkSpec
}.

Record AIWorkloadStatus := {
  wst_ObservedGeneration : Z;
  wst_DesiredReplicas : Z;
  wst_ReadyReplicas : Z;
  wst_Endpoint : string;
  wst_Conditions : list Condition
}.

Record AIWorkload := {
  w_meta : ObjectMeta;
  w_Spec : AIWorkloadSpec;
  w_Status : AIWorkloadStatus
}.

(** [GroupVersion.String()] and the kind [init] registers for [AIWorkload]. *)
Definition GroupVersion : string := "platform.example.io/v1alpha1".
Definition AIWorkloadKind : string := "AIWorkload".

(** Promoted metadata fields of an [AIWorkload]. *)
Definition w_Name (p : AIWorkload) : string := om_Name (w_meta p).
Definition w_Namespace (p : AIWorkload) : string := om_Namespace (w_meta p).
Definition w_UID (p : AIWorkload) : string := om_UID (w_meta p).
Definition w_Generation (p : AIWorkload) : Z := om_Generation (w_meta p).
Definition w_DeletionTimestamp (p : AIWorkload) : option Time := om_DeletionTimestamp (w_meta p).
Definition w_Conditions (p : AIWorkload) : list Condition := wst_Conditions (w_Status p).

(** Assignments to [p.Status] and its fields. *)
Definition set_Status (st : AIWorkloadStatus) (p : AIWorkload) : AIWorkload :=
  {| w_meta := w_meta p; w_Spec := w_Spec p; w_Status := st |}.

Definition with_Conditions (cs : list Condition) (st : AIWorkloadStatus) : AIWorkloadStatus := {|
  wst_ObservedGeneration := wst_ObservedGeneration st; wst_DesiredReplicas := wst_DesiredReplicas st;
  wst_ReadyReplicas := wst_ReadyReplicas st; wst_Endpoint := wst_Endpoint st;
  wst_Conditions := cs |}.

Definition set_Conditions (cs : list Condition) (p : AIWorkload) : AIWorkload :=
  set_Status (with_Conditions cs (w_Status p)) p.

(** [desired.Spec.SecretRefs = append(desired.Spec.SecretRefs, names...)] *)
Definition append_SecretRefs (names : list SecretReference) (p : AIWorkload) : AIWorkload := {|
  w_meta := w_meta p;
  w_Spec := {|
    sp_Environment := sp_Environment (w_Spec p); sp_Tenant := sp_Tenant (w_Spec p);
    sp_Policy := sp_Policy (w_Spec p); sp_Image := sp_Image (w_Spec p);
    sp_Replicas := sp_Replicas (w_Spec p); sp_Autoscaling := sp_Autoscaling (w_Spec p);
    sp_Availability := sp_Availability (w_Spec p); sp_Container := sp_Container (w_Spec p);
    sp_Resources := sp_Resources (w_Spec p); sp_Health := sp_Health (w_Spec p);
    sp_Service := sp_Service (w_Spec p); sp_Exposure := sp_Exposure (w_Spec p);
    sp_SecretRefs := sp_SecretRefs (w_Spec p) ++ names;
    sp_ExternalSecrets := sp_ExternalSecrets (w_Spec p); sp_Network := sp_Network (w_Spec p) |};
  w_Status := w_Status p |}.

#[export] Instance AIWorkloadStatus_eq_dec : EqDecision AIWorkloadStatus.
Proof. solve_decision. Defined.
