(* ===== verification/Store.v ===== *)
(** * Memory cells and deep copies

    Go values with pointers, slices and maps, for the one place where sharing matters: the deep
    copies of api/v1alpha1/zz_generated.deepcopy.go.  A store maps locations to cells; a type's
    [Layout] says which value its memory form stands for in a store, which cells it reaches, and how
    it is copied; [LayoutLaws] is what a copy promises, and the instances below compose it. *)
From S2P Require Import Prelude.

(** An address; the type says what the cell there holds. *)
Definition loc := positive.
Record ptr (T : Type) := Ptr { addr : loc }.
Arguments Ptr {_}.
Arguments addr {_}.

(** A slice of a backing array, from its start. *)
Record slice (T : Type) := Slice { sl_array : ptr (list T); sl_len : nat }.
Arguments Slice {_}.
Arguments sl_array {_}.
Arguments sl_len {_}.

(** ** Stores and the operations on them *)

Section Store.
Context {cell : Type}.

Abbreviation store := (gmap loc cell).

(** An operation on memory; [None] is a fault. *)
Definition mem (A : Type) : Type := store → option (store * A).

#[export] Instance mem_ret : MRet mem := λ A a h, Some (h, a).
#[export] Instance mem_bind : MBind mem := λ A B f m h,
  match m h with
  | Some (h', a) => f a h'
  | None => None
  end.
#[export] Instance mem_fmap : FMap mem := λ A B f m h,
  match m h with
  | Some (h', a) => Some (h', f a)
  | None => None
  end.

(** The values a cell holds. *)
Class InCell (T : Type) := {
  to_cell : T → cell;
  of_cell : cell → option T;
  of_to_cell x : of_cell (to_cell x) = Some x
}.

Definition cell_at `{InCell T} (h : store) (p : ptr T) : option T := h !! addr p ≫= of_cell.

Definition load `{InCell T} (p : ptr T) : mem T := λ h,
  match cell_at h p with
  | Some x => Some (h, x)
  | None => None
  end.

(** A fresh cell with its contents: [new], and the assignment that fills it. *)
Definition alloc `{InCell T} (x : T) : mem (ptr T) := λ h,
  let l := fresh (dom h) in Some (<[l := to_cell x]> h, Ptr l).

(** ** Layouts *)

Class Layout (T V : Type) := {
  read : store → T → option V;
  reach : store → T → list loc;
  copy : T → mem T
}.

(** What a copy of a value promises: nothing that was there is changed, the copy stands for the
    value, and its cells are new and not shared among its parts. *)
Record copied `{Layout T V} (h h' : store) (y : T) (v : V) : Prop := {
  copied_kept : h ⊆ h';
  copied_read : read h' y = Some v;
  copied_new l : l ∈ reach h' y → h !! l = None;
  copied_unshared : NoDup (reach h' y)
}.

Class LayoutLaws T V `{Layout T V} : Prop := {
  read_local h h' x v :
    read h x = Some v → (∀ l, l ∈ reach h x → h' !! l = h !! l) → read h' x = Some v ∧ reach h' x = reach h x;
  reach_allocated h x v l : read h x = Some v → l ∈ reach h x → is_Some (h !! l);
  copy_copied h x v : read h x = Some v → ∃ h' y, copy x h = Some (h', y) ∧ copied h h' y v
}.

Section Laws.
Context `{LayoutLaws T V}.

Lemma read_grows h h' x v : read h x = Some v → h ⊆ h' → read h' x = Some v ∧ reach h' x = reach h x.
Proof.
  intros Hr Hs. apply read_local; [done|]. intros l Hl.
  destruct (reach_allocated _ _ _ _ Hr Hl) as [c Hc]. rewrite Hc. by eapply lookup_weaken.
Qed.

End Laws.

(** ** Parts without pointers *)

Class Flat (T : Type) := {}.

#[export] Instance flat_layout `{Flat T} : Layout T T := {|
  read h x := Some x; reach h x := []; copy := mret |}.

#[export] Instance flat_laws `{Flat T} : LayoutLaws T T.
Proof.
  split; [done|by intros ???? _ ?%elem_of_nil|].
  intros h x v [= ->]. exists h, v. split; [done|]. split; [done|done|by intros ? ?%elem_of_nil|constructor].
Qed.

(** ** Maps: a reference to the entries, copied one by one *)

Definition copy_entries (m : gmap string string) : gmap string string :=
  map_fold (λ key val out, <[key := val]> out) ∅ m.

Lemma copy_entries_eq m : copy_entries m = m.
Proof. apply (map_fold_weak_ind (λ out m, out = m)); [done|]. by intros k x m' out Hk ->. Qed.

#[export] Instance entries_layout : Layout (gmap string string) (gmap string string) := {|
  read h m := Some m; reach h m := []; copy m := mret (copy_entries m) |}.

#[export] Instance entries_laws : LayoutLaws (gmap string string) (gmap string string).
Proof.
  split; [done|by intros ???? _ ?%elem_of_nil|].
  intros h x v [= ->]. exists h, v. simpl. rewrite copy_entries_eq.
  split; [done|]. split; [done|done|by intros ? ?%elem_of_nil|constructor].
Qed.

(** ** Several parts, one after the other *)

#[export] Instance pair_layout `{Layout T1 V1, Layout T2 V2} : Layout (T1 * T2) (V1 * V2) := {|
  read h x := v1 ← read h x.1; v2 ← read h x.2; Some (v1, v2);
  reach h x := reach h x.1 ++ reach h x.2;
  copy x := y1 ← copy x.1; y2 ← copy x.2; mret (y1, y2) |}.

Lemma copied_pair `{LayoutLaws T1 V1, Layout T2 V2} h h1 h2 (y1 : T1) (y2 : T2) (v1 : V1) (v2 : V2) :
  copied h h1 y1 v1 → copied h1 h2 y2 v2 → copied h h2 (y1, y2) (v1, v2).
Proof.
  intros C1 C2. destruct (read_grows h1 h2 y1 v1 (copied_read _ _ _ _ C1) (copied_kept _ _ _ _ C2)) as [Hr1 He1].
  split; simpl.
  - etrans; [apply (copied_kept _ _ _ _ C1)|apply (copied_kept _ _ _ _ C2)].
  - by rewrite Hr1, (copied_read _ _ _ _ C2).
  - rewrite He1. intros l [Hl|Hl]%elem_of_app; [by apply (copied_new _ _ _ _ C1)|].
    eapply lookup_weaken_None; [by apply (copied_new _ _ _ _ C2)|apply (copied_kept _ _ _ _ C1)].
  - rewrite He1. apply NoDup_app. split; [apply (copied_unshared _ _ _ _ C1)|].
    split; [|apply (copied_unshared _ _ _ _ C2)]. intros l Hl Hl'%(copied_new _ _ _ _ C2).
    destruct (reach_allocated _ _ _ _ (copied_read _ _ _ _ C1) Hl) as [c Hc]. congruence.
Qed.

#[export] Instance pair_laws `{LayoutLaws T1 V1, LayoutLaws T2 V2} : LayoutLaws (T1 * T2) (V1 * V2).
Proof.
  split.
  - intros h h' [x1 x2] [v1 v2]. simpl. intros (v1' & Hr1 & (v2' & Hr2 & [= -> ->])%bind_Some)%bind_Some Hl.
    destruct (read_local h h' x1 v1) as [-> ->]; [done|by intros; apply Hl; set_solver|].
    by destruct (read_local h h' x2 v2) as [-> ->]; [done|by intros; apply Hl; set_solver|].
  - intros h [x1 x2] [v1 v2] l. simpl. intros (v1' & Hr1 & (v2' & Hr2 & _)%bind_Some)%bind_Some [Hl|Hl]%elem_of_app;
      [exact (reach_allocated _ _ _ _ Hr1 Hl)|exact (reach_allocated _ _ _ _ Hr2 Hl)].
  - intros h [x1 x2] [v1 v2]. simpl. intros (v1' & Hr1 & (v2' & Hr2 & [= -> ->])%bind_Some)%bind_Some.
    destruct (copy_copied h x1 v1 Hr1) as (h1 & y1 & Hc1 & C1).
    destruct (read_grows h h1 x2 v2 Hr2 (copied_kept _ _ _ _ C1)) as [Hr2' _].
    destruct (copy_copied h1 x2 v2 Hr2') as (h2 & y2 & Hc2 & C2).
    exists h2, (y1, y2). unfold mbind, mem_bind. rewrite Hc1, Hc2. split; [done|by eapply copied_pair].
Qed.

(** The elements of an array, in order. *)
Fixpoint copy_elements `{Layout T V} (xs : list T) : mem (list T) :=
  match xs with
  | [] => mret []
  | x :: xs' => y ← copy x; ys ← copy_elements xs'; mret (y :: ys)
  end.

#[export] Instance list_layout `{Layout T V} : Layout (list T) (list V) := {|
  read h xs := mapM (read h) xs;
  reach h xs := concat (reach h <$> xs);
  copy := copy_elements |}.

Lemma copied_cons `{Layout T V} h h' (y : T) (ys : list T) (v : V) (vs : list V) :
  copied h h' (y, ys) (v, vs) → copied h h' (y :: ys) (v :: vs).
Proof.
  intros [Hk Hr Hn Hu]. split; [done| |done|done].
  apply bind_Some in Hr as (v' & Hr1 & (vs' & Hr2 & [= -> ->])%bind_Some).
  simpl in *. by rewrite Hr1, Hr2.
Qed.

#[export] Instance list_laws `{LayoutLaws T V} : LayoutLaws (list T) (list V).
Proof.
  split.
  - intros h h' xs. induction xs as [|x xs IH]; simpl; [done|].
    intros vs' (v & Hr1 & (vs & Hr2 & [= <-])%bind_Some)%bind_Some Hl.
    destruct (read_local h h' x v) as [-> ->]; [done|by intros; apply Hl; set_solver|]. simpl in IH.
    destruct (IH vs Hr2) as [Hr He]; [by intros; apply Hl, elem_of_app; right|]. by rewrite Hr; split; [|f_equal].
  - intros h xs. induction xs as [|x xs IH]; simpl; [by intros ?? _ ?%elem_of_nil|].
    intros vs' l (v & Hr1 & (vs & Hr2 & _)%bind_Some)%bind_Some [Hl|Hl]%elem_of_app;
      [exact (reach_allocated _ _ _ _ Hr1 Hl)|by eapply IH].
  - intros h xs. revert h. induction xs as [|x xs IH]; intros h vs'; simpl.
    { intros [= <-]. exists h, []. split; [done|]. split; [done|done|by intros ? ?%elem_of_nil|constructor]. }
    intros (v & Hr1 & (vs & Hr2 & [= <-])%bind_Some)%bind_Some.
    destruct (copy_copied h x v Hr1) as (h1 & y & Hc1 & C1).
    assert (read h1 xs = Some vs) as Hr2'.
    { revert Hr2. simpl. rewrite !mapM_Some. intros Hr2. eapply Forall2_impl; [exact Hr2|]. intros z u Hz.
      apply (read_grows h h1 z u Hz (copied_kept _ _ _ _ C1)). }
    destruct (IH h1 vs Hr2') as (h2 & ys & Hc2 & C2).
    exists h2, (y :: ys). unfold mbind, mem_bind. rewrite Hc1. simpl in Hc2. rewrite Hc2.
    split; [done|]. by eapply copied_cons, copied_pair.
Qed.

(** ** Pointers and slices *)

(** [out := new(T); in.DeepCopyInto(out); return out], and nil for nil. *)
Definition new_copy `{InCell T} (into : T → mem T) (p : option (ptr T)) : mem (option (ptr T)) :=
  match p with
  | None => mret None
  | Some p => x ← load p; y ← into x; q ← alloc y; mret (Some q)
  end.

#[export] Instance ptr_layout `{InCell T, Layout T V} : Layout (option (ptr T)) (option V) := {|
  read h p :=
    match p with
    | None => Some None
    | Some p => x ← cell_at h p; v ← read h x; Some (Some v)
    end;
  reach h p :=
    match p with
    | None => []
    | Some p => addr p :: from_option (reach h) [] (cell_at h p)
    end;
  copy := new_copy copy |}.

#[export] Instance slice_layout `{InCell (list T), Layout T V} : Layout (option (slice T)) (option (list V)) := {|
  read h s :=
    match s with
    | None => Some None
    | Some s => xs ← cell_at h (sl_array s); vs ← read h (take (sl_len s) xs); Some (Some vs)
    end;
  reach h s :=
    match s with
    | None => []
    | Some s => addr (sl_array s) :: from_option (λ xs, reach h (take (sl_len s) xs)) [] (cell_at h (sl_array s))
    end;
  copy s :=
    match s with
    | None => mret None
    | Some s => xs ← load (sl_array s); ys ← copy (take (sl_len s) xs); q ← alloc ys; mret (Some (Slice q (length ys)))
    end |}.

Lemma cell_at_Some `{InCell T} h (p : ptr T) x : cell_at h p = Some x → is_Some (h !! addr p).
Proof. unfold cell_at. destruct (h !! addr p); [by eexists|done]. Qed.

(** The cell [alloc] makes around a fresh copy. *)
Lemma copied_cell `{InCell T, LayoutLaws T V} h h' (y : T) v :
  copied h h' y v →
  let q := Ptr (fresh (dom h')) in let h2 := <[addr q := to_cell y]> h' in
  alloc y h' = Some (h2, q) ∧ h ⊆ h2 ∧ cell_at h2 q = Some y ∧ read h2 y = Some v ∧
  NoDup (addr q :: reach h2 y) ∧ ∀ l, l ∈ addr q :: reach h2 y → h !! l = None.
Proof.
  intros [Hk Hr Hn Hu] q h2. assert (h' !! addr q = None) as Hq by (apply not_elem_of_dom, is_fresh).
  assert (h' ⊆ h2) as Hs by (by apply insert_subseteq).
  destruct (read_grows h' h2 y v Hr Hs) as [Hr2 He]. rewrite He.
  split; [done|]. split; [by etrans|]. split; [unfold cell_at, h2; rewrite lookup_insert_eq; apply of_to_cell|].
  split; [done|]. split.
  - constructor; [|done]. intros Hl. destruct (reach_allocated _ _ _ _ Hr Hl). congruence.
  - intros l [->|Hl]%elem_of_cons; [by eapply lookup_weaken_None|by apply Hn].
Qed.

#[export] Instance ptr_laws `{InCell T, LayoutLaws T V} : LayoutLaws (option (ptr T)) (option V).
Proof.
  split.
  - intros h h' [p|] v'; [|done]. simpl. intros (x & Hp & (v & Hr & [= <-])%bind_Some)%bind_Some Hl.
    assert (cell_at h' p = Some x) as Hp'.
    { unfold cell_at in *. rewrite Hl; [done|]. by left. }
    rewrite Hp, Hp' in *. simpl in *.
    by destruct (read_local h h' x v Hr) as [-> ->]; [by intros; apply Hl; right|].
  - intros h [p|] v' l; simpl; [|by intros _ ?%elem_of_nil].
    intros (x & Hp & (v & Hr & _)%bind_Some)%bind_Some. rewrite Hp. simpl.
    intros [->|Hl]%elem_of_cons; [by eapply cell_at_Some|exact (reach_allocated _ _ _ _ Hr Hl)].
  - intros h [p|] v'; simpl.
    2: { intros [= <-]. exists h, None. split; [done|]. split; [done|done|by intros ? ?%elem_of_nil|constructor]. }
    intros (x & Hp & (v & Hr & [= <-])%bind_Some)%bind_Some.
    destruct (copy_copied h x v Hr) as (h1 & y & Hc & C).
    destruct (copied_cell _ _ _ _ C) as (Ha & Hk & Hq & Hr2 & Hu & Hn).
    eexists _, (Some _). unfold mbind, mem_bind, load. rewrite Hp, Hc, Ha. split; [done|].
    split; simpl in *; rewrite ?Hq; simpl; [done|by rewrite Hr2|done|done].
Qed.

#[export] Instance slice_laws `{InCell (list T), LayoutLaws T V} : LayoutLaws (option (slice T)) (option (list V)).
Proof.
  split.
  - intros h h' [s|] v'; [|done]. cbn [read reach slice_layout]. intros (xs & Hp & (vs & Hr & [= <-])%bind_Some)%bind_Some Hl.
    assert (cell_at h' (sl_array s) = Some xs) as Hp'.
    { unfold cell_at in *. rewrite Hl; [done|]. by left. }
    rewrite Hp, Hp' in *. cbn [mbind option_bind from_option] in *.
    destruct (read_local h h' (take (sl_len s) xs) vs Hr) as [Hr' He]; [by intros; apply Hl; right|].
    by rewrite Hr', He.
  - intros h [s|] v' l; cbn [read reach slice_layout]; [|by intros _ ?%elem_of_nil].
    intros (xs & Hp & (vs & Hr & _)%bind_Some)%bind_Some. rewrite Hp. cbn [from_option].
    intros [->|Hl]%elem_of_cons; [by eapply cell_at_Some|exact (reach_allocated _ _ _ _ Hr Hl)].
  - intros h [s|] v'; cbn [read reach copy slice_layout].
    2: { intros [= <-]. exists h, None. split; [done|]. split; [done|done|by intros ? ?%elem_of_nil|constructor]. }
    intros (xs & Hp & (vs & Hr & [= <-])%bind_Some)%bind_Some.
    destruct (copy_copied h (take (sl_len s) xs) vs Hr) as (h1 & ys & Hc & C).
    destruct (copied_cell _ _ _ _ C) as (Ha & Hk & Hq & Hr2 & Hu & Hn).
    eexists _, (Some (Slice _ (length ys))). unfold mbind, mem_bind, load. rewrite Hp, Hc, Ha. split; [done|].
    split; cbn [read reach slice_layout sl_array sl_len] in *; rewrite ?Hq; cbn [mbind option_bind from_option];
      rewrite ?firstn_all; [done|by rewrite Hr2|done|done].
Qed.

(** ** Structs

    A struct is laid out as its fields in order, and copied by the function written for it. *)
Definition struct_layout `{Layout T W} {R V} (fields : R → T) (build : W → V) (into : R → mem R) : Layout R V := {|
  read h s := build <$> read h (fields s);
  reach h s := reach h (fields s);
  copy := into |}.

Lemma struct_laws `{LayoutLaws T W} {R V} (fields : R → T) (build : W → V) (into : R → mem R) (make : T → R) :
  (∀ t, fields (make t) = t) → (∀ s h, into s h = (make <$> copy (fields s)) h) →
  @LayoutLaws R V (struct_layout fields build into).
Proof.
  intros Hm Hc. split; simpl.
  - intros h h' s v (w & Hw & ->)%fmap_Some Hl. by destruct (read_local h h' _ w Hw Hl) as [-> ->].
  - intros h s v l (w & Hw & ->)%fmap_Some Hl. exact (reach_allocated _ _ _ _ Hw Hl).
  - intros h s v (w & Hw & ->)%fmap_Some.
    destruct (copy_copied h _ w Hw) as (h' & t & Ht & [Hk Hr' Hn Hu]).
    exists h', (make t). rewrite Hc. unfold fmap, mem_fmap. rewrite Ht. split; [done|].
    split; simpl; rewrite ?Hm; [done|by rewrite Hr'|done|done].
Qed.

(** A copy function for pointers that keeps the promise. *)
Definition deep_copier `{InCell T, Layout T V} (f : option (ptr T) → mem (option (ptr T))) : Prop :=
  ∀ h p v, read h p = Some v → ∃ h' q, f p h = Some (h', q) ∧ copied h h' q v.

Lemma new_copy_deep `{InCell T, LayoutLaws T V} : deep_copier (new_copy copy).
Proof. intros h p v Hr. exact (copy_copied (T:=option (ptr T)) (V:=option V) h p v Hr). Qed.

(** Original and copy do not notice what happens to each other's cells. *)
Lemma copied_isolated `{LayoutLaws T V} h h' h2 (x y : T) v :
  read h x = Some v → copied h h' y v →
  ((∀ l, is_Some (h !! l) → h2 !! l = h' !! l) → read h2 x = Some v) ∧
  ((∀ l, h !! l = None → h2 !! l = h' !! l) → read h2 y = Some v).
Proof.
  intros Hx [Hk Hr Hn _]. split; intros Hl.
  - apply (read_local h h2 x v Hx). intros l Hl'. destruct (reach_allocated _ _ _ _ Hx Hl') as [c Hc].
    rewrite Hl, Hc by done. by eapply lookup_weaken.
  - apply (read_local h' h2 y v Hr). intros l Hl'. by apply Hl, Hn.
Qed.

End Store.

Arguments mem : clear implicits.
Arguments InCell : clear implicits.
Arguments Layout : clear implicits.
Arguments LayoutLaws _ _ _ {_}.
