(* ===== verification/DeepCopy.v ===== *)
(** * Deep copies of the API types (api/v1alpha1/zz_generated.deepcopy.go)

    The memory forms of the API types and their copies as the generated code writes them.
    [X_DeepCopyInto] takes what the receiver points to and returns what it leaves in [*out]; the
    plain assignment [*out = *in] is the part of it that the later assignments do not replace.
    [X_DeepCopy] takes the receiver itself, nil or not. *)
From S2P Require Import Prelude Kube Api Store.

(** ** Memory forms *)

Record TypeMeta := { tm_Kind : string; tm_APIVersion : string }.

Record ResourceRequirements_mem := {
  rrm_Requests : option (ptr ResourceQuantities);
  rrm_Limits : option (ptr ResourceQuantities)
}.

Record HealthSpec_mem := {
  hsm_Readiness : option (ptr HTTPProbeSpec);
  hsm_Liveness : option (ptr HTTPProbeSpec)
}.

Record ServiceSpec_mem := { ssm_Enabled : option (ptr bool); ssm_Port : option (ptr Z) }.

Record AutoscalingMetricSpec_mem := {
  amm_Type : AutoscalingMetricType;
  amm_TargetUtilization : option (ptr Z);
  amm_MetricName : string;
  amm_TargetValue : option (ptr ResourceQuantity)
}.

Record AutoscalingSpec_mem := {
  asm_Enabled : option (ptr bool);
  asm_MinReplicas : option (ptr Z);
  asm_MaxReplicas : option (ptr Z);
  asm_Metrics : option (slice AutoscalingMetricSpec_mem);
  asm_ScaleDownStabilizationSeconds : option (ptr Z)
}.

Record AvailabilitySpec_mem := {
  avm_Enabled : option (ptr bool);
  avm_MinAvailable : option (ptr Z);
  avm_MaxUnavailable : option (ptr Z)
}.

Record NetworkSpec_mem := { nsm_Enabled : option (ptr bool) }.

Record AIWorkloadSpec_mem := {
  spm_Environment : string;
  spm_Tenant : string;
  spm_Policy : string;
  spm_Image : string;
  spm_Replicas : option (ptr Z);
  spm_Autoscaling : option (ptr AutoscalingSpec_mem);
  spm_Availability : option (ptr AvailabilitySpec_mem);
  spm_Container : ContainerSpec;
  spm_Resources : option (ptr ResourceRequirements_mem);
  spm_Health : option (ptr HealthSpec_mem);
  spm_Service : option (ptr ServiceSpec_mem);
  spm_Exposure : option (ptr ExposureSpec);
  spm_SecretRefs : option (slice SecretReference);
  spm_ExternalSecrets : option (slice ExternalSecretReference);
  spm_Network : option (ptr NetworkSpec_mem)
}.

(** ** The whole object

    The memory forms of [metav1.ObjectMeta], [metav1.ListMeta] and [metav1.Condition], and their own
    copies, are apimachinery's. *)
Section DeepCopy.
Context {ObjectMeta_mem ListMeta_mem Condition_mem ListMeta : Type}.

Record AIWorkloadStatus_mem := {
  stm_ObservedGeneration : Z;
  stm_DesiredReplicas : Z;
  stm_ReadyReplicas : Z;
  stm_Endpoint : string;
  stm_Conditions : option (slice Condition_mem)
}.

Record AIWorkload_mem := {
  wm_TypeMeta : TypeMeta;
  wm_meta : ObjectMeta_mem;
  wm_Spec : AIWorkloadSpec_mem;
  wm_Status : AIWorkloadStatus_mem
}.

Record AIWorkloadList_mem := {
  lm_TypeMeta : TypeMeta;
  lm_ListMeta : ListMeta_mem;
  lm_Items : option (slice AIWorkload_mem)
}.

(** The cells, by the type of what they hold; an array is one cell. *)
Inductive cell :=
  | CBool (x : bool)
  | CInt32 (x : Z)
  | CResourceQuantity (x : ResourceQuantity)
  | CResourceQuantities (x : ResourceQuantities)
  | CContainerSpec (x : ContainerSpec)
  | CHTTPProbeSpec (x : HTTPProbeSpec)
  | CExposureSpec (x : ExposureSpec)
  | CExternalSecretReference (x : ExternalSecretReference)
  | CResourceRequirements (x : ResourceRequirements_mem)
  | CHealthSpec (x : HealthSpec_mem)
  | CServiceSpec (x : ServiceSpec_mem)
  | CAutoscalingMetricSpec (x : AutoscalingMetricSpec_mem)
  | CAutoscalingSpec (x : AutoscalingSpec_mem)
  | CAvailabilitySpec (x : AvailabilitySpec_mem)
  | CNetworkSpec (x : NetworkSpec_mem)
  | CAIWorkloadSpec (x : AIWorkloadSpec_mem)
  | CAIWorkloadStatus (x : AIWorkloadStatus_mem)
  | CAIWorkload (x : AIWorkload_mem)
  | CAIWorkloadList (x : AIWorkloadList_mem)
  | CSecretReferences (x : list SecretReference)
  | CExternalSecretReferences (x : list ExternalSecretReference)
  | CAutoscalingMetricSpecs (x : list AutoscalingMetricSpec_mem)
  | CConditions (x : list Condition_mem)
  | CAIWorkloads (x : list AIWorkload_mem).

#[export] Instance CBool_in : InCell cell bool := {| to_cell := CBool; of_cell c := match c with CBool x => Some x | _ => None end; of_to_cell x := eq_refl |}.
#[export] Instance CInt32_in : InCell cell Z := {| to_cell := CInt32; of_cell c := match c with CInt32 x => Some x | _ => None end; of_to_cell x := eq_refl |}.
#[export] Instance CResourceQuantity_in : InCell cell string := {| to_cell := CResourceQuantity; of_cell c := match c with CResourceQuantity x => Some x | _ => None end; of_to_cell x := eq_refl |}.
#[export] Instance CResourceQuantities_in : InCell cell (gmap string string) := {| to_cell := CResourceQuantities; of_cell c := match c with CResourceQuantities x => Some x | _ => None end; of_to_cell x := eq_refl |}.
#[export] Instance CContainerSpec_in : InCell cell ContainerSpec := {| to_cell := CContainerSpec; of_cell c := match c with CContainerSpec x => Some x | _ => None end; of_to_cell x := eq_refl |}.
#[export] Instance CHTTPProbeSpec_in : InCell cell HTTPProbeSpec := {| to_cell := CHTTPProbeSpec; of_cell c := match c with CHTTPProbeSpec x => Some x | _ => None end; of_to_cell x := eq_refl |}.
#[export] Instance CExposureSpec_in : InCell cell ExposureSpec := {| to_cell := CExposureSpec; of_cell c := match c with CExposureSpec x => Some x | _ => None end; of_to_cell x := eq_refl |}.
#[export] Instance CExternalSecretReference_in : InCell cell ExternalSecretReference := {| to_cell := CExternalSecretReference; of_cell c := match c with CExternalSecretReference x => Some x | _ => None end; of_to_cell x := eq_refl |}.
#[export] Instance CResourceRequirements_in : InCell cell ResourceRequirements_mem := {| to_cell := CResourceRequirements; of_cell c := match c with CResourceRequirements x => Some x | _ => None end; of_to_cell x := eq_refl |}.
#[export] Instance CHealthSpec_in : InCell cell HealthSpec_mem := {| to_cell := CHealthSpec; of_cell c := match c with CHealthSpec x => Some x | _ => None end; of_to_cell x := eq_refl |}.
#[export] Instance CServiceSpec_in : InCell cell ServiceSpec_mem := {| to_cell := CServiceSpec; of_cell c := match c with CServiceSpec x => Some x | _ => None end; of_to_cell x := eq_refl |}.
#[export] Instance CAutoscalingMetricSpec_in : InCell cell AutoscalingMetricSpec_mem := {| to_cell := CAutoscalingMetricSpec; of_cell c := match c with CAutoscalingMetricSpec x => Some x | _ => None end; of_to_cell x := eq_refl |}.
#[export] Instance CAutoscalingSpec_in : InCell cell AutoscalingSpec_mem := {| to_cell := CAutoscalingSpec; of_cell c := match c with CAutoscalingSpec x => Some x | _ => None end; of_to_cell x := eq_refl |}.
#[export] Instance CAvailabilitySpec_in : InCell cell AvailabilitySpec_mem := {| to_cell := CAvailabilitySpec; of_cell c := match c with CAvailabilitySpec x => Some x | _ => None end; of_to_cell x := eq_refl |}.
#[export] Instance CNetworkSpec_in : InCell cell NetworkSpec_mem := {| to_cell := CNetworkSpec; of_cell c := match c with CNetworkSpec x => Some x | _ => None end; of_to_cell x := eq_refl |}.
#[export] Instance CAIWorkloadSpec_in : InCell cell AIWorkloadSpec_mem := {| to_cell := CAIWorkloadSpec; of_cell c := match c with CAIWorkloadSpec x => Some x | _ => None end; of_to_cell x := eq_refl |}.
#[export] Instance CAIWorkloadStatus_in : InCell cell AIWorkloadStatus_mem := {| to_cell := CAIWorkloadStatus; of_cell c := match c with CAIWorkloadStatus x => Some x | _ => None end; of_to_cell x := eq_refl |}.
#[export] Instance CAIWorkload_in : InCell cell AIWorkload_mem := {| to_cell := CAIWorkload; of_cell c := match c with CAIWorkload x => Some x | _ => None end; of_to_cell x := eq_refl |}.
#[export] Instance CAIWorkloadList_in : InCell cell AIWorkloadList_mem := {| to_cell := CAIWorkloadList; of_cell c := match c with CAIWorkloadList x => Some x | _ => None end; of_to_cell x := eq_refl |}.
#[export] Instance CSecretReferences_in : InCell cell (list string) := {| to_cell := CSecretReferences; of_cell c := match c with CSecretReferences x => Some x | _ => None end; of_to_cell x := eq_refl |}.
#[export] Instance CExternalSecretReferences_in : InCell cell (list ExternalSecretReference) := {| to_cell := CExternalSecretReferences; of_cell c := match c with CExternalSecretReferences x => Some x | _ => None end; of_to_cell x := eq_refl |}.
#[export] Instance CAutoscalingMetricSpecs_in : InCell cell (list AutoscalingMetricSpec_mem) := {| to_cell := CAutoscalingMetricSpecs; of_cell c := match c with CAutoscalingMetricSpecs x => Some x | _ => None end; of_to_cell x := eq_refl |}.
#[export] Instance CConditions_in : InCell cell (list Condition_mem) := {| to_cell := CConditions; of_cell c := match c with CConditions x => Some x | _ => None end; of_to_cell x := eq_refl |}.
#[export] Instance CAIWorkloads_in : InCell cell (list AIWorkload_mem) := {| to_cell := CAIWorkloads; of_cell c := match c with CAIWorkloads x => Some x | _ => None end; of_to_cell x := eq_refl |}.

#[export] Instance bool_flat : Flat bool := {}.
#[export] Instance int32_flat : Flat Z := {}.
#[export] Instance string_flat : Flat string := {}.
#[export] Instance TypeMeta_flat : Flat TypeMeta := {}.
#[export] Instance AutoscalingMetricType_flat : Flat AutoscalingMetricType := {}.
#[export] Instance ContainerSpec_flat : Flat ContainerSpec := {}.
#[export] Instance HTTPProbeSpec_flat : Flat HTTPProbeSpec := {}.
#[export] Instance ExposureSpec_flat : Flat ExposureSpec := {}.
#[export] Instance ExternalSecretReference_flat : Flat ExternalSecretReference := {}.

(** The copy written for a struct is the copy of its fields. *)
Ltac copies_fields into :=
  let s := fresh "s" in intros s ?; destruct s; unfold into; cbn; unfold mbind, mem_bind, fmap, mem_fmap, mret, mem_ret;
  repeat (case_match; simplify_eq/=); try done.

(** ** Structs, from the leaves up *)

Definition ResourceRequirements_DeepCopyInto (s : ResourceRequirements_mem) : mem cell ResourceRequirements_mem :=
  requests ← copy (rrm_Requests s);
  limits ← copy (rrm_Limits s);
  mret {| rrm_Requests := requests; rrm_Limits := limits |}.

#[export] Instance ResourceRequirements_layout : Layout cell ResourceRequirements_mem ResourceRequirements :=
  struct_layout
    (λ s, (rrm_Requests s, rrm_Limits s))
    (λ '(requests, limits), {| rr_Requests := default ∅ requests; rr_Limits := default ∅ limits |})
    ResourceRequirements_DeepCopyInto.

#[export] Instance ResourceRequirements_laws : LayoutLaws cell ResourceRequirements_mem ResourceRequirements.
Proof.
  apply (struct_laws _ _ _ (λ '(requests, limits), {| rrm_Requests := requests; rrm_Limits := limits |}));
    [by intros []|copies_fields ResourceRequirements_DeepCopyInto].
Qed.

Definition HealthSpec_DeepCopyInto (s : HealthSpec_mem) : mem cell HealthSpec_mem :=
  readiness ← copy (hsm_Readiness s);
  liveness ← copy (hsm_Liveness s);
  mret {| hsm_Readiness := readiness; hsm_Liveness := liveness |}.

#[export] Instance HealthSpec_layout : Layout cell HealthSpec_mem HealthSpec :=
  struct_layout
    (λ s, (hsm_Readiness s, hsm_Liveness s))
    (λ '(readiness, liveness), {| hs_Readiness := readiness; hs_Liveness := liveness |})
    HealthSpec_DeepCopyInto.

#[export] Instance HealthSpec_laws : LayoutLaws cell HealthSpec_mem HealthSpec.
Proof.
  apply (struct_laws _ _ _ (λ '(readiness, liveness), {| hsm_Readiness := readiness; hsm_Liveness := liveness |}));
    [by intros []|copies_fields HealthSpec_DeepCopyInto].
Qed.

Definition ServiceSpec_DeepCopyInto (s : ServiceSpec_mem) : mem cell ServiceSpec_mem :=
  enabled ← copy (ssm_Enabled s);
  port ← copy (ssm_Port s);
  mret {| ssm_Enabled := enabled; ssm_Port := port |}.

#[export] Instance ServiceSpec_layout : Layout cell ServiceSpec_mem ServiceSpec :=
  struct_layout
    (λ s, (ssm_Enabled s, ssm_Port s))
    (λ '(enabled, port), {| ss_Enabled := enabled; ss_Port := port |})
    ServiceSpec_DeepCopyInto.

#[export] Instance ServiceSpec_laws : LayoutLaws cell ServiceSpec_mem ServiceSpec.
Proof.
  apply (struct_laws _ _ _ (λ '(enabled, port), {| ssm_Enabled := enabled; ssm_Port := port |}));
    [by intros []|copies_fields ServiceSpec_DeepCopyInto].
Qed.

Definition AutoscalingMetricSpec_DeepCopyInto (s : AutoscalingMetricSpec_mem) : mem cell AutoscalingMetricSpec_mem :=
  targetUtilization ← copy (amm_TargetUtilization s);
  targetValue ← copy (amm_TargetValue s);
  mret {| amm_Type := amm_Type s; amm_TargetUtilization := targetUtilization;
    amm_MetricName := amm_MetricName s; amm_TargetValue := targetValue |}.

#[export] Instance AutoscalingMetricSpec_layout : Layout cell AutoscalingMetricSpec_mem AutoscalingMetricSpec :=
  struct_layout
    (λ s, (amm_Type s, amm_TargetUtilization s, amm_MetricName s, amm_TargetValue s))
    (λ '(type, targetUtilization, metricName, targetValue), {| am_Type := type;
      am_TargetUtilization := targetUtilization; am_MetricName := metricName; am_TargetValue := targetValue |})
    AutoscalingMetricSpec_DeepCopyInto.

#[export] Instance AutoscalingMetricSpec_laws : LayoutLaws cell AutoscalingMetricSpec_mem AutoscalingMetricSpec.
Proof.
  apply (struct_laws _ _ _ (λ '(type, targetUtilization, metricName, targetValue), {| amm_Type := type;
    amm_TargetUtilization := targetUtilization; amm_MetricName := metricName; amm_TargetValue := targetValue |}));
    [by intros [[[? ?] ?] ?]|copies_fields AutoscalingMetricSpec_DeepCopyInto].
Qed.

Definition AutoscalingSpec_DeepCopyInto (s : AutoscalingSpec_mem) : mem cell AutoscalingSpec_mem :=
  enabled ← copy (asm_Enabled s);
  minReplicas ← copy (asm_MinReplicas s);
  maxReplicas ← copy (asm_MaxReplicas s);
  metrics ← copy (asm_Metrics s);
  scaleDownStabilizationSeconds ← copy (asm_ScaleDownStabilizationSeconds s);
  mret {| asm_Enabled := enabled; asm_MinReplicas := minReplicas; asm_MaxReplicas := maxReplicas;
    asm_Metrics := metrics; asm_ScaleDownStabilizationSeconds := scaleDownStabilizationSeconds |}.

#[export] Instance AutoscalingSpec_layout : Layout cell AutoscalingSpec_mem AutoscalingSpec :=
  struct_layout
    (λ s, (asm_Enabled s, asm_MinReplicas s, asm_MaxReplicas s, asm_Metrics s,
      asm_ScaleDownStabilizationSeconds s))
    (λ '(enabled, minReplicas, maxReplicas, metrics, scaleDownStabilizationSeconds), {| as_Enabled := enabled;
      as_MinReplicas := minReplicas; as_MaxReplicas := maxReplicas; as_Metrics := default [] metrics;
      as_ScaleDownStabilizationSeconds := scaleDownStabilizationSeconds |})
    AutoscalingSpec_DeepCopyInto.

#[export] Instance AutoscalingSpec_laws : LayoutLaws cell AutoscalingSpec_mem AutoscalingSpec.
Proof.
  apply (struct_laws _ _ _ (λ '(enabled, minReplicas, maxReplicas, metrics, scaleDownStabilizationSeconds), {|
    asm_Enabled := enabled; asm_MinReplicas := minReplicas; asm_MaxReplicas := maxReplicas;
    asm_Metrics := metrics; asm_ScaleDownStabilizationSeconds := scaleDownStabilizationSeconds |}));
    [by intros [[[[? ?] ?] ?] ?]|copies_fields AutoscalingSpec_DeepCopyInto].
Qed.

Definition AvailabilitySpec_DeepCopyInto (s : AvailabilitySpec_mem) : mem cell AvailabilitySpec_mem :=
  enabled ← copy (avm_Enabled s);
  minAvailable ← copy (avm_MinAvailable s);
  maxUnavailable ← copy (avm_MaxUnavailable s);
  mret {| avm_Enabled := enabled; avm_MinAvailable := minAvailable; avm_MaxUnavailable := maxUnavailable |}.

#[export] Instance AvailabilitySpec_layout : Layout cell AvailabilitySpec_mem AvailabilitySpec :=
  struct_layout
    (λ s, (avm_Enabled s, avm_MinAvailable s, avm_MaxUnavailable s))
    (λ '(enabled, minAvailable, maxUnavailable), {| av_Enabled := enabled; av_MinAvailable := minAvailable;
      av_MaxUnavailable := maxUnavailable |})
    AvailabilitySpec_DeepCopyInto.

#[export] Instance AvailabilitySpec_laws : LayoutLaws cell AvailabilitySpec_mem AvailabilitySpec.
Proof.
  apply (struct_laws _ _ _ (λ '(enabled, minAvailable, maxUnavailable), {| avm_Enabled := enabled;
    avm_MinAvailable := minAvailable; avm_MaxUnavailable := maxUnavailable |}));
    [by intros [[? ?] ?]|copies_fields AvailabilitySpec_DeepCopyInto].
Qed.

Definition NetworkSpec_DeepCopyInto (s : NetworkSpec_mem) : mem cell NetworkSpec_mem :=
  enabled ← copy (nsm_Enabled s);
  mret {| nsm_Enabled := enabled |}.

#[export] Instance NetworkSpec_layout : Layout cell NetworkSpec_mem NetworkSpec :=
  struct_layout
    (λ s, (nsm_Enabled s))
    (λ enabled, {| ns_Enabled := enabled |})
    NetworkSpec_DeepCopyInto.

#[export] Instance NetworkSpec_laws : LayoutLaws cell NetworkSpec_mem NetworkSpec.
Proof.
  apply (struct_laws _ _ _ (λ enabled, {| nsm_Enabled := enabled |}));
    [done|copies_fields NetworkSpec_DeepCopyInto].
Qed.

Definition AIWorkloadSpec_DeepCopyInto (s : AIWorkloadSpec_mem) : mem cell AIWorkloadSpec_mem :=
  replicas ← copy (spm_Replicas s);
  autoscaling ← copy (spm_Autoscaling s);
  availability ← copy (spm_Availability s);
  resources ← copy (spm_Resources s);
  health ← copy (spm_Health s);
  service ← copy (spm_Service s);
  exposure ← copy (spm_Exposure s);
  secretRefs ← copy (spm_SecretRefs s);
  externalSecrets ← copy (spm_ExternalSecrets s);
  network ← copy (spm_Network s);
  mret {| spm_Environment := spm_Environment s; spm_Tenant := spm_Tenant s; spm_Policy := spm_Policy s;
    spm_Image := spm_Image s; spm_Replicas := replicas; spm_Autoscaling := autoscaling;
    spm_Availability := availability; spm_Container := spm_Container s; spm_Resources := resources;
    spm_Health := health; spm_Service := service; spm_Exposure := exposure; spm_SecretRefs := secretRefs;
    spm_ExternalSecrets := externalSecrets; spm_Network := network |}.

#[export] Instance AIWorkloadSpec_layout : Layout cell AIWorkloadSpec_mem AIWorkloadSpec :=
  struct_layout
    (λ s, (spm_Environment s, spm_Tenant s, spm_Policy s, spm_Image s, spm_Replicas s, spm_Autoscaling s,
      spm_Availability s, spm_Container s, spm_Resources s, spm_Health s, spm_Service s, spm_Exposure s,
      spm_SecretRefs s, spm_ExternalSecrets s, spm_Network s))
    (λ '(environment, tenant, policy, image, replicas, autoscaling, availability, container, resources, health, service, exposure, secretRefs, externalSecrets, network), {|
      sp_Environment := environment; sp_Tenant := tenant; sp_Policy := policy; sp_Image := image;
      sp_Replicas := replicas; sp_Autoscaling := autoscaling; sp_Availability := availability;
      sp_Container := container; sp_Resources := resources; sp_Health := health; sp_Service := service;
      sp_Exposure := exposure; sp_SecretRefs := default [] secretRefs;
      sp_ExternalSecrets := default [] externalSecrets; sp_Network := network |})
    AIWorkloadSpec_DeepCopyInto.

#[export] Instance AIWorkloadSpec_laws : LayoutLaws cell AIWorkloadSpec_mem AIWorkloadSpec.
Proof.
  apply (struct_laws _ _ _ (λ '(environment, tenant, policy, image, replicas, autoscaling, availability, container, resources, health, service, exposure, secretRefs, externalSecrets, network), {|
    spm_Environment := environment; spm_Tenant := tenant; spm_Policy := policy; spm_Image := image;
    spm_Replicas := replicas; spm_Autoscaling := autoscaling; spm_Availability := availability;
    spm_Container := container; spm_Resources := resources; spm_Health := health; spm_Service := service;
    spm_Exposure := exposure; spm_SecretRefs := secretRefs; spm_ExternalSecrets := externalSecrets;
    spm_Network := network |}));
    [by intros [[[[[[[[[[[[[[? ?] ?] ?] ?] ?] ?] ?] ?] ?] ?] ?] ?] ?] ?]|copies_fields AIWorkloadSpec_DeepCopyInto].
Qed.

Context `{LayoutLaws cell ObjectMeta_mem ObjectMeta, LayoutLaws cell ListMeta_mem ListMeta}.
Context `{LayoutLaws cell Condition_mem Condition}.

Definition AIWorkloadStatus_DeepCopyInto (s : AIWorkloadStatus_mem) : mem cell AIWorkloadStatus_mem :=
  conditions ← copy (stm_Conditions s);
  mret {| stm_ObservedGeneration := stm_ObservedGeneration s; stm_DesiredReplicas := stm_DesiredReplicas s;
    stm_ReadyReplicas := stm_ReadyReplicas s; stm_Endpoint := stm_Endpoint s; stm_Conditions := conditions |}.

#[export] Instance AIWorkloadStatus_layout : Layout cell AIWorkloadStatus_mem AIWorkloadStatus :=
  struct_layout
    (λ s, (stm_ObservedGeneration s, stm_DesiredReplicas s, stm_ReadyReplicas s, stm_Endpoint s, stm_Conditions s))
    (λ '(observedGeneration, desiredReplicas, readyReplicas, endpoint, conditions), {|
      wst_ObservedGeneration := observedGeneration; wst_DesiredReplicas := desiredReplicas;
      wst_ReadyReplicas := readyReplicas; wst_Endpoint := endpoint; wst_Conditions := default [] conditions |})
    AIWorkloadStatus_DeepCopyInto.

#[export] Instance AIWorkloadStatus_laws : LayoutLaws cell AIWorkloadStatus_mem AIWorkloadStatus.
Proof.
  apply (struct_laws _ _ _ (λ '(observedGeneration, desiredReplicas, readyReplicas, endpoint, conditions), {|
      stm_ObservedGeneration := observedGeneration; stm_DesiredReplicas := desiredReplicas;
      stm_ReadyReplicas := readyReplicas; stm_Endpoint := endpoint; stm_Conditions := conditions |}));
    [by intros [[[[? ?] ?] ?] ?]|copies_fields AIWorkloadStatus_DeepCopyInto].
Qed.

#[local] Arguments AIWorkloadSpec_DeepCopyInto : simpl never.
#[local] Arguments AIWorkloadStatus_DeepCopyInto : simpl never.

Definition AIWorkload_DeepCopyInto (s : AIWorkload_mem) : mem cell AIWorkload_mem :=
  objectMeta ← copy (wm_meta s);
  spec ← AIWorkloadSpec_DeepCopyInto (wm_Spec s);
  status ← AIWorkloadStatus_DeepCopyInto (wm_Status s);
  mret {| wm_TypeMeta := wm_TypeMeta s; wm_meta := objectMeta; wm_Spec := spec; wm_Status := status |}.

#[export] Instance AIWorkload_layout : Layout cell AIWorkload_mem (TypeMeta * AIWorkload) :=
  struct_layout (λ s, (wm_TypeMeta s, wm_meta s, wm_Spec s, wm_Status s))
    (λ '(typeMeta, objectMeta, spec, status), (typeMeta, {| w_meta := objectMeta; w_Spec := spec; w_Status := status |}))
    AIWorkload_DeepCopyInto.

#[export] Instance AIWorkload_laws : LayoutLaws cell AIWorkload_mem (TypeMeta * AIWorkload).
Proof.
  apply (struct_laws _ _ _ (λ '(typeMeta, objectMeta, spec, status),
      {| wm_TypeMeta := typeMeta; wm_meta := objectMeta; wm_Spec := spec; wm_Status := status |}));
    [by intros [[[? ?] ?] ?]|copies_fields AIWorkload_DeepCopyInto].
Qed.

Definition AIWorkloadList_DeepCopyInto (s : AIWorkloadList_mem) : mem cell AIWorkloadList_mem :=
  listMeta ← copy (lm_ListMeta s);
  items ← copy (lm_Items s);
  mret {| lm_TypeMeta := lm_TypeMeta s; lm_ListMeta := listMeta; lm_Items := items |}.

#[export] Instance AIWorkloadList_layout :
    Layout cell AIWorkloadList_mem (TypeMeta * ListMeta * list (TypeMeta * AIWorkload)) :=
  struct_layout (λ s, (lm_TypeMeta s, lm_ListMeta s, lm_Items s))
    (λ '(typeMeta, listMeta, items), (typeMeta, listMeta, default [] items)) AIWorkloadList_DeepCopyInto.

#[export] Instance AIWorkloadList_laws :
  LayoutLaws cell AIWorkloadList_mem (TypeMeta * ListMeta * list (TypeMeta * AIWorkload)).
Proof.
  apply (struct_laws _ _ _ (λ '(typeMeta, listMeta, items),
      {| lm_TypeMeta := typeMeta; lm_ListMeta := listMeta; lm_Items := items |}));
    [by intros [[? ?] ?]|copies_fields AIWorkloadList_DeepCopyInto].
Qed.

(** ** The receivers *)

Definition ContainerSpec_DeepCopyInto (s : ContainerSpec) : mem cell ContainerSpec := mret s.
Definition ExposureSpec_DeepCopyInto (s : ExposureSpec) : mem cell ExposureSpec := mret s.
Definition ExternalSecretReference_DeepCopyInto (s : ExternalSecretReference) : mem cell ExternalSecretReference := mret s.
Definition HTTPProbeSpec_DeepCopyInto (s : HTTPProbeSpec) : mem cell HTTPProbeSpec := mret s.

(** The receiver is the map itself; the loop ranges over nothing when it is nil. *)
Definition ResourceQuantities_DeepCopyInto (q : option (ptr ResourceQuantities))
    : mem cell (option (ptr ResourceQuantities)) :=
  entries ← match q with Some p => load p | None => mret ∅ end;
  out ← alloc (copy_entries entries);
  mret (Some out).

Definition ResourceQuantities_DeepCopy (q : option (ptr ResourceQuantities))
    : mem cell (option (ptr ResourceQuantities)) :=
  match q with
  | None => mret None
  | Some _ => ResourceQuantities_DeepCopyInto q
  end.

Definition ContainerSpec_DeepCopy : option (ptr ContainerSpec) → mem cell (option (ptr ContainerSpec)) :=
  new_copy ContainerSpec_DeepCopyInto.
Definition ExposureSpec_DeepCopy : option (ptr ExposureSpec) → mem cell (option (ptr ExposureSpec)) :=
  new_copy ExposureSpec_DeepCopyInto.
Definition ExternalSecretReference_DeepCopy : option (ptr ExternalSecretReference) → mem cell (option (ptr ExternalSecretReference)) :=
  new_copy ExternalSecretReference_DeepCopyInto.
Definition HTTPProbeSpec_DeepCopy : option (ptr HTTPProbeSpec) → mem cell (option (ptr HTTPProbeSpec)) :=
  new_copy HTTPProbeSpec_DeepCopyInto.
Definition AutoscalingMetricSpec_DeepCopy : option (ptr AutoscalingMetricSpec_mem) → mem cell (option (ptr AutoscalingMetricSpec_mem)) :=
  new_copy AutoscalingMetricSpec_DeepCopyInto.
Definition AutoscalingSpec_DeepCopy : option (ptr AutoscalingSpec_mem) → mem cell (option (ptr AutoscalingSpec_mem)) :=
  new_copy AutoscalingSpec_DeepCopyInto.
Definition AvailabilitySpec_DeepCopy : option (ptr AvailabilitySpec_mem) → mem cell (option (ptr AvailabilitySpec_mem)) :=
  new_copy AvailabilitySpec_DeepCopyInto.
Definition HealthSpec_DeepCopy : option (ptr HealthSpec_mem) → mem cell (option (ptr HealthSpec_mem)) :=
  new_copy HealthSpec_DeepCopyInto.
Definition NetworkSpec_DeepCopy : option (ptr NetworkSpec_mem) → mem cell (option (ptr NetworkSpec_mem)) :=
  new_copy NetworkSpec_DeepCopyInto.
Definition ResourceRequirements_DeepCopy : option (ptr ResourceRequirements_mem) → mem cell (option (ptr ResourceRequirements_mem)) :=
  new_copy ResourceRequirements_DeepCopyInto.
Definition ServiceSpec_DeepCopy : option (ptr ServiceSpec_mem) → mem cell (option (ptr ServiceSpec_mem)) :=
  new_copy ServiceSpec_DeepCopyInto.
Definition AIWorkloadSpec_DeepCopy : option (ptr AIWorkloadSpec_mem) → mem cell (option (ptr AIWorkloadSpec_mem)) :=
  new_copy AIWorkloadSpec_DeepCopyInto.
Definition AIWorkloadStatus_DeepCopy : option (ptr AIWorkloadStatus_mem) → mem cell (option (ptr AIWorkloadStatus_mem)) :=
  new_copy AIWorkloadStatus_DeepCopyInto.
Definition AIWorkload_DeepCopy : option (ptr AIWorkload_mem) → mem cell (option (ptr AIWorkload_mem)) :=
  new_copy AIWorkload_DeepCopyInto.
Definition AIWorkloadList_DeepCopy : option (ptr AIWorkloadList_mem) → mem cell (option (ptr AIWorkloadList_mem)) :=
  new_copy AIWorkloadList_DeepCopyInto.

(** [runtime.Object]: a nil pointer becomes the nil interface. *)
Definition AIWorkload_DeepCopyObject (p : option (ptr AIWorkload_mem)) : mem cell (option (ptr AIWorkload_mem)) :=
  c ← AIWorkload_DeepCopy p;
  match c with
  | Some c => mret (Some c)
  | None => mret None
  end.

Definition AIWorkloadList_DeepCopyObject (p : option (ptr AIWorkloadList_mem))
    : mem cell (option (ptr AIWorkloadList_mem)) :=
  c ← AIWorkloadList_DeepCopy p;
  match c with
  | Some c => mret (Some c)
  | None => mret None
  end.

(** ** Correctness *)

Lemma object_copier `{InCell cell T, Layout cell T V} (f : option (ptr T) → mem cell (option (ptr T))) :
  deep_copier f → deep_copier (λ p, c ← f p; match c with Some c => mret (Some c) | None => mret None end).
Proof.
  intros Hf h p v Hr. destruct (Hf h p v Hr) as (h' & q & Hq & C). exists h', q. split; [|done].
  unfold mbind, mem_bind. rewrite Hq. by destruct q.
Qed.

Lemma map_copier : deep_copier ResourceQuantities_DeepCopy.
Proof.
  intros h p v Hr. destruct (new_copy_deep (T:=ResourceQuantities) h p v Hr) as (h' & q & Hq & C).
  exists h', q. split; [|done]. rewrite <- Hq. destruct p as [p|]; [|done].
  unfold ResourceQuantities_DeepCopy, ResourceQuantities_DeepCopyInto, new_copy, mbind, mem_bind.
  by destruct (load p h) as [[h1 m]|].
Qed.

(** C38. Every generated deep copy copies deeply: given any receiver that can be read, nil or not, and
    however its parts share memory, it returns; it changes nothing that was there; the copy stands for
    the same value; and every cell the copy reaches is new, and reached only once. *)
Theorem generated_copies_are_deep :
  deep_copier AIWorkload_DeepCopy ∧ deep_copier AIWorkloadList_DeepCopy ∧ deep_copier AIWorkloadSpec_DeepCopy ∧
  deep_copier AIWorkloadStatus_DeepCopy ∧ deep_copier AutoscalingMetricSpec_DeepCopy ∧
  deep_copier AutoscalingSpec_DeepCopy ∧ deep_copier AvailabilitySpec_DeepCopy ∧
  deep_copier HealthSpec_DeepCopy ∧ deep_copier NetworkSpec_DeepCopy ∧
  deep_copier ResourceRequirements_DeepCopy ∧ deep_copier ServiceSpec_DeepCopy ∧
  deep_copier ContainerSpec_DeepCopy ∧ deep_copier ExposureSpec_DeepCopy ∧
  deep_copier ExternalSecretReference_DeepCopy ∧ deep_copier HTTPProbeSpec_DeepCopy ∧
  deep_copier ResourceQuantities_DeepCopy ∧ deep_copier AIWorkload_DeepCopyObject ∧
  deep_copier AIWorkloadList_DeepCopyObject.
Proof.
  split_and!; first [exact map_copier|exact new_copy_deep|apply object_copier; exact new_copy_deep].
Qed.

(** A workload and its deep copy are independent, as the controller relies on when it keeps a copy
    to compare with: after the copy, memory may change everywhere except in the cells that existed
    before, and the original still stands for its value; or everywhere except in the cells made since,
    and the copy does. *)
Theorem DeepCopy_isolates h (p : option (ptr AIWorkload_mem)) v :
  read (V:=option (TypeMeta * AIWorkload)) h p = Some v →
  ∃ h' q, AIWorkload_DeepCopy p h = Some (h', q) ∧
    ∀ h2,
      ((∀ l, is_Some (h !! l) → h2 !! l = h' !! l) → read h2 p = Some v) ∧
      ((∀ l, h !! l = None → h2 !! l = h' !! l) → read h2 q = Some v).
Proof.
  intros Hr. destruct (new_copy_deep (T:=AIWorkload_mem) (V:=TypeMeta * AIWorkload) h p v Hr) as (h' & q & Hq & C).
  exists h', q. split; [done|]. intros h2. by apply copied_isolated.
Qed.

End DeepCopy.

(** ** Witnesses

    Library types without pointers, and a workload two of whose fields share a cell, which the copy
    takes apart. *)
Section Witnesses.

#[local] Instance ObjectMeta_flat : Flat ObjectMeta := {}.
#[local] Instance ListMeta_flat : Flat unit := {}.
#[local] Instance Condition_flat : Flat Condition := {}.

Abbreviation cells := (gmap loc (cell (ObjectMeta_mem:=ObjectMeta) (ListMeta_mem:=unit) (Condition_mem:=Condition))).

Definition shared_autoscaling : AutoscalingSpec_mem := {|
  asm_Enabled := Some (Ptr 2%positive); asm_MinReplicas := Some (Ptr 3%positive);
  asm_MaxReplicas := Some (Ptr 3%positive);
  asm_Metrics := Some (Slice (Ptr 4%positive) 1); asm_ScaleDownStabilizationSeconds := None |}.

Definition memory : cells := list_to_map [
  (1%positive, CAutoscalingSpec shared_autoscaling);
  (2%positive, CBool true);
  (3%positive, CInt32 5);
  (4%positive, CAutoscalingMetricSpecs [{| amm_Type := AutoscalingCPU; amm_TargetUtilization := Some (Ptr 3%positive);
    amm_MetricName := ""; amm_TargetValue := None |}]);
  (5%positive, CAIWorkload {| wm_TypeMeta := {| tm_Kind := "AIWorkload"; tm_APIVersion := GroupVersion |};
    wm_meta := new_meta "sample" "default";
    wm_Spec := {| spm_Environment := ""; spm_Tenant := ""; spm_Policy := ""; spm_Image := "image";
      spm_Replicas := Some (Ptr 3%positive); spm_Autoscaling := Some (Ptr 1%positive); spm_Availability := None;
      spm_Container := {| cs_Port := 8080 |}; spm_Resources := None; spm_Health := None; spm_Service := None;
      spm_Exposure := None; spm_SecretRefs := None; spm_ExternalSecrets := None; spm_Network := None |};
    wm_Status := {| stm_ObservedGeneration := 0; stm_DesiredReplicas := 0; stm_ReadyReplicas := 0;
      stm_Endpoint := ""; stm_Conditions := None |} |})].

Definition original : option (ptr (AIWorkload_mem (ObjectMeta_mem:=ObjectMeta) (Condition_mem:=Condition))) :=
  Some (Ptr 5%positive).

Definition value := Eval vm_compute in read (V:=option (TypeMeta * AIWorkload)) memory original.

Example memory_shares : reach (V:=option (TypeMeta * AIWorkload)) memory original =
  [5; 3; 1; 2; 3; 3; 4; 3]%positive.
Proof. reflexivity. Qed.

Lemma generated_copies_are_deep_witness :
  ∃ h' q v, AIWorkload_DeepCopy original memory = Some (h', q) ∧ value = Some v ∧ copied memory h' q v.
Proof.
  destruct (generated_copies_are_deep (ObjectMeta_mem:=ObjectMeta) (ListMeta_mem:=unit) (Condition_mem:=Condition))
    as [Hd _].
  destruct value as [v|] eqn:Ev; [|discriminate Ev].
  assert (read (V:=option (TypeMeta * AIWorkload)) memory original = Some v) as Hr by (rewrite <- Ev; reflexivity).
  destruct (Hd memory original v Hr) as (h' & q & Hq & C). exists h', q, v. split; [exact Hq|]. split; [reflexivity|exact C].
Defined.

Lemma DeepCopy_isolates_witness :
  ∃ h' q, AIWorkload_DeepCopy original memory = Some (h', q) ∧
    read (V:=option (TypeMeta * AIWorkload)) (<[3%positive := CInt32 7]> h') q = value.
Proof.
  destruct value as [v|] eqn:Ev; [|discriminate Ev].
  assert (read (V:=option (TypeMeta * AIWorkload)) memory original = Some v) as Hr by (rewrite <- Ev; reflexivity).
  destruct (DeepCopy_isolates (ListMeta_mem:=unit) memory original v Hr) as (h' & q & Hq & Hi).
  exists h', q. split; [exact Hq|]. apply (Hi (<[3%positive := CInt32 7]> h')).
  intros l Hl. apply lookup_insert_ne. intros <-. discriminate Hl.
Defined.

End Witnesses.
