(* ===== verification/Prog.v ===== *)
(** * Effectful programs

    A handler of the controller is a finite tree of calls to its environment: each node issues
    one event and continues with the answer.  Loops of the code range over finite lists, so the
    trees are inductive and a handler terminates whatever its environment answers.  A safety
    property quantifies over all answers; [wp] is the rely/guarantee calculus that proves it. *)
From S2P Require Import Prelude.

Section Prog.
Context (E : Type) (resp : E → Type).

Inductive prog (A : Type) : Type :=
  | Ret (a : A)
  | Vis (e : E) (k : resp e → prog A).
Arguments Ret {A} a.
Arguments Vis {A} e k.

Fixpoint bind {A B} (f : A → prog B) (t : prog A) : prog B :=
  match t with
  | Ret a => f a
  | Vis e k => Vis e (λ x, bind f (k x))
  end.

Definition trigger (e : E) : prog (resp e) := Vis e Ret.

(** A call and its answer; a history is the calls answered so far, oldest first. *)
Record call := Call { call_event : E; call_answer : resp call_event }.

(** The complete runs: [t] answered by the history [h] returns [a]. *)
Fixpoint returns {A} (t : prog A) (h : list call) (a : A) : Prop :=
  match t with
  | Ret b => h = [] ∧ a = b
  | Vis e k => ∃ x h', h = Call e x :: h' ∧ returns (k x) h' a
  end.

(** The partial runs: after the history [h] the next call [t] issues is [e]. *)
Fixpoint issues {A} (t : prog A) (h : list call) (e : E) : Prop :=
  match t with
  | Ret _ => False
  | Vis e' k => (h = [] ∧ e = e') ∨ ∃ x h', h = Call e' x :: h' ∧ issues (k x) h' e
  end.

(** The result of [t] against a deterministic environment with state [S]; nothing when the
    environment has no answer. *)
Fixpoint run {S A} (handler : S → ∀ e, option (S * resp e)) (s : S) (t : prog A) : option (S * A) :=
  match t with
  | Ret a => Some (s, a)
  | Vis e k =>
      match handler s e with
      | Some (s', x) => run handler s' (k x)
      | None => None
      end
  end.

(** The calls of that run. *)
Fixpoint log {S A} (handler : S → ∀ e, option (S * resp e)) (s : S) (t : prog A) : list call :=
  match t with
  | Ret _ => []
  | Vis e k =>
      match handler s e with
      | Some (s', x) => Call e x :: log handler s' (k x)
      | None => []
      end
  end.

(** ** Rely/guarantee

    Under answers that satisfy [R], every call satisfies [P] of the history before it, and the
    result satisfies [Q] of the whole history. *)
Section Wp.
Context (R : call → Prop) (P : list call → E → Prop).

Fixpoint wp {A} (h : list call) (t : prog A) (Q : list call → A → Prop) : Prop :=
  match t with
  | Ret a => Q h a
  | Vis e k => P h e ∧ ∀ x, R (Call e x) → wp (h ++ [Call e x]) (k x) Q
  end.

Lemma wp_mono {A} h (t : prog A) (Q Q' : list call → A → Prop) :
  wp h t Q → (∀ h' a, Q h' a → Q' h' a) → wp h t Q'.
Proof.
  intros Hwp HQ. revert h Hwp. induction t as [a|e k IH]; simpl; [auto|].
  intros h [HP Hk]. split; [done|]. auto.
Qed.

Lemma wp_bind {A B} h (t : prog A) (f : A → prog B) Q :
  wp h t (λ h' a, wp h' (f a) Q) → wp h (bind f t) Q.
Proof.
  revert h. induction t as [a|e k IH]; simpl; [done|]. intros h [HP Hk]. split; [done|]. auto.
Qed.

Lemma wp_seq {A B} h (t : prog A) (f : A → prog B) (Q1 : list call → A → Prop) Q :
  wp h t Q1 → (∀ h' a, Q1 h' a → wp h' (f a) Q) → wp h (bind f t) Q.
Proof. intros Ht Hf. apply wp_bind. by eapply wp_mono. Qed.

Lemma wp_trigger h e (Q : list call → resp e → Prop) :
  P h e → (∀ x, R (Call e x) → Q (h ++ [Call e x]) x) → wp h (trigger e) Q.
Proof. done. Qed.

Lemma wp_issues {A} h (t : prog A) Q h' e :
  wp h t Q → issues t h' e → Forall R h' → P (h ++ h') e.
Proof.
  revert h h'. induction t as [a|e' k IH]; simpl; [done|]. intros h h' [HP Hk].
  intros [[-> ->]|(x & h'' & -> & Hi)].
  - intros _. by rewrite app_nil_r.
  - intros [Hx Hh]%Forall_cons. specialize (IH x (h ++ [Call e' x]) h'' (Hk x Hx) Hi Hh).
    by rewrite <-app_assoc in IH.
Qed.

Lemma wp_returns {A} h (t : prog A) Q h' a :
  wp h t Q → returns t h' a → Forall R h' → Q (h ++ h') a.
Proof.
  revert h h'. induction t as [b|e' k IH]; simpl.
  - intros h h' HQ [-> ->] _. by rewrite app_nil_r.
  - intros h h' [HP Hk] (x & h'' & -> & Hr) [Hx Hh]%Forall_cons.
    specialize (IH x (h ++ [Call e' x]) h'' (Hk x Hx) Hr Hh). by rewrite <-app_assoc in IH.
Qed.

End Wp.

Lemma wp_impl {A} (R R' : call → Prop) (P P' : list call → E → Prop) h (t : prog A) Q :
  wp R P h t Q → (∀ c, R' c → R c) → (∀ h' e, P h' e → P' h' e) → wp R' P' h t Q.
Proof.
  intros Ht HR HP. revert h Ht. induction t as [a|e k IH]; simpl; [done|].
  intros h [He Hk]. split; [auto|]. intros x Hx. apply IH. auto.
Qed.

(** The answers so far satisfy the rely condition. *)
Lemma wp_rely {A} R (P : list call → E → Prop) h (t : prog A) Q :
  wp R P h t Q → Forall R h → wp R (λ h' e, P h' e ∧ Forall R h') h t Q.
Proof.
  revert h. induction t as [a|e k IH]; simpl; [done|]. intros h [He Hk] Hh. split; [done|].
  intros x Hx. apply IH; [auto|]. apply Forall_app. split; [done|]. by constructor.
Qed.

Lemma wp_and {A} R (P P' : list call → E → Prop) h (t : prog A) Q Q' :
  wp R P h t Q → wp R P' h t Q' → wp R (λ h e, P h e ∧ P' h e) h t (λ h a, Q h a ∧ Q' h a).
Proof.
  revert h. induction t as [a|e k IH]; simpl; [done|].
  intros h [HP Hk] [HP' Hk']. split; [done|]. auto.
Qed.

(** The history only grows. *)
Lemma wp_grows {A} R h (t : prog A) : wp R (λ h' _, h `prefix_of` h') h t (λ h' _, h `prefix_of` h').
Proof.
  assert (∀ h', h `prefix_of` h' → wp R (λ h' _, h `prefix_of` h') h' t (λ h' _, h `prefix_of` h')) as Hg; [|by apply Hg].
  induction t as [a|e k IH]; simpl; intros h' Hh; [done|]. split; [done|].
  intros x _. apply IH. by apply prefix_app_r.
Qed.

(** ** Safety triples

    The history-free case of [wp]: under answers that satisfy [R], every call satisfies [G] and
    the result satisfies [Q]. *)
Section Safe.
Context (R : call → Prop) (G : E → Prop).

Fixpoint safe {A} (t : prog A) (Q : A → Prop) : Prop :=
  match t with
  | Ret a => Q a
  | Vis e k => G e ∧ ∀ x, R (Call e x) → safe (k x) Q
  end.

Lemma safe_mono {A} (t : prog A) (Q Q' : A → Prop) : safe t Q → (∀ a, Q a → Q' a) → safe t Q'.
Proof.
  intros Ht HQ. induction t as [a|e k IH]; simpl in *; [auto|].
  destruct Ht as [He Hk]. split; [done|]. auto.
Qed.

Lemma safe_bind {A B} (t : prog A) (f : A → prog B) Q :
  safe t (λ a, safe (f a) Q) → safe (bind f t) Q.
Proof. induction t as [a|e k IH]; simpl; [done|]. intros [He Hk]. split; [done|]. auto. Qed.

(** The rule for a composed handler: the part's triple, then the rest from its postcondition. *)
Lemma safe_seq {A B} (t : prog A) (f : A → prog B) (Q1 : A → Prop) Q :
  safe t Q1 → (∀ a, Q1 a → safe (f a) Q) → safe (bind f t) Q.
Proof. intros Ht Hf. apply safe_bind. by eapply safe_mono. Qed.

Lemma safe_wp {A} (t : prog A) Q (P : list call → E → Prop) h :
  safe t Q → (∀ h' e, h `prefix_of` h' → G e → P h' e) →
  wp R P h t (λ h' a, h `prefix_of` h' ∧ Q a).
Proof.
  revert h. induction t as [a|e k IH]; simpl; [done|]. intros h [He Hk] HP.
  split; [by apply HP|]. intros x Hx.
  assert (h `prefix_of` h ++ [Call e x]) as Hpre by (by apply prefix_app_r).
  eapply wp_mono; [apply IH; [by apply Hk|]|].
  - intros h' e' Hh. apply HP. by etrans.
  - intros h' a [Hh HQ]. split; [by etrans|done].
Qed.

(** A part whose result says something of the history. *)
Lemma safe_and_wp {A} (t : prog A) Q (P : list call → E → Prop) h (Q' : list call → A → Prop) :
  safe t Q → (∀ h' e, G e → P h' e) → wp R (λ _ _, True) h t Q' →
  wp R P h t (λ h' a, h `prefix_of` h' ∧ Q a ∧ Q' h' a).
Proof.
  intros Ht HP Hw. eapply wp_mono.
  - eapply wp_impl; [apply (wp_and _ _ _ _ _ _ _ (safe_wp t Q P h Ht (λ h' e _, HP h' e)) Hw)|done|].
    by intros ?? [? _].
  - naive_solver.
Qed.

(** The calls of a safe part satisfy its guarantee, also once they are history. *)
Lemma safe_wp_history {A} (t : prog A) Q h :
  safe t Q →
  wp R (λ h' e, ∃ k, h' = h ++ k ∧ Forall (λ c, G (call_event c)) k ∧ G e) h t
    (λ h' a, ∃ k, h' = h ++ k ∧ Forall (λ c, G (call_event c)) k ∧ Q a).
Proof.
  intros Ht. assert (∀ k, Forall (λ c, G (call_event c)) k →
    wp R (λ h' e, ∃ k, h' = h ++ k ∧ Forall (λ c, G (call_event c)) k ∧ G e) (h ++ k) t
      (λ h' a, ∃ k, h' = h ++ k ∧ Forall (λ c, G (call_event c)) k ∧ Q a)) as Hgen.
  { induction t as [a|e k IH]; simpl in *; intros l Hl; [eauto|].
    destruct Ht as [He Hk]. split; [eauto|]. intros x Hx. rewrite <-app_assoc. apply IH; [auto|].
    apply Forall_app. split; [done|]. by constructor. }
  specialize (Hgen []). rewrite app_nil_r in Hgen. by apply Hgen.
Qed.

Lemma wp_safe {A} (t : prog A) (Q : A → Prop) h : wp R (λ _ e, G e) h t (λ _ a, Q a) → safe t Q.
Proof.
  revert h. induction t as [a|e k IH]; simpl; [done|]. intros h [He Hk]. split; [done|]. eauto.
Qed.

Lemma safe_issues {A} (t : prog A) Q h e :
  safe t Q → issues t h e → Forall R h → G e.
Proof.
  intros Ht Hi Hh.
  by eapply (wp_issues R (λ _ e, G e) [] t); [eapply safe_wp| |].
Qed.

Lemma safe_returns {A} (t : prog A) Q h a :
  safe t Q → returns t h a → Forall R h → Q a.
Proof.
  intros Ht Hr Hh.
  eapply (wp_returns R (λ _ _, True) [] t (λ h' a, [] `prefix_of` h' ∧ Q a)); [by eapply safe_wp|done|done].
Qed.

End Safe.

Lemma safe_impl {A} (R R' : call → Prop) (G G' : E → Prop) (t : prog A) (Q Q' : A → Prop) :
  safe R G t Q → (∀ c, R' c → R c) → (∀ e, G e → G' e) → (∀ a, Q a → Q' a) → safe R' G' t Q'.
Proof.
  intros Ht HR HG HQ. induction t as [a|e k IH]; simpl in *; [auto|].
  destruct Ht as [He Hk]. split; [auto|]. auto.
Qed.

Lemma safe_and_post {A} R (G G' : E → Prop) (t : prog A) (Q Q' : A → Prop) :
  safe R G t Q → safe R G' t Q' → safe R G t (λ a, Q a ∧ Q' a).
Proof.
  induction t as [a|e k IH]; simpl; [done|]. intros [He Hk] [_ Hk']. split; [done|]. auto.
Qed.

Lemma safe_trivial {A} R (t : prog A) : safe R (λ _, True) t (λ _, True).
Proof. induction t as [a|e k IH]; simpl; auto. Qed.

(** ** Runs *)

Lemma returns_bind {A B} (t : prog A) (f : A → prog B) h b :
  returns (bind f t) h b ↔ ∃ h1 a h2, h = h1 ++ h2 ∧ returns t h1 a ∧ returns (f a) h2 b.
Proof.
  revert h. induction t as [a|e k IH]; intros h; simpl.
  - split; [by exists [], a, h|]. by intros (h1 & a' & h2 & -> & [-> ->] & ?).
  - split.
    + intros (x & h' & -> & (h1 & a & h2 & -> & Ht & Hf)%IH).
      exists (Call e x :: h1), a, h2. split; [done|]. split; [|done]. by exists x, h1.
    + intros (h1 & a & h2 & -> & (x & h' & -> & Ht) & Hf).
      exists x, (h' ++ h2). split; [done|]. apply IH. by exists h', a, h2.
Qed.

Lemma issues_bind {A B} (t : prog A) (f : A → prog B) h e :
  issues (bind f t) h e ↔
  issues t h e ∨ ∃ h1 a h2, h = h1 ++ h2 ∧ returns t h1 a ∧ issues (f a) h2 e.
Proof.
  revert h. induction t as [a|e' k IH]; intros h; simpl.
  - split; [intros Hi; right; by exists [], a, h|]. by intros [[]|(h1 & a' & h2 & -> & [-> ->] & ?)].
  - split.
    + intros [[-> ->]|(x & h' & -> & [Hi|(h1 & a & h2 & -> & Ht & Hf)]%IH)]; [by left; left|left; right; eauto|].
      right. exists (Call e' x :: h1), a, h2. split; [done|]. split; [|done]. by exists x, h1.
    + intros [[[-> ->]|(x & h' & -> & Hi)]|(h1 & a & h2 & -> & (x & h' & -> & Ht) & Hf)]; [by left| |].
      * right. exists x, h'. split; [done|]. apply IH. by left.
      * right. exists x, (h' ++ h2). split; [done|]. apply IH. right. by exists h', a, h2.
Qed.

Lemma run_bind {S A B} (handler : S → ∀ e, option (S * resp e)) s (t : prog A) (f : A → prog B) :
  run handler s (bind f t) = '(s', a) ← run handler s t; run handler s' (f a).
Proof.
  revert s. induction t as [a|e k IH]; intros s; simpl; [done|].
  destruct (handler s e) as [[s' x]|]; [apply IH|done].
Qed.

(** The calls of a run are a complete run. *)
Lemma run_returns {S A} (handler : S → ∀ e, option (S * resp e)) s (t : prog A) s' a :
  run handler s t = Some (s', a) → returns t (log handler s t) a.
Proof.
  revert s. induction t as [b|e k IH]; intros s; simpl; [by intros [= -> ->]|].
  destruct (handler s e) as [[s1 x]|]; [|done]. intros Hr. eauto.
Qed.

(** Every call of that run is issued after the calls before it. *)
Lemma log_issues {S A} (handler : S → ∀ e, option (S * resp e)) s (t : prog A) n e x :
  log handler s t !! n = Some (Call e x) → issues t (take n (log handler s t)) e.
Proof.
  revert s n. induction t as [b|e' k IH]; intros s n; simpl; [by rewrite lookup_nil|].
  destruct (handler s e') as [[s1 y]|]; [|by rewrite lookup_nil].
  destruct n as [|n]; simpl; [by intros [= <- _]; left|].
  intros Hn. right. exists y, (take n (log handler s1 (k y))). split; [done|]. by apply IH.
Qed.

Lemma log_Forall {S A} (handler : S → ∀ e, option (S * resp e)) (I : S → Prop) (R : call → Prop) s (t : prog A) :
  (∀ s e s' x, I s → handler s e = Some (s', x) → I s' ∧ R (Call e x)) → I s → Forall R (log handler s t).
Proof.
  intros Hh. revert s. induction t as [b|e k IH]; intros s Hs; simpl; [constructor|].
  destruct (handler s e) as [[s1 y]|] eqn:Eh; [|constructor].
  destruct (Hh s e s1 y Hs Eh). constructor; auto.
Qed.

(** Termination: an environment that answers the calls a program may issue gets its result. *)
Lemma run_safe {S A} (handler : S → ∀ e, option (S * resp e)) (R : call → Prop) (G : E → Prop) s (t : prog A) Q :
  safe R G t Q →
  (∀ s e, G e → ∃ s' x, handler s e = Some (s', x) ∧ R (Call e x)) →
  ∃ s' a, run handler s t = Some (s', a) ∧ Q a.
Proof.
  intros Ht Hh. revert s. induction t as [b|e k IH]; simpl in *; intros s; [eauto|].
  destruct Ht as [He Hk]. destruct (Hh s e He) as (s' & x & -> & Hx). auto.
Qed.

End Prog.

Arguments Ret {E resp A} a.
Arguments Vis {E resp A} e k.
Arguments bind {E resp A B} f t.
Arguments trigger {E resp} e.
Arguments Call {E resp} call_event call_answer.
Arguments call_event {E resp} c.
Arguments returns {E resp A} t h a.
Arguments issues {E resp A} t h e.
Arguments run {E resp S A} handler s t.
Arguments log {E resp S A} handler s t.
Arguments wp {E resp} R P {A} h t Q.
Arguments safe {E resp} R G {A} t Q.
Arguments safe_mono {E resp R G A} t Q Q'.
Arguments safe_bind {E resp R G A B} t f Q.
Arguments safe_seq {E resp R G A B} t f Q1 Q.
Arguments safe_wp {E resp R G A} t Q P h.
Arguments safe_and_wp {E resp R G A} t Q P h Q'.
Arguments safe_wp_history {E resp R G A} t Q h.
Arguments wp_safe {E resp R G A} t Q h.
Arguments wp_rely {E resp A R P} h t Q.
Arguments safe_issues {E resp R G A} t Q h e.
Arguments safe_returns {E resp R G A} t Q h a.
Arguments safe_impl {E resp A R R' G G'} t Q Q'.
Arguments safe_and_post {E resp A R G} G' t Q Q'.
Arguments safe_trivial {E resp A} R t.
Arguments run_safe {E resp S A} handler R G s t Q.
Arguments log_issues {E resp S A} handler s t n e x.
Arguments log_Forall {E resp S A} handler I R s t.
Arguments wp_mono {E resp R P A} h t Q Q'.
Arguments wp_bind {E resp R P A B} h t f Q.
Arguments wp_seq {E resp R P A B} h t f Q1 Q.
Arguments wp_issues {E resp R P A} h t Q h' e.
Arguments wp_returns {E resp R P A} h t Q h' a.
Arguments wp_impl {E resp A R R' P P'} h t Q.
Arguments wp_and {E resp A R P P'} h t Q Q'.

#[export] Instance prog_ret E resp : MRet (prog E resp) := λ _ a, Ret a.
#[export] Instance prog_bind E resp : MBind (prog E resp) := λ _ _ f t, bind f t.
#[export] Instance prog_fmap E resp : FMap (prog E resp) := λ _ _ f t, bind (λ a, Ret (f a)) t.
