(* ===== verification/Effects.v ===== *)
(** * The controller's environment

    One event per call the controller makes outside itself: API reads and writes, discovery,
    events, metrics, the clock, and a panic, which has no answer.  Every answer of the API
    server is possible; what a theorem assumes of them it states. *)
From S2P Require Import Prelude Errors Kube Api.
From S2P Require Export Prog.

(** The answer of a call that returns [(T, error)]. *)
Abbreviation reply A := (error + A)%type.

(** The client a read goes through: the manager's cached client, or one of the direct readers. *)
Inductive reader := ClientReader | TenantReader | ExternalSecretsReader | GatewayReader.

Inductive event :=
  | EGetWorkload (namespace name : string)
  | EGetServiceAccount (namespace name : string)
  | EGetDeployment (namespace name : string)
  | EGetService (namespace name : string)
  | EGetNetworkPolicy (namespace name : string)
  | EGetHorizontalPodAutoscaler (namespace name : string)
  | EGetPodDisruptionBudget (namespace name : string)
  | EGetUnstructured (via : reader) (gvk : GroupVersionKind) (namespace name : string)
  | EGetOther (namespace name : string)
  | EGetConfigMap (via : reader) (namespace name : string)
  | EGetSecretMetadata (namespace name : string)
  | EListWorkloads (namespace : string) (field : option (string * string))
  | EServerResources (groupVersion : string)
  | ECreate (o : Object)
  | EPatch (before after : Object)
  | EDelete (o : Object) (uid resourceVersion : string)
  | EPatchStatus (before after : AIWorkload)
  | EEventf (about : AIWorkload) (eventtype reason action note : string)
  | ERecordResource (kind operation : string)
  | ERecordFailure (reason : string)
  | ENow
  | EPanic.

(** A write with an optimistic lock or preconditions answers with its error, if any; a status
    patch also fills the object with the server's response. *)
Definition answer (e : event) : Type :=
  match e with
  | EGetWorkload _ _ => reply AIWorkload
  | EGetServiceAccount _ _ => reply ServiceAccount
  | EGetDeployment _ _ => reply Deployment
  | EGetService _ _ => reply Service
  | EGetNetworkPolicy _ _ => reply NetworkPolicy
  | EGetHorizontalPodAutoscaler _ _ => reply HorizontalPodAutoscaler
  | EGetPodDisruptionBudget _ _ => reply PodDisruptionBudget
  | EGetUnstructured _ _ _ _ => reply Unstructured
  | EGetOther _ _ => reply ObjectMeta
  | EGetConfigMap _ _ _ => reply ConfigMap
  | EGetSecretMetadata _ _ => reply ObjectMeta
  | EListWorkloads _ _ => reply (list AIWorkload)
  | EServerResources _ => reply (list string)
  | ECreate _ | EPatch _ _ | EDelete _ _ _ => option error
  | EPatchStatus _ _ => reply AIWorkload
  | EEventf _ _ _ _ _ | ERecordResource _ _ | ERecordFailure _ => unit
  | ENow => Time
  | EPanic => Empty_set
  end.

Abbreviation program := (prog event answer).
Abbreviation history := (list (call event answer)).

(** ** Derived calls *)

Definition panic {A} : program A := Vis EPanic (λ x : Empty_set, match x with end).

(** Runs a pure function that may panic: its result or its error. *)
Definition pure_call {A} (m : res A) : program (reply A) :=
  match m with
  | Ok a => Ret (inr a)
  | Err e => Ret (inl e)
  | Panic => panic
  end.

(** Runs a pure function that returns no error. *)
Definition pure_value {A} (m : res A) : program A :=
  match m with
  | Ok a => Ret a
  | _ => panic
  end.

(** Reading through a pointer: a nil pointer panics. *)
Definition or_panic {A} (o : option A) : program A :=
  match o with
  | Some a => Ret a
  | None => panic
  end.

Definition reply_map {A B} (f : A → B) (r : reply A) : reply B :=
  match r with
  | inl err => inl err
  | inr a => inr (f a)
  end.

(** [if err := ...; err != nil { return fmt.Errorf(prefix+": %w", err) }] *)
Definition wrap {A} (prefix : string) (r : reply A) : reply A :=
  match r with
  | inl err => inl (Errorf prefix err)
  | inr a => inr a
  end.

Definition get_workload (ns name : string) : program (reply AIWorkload) := trigger (EGetWorkload ns name).
Definition get_Deployment (ns name : string) : program (reply Deployment) := trigger (EGetDeployment ns name).
Definition get_HorizontalPodAutoscaler (ns name : string) : program (reply HorizontalPodAutoscaler) :=
  trigger (EGetHorizontalPodAutoscaler ns name).
Definition get_PodDisruptionBudget (ns name : string) : program (reply PodDisruptionBudget) :=
  trigger (EGetPodDisruptionBudget ns name).
Definition get_Unstructured (via : reader) (gvk : GroupVersionKind) (ns name : string) : program (reply Unstructured) :=
  trigger (EGetUnstructured via gvk ns name).
Definition get_ConfigMap (via : reader) (ns name : string) : program (reply ConfigMap) :=
  trigger (EGetConfigMap via ns name).
Definition get_SecretMetadata (ns name : string) : program (reply ObjectMeta) := trigger (EGetSecretMetadata ns name).
Definition list_workloads (ns : string) (field : option (string * string)) : program (reply (list AIWorkload)) :=
  trigger (EListWorkloads ns field).
Definition server_resources (groupVersion : string) : program (reply (list string)) :=
  trigger (EServerResources groupVersion).
Definition client_Create (o : Object) : program (option error) := trigger (ECreate o).
Definition client_Patch (before after : Object) : program (option error) := trigger (EPatch before after).
Definition client_Delete (o : Object) (uid resourceVersion : string) : program (option error) :=
  trigger (EDelete o uid resourceVersion).
Definition status_Patch (before after : AIWorkload) : program (reply AIWorkload) := trigger (EPatchStatus before after).
Definition Eventf (about : AIWorkload) (eventtype reason action note : string) : program unit :=
  trigger (EEventf about eventtype reason action note).
Definition RecordResource (kind operation : string) : program unit := trigger (ERecordResource kind operation).
Definition RecordFailure (reason : string) : program unit := trigger (ERecordFailure reason).
Definition now : program Time := trigger ENow.

(** [c.Get(ctx, client.ObjectKeyFromObject(current), current)]: fills an object of the same
    dynamic type. *)
Definition get_event (current : Object) : event :=
  let ns := om_Namespace (obj_meta current) in
  let name := om_Name (obj_meta current) in
  match current with
  | OServiceAccount _ => EGetServiceAccount ns name
  | ODeployment _ => EGetDeployment ns name
  | OService _ => EGetService ns name
  | ONetworkPolicy _ => EGetNetworkPolicy ns name
  | OHorizontalPodAutoscaler _ => EGetHorizontalPodAutoscaler ns name
  | OPodDisruptionBudget _ => EGetPodDisruptionBudget ns name
  | OUnstructured u => EGetUnstructured ClientReader (un_GVK u) ns name
  | OOther _ => EGetOther ns name
  end.

Definition get_reply (current : Object) : answer (get_event current) → reply Object :=
  match current as c return answer (get_event c) → reply Object with
  | OServiceAccount _ => reply_map OServiceAccount
  | ODeployment _ => reply_map ODeployment
  | OService _ => reply_map OService
  | ONetworkPolicy _ => reply_map ONetworkPolicy
  | OHorizontalPodAutoscaler _ => reply_map OHorizontalPodAutoscaler
  | OPodDisruptionBudget _ => reply_map OPodDisruptionBudget
  | OUnstructured _ => reply_map OUnstructured
  | OOther _ => reply_map OOther
  end.

Definition client_Get (current : Object) : program (reply Object) :=
  x ← trigger (get_event current);
  Ret (get_reply current x).

(** The last call of [h] read [current]'s key and was answered [r]. *)
Definition answered (h : history) (current : Object) (r : reply Object) : Prop :=
  ∃ h' x, h = h' ++ [Call (get_event current) x] ∧ get_reply current x = r.

(** ** Classes of calls *)

Definition is_child_write (e : event) : bool :=
  match e with
  | ECreate _ | EPatch _ _ | EDelete _ _ _ => true
  | _ => false
  end.

Definition is_status_write (e : event) : bool :=
  match e with EPatchStatus _ _ => true | _ => false end.

Definition is_write (e : event) : bool := is_child_write e || is_status_write e.

(** The object a child write is about. *)
Definition written_object (e : event) : option Object :=
  match e with
  | ECreate o => Some o
  | EPatch before _ => Some before
  | EDelete o _ _ => Some o
  | _ => None
  end.
