(* ===== verification/KubeReference.v ===== *)
(** * Reference implementations of the library parameters

    Executable instances of the classes of [Kube], with the laws proved of them.  They show that
    the laws are consistent and they are what the examples evaluate; no theorem about the
    controller depends on them. *)
From S2P Require Import Prelude Errors GoStd Kube Effects.

Module Ref.

(** ** API errors *)

Definition reason_text (t : status_reason_test) : string :=
  match t with
  | NotFound => "NotFound"
  | AlreadyExists => "AlreadyExists"
  | Conflict => "Conflict"
  | Forbidden => "Forbidden"
  | Timeout => "Timeout"
  | ServerTimeout => "ServerTimeout"
  | TooManyRequests => "TooManyRequests"
  | Invalid => "Invalid"
  end.

#[export] Instance api_errors : ApiErrors := λ t e,
  match root_cause e with
  | APIError s => bool_decide (status_reason s = reason_text t)
  | _ => false
  end.

#[export] Instance api_errors_laws : ApiErrorsLaws.
Proof. by split. Qed.

(** An API error with the reason of a test. *)
Definition api_error (t : status_reason_test) (text : string) : error :=
  APIError {| status_reason := reason_text t; status_text := text |}.

(** ** Quantities: decimal integers, with an optional sign and the suffix m for thousandths *)

Fixpoint parse_digits (s : string) (acc : Z) : option Z :=
  match s with
  | "" => Some (acc * 1000)%Z
  | "m" => Some acc
  | String a s' =>
      let n := Z.of_N (N_of_ascii a) in
      if ((48 <=? n) && (n <=? 57))%Z then parse_digits s' (acc * 10 + (n - 48))%Z else None
  end.

Definition milli (s : string) : option Z :=
  match s with
  | "" | "-" => None
  | String "-" s' => Z.opp <$> parse_digits s' 0
  | _ => parse_digits s 0
  end.

Definition milli_of (q : Quantity) : Z := default 0%Z (milli (quantity_text q)).

#[export] Instance quantities : Quantities := {
  ParseQuantity s := (λ _, MkQuantity s) <$> milli s;
  Quantity_Sign q := Z.sgn (milli_of q);
  Quantity_Cmp q r := Z.sgn (milli_of q - milli_of r)
}.

#[export] Instance quantities_laws : QuantitiesLaws.
Proof. split. intros q. simpl. by rewrite Z.sub_diag. Qed.

(** ** Owner references *)

Definition is_controller (r : OwnerReference) : bool := bool_decide (or_Controller r = Some true).

Definition same_owner (r s : OwnerReference) : bool :=
  bool_decide (or_APIVersion r = or_APIVersion s) && bool_decide (or_Kind r = or_Kind s) &&
  bool_decide (or_Name r = or_Name s).

Definition upsert (ref : OwnerReference) (refs : list OwnerReference) : list OwnerReference :=
  match first_index (same_owner ref) refs with
  | Some i => <[i := ref]> refs
  | None => refs ++ [ref]
  end.

#[export] Instance owner_helpers : OwnerHelpers := {
  Time_IsZero t := bool_decide (t = None);
  Time_Equal t u := bool_decide (t = u);
  GetControllerOf refs := first_match is_controller refs;
  SetControllerReference v k owner b ns refs :=
    let ref := {| or_APIVersion := v; or_Kind := k; or_Name := om_Name owner; or_UID := om_UID owner;
                  or_Controller := Some true; or_BlockOwnerDeletion := Some b |} in
    if negb (bool_decide (om_Namespace owner = ns)) then None
    else match first_match is_controller refs with
    | Some existing => if same_owner ref existing then Some (upsert ref refs) else None
    | None => Some (upsert ref refs)
    end
}.

Lemma same_owner_refl r : same_owner r r = true.
Proof. unfold same_owner. by rewrite !bool_decide_true. Qed.

Lemma upsert_controller ref refs :
  is_controller ref = true →
  (∀ r, first_match is_controller refs = Some r → same_owner ref r = true) →
  first_match is_controller (upsert ref refs) = Some ref.
Proof.
  intros Hc. unfold upsert. induction refs as [|r refs IH]; simpl; intros Hr; [by rewrite Hc|].
  destruct (same_owner ref r) eqn:Es; simpl; [by rewrite Hc|].
  destruct (is_controller r) eqn:Er.
  - rewrite (Hr r eq_refl) in Es. done.
  - specialize (IH Hr). destruct (first_index (same_owner ref) refs); simpl; by rewrite Er.
Qed.

Lemma upsert_idemp ref refs : upsert ref (upsert ref refs) = upsert ref refs.
Proof.
  unfold upsert. induction refs as [|r refs IH]; simpl; [by rewrite same_owner_refl|].
  destruct (same_owner ref r) eqn:Es; simpl; [by rewrite same_owner_refl|].
  destruct (first_index (same_owner ref) refs) eqn:Ef; simpl; rewrite Es; simpl in *.
  - destruct (first_index (same_owner ref) (<[_:=ref]> refs)); simpl in *; congruence.
  - destruct (first_index (same_owner ref) (refs ++ [ref])); simpl in *; congruence.
Qed.

#[export] Instance owner_helpers_laws : OwnerHelpersLaws.
Proof.
  split; try done.
  - intros t. simpl. by apply bool_decide_true.
  - intros refs r [? ?%bool_decide_eq_true]%first_match_Some. done.
  - intros v k owner b ns refs refs' Hs. simpl in *. case_match; [done|].
    destruct (first_match is_controller refs) eqn:E; [destruct (same_owner _ _) eqn:Es; [|done]|];
      injection Hs as <-; apply upsert_controller; try done; intros; simplify_eq; done.
  - intros v k owner b ns refs refs' Hs. simpl in *. case_match; [done|].
    assert (refs' = upsert {| or_APIVersion := v; or_Kind := k; or_Name := om_Name owner;
      or_UID := om_UID owner; or_Controller := Some true; or_BlockOwnerDeletion := Some b |} refs ∧
      first_match is_controller refs' = Some {| or_APIVersion := v; or_Kind := k; or_Name := om_Name owner;
      or_UID := om_UID owner; or_Controller := Some true; or_BlockOwnerDeletion := Some b |}) as [-> ->].
    { destruct (first_match is_controller refs) eqn:E; [destruct (same_owner _ _) eqn:Es; [|done]|];
        injection Hs as <-; (split; [done|]); apply upsert_controller; try done; intros; simplify_eq; done. }
    by rewrite same_owner_refl, upsert_idemp.
  - intros v k owner owner' b ns refs Hn Hns Hu. simpl. by rewrite Hn, Hns, Hu.
  - intros v k owner b ns refs Hns Hc. simpl in *. rewrite bool_decide_true by done. simpl.
    destruct (first_match is_controller refs) as [r|]; [|done]. destruct (Hc r eq_refl) as (Hv & Hk & Hn).
    unfold same_owner. simpl. by rewrite Hv, Hk, Hn, !bool_decide_true.
Qed.

(** ** Status conditions *)

Definition has_type (t : string) (c : Condition) : bool := bool_decide (c_Type c = t).

Definition with_time (t : Time) (c : Condition) : Condition := {|
  c_Type := c_Type c; c_Status := c_Status c; c_ObservedGeneration := c_ObservedGeneration c;
  c_LastTransitionTime := t; c_Reason := c_Reason c; c_Message := c_Message c |}.

#[export] Instance conditions : Conditions := {
  FindStatusCondition cs t := first_match (has_type t) cs;
  SetStatusCondition now cs c :=
    match first_index (has_type (c_Type c)) cs with
    | None => cs ++ [with_time now c]
    | Some i => alter (λ old, with_time (if decide (c_Status old = c_Status c) then c_LastTransitionTime old else now) c) i cs
    end;
  RemoveStatusCondition cs t := filter (λ c, c_Type c ≠ t) cs;
  IsStatusConditionTrue cs t :=
    match first_match (has_type t) cs with
    | Some c => bool_decide (c_Status c = ConditionTrue)
    | None => false
    end
}.

Lemma same_observation_with_time t c : same_observation (with_time t c) c.
Proof. by repeat split. Qed.

Lemma with_time_same d c : same_observation d c → with_time (c_LastTransitionTime d) c = d.
Proof. destruct d, c. unfold same_observation, with_time. simpl. by intros (-> & -> & -> & -> & ->). Qed.

Lemma has_type_with_time t now c : has_type t (with_time now c) = has_type t c.
Proof. done. Qed.

Lemma has_type_refl c : has_type (c_Type c) c = true.
Proof. by apply bool_decide_true. Qed.

Lemma has_type_other t c : t ≠ c_Type c → has_type t c = false.
Proof. intros. by apply bool_decide_false. Qed.

#[export] Instance conditions_laws : ConditionsLaws.
Proof.
  split; simpl.
  - intros cs t c [? ?%bool_decide_eq_true]%first_match_Some. done.
  - intros cs t. rewrite first_match_None. unfold has_type. by setoid_rewrite bool_decide_eq_false.
  - intros cs ds t. induction cs as [|x cs IH]; simpl; [done|]. by destruct (has_type t x).
  - intros now cs c. induction cs as [|x cs IH]; simpl.
    + rewrite has_type_with_time, has_type_refl. eauto using same_observation_with_time.
    + destruct (has_type (c_Type c) x) eqn:E; simpl.
      * rewrite has_type_with_time, has_type_refl. eauto using same_observation_with_time.
      * destruct (first_index _ cs); simpl; by rewrite E.
  - intros now cs c t Ht. induction cs as [|x cs IH]; simpl.
    + by rewrite has_type_with_time, has_type_other.
    + destruct (has_type (c_Type c) x) eqn:E; simpl.
      * apply bool_decide_eq_true in E. rewrite has_type_with_time, !has_type_other by congruence. done.
      * destruct (first_index _ cs); simpl in *; by destruct (has_type t x).
  - intros now cs c. induction cs as [|x cs IH]; simpl; [done|].
    destruct (has_type (c_Type c) x) eqn:E; simpl.
    + apply bool_decide_eq_true in E. by rewrite E.
    + destruct (first_index _ cs) , (first_match (has_type (c_Type c)) cs);
        cbn in IH |- *; f_equal; exact IH.
  - intros now cs c d. induction cs as [|x cs IH]; simpl.
    + rewrite list_elem_of_singleton. intros ->. left. apply same_observation_with_time.
    + destruct (has_type (c_Type c) x) eqn:E; simpl.
      * intros [->|?]%elem_of_cons; [left; apply same_observation_with_time|right; by right].
      * destruct (first_index _ cs); simpl; intros [->|Hd]%elem_of_cons;
          [right; by left| |right; by left|]; destruct (IH Hd); auto; right; by right.
  - intros now cs c d. induction cs as [|x cs IH]; simpl; [done|].
    destruct (has_type (c_Type c) x) eqn:E; simpl.
    + intros [= ->] Hs. rewrite decide_True by apply Hs. by rewrite with_time_same.
    + intros Hf Hs. specialize (IH Hf Hs). destruct (first_index _ cs); cbn in IH |- *; f_equal; exact IH.
  - intros cs t d. rewrite list_elem_of_filter. tauto.
  - intros cs t. apply sublist_filter.
  - intros cs t u Hu. induction cs as [|x cs IH]; simpl; [done|].
    rewrite filter_cons. case_decide as Hx; simpl; rewrite IH; [done|].
    by rewrite has_type_other by congruence.
  - intros cs t. induction cs as [|x cs IH]; simpl; [done|]. rewrite filter_cons. unfold has_type at 1.
    case_bool_decide as Hx; [done|]. intros Hf. rewrite decide_True by done. by rewrite IH.
  - intros cs t. destruct (first_match _ cs) as [c|]; [|naive_solver].
    rewrite bool_decide_eq_true. naive_solver.
Qed.

(** ** Unstructured objects *)

Fixpoint nested (m : gomap) (path : list string) : option any :=
  match path with
  | [] => None
  | [k] => match any_get m k with ANil => None | v => Some v end
  | k :: path' => match any_get m k with AMap m' => nested m' path' | _ => None end
  end.

Fixpoint set_nested (m : gomap) (v : any) (path : list string) : gomap :=
  match path with
  | [] => m
  | [k] => any_set m k v
  | k :: path' => any_set m k (AMap (set_nested (match any_get m k with AMap m' => m' | _ => [] end) v path'))
  end.

#[export] Instance unstructured_helpers : UnstructuredHelpers := {
  NestedString m path :=
    match nested m path with
    | None => Some ("", false)
    | Some (AString s) => Some (s, true)
    | Some _ => None
    end;
  NestedSlice m path :=
    match nested m path with
    | None => Some ([], false)
    | Some (ASlice l) => Some (l, true)
    | Some _ => None
    end;
  SetNestedField m v path := (set_nested m v path, None)
}.

#[export] Instance unstructured_helpers_laws : UnstructuredHelpersLaws.
Proof. by split. Qed.

(** ** Semantic equality *)

#[export] Instance deep_equal A `{EqDecision A} : SemanticDeepEqual A := λ a b, bool_decide (a = b).

#[export] Instance deep_equal_laws A `{EqDecision A} : SemanticDeepEqualLaws A.
Proof. intros a. by apply bool_decide_true. Qed.

#[export] Instance deep_equal_exact A `{EqDecision A} : SemanticDeepEqualExact A.
Proof. intros a b. by apply bool_decide_eq_true_1. Qed.

End Ref.
