(* ===== verification/Sample.v ===== *)
(** * A sample cluster

    A small API server, as a deterministic environment, and sample workloads: what the examples
    and the witnesses run the controller against. *)
From S2P Require Import Prelude Errors Kube Api Effects KubeReference.

Module Sample.

Record server := {
  srv_workload : AIWorkload;
  srv_children : list Object;
  srv_profile : option ConfigMap;
  srv_unstructured : list Unstructured;
  srv_apis : list string;
  srv_secrets : list string;
  srv_writes : N
}.

Definition not_found : error := Ref.api_error NotFound "not found".

Definition same_key (ns name : string) (m : ObjectMeta) : bool :=
  bool_decide (om_Namespace m = ns) && bool_decide (om_Name m = name).

Definition answer_of {A} (o : option A) : reply A :=
  match o with
  | Some a => inr a
  | None => inl not_found
  end.

(** The first child a selection accepts. *)
Definition find_child {A} (sel : Object → option A) (ns name : string) (s : server) : option A :=
  foldr (λ o acc, if same_key ns name (obj_meta o) then match sel o with Some a => Some a | None => acc end else acc)
    None (srv_children s).

Definition find_unstructured (gvk : GroupVersionKind) (ns name : string) (s : server) : option Unstructured :=
  match find_child (λ o, match o with OUnstructured x => if bool_decide (un_GVK x = gvk) then Some x else None
                         | _ => None end) ns name s with
  | Some x => Some x
  | None => first_match (λ u, bool_decide (un_GVK u = gvk) && same_key ns name (un_meta u)) (srv_unstructured s)
  end.

(** The metadata of a stored object. *)
Definition stamp (n : N) (m : ObjectMeta) : ObjectMeta := {|
  om_Name := om_Name m; om_Namespace := om_Namespace m;
  om_UID := if bool_decide (om_UID m = "") then "uid-" +:+ pretty n else om_UID m;
  om_ResourceVersion := pretty n; om_Generation := om_Generation m;
  om_DeletionTimestamp := om_DeletionTimestamp m; om_Labels := om_Labels m;
  om_Annotations := om_Annotations m; om_OwnerReferences := om_OwnerReferences m;
  om_Finalizers := om_Finalizers m; om_other := om_other m |}.

Definition store (o : Object) (s : server) : Object := with_meta (stamp (srv_writes s) (obj_meta o)) o.

Definition with_children (f : list Object → list Object) (s : server) : server := {|
  srv_workload := srv_workload s; srv_children := f (srv_children s); srv_profile := srv_profile s;
  srv_unstructured := srv_unstructured s; srv_apis := srv_apis s; srv_secrets := srv_secrets s;
  srv_writes := (srv_writes s + 1)%N |}.

Definition with_workload (w : AIWorkload) (s : server) : server := {|
  srv_workload := w; srv_children := srv_children s; srv_profile := srv_profile s;
  srv_unstructured := srv_unstructured s; srv_apis := srv_apis s; srv_secrets := srv_secrets s;
  srv_writes := (srv_writes s + 1)%N |}.

Definition same_uid (o o' : Object) : bool := bool_decide (om_UID (obj_meta o) = om_UID (obj_meta o')).

Definition handler (s : server) (e : event) : option (server * answer e) :=
  match e return option (server * answer e) with
  | EGetWorkload ns name =>
      Some (s, if same_key ns name (w_meta (srv_workload s)) then inr (srv_workload s) else inl not_found)
  | EGetServiceAccount ns name =>
      Some (s, answer_of (find_child (λ o, match o with OServiceAccount x => Some x | _ => None end) ns name s))
  | EGetDeployment ns name =>
      Some (s, answer_of (find_child (λ o, match o with ODeployment x => Some x | _ => None end) ns name s))
  | EGetService ns name =>
      Some (s, answer_of (find_child (λ o, match o with OService x => Some x | _ => None end) ns name s))
  | EGetNetworkPolicy ns name =>
      Some (s, answer_of (find_child (λ o, match o with ONetworkPolicy x => Some x | _ => None end) ns name s))
  | EGetHorizontalPodAutoscaler ns name =>
      Some (s, answer_of (find_child (λ o, match o with OHorizontalPodAutoscaler x => Some x | _ => None end) ns name s))
  | EGetPodDisruptionBudget ns name =>
      Some (s, answer_of (find_child (λ o, match o with OPodDisruptionBudget x => Some x | _ => None end) ns name s))
  | EGetUnstructured _ gvk ns name => Some (s, answer_of (find_unstructured gvk ns name s))
  | EGetOther _ _ => Some (s, inl not_found)
  | EGetConfigMap _ ns name =>
      Some (s, match srv_profile s with
               | Some p => if same_key ns name (cm_meta p) then inr p else inl not_found
               | None => inl not_found end)
  | EGetSecretMetadata ns name =>
      Some (s, if bool_decide (name ∈ srv_secrets s) then inr (new_meta name ns) else inl not_found)
  | EListWorkloads ns _ => Some (s, inr [srv_workload s])
  | EServerResources _ => Some (s, inr (srv_apis s))
  | ECreate o => Some (with_children (λ l, l ++ [store o s]) s, None)
  | EPatch before after =>
      Some (with_children (fmap (λ o, if same_uid o before then store after s else o)) s, None)
  | EDelete o _ _ => Some (with_children (filter (λ o', same_uid o' o = false)) s, None)
  | EPatchStatus _ after => Some (with_workload after s, inr after)
  | EEventf _ _ _ _ _ | ERecordResource _ _ | ERecordFailure _ => Some (s, tt)
  | ENow => Some (s, 0%Z)
  | EPanic => None
  end.

(** The calls of a program against the cluster, and the event of the call [n]. *)
Definition calls {A} (s : server) (t : program A) : history := log handler s t.

Definition nth_event (h : history) (n : nat) : event :=
  match h !! n with
  | Some c => call_event c
  | None => EPanic
  end.

Lemma issued {A} (s : server) (t : program A) n :
  (n <? length (calls s t))%nat = true → issues t (take n (calls s t)) (nth_event (calls s t) n).
Proof.
  intros Hn%Nat.ltb_lt. destruct (lookup_lt_is_Some_2 _ _ Hn) as [[e x] Hc].
  unfold nth_event. rewrite Hc. by eapply log_issues.
Qed.

(** A result that is known to be there. *)
Definition result_of {A} (m : res A) (d : A) : A := match m with Ok a => a | _ => d end.
Definition is_ok {A} (m : res A) : bool := match m with Ok _ => true | _ => false end.

Lemma result_of_Ok {A} (m : res A) d : is_ok m = true → m = Ok (result_of m d).
Proof. by destruct m. Qed.

(** ** Workloads *)

Definition ns : string := "awcp-workloads".

Definition spec : AIWorkloadSpec := {|
  sp_Environment := "prod"; sp_Tenant := ""; sp_Policy := ""; sp_Image := "registry.example/app:1";
  sp_Replicas := Some 2%Z; sp_Autoscaling := None; sp_Availability := None;
  sp_Container := {| cs_Port := 8080 |};
  sp_Resources := Some {| rr_Requests := {["cpu" := "100m"]}; rr_Limits := {["cpu" := "1"]} |};
  sp_Health := None; sp_Service := None; sp_Exposure := None; sp_SecretRefs := ["direct"];
  sp_ExternalSecrets := []; sp_Network := None |}.

Definition meta : ObjectMeta := {|
  om_Name := "sample"; om_Namespace := ns; om_UID := "w-uid"; om_ResourceVersion := "1";
  om_Generation := 3; om_DeletionTimestamp := None; om_Labels := None; om_Annotations := None;
  om_OwnerReferences := []; om_Finalizers := []; om_other := [] |}.

Definition empty_status : AIWorkloadStatus := {|
  wst_ObservedGeneration := 0; wst_DesiredReplicas := 0; wst_ReadyReplicas := 0;
  wst_Endpoint := ""; wst_Conditions := [] |}.

Definition workload : AIWorkload := {| w_meta := meta; w_Spec := spec; w_Status := empty_status |}.

(** The workload with everything optional: tenant, autoscaling, budget, external Secret, route. *)
Definition full_spec : AIWorkloadSpec := {|
  sp_Environment := "prod"; sp_Tenant := "team-a"; sp_Policy := ""; sp_Image := "registry.example/app:1";
  sp_Replicas := Some 2%Z;
  sp_Autoscaling := Some {| as_Enabled := Some true; as_MinReplicas := Some 3%Z; as_MaxReplicas := Some 6%Z;
    as_Metrics := [{| am_Type := AutoscalingCPU; am_TargetUtilization := Some 70%Z; am_MetricName := "";
                      am_TargetValue := None |}];
    as_ScaleDownStabilizationSeconds := None |};
  sp_Availability := Some {| av_Enabled := Some true; av_MinAvailable := Some 2%Z; av_MaxUnavailable := None |};
  sp_Container := {| cs_Port := 8080 |}; sp_Resources := None; sp_Health := None; sp_Service := None;
  sp_Exposure := Some {| ex_Mode := ExposureHTTPRoute; ex_Gateway := "edge"; ex_SectionName := "http";
    ex_Hostname := "app.example"; ex_Path := "/" |};
  sp_SecretRefs := ["direct"];
  sp_ExternalSecrets := [{| er_ExternalSecret := "ext"; er_TargetSecret := "target" |}];
  sp_Network := Some {| ns_Enabled := Some false |} |}.

Definition full_workload : AIWorkload := {| w_meta := meta; w_Spec := full_spec; w_Status := empty_status |}.

Definition profile : ConfigMap := {|
  cm_meta := new_meta "awcp-tenant-profile" ns;
  cm_Data := <["tenant" := "team-a"]> {["profile" := "small"]}; cm_other := [] |}.

(** An unstructured object with a true condition. *)
Definition with_condition (gvk : GroupVersionKind) (name typ : string) (fields : gomap) : Unstructured := {|
  un_GVK := gvk; un_meta := new_meta name ns;
  un_Object := fields ++ [("status", AMap [("conditions", ASlice [AMap [
    ("type", AString typ); ("status", AString "True")]])])] |}.

Definition unstructured : list Unstructured := [
  with_condition {| gvk_Group := "external-secrets.io"; gvk_Version := "v1"; gvk_Kind := "ExternalSecret" |}
    "ext" "Ready" [("spec", AMap [
      ("secretStoreRef", AMap [("name", AString "vault"); ("kind", AString "SecretStore")]);
      ("target", AMap [("name", AString "target")])])];
  with_condition {| gvk_Group := "external-secrets.io"; gvk_Version := "v1"; gvk_Kind := "SecretStore" |}
    "vault" "Ready" [];
  with_condition {| gvk_Group := "gateway.networking.k8s.io"; gvk_Version := "v1"; gvk_Kind := "Gateway" |}
    "edge" "Programmed" []].

Definition cluster (w : AIWorkload) : server := {|
  srv_workload := w; srv_children := []; srv_profile := Some profile; srv_unstructured := unstructured;
  srv_apis := ["secretstores"; "externalsecrets"; "gateways"; "httproutes"];
  srv_secrets := ["direct"; "target"]; srv_writes := 10 |}.

End Sample.
