(* ===== verification/Naming.v ===== *)
(** * Child identity (internal/resource/plan.go, internal/resource/deployment.go)

    The deterministic child name, the selector labels, and the metadata every managed object
    carries. *)
From S2P Require Import Prelude Errors GoStd Sha256 Kube Api.

(** ** Names *)

(** [fmt.Sprintf("awcp-%s-%x", prefix, sum[:8])] *)
Definition ChildName (name : string) : string :=
  let prefix := if (40 <? String.length name)%nat then take_bytes 40 name else name in
  let prefix := TrimRight (ReplaceAll prefix "." "-") "-" in
  let sum := Sum256 (bytes name) in
  "awcp-" +:+ prefix +:+ "-" +:+ hex (take 8 sum).

Definition ContainerName : string := "workload".
Definition HTTPPortName : string := "http".
Definition InstanceLabel : string := "app.kubernetes.io/instance".
Definition UIDLabel : string := "platform.example.io/workload-uid".
Definition EnvironmentLabel : string := "platform.example.io/environment".
Definition TenantLabel : string := "platform.example.io/tenant".
Definition WorkloadNameAnnotation : string := "platform.example.io/workload-name".

(** ** Labels and metadata *)

Definition SelectorLabels (p : AIWorkload) : gmap string string :=
  <[InstanceLabel := ChildName (w_Name p)]> {[UIDLabel := w_UID p]}.

(** Writing an optional identity label: present when the spec sets it, removed otherwise. *)
Definition optional_label (key value : string) (labels : gmap string string) : gmap string string :=
  if bool_decide (value = "") then delete key labels else <[key := value]> labels.

(** The label assignments [managedMetadata] and [mutateHTTPRoute] make, in their order; the
    range over the selector map writes distinct keys, so its order does not matter. *)
Definition managedLabels (p : AIWorkload) (labels : gmap string string) : gmap string string :=
  let labels := SelectorLabels p ∪ labels in
  let labels := <["app.kubernetes.io/name" := "ai-workload"]> labels in
  let labels := <["app.kubernetes.io/part-of" := "ai-workload-control-plane"]> labels in
  let labels := <["app.kubernetes.io/managed-by" := "awcp-controller"]> labels in
  let labels := optional_label EnvironmentLabel (sp_Environment (w_Spec p)) labels in
  optional_label TenantLabel (sp_Tenant (w_Spec p)) labels.

Definition managedMetadata (m : ObjectMeta) (p : AIWorkload) : ObjectMeta :=
  let m := set_labels (managedLabels p (map_of (om_Labels m))) m in
  set_annotations (<[WorkloadNameAnnotation := w_Name p]> (map_of (om_Annotations m))) m.

(** ** DNS labels *)

Definition is_lower (a : ascii) : bool := let n := N_of_ascii a in ((97 <=? n) && (n <=? 122))%N.
Definition is_digit (a : ascii) : bool := let n := N_of_ascii a in ((48 <=? n) && (n <=? 57))%N.
Definition is_alnum (a : ascii) : bool := is_lower a || is_digit a.
Definition is_label_byte (a : ascii) : bool := is_alnum a || bool_decide (a = "-"%char).

Fixpoint ends_alnum (s : string) : bool :=
  match s with
  | "" => false
  | String a "" => is_alnum a
  | String _ s' => ends_alnum s'
  end.

(** RFC 1035 label, the format of Service names: [[a-z]([-a-z0-9]*[a-z0-9])?], at most 63 bytes. *)
Definition is_dns1035_label (s : string) : bool :=
  match s with
  | "" => false
  | String a _ => is_lower a && all_bytes is_label_byte s && ends_alnum s && (String.length s <=? 63)%nat
  end.

(** The bytes of a DNS-1123 subdomain, the format of AIWorkload names. *)
Definition is_subdomain_byte (a : ascii) : bool := is_label_byte a || bool_decide (a = "."%char).

#[global] Arguments ChildName : simpl never.

(** ** Facts *)

Definition is_hex_byte (a : ascii) : bool := is_digit a || (let n := N_of_ascii a in ((97 <=? n) && (n <=? 102))%N).

Lemma hex_digit_is_hex n : (n < 16)%N → is_hex_byte (hex_digit n) = true.
Proof.
  intros Hn. unfold is_hex_byte, is_digit, hex_digit. cbv zeta.
  destruct (N.ltb_spec n 10); rewrite N_ascii_embedding by lia;
    rewrite ?orb_true_iff, ?andb_true_iff, ?N.leb_le; lia.
Qed.

Lemma hex_byte_is_alnum a : is_hex_byte a = true → is_alnum a = true.
Proof.
  unfold is_hex_byte, is_alnum, is_lower. cbv zeta.
  rewrite !orb_true_iff, !andb_true_iff, !N.leb_le. intros [?|[??]]; [by right|left; lia].
Qed.

Lemma alnum_is_label_byte a : is_alnum a = true → is_label_byte a = true.
Proof. unfold is_label_byte. by intros ->. Qed.

Lemma all_bytes_impl f g s :
  (∀ a, f a = true → g a = true) → all_bytes f s = true → all_bytes g s = true.
Proof. intros Hfg. induction s as [|a s IH]; simpl; [done|]. rewrite !andb_true_iff. naive_solver. Qed.

Lemma all_hex_hex bs : all_bytes is_hex_byte (hex bs) = true.
Proof.
  induction bs as [|b bs IH]; [done|]. simpl hex. rewrite all_bytes_append, IH. simpl.
  rewrite !hex_digit_is_hex by (apply N.mod_lt; lia). done.
Qed.

Lemma ends_alnum_append s t : t ≠ "" → ends_alnum (s +:+ t) = ends_alnum t.
Proof.
  intros Ht. induction s as [|a s IH]; autorewrite with awcp_string; [done|].
  simpl. destruct s as [|b s]; autorewrite with awcp_string in *; [by destruct t|done].
Qed.

Lemma ends_alnum_all s : s ≠ "" → all_bytes is_alnum s = true → ends_alnum s = true.
Proof.
  induction s as [|a [|b s] IH]; [done| |].
  - simpl. rewrite andb_true_r. done.
  - intros _. change (all_bytes is_alnum (String a (String b s)))
      with (is_alnum a && all_bytes is_alnum (String b s)).
    intros [_ H]%andb_true_iff. by apply IH.
Qed.

Lemma ChildName_length_le name : (String.length (ChildName name) ≤ 62)%nat.
Proof.
  unfold ChildName. set (p := if (40 <? String.length name)%nat then _ else _).
  assert (String.length p ≤ 40)%nat.
  { subst p. destruct (Nat.ltb_spec 40 (String.length name)); [rewrite length_take_bytes|]; lia. }
  pose proof (length_TrimRight (ReplaceAll p "." "-") "-") as Hlen. rewrite length_ReplaceAll in Hlen.
  rewrite !length_append, length_hex, length_take, length_Sum256. simpl. lia.
Qed.

Lemma ChildName_bytes name :
  all_bytes is_subdomain_byte name = true → all_bytes is_label_byte (ChildName name) = true.
Proof.
  intros Hn. unfold ChildName. rewrite !all_bytes_append.
  rewrite (all_bytes_impl is_hex_byte _ (hex _)), all_bytes_TrimRight; [done| | |apply all_hex_hex].
  - apply (all_bytes_ReplaceAll is_subdomain_byte); [|done|].
    + case_match; [by apply all_bytes_take|done].
    + unfold is_subdomain_byte. intros a [?|?%bool_decide_eq_true]%orb_true_iff ?; done.
  - intros a Ha. by apply alnum_is_label_byte, hex_byte_is_alnum.
Qed.

(** What [managedMetadata] does to the label [k]: nothing for a foreign key; otherwise it sets it
    or, for an absent optional identity, removes it. *)
Definition managed_label (p : AIWorkload) (k : string) : option (option string) :=
  let optional v := if bool_decide (v = "") then None else Some v in
  if decide (k = TenantLabel) then Some (optional (sp_Tenant (w_Spec p)))
  else if decide (k = EnvironmentLabel) then Some (optional (sp_Environment (w_Spec p)))
  else if decide (k = "app.kubernetes.io/managed-by") then Some (Some "awcp-controller")
  else if decide (k = "app.kubernetes.io/part-of") then Some (Some "ai-workload-control-plane")
  else if decide (k = "app.kubernetes.io/name") then Some (Some "ai-workload")
  else if decide (k = InstanceLabel) then Some (Some (ChildName (w_Name p)))
  else if decide (k = UIDLabel) then Some (Some (w_UID p))
  else None.

Lemma optional_label_lookup key v l k :
  optional_label key v l !! k =
  if decide (k = key) then (if bool_decide (v = "") then None else Some v) else l !! k.
Proof. unfold optional_label. repeat case_decide; repeat case_bool_decide; by simplify_map_eq. Qed.

Lemma managedLabels_lookup p l k :
  managedLabels p l !! k = match managed_label p k with Some v => v | None => l !! k end.
Proof.
  unfold managedLabels, managed_label. rewrite !optional_label_lookup.
  case_decide; [done|]. case_decide; [done|].
  rewrite !lookup_insert. do 3 (rewrite (decide_ext (_ = k) (k = _)) by done; case_decide; [done|]).
  rewrite lookup_union. unfold SelectorLabels.
  case_decide; [subst; rewrite lookup_insert_eq; by destruct (l !! _)|].
  rewrite lookup_insert_ne by done.
  case_decide; [subst; rewrite lookup_singleton_eq; by destruct (l !! _)|].
  rewrite lookup_singleton_ne by done. by destruct (l !! k).
Qed.

Lemma managedLabels_idemp p l : managedLabels p (managedLabels p l) = managedLabels p l.
Proof. apply map_eq. intros k. rewrite !managedLabels_lookup. by destruct (managed_label p k). Qed.

Lemma SelectorLabels_managed p l : SelectorLabels p ⊆ managedLabels p l.
Proof.
  apply map_subseteq_spec. intros k v. unfold SelectorLabels. rewrite managedLabels_lookup.
  intros [[<- <-]|[? [<- <-]%lookup_singleton_Some]]%lookup_insert_Some; done.
Qed.

(** Metadata that carries the labels and annotations of a managed object is left alone. *)
Lemma managedMetadata_fixpoint m m0 p :
  om_Labels m = om_Labels (managedMetadata m0 p) →
  om_Annotations m = om_Annotations (managedMetadata m0 p) → managedMetadata m p = m.
Proof.
  destruct m; unfold managedMetadata, set_annotations, set_labels; simpl.
  intros -> ->. simpl. by rewrite managedLabels_idemp, insert_insert_eq.
Qed.

Lemma managedMetadata_idemp m p : managedMetadata (managedMetadata m p) p = managedMetadata m p.
Proof. by apply (managedMetadata_fixpoint _ m). Qed.

(** [managedMetadata] touches labels and annotations only. *)
Definition same_identity (m m' : ObjectMeta) : Prop :=
  om_Name m = om_Name m' ∧ om_Namespace m = om_Namespace m' ∧ om_UID m = om_UID m' ∧
  om_ResourceVersion m = om_ResourceVersion m' ∧ om_OwnerReferences m = om_OwnerReferences m' ∧
  om_Finalizers m = om_Finalizers m' ∧ om_DeletionTimestamp m = om_DeletionTimestamp m' ∧
  om_Generation m = om_Generation m' ∧ om_other m = om_other m'.

Lemma managedMetadata_identity m p : same_identity (managedMetadata m p) m.
Proof. done. Qed.

#[export] Hint Resolve managedMetadata_identity : awcp.
#[export] Hint Rewrite managedMetadata_idemp managedLabels_idemp : awcp.
