(* ===== verification/Intent.v ===== *)
(** * Child intents (internal/resource/plan.go)

    An intent targets one child; its mutation maps the current object to the desired one.  In
    Go the mutation works in place and its callers drop the object when it returns an error, so
    it is a function to an outcome. *)
From S2P Require Import Prelude Errors Kube Api.

Record Intent := {
  i_Object : ObjectPtr;
  i_Mutate : option (Object → res Object);
  i_Absent : bool
}.

(** [resource.Builder], as its one method. *)
Definition Builder : Type := option AIWorkload → res (list Intent).

(** The identity an intent targets: [o.GetNamespace()], [o.GetName()] and the rest of the
    metadata; a nil pointer has none. *)
Definition ptr_meta (o : ObjectPtr) : option ObjectMeta :=
  match o with
  | Pointer o => Some (obj_meta o)
  | _ => None
  end.

(** The type assertions at the head of the mutations, [o.( *T )]: another dynamic type is
    [ErrInvalidConfiguration]. *)
Definition on_ServiceAccount (f : ServiceAccount → res ServiceAccount) (o : Object) : res Object :=
  match o with OServiceAccount x => OServiceAccount <$> f x | _ => invalid end.
Definition on_Deployment (f : Deployment → res Deployment) (o : Object) : res Object :=
  match o with ODeployment x => ODeployment <$> f x | _ => invalid end.
Definition on_Service (f : Service → res Service) (o : Object) : res Object :=
  match o with OService x => OService <$> f x | _ => invalid end.
Definition on_NetworkPolicy (f : NetworkPolicy → res NetworkPolicy) (o : Object) : res Object :=
  match o with ONetworkPolicy x => ONetworkPolicy <$> f x | _ => invalid end.
Definition on_HorizontalPodAutoscaler (f : HorizontalPodAutoscaler → res HorizontalPodAutoscaler) (o : Object) : res Object :=
  match o with OHorizontalPodAutoscaler x => OHorizontalPodAutoscaler <$> f x | _ => invalid end.
Definition on_PodDisruptionBudget (f : PodDisruptionBudget → res PodDisruptionBudget) (o : Object) : res Object :=
  match o with OPodDisruptionBudget x => OPodDisruptionBudget <$> f x | _ => invalid end.

(** [&T{ObjectMeta: metav1.ObjectMeta{Name: name, Namespace: namespace}}], per kind. *)
Definition new_ServiceAccount (m : ObjectMeta) : ServiceAccount :=
  {| sa_meta := m; sa_AutomountServiceAccountToken := None; sa_other := [] |}.

Definition new_PodTemplateSpec : PodTemplateSpec := {|
  pt_meta := new_meta "" "";
  pt_Spec := {| ps_ServiceAccountName := ""; ps_DeprecatedServiceAccount := "";
    ps_AutomountServiceAccountToken := None; ps_SecurityContext := None; ps_Containers := [];
    ps_other := [] |} |}.

Definition new_Deployment (m : ObjectMeta) : Deployment := {|
  dp_meta := m; dp_Replicas := None; dp_Selector := None; dp_Template := new_PodTemplateSpec;
  dp_Strategy := {| st_Type := ""; st_RollingUpdate := None |}; dp_MinReadySeconds := 0;
  dp_Paused := false; dp_ProgressDeadlineSeconds := None; dp_other := [];
  dp_Status := {| ds_ObservedGeneration := 0; ds_Replicas := 0; ds_UpdatedReplicas := 0;
    ds_ReadyReplicas := 0; ds_AvailableReplicas := 0; ds_Conditions := []; ds_other := [] |} |}.

Definition new_Service (m : ObjectMeta) : Service := {|
  sv_meta := m; sv_Type := ""; sv_ClusterIP := ""; sv_ClusterIPs := []; sv_IPFamilies := [];
  sv_IPFamilyPolicy := None; sv_Selector := ∅; sv_Ports := []; sv_other := [] |}.

Definition new_NetworkPolicy (m : ObjectMeta) : NetworkPolicy := {|
  np_meta := m;
  np_Spec := {| nps_PodSelector := {| ls_MatchLabels := ∅; ls_MatchExpressions := [] |};
    nps_PolicyTypes := []; nps_Ingress := []; nps_other := [] |};
  np_other := [] |}.

Definition new_HorizontalPodAutoscaler (m : ObjectMeta) : HorizontalPodAutoscaler := {|
  hpa_meta := m; hpa_ScaleTargetRef := {| cv_APIVersion := ""; cv_Kind := ""; cv_Name := "" |};
  hpa_MinReplicas := None; hpa_MaxReplicas := 0; hpa_Metrics := []; hpa_Behavior := None;
  hpa_Conditions := []; hpa_other := [] |}.

Definition new_PodDisruptionBudget (m : ObjectMeta) : PodDisruptionBudget := {|
  pdb_meta := m; pdb_Selector := None; pdb_MinAvailable := None; pdb_MaxUnavailable := None;
  pdb_other := [] |}.

(** ** Contracts of a mutation

    Every builder promises these three to the engine; the engine's theorems use nothing else
    about a mutation. *)

(** A mutation may change labels, annotations and the object's payload, never its identity. *)
Definition preserves_identity (f : Object → res Object) : Prop :=
  ∀ o o', f o = Ok o' →
    om_Name (obj_meta o') = om_Name (obj_meta o) ∧
    om_Namespace (obj_meta o') = om_Namespace (obj_meta o) ∧
    om_UID (obj_meta o') = om_UID (obj_meta o) ∧
    om_ResourceVersion (obj_meta o') = om_ResourceVersion (obj_meta o) ∧
    om_OwnerReferences (obj_meta o') = om_OwnerReferences (obj_meta o) ∧
    om_Finalizers (obj_meta o') = om_Finalizers (obj_meta o) ∧
    om_DeletionTimestamp (obj_meta o') = om_DeletionTimestamp (obj_meta o).

(** *** What an API server stores

    The server assigns metadata and fills in fields a mutation does not set.  [accepted o s] says
    that [s] is [o] with metadata of its own and with such defaults: the fields the builders do
    not name, a Service's addresses, an autoscaler's scaling rules once it has a behavior, and
    added entries in the maps of an untyped object; the status of a child is written by others. *)

Definition accepted_container (c s : Container) : Prop :=
  ∃ other scother, s = {|
    co_Name := co_Name c; co_Image := co_Image c; co_ImagePullPolicy := co_ImagePullPolicy c;
    co_Requests := co_Requests c; co_Limits := co_Limits c; co_Ports := co_Ports c;
    co_EnvFrom := co_EnvFrom c; co_ReadinessProbe := co_ReadinessProbe c;
    co_LivenessProbe := co_LivenessProbe c;
    co_SecurityContext := (λ sc, {|
      sc_RunAsNonRoot := sc_RunAsNonRoot sc; sc_Privileged := sc_Privileged sc;
      sc_AllowPrivilegeEscalation := sc_AllowPrivilegeEscalation sc;
      sc_Capabilities := sc_Capabilities sc; sc_SeccompProfile := sc_SeccompProfile sc;
      sc_other := scother |}) <$> co_SecurityContext c;
    co_other := other |}.

Definition accepted_pod (pod s : PodSpec) : Prop :=
  ∃ other pscother containers, Forall2 accepted_container (ps_Containers pod) containers ∧ s = {|
    ps_ServiceAccountName := ps_ServiceAccountName pod;
    ps_DeprecatedServiceAccount := ps_DeprecatedServiceAccount pod;
    ps_AutomountServiceAccountToken := ps_AutomountServiceAccountToken pod;
    ps_SecurityContext := (λ psc, {|
      psc_RunAsNonRoot := psc_RunAsNonRoot psc; psc_SeccompProfile := psc_SeccompProfile psc;
      psc_other := pscother |}) <$> ps_SecurityContext pod;
    ps_Containers := containers; ps_other := other |}.

Definition accepted_ServiceAccount (a s : ServiceAccount) : Prop :=
  ∃ m other, s = {| sa_meta := m; sa_AutomountServiceAccountToken := sa_AutomountServiceAccountToken a;
                    sa_other := other |}.

Definition accepted_Deployment (d s : Deployment) : Prop :=
  ∃ m pod other status, accepted_pod (pt_Spec (dp_Template d)) pod ∧ s = {|
    dp_meta := m; dp_Replicas := dp_Replicas d; dp_Selector := dp_Selector d;
    dp_Template := {| pt_meta := pt_meta (dp_Template d); pt_Spec := pod |};
    dp_Strategy := dp_Strategy d; dp_MinReadySeconds := dp_MinReadySeconds d;
    dp_Paused := dp_Paused d; dp_ProgressDeadlineSeconds := dp_ProgressDeadlineSeconds d;
    dp_other := other; dp_Status := status |}.

(** A Service that is not headless never becomes so. *)
Definition accepted_Service (v s : Service) : Prop :=
  ∃ m clusterIP clusterIPs families policy other, (clusterIP = "None" → sv_ClusterIP v = "None") ∧ s = {|
    sv_meta := m; sv_Type := sv_Type v; sv_ClusterIP := clusterIP; sv_ClusterIPs := clusterIPs;
    sv_IPFamilies := families; sv_IPFamilyPolicy := policy; sv_Selector := sv_Selector v;
    sv_Ports := sv_Ports v; sv_other := other |}.

Definition accepted_NetworkPolicy (n s : NetworkPolicy) : Prop :=
  ∃ m other, s = {| np_meta := m; np_Spec := np_Spec n; np_other := other |}.

(** A behavior is completed with the default scale-up rules and scale-down policies. *)
Definition accepted_behavior (b s : option HPABehavior) : Prop :=
  match b with
  | None => s = None
  | Some _ => ∃ down up, s = Some {| hb_ScaleDown := Some down; hb_ScaleUp := Some up |}
  end.

Definition accepted_HorizontalPodAutoscaler (h s : HorizontalPodAutoscaler) : Prop :=
  ∃ m behavior conditions other, accepted_behavior (hpa_Behavior h) behavior ∧ s = {|
    hpa_meta := m; hpa_ScaleTargetRef := hpa_ScaleTargetRef h; hpa_MinReplicas := hpa_MinReplicas h;
    hpa_MaxReplicas := hpa_MaxReplicas h; hpa_Metrics := hpa_Metrics h; hpa_Behavior := behavior;
    hpa_Conditions := conditions; hpa_other := other |}.

Definition accepted_PodDisruptionBudget (b s : PodDisruptionBudget) : Prop :=
  ∃ m other, s = {| pdb_meta := m; pdb_Selector := pdb_Selector b; pdb_MinAvailable := pdb_MinAvailable b;
    pdb_MaxUnavailable := pdb_MaxUnavailable b; pdb_other := other |}.

(** An untyped value with defaults: every entry of a map is kept, in place or with defaults in
    it, and entries may be added. *)
Inductive any_defaulted : any → any → Prop :=
  | any_defaulted_same v : any_defaulted v v
  | any_defaulted_slice l l' : Forall2 any_defaulted l l' → any_defaulted (ASlice l) (ASlice l')
  | any_defaulted_map m m' :
      (∀ k, any_get m k ≠ ANil → any_defaulted (any_get m k) (any_get m' k)) →
      any_defaulted (AMap m) (AMap m').

Definition accepted (o s : Object) : Prop :=
  match o, s with
  | OServiceAccount a, OServiceAccount s => accepted_ServiceAccount a s
  | ODeployment d, ODeployment s => accepted_Deployment d s
  | OService v, OService s => accepted_Service v s
  | ONetworkPolicy n, ONetworkPolicy s => accepted_NetworkPolicy n s
  | OHorizontalPodAutoscaler h, OHorizontalPodAutoscaler s => accepted_HorizontalPodAutoscaler h s
  | OPodDisruptionBudget b, OPodDisruptionBudget s => accepted_PodDisruptionBudget b s
  | OUnstructured u, OUnstructured s =>
      un_GVK s = un_GVK u ∧ any_defaulted (AMap (un_Object u)) (AMap (un_Object s))
  | OOther _, OOther _ => True
  | _, _ => False
  end.

(** Metadata [m] that differs from [after], the metadata a mutation made from [before], in what an
    API server assigns: labels and annotations are the same, and a UID or resource version that
    was set is still set. *)
Definition settled_meta (m before after : ObjectMeta) : Prop :=
  om_Labels m = om_Labels after ∧ om_Annotations m = om_Annotations after ∧
  (om_UID m = "" → om_UID before = "") ∧ (om_ResourceVersion m = "" → om_ResourceVersion before = "").

(** The mutation leaves alone what an API server has made of its result. *)
Definition mutation_settled (f : Object → res Object) : Prop :=
  ∀ o o' s, f o = Ok o' → settled_meta (obj_meta s) (obj_meta o) (obj_meta o') → accepted o' s → f s = Ok s.

(** It never changes the dynamic type of the object, which in Go it cannot. *)
Definition same_kind (o o' : Object) : Prop :=
  match o, o' with
  | OServiceAccount _, OServiceAccount _ | ODeployment _, ODeployment _ | OService _, OService _
  | ONetworkPolicy _, ONetworkPolicy _ | OHorizontalPodAutoscaler _, OHorizontalPodAutoscaler _
  | OPodDisruptionBudget _, OPodDisruptionBudget _ | OOther _, OOther _ => True
  | OUnstructured u, OUnstructured u' => un_GVK u' = un_GVK u
  | _, _ => False
  end.

Definition preserves_kind (f : Object → res Object) : Prop := ∀ o o', f o = Ok o' → same_kind o o'.

Definition mutation_total (f : Object → res Object) : Prop := ∀ o, no_panic (f o).

Class SafeMutation (f : Object → res Object) : Prop := {
  mutation_identity : preserves_identity f;
  mutation_kind : preserves_kind f;
  mutation_errors : ∀ o, local_errors (f o);
  mutation_no_panic : mutation_total f
}.

Class Mutation (f : Object → res Object) : Prop := {
  mutation_safe :: SafeMutation f;
  mutation_settles : mutation_settled f
}.

(** What a builder promises the reconciler. *)
Definition safe_intent (i : Intent) : Prop :=
  match i_Mutate i with
  | Some f => SafeMutation f
  | None => True
  end.

Class PlanBuilder (build : Builder) : Prop := {
  builder_no_panic p : no_panic (build p);
  builder_errors p : local_errors (build p);
  builder_safe p plan : build p = Ok plan → Forall safe_intent plan
}.

Lemma obj_meta_with_meta m o : obj_meta (with_meta m o) = m.
Proof. by destruct o. Qed.

Lemma with_meta_obj_meta o : with_meta (obj_meta o) o = o.
Proof. by destruct o as [[]|[]|[]|[]|[]|[]|[]|]. Qed.

Lemma with_meta_with_meta m m' o : with_meta m (with_meta m' o) = with_meta m o.
Proof. by destruct o. Qed.

#[export] Hint Rewrite obj_meta_with_meta with_meta_obj_meta with_meta_with_meta : awcp.

(** What the server keeps of an object depends on nothing it assigns. *)
Lemma accepted_with_meta m o s : accepted (with_meta m o) s ↔ accepted o s.
Proof. by destruct o. Qed.
