(* ===== verification/Autoscaling.v ===== *)
(** * HorizontalPodAutoscaler intent (internal/resource/autoscaling.go) *)
From S2P Require Import Prelude Errors Kube Api Naming Intent.

Section Autoscaling.
Context `{Quantities}.

Definition AutoscalingEnabled (p : option AIWorkload) : bool :=
  match p with
  | None => false
  | Some p =>
      match sp_Autoscaling (w_Spec p) with
      | None => false
      | Some a => default false (as_Enabled a)
      end
  end.

Definition hpaMetric (spec : AutoscalingMetricSpec) : res MetricSpec :=
  let resource name :=
    match am_TargetUtilization spec with
    | None => invalid
    | Some u => Ok (ResourceMetric name {| mt_Type := "Utilization"; mt_Value := None;
        mt_AverageValue := None; mt_AverageUtilization := Some u |})
    end in
  let named (source : MetricIdentifier → Quantity → MetricSpec) :=
    match bool_decide (am_MetricName spec = ""), am_TargetValue spec with
    | false, Some target =>
        match ParseQuantity target with
        | None => invalid
        | Some value =>
            if (Quantity_Sign value <? 0)%Z then invalid
            else Ok (source {| mi_Name := am_MetricName spec; mi_other := [] |} value)
        end
    | _, _ => invalid
    end in
  match am_Type spec with
  | AutoscalingCPU => resource "cpu"
  | AutoscalingMemory => resource "memory"
  | AutoscalingPods => named (λ identifier value, PodsMetric identifier {|
      mt_Type := "AverageValue"; mt_Value := None; mt_AverageValue := Some value;
      mt_AverageUtilization := None |})
  | AutoscalingExternal => named (λ identifier value, ExternalMetric identifier {|
      mt_Type := "Value"; mt_Value := Some value; mt_AverageValue := None;
      mt_AverageUtilization := None |})
  | AutoscalingOtherType _ => invalid
  end.

Fixpoint hpaMetrics (specs : list AutoscalingMetricSpec) : res (list MetricSpec) :=
  match specs with
  | [] => Ok []
  | spec :: specs' =>
      metric ← hpaMetric spec;
      metrics ← hpaMetrics specs';
      Ok (metric :: metrics)
  end.

Definition mutateHPA (hpa : HorizontalPodAutoscaler) (p : AIWorkload) : res HorizontalPodAutoscaler :=
  let meta := managedMetadata (hpa_meta hpa) p in
  a ← deref (sp_Autoscaling (w_Spec p));
  metrics ← hpaMetrics (as_Metrics a);
  min ← deref (as_MinReplicas a);
  max ← deref (as_MaxReplicas a);
  Ok {|
    hpa_meta := meta;
    hpa_ScaleTargetRef :=
      {| cv_APIVersion := "apps/v1"; cv_Kind := "Deployment"; cv_Name := ChildName (w_Name p) |};
    hpa_MinReplicas := Some min;
    hpa_MaxReplicas := max;
    hpa_Metrics := metrics;
    hpa_Behavior :=
      match as_ScaleDownStabilizationSeconds a with
      | Some seconds => Some {|
          hb_ScaleDown := Some {| sr_StabilizationWindowSeconds := Some seconds; sr_other := [] |};
          hb_ScaleUp := None |}
      | None => None
      end;
    hpa_Conditions := hpa_Conditions hpa;
    hpa_other := hpa_other hpa |}.

Definition autoscalingIntent (p : AIWorkload) : res Intent :=
  let hpa := Pointer (OHorizontalPodAutoscaler
    (new_HorizontalPodAutoscaler (new_meta (ChildName (w_Name p)) (w_Namespace p)))) in
  if negb (AutoscalingEnabled (Some p)) then
    Ok {| i_Object := hpa; i_Mutate := None; i_Absent := true |}
  else
    a ← deref (sp_Autoscaling (w_Spec p));
    if bool_decide (as_MinReplicas a = None) || bool_decide (as_MaxReplicas a = None) ||
       bool_decide (length (as_Metrics a) = 0%nat) then invalid
    else Ok {|
      i_Object := hpa;
      i_Mutate := Some (on_HorizontalPodAutoscaler (λ target, mutateHPA target p));
      i_Absent := false |}.

(** ** Facts *)

#[global] Arguments AutoscalingEnabled : simpl never.

Lemma AutoscalingEnabled_spec p :
  AutoscalingEnabled (Some p) = true ↔
  ∃ a, sp_Autoscaling (w_Spec p) = Some a ∧ as_Enabled a = Some true.
Proof.
  unfold AutoscalingEnabled. destruct (sp_Autoscaling (w_Spec p)) as [a|]; [|naive_solver].
  destruct (as_Enabled a) as [[]|] eqn:E; simpl; naive_solver.
Qed.

Lemma hpaMetric_no_panic spec : no_panic (hpaMetric spec).
Proof. unfold hpaMetric. repeat (case_match; auto with awcp). all: done. Qed.

Lemma hpaMetrics_no_panic specs : no_panic (hpaMetrics specs).
Proof. induction specs; simpl; auto using hpaMetric_no_panic with awcp. Qed.

Lemma hpaMetric_errors spec : local_errors (hpaMetric spec).
Proof. unfold hpaMetric. by repeat case_match. Qed.

Lemma hpaMetrics_errors specs : local_errors (hpaMetrics specs).
Proof. induction specs; simpl; auto using hpaMetric_errors with awcp. Qed.

Lemma mutateHPA_errors hpa p : local_errors (mutateHPA hpa p).
Proof.
  unfold mutateHPA. repeat (apply local_errors_bind; [|intros]);
    auto using hpaMetrics_errors with awcp.
Qed.

Lemma mutateHPA_Ok hpa p hpa' :
  mutateHPA hpa p = Ok hpa' →
  ∃ a min max metrics,
    sp_Autoscaling (w_Spec p) = Some a ∧ as_MinReplicas a = Some min ∧ as_MaxReplicas a = Some max ∧
    hpaMetrics (as_Metrics a) = Ok metrics ∧ hpa_meta hpa' = managedMetadata (hpa_meta hpa) p ∧
    hpa_Conditions hpa' = hpa_Conditions hpa ∧ hpa_other hpa' = hpa_other hpa.
Proof.
  unfold mutateHPA. intros H'. inv_Ok H'. simplify_eq/=.
  destruct (sp_Autoscaling (w_Spec p)) as [a|]; simplify_eq/=.
  destruct (as_MinReplicas _) as [min|] eqn:?; simplify_eq/=.
  destruct (as_MaxReplicas _) as [max|] eqn:?; simplify_eq/=. eauto 12.
Qed.

(** Without a stabilization window the autoscaler has no behavior, and settles. *)
Lemma mutateHPA_settled hpa p a hpa' s :
  sp_Autoscaling (w_Spec p) = Some a → as_ScaleDownStabilizationSeconds a = None →
  mutateHPA hpa p = Ok hpa' → settled_meta (hpa_meta s) (hpa_meta hpa) (hpa_meta hpa') →
  accepted_HorizontalPodAutoscaler hpa' s → mutateHPA s p = Ok s.
Proof.
  unfold mutateHPA. intros Ea Hn H' (Hl & Ha & _) (m & behavior & conditions & other & Hb & ->). rewrite Ea in *.
  inv_Ok H'. simplify_eq/=. rewrite Hn in *. simpl in Hb. subst behavior.
  repeat (match goal with E : _ = Ok _ |- _ => rewrite E; clear E; simpl end).
  by rewrite (managedMetadata_fixpoint m (hpa_meta hpa)).
Qed.

(** With one it never does: the mutation drops the rules the API server fills in. *)
Lemma mutateHPA_unsettled p a seconds hpa hpa' s :
  sp_Autoscaling (w_Spec p) = Some a → as_ScaleDownStabilizationSeconds a = Some seconds →
  mutateHPA hpa p = Ok hpa' → accepted_HorizontalPodAutoscaler hpa' s →
  ∃ s', mutateHPA s p = Ok s' ∧ accepted_HorizontalPodAutoscaler s' s ∧
    (hpa_Behavior s' ≫= hb_ScaleUp) = None ∧ is_Some (hpa_Behavior s ≫= hb_ScaleUp).
Proof.
  unfold mutateHPA. intros Ea Hn H' (m & behavior & conditions & other & Hb & ->). rewrite Ea in *.
  inv_Ok H'. simplify_eq/=. rewrite Hn in *. destruct Hb as (down & up & ->).
  repeat (match goal with E : _ = Ok _ |- _ => rewrite E; clear E; simpl end).
  eexists. split; [done|]. split; [|split; [done|by eexists]].
  unfold accepted_HorizontalPodAutoscaler. simpl. eauto 10.
Qed.

End Autoscaling.
