(* ===== verification/Deploy.v ===== *)
(** * Deployment mapping (internal/resource/deployment.go)

    Quantities of requests and limits, probes, and the whole of [mutateDeployment]. *)
From S2P Require Import Prelude Errors Kube Api Naming Intent Autoscaling.

Section Deployment.
Context `{Quantities}.

(** ** Resource lists *)

(** The closure [parse]: a range over a Go map visits its entries in an unspecified order, given
    here as a list. *)
Fixpoint parse_entries (entries : list (string * ResourceQuantity)) (result : gmap string Quantity)
    : res (gmap string Quantity) :=
  match entries with
  | [] => Ok result
  | (name, value) :: entries' =>
      if negb (bool_decide (name = "cpu")) && negb (bool_decide (name = "memory")) then invalid
      else match ParseQuantity value with
           | None => invalid
           | Some q =>
               if (Quantity_Sign q <? 0)%Z then invalid
               else parse_entries entries' (<[name := q]> result)
           end
  end.

Definition parse (input : ResourceQuantities) : res (gmap string Quantity) :=
  parse_entries (map_to_list input) ∅.

(** The loop over the limits: checks each request against its limit and defaults a missing one. *)
Fixpoint default_requests (limits : list (string * Quantity)) (requests : gmap string Quantity)
    : res (gmap string Quantity) :=
  match limits with
  | [] => Ok requests
  | (name, limit) :: limits' =>
      match requests !! name with
      | Some request =>
          if (0 <? Quantity_Cmp request limit)%Z then invalid else default_requests limits' requests
      | None => default_requests limits' (<[name := limit]> requests)
      end
  end.

Definition resourceLists (spec : option ResourceRequirements) : res (ResourceList * ResourceList) :=
  match spec with
  | None => Ok (None, None)
  | Some spec =>
      requests ← parse (rr_Requests spec);
      limits ← parse (rr_Limits spec);
      requests ← default_requests (map_to_list limits) requests;
      Ok (Some requests, Some limits)
  end.

Definition replaceCompute (current desired : ResourceList) : ResourceList :=
  let result := delete "memory" (delete "cpu" (map_of current)) in
  let result := map_of desired ∪ result in
  if bool_decide (result = ∅) then None else Some result.

(** ** Probes and containers *)

Definition httpProbe (spec : option HTTPProbeSpec) (delay period : Z) : option Probe :=
  match spec with
  | None => None
  | Some spec => Some {|
      pr_HTTPGet := Some {| hg_Path := hp_Path spec; hg_Port := FromString HTTPPortName;
        hg_Scheme := "HTTP"; hg_other := [] |};
      pr_InitialDelaySeconds := delay; pr_PeriodSeconds := period; pr_TimeoutSeconds := 1;
      pr_SuccessThreshold := 1; pr_FailureThreshold := 3; pr_other := [] |}
  end.

(** [corev1.EnvFromSource{SecretRef: ... Optional: false}] *)
Definition envFromSecret (name : SecretReference) : EnvFromSource := {|
  efs_SecretRef := Some {| ses_Name := name; ses_Optional := Some false |}; efs_other := [] |}.

Definition RuntimeDefault : SeccompProfile := {| sp_Type := "RuntimeDefault"; sp_other := [] |}.

(** The security context of the managed container. *)
Definition restrict_SecurityContext (current : option SecurityContext) : SecurityContext :=
  let c := default new_SecurityContext current in {|
  sc_RunAsNonRoot := Some true;
  sc_Privileged := Some false;
  sc_AllowPrivilegeEscalation := Some false;
  sc_Capabilities := Some {| cap_Add := []; cap_Drop := ["ALL"] |};
  sc_SeccompProfile := Some RuntimeDefault;
  sc_other := sc_other c |}.

Definition mutatePorts (port : Z) (ports : list ContainerPort) : list ContainerPort :=
  let new := {| cp_Name := HTTPPortName; cp_ContainerPort := port; cp_Protocol := "TCP"; cp_other := [] |} in
  match first_index (λ cp, bool_decide (cp_Name cp = HTTPPortName)) ports with
  | None => ports ++ [new]
  | Some portIndex => <[portIndex := new]> ports
  end.

Definition mutateContainer (app : Container) (p : AIWorkload) (requests limits : ResourceList) : Container := {|
  co_Name := co_Name app;
  co_Image := sp_Image (w_Spec p);
  co_ImagePullPolicy := "IfNotPresent";
  co_Requests := replaceCompute (co_Requests app) requests;
  co_Limits := replaceCompute (co_Limits app) limits;
  co_Ports := mutatePorts (cs_Port (sp_Container (w_Spec p))) (co_Ports app);
  co_EnvFrom := envFromSecret <$> sp_SecretRefs (w_Spec p);
  co_ReadinessProbe :=
    match sp_Health (w_Spec p) with Some h => httpProbe (hs_Readiness h) 0 5 | None => None end;
  co_LivenessProbe :=
    match sp_Health (w_Spec p) with Some h => httpProbe (hs_Liveness h) 10 10 | None => None end;
  co_SecurityContext := Some (restrict_SecurityContext (co_SecurityContext app));
  co_other := co_other app |}.

(** Finds the container named [workload], appending one when there is none, and rewrites it in
    place. *)
Definition mutateContainers (containers : list Container) (p : AIWorkload) (requests limits : ResourceList)
    : list Container :=
  match first_index (λ c, bool_decide (co_Name c = ContainerName)) containers with
  | None => containers ++ [mutateContainer (new_Container ContainerName) p requests limits]
  | Some index => alter (λ app, mutateContainer app p requests limits) index containers
  end.

Definition mutatePodSpec (pod : PodSpec) (p : AIWorkload) (requests limits : ResourceList) : PodSpec := {|
  ps_ServiceAccountName := ChildName (w_Name p);
  ps_DeprecatedServiceAccount := ChildName (w_Name p);
  ps_AutomountServiceAccountToken := Some false;
  ps_SecurityContext :=
    let psc := default new_PodSecurityContext (ps_SecurityContext pod) in
    Some {| psc_RunAsNonRoot := Some true; psc_SeccompProfile := Some RuntimeDefault;
            psc_other := psc_other psc |};
  ps_Containers := mutateContainers (ps_Containers pod) p requests limits;
  ps_other := ps_other pod |}.

(** ** mutateDeployment *)

(** The guard on a Deployment that exists: its immutable selector is the desired one. *)
Definition selector_compatible (d : Deployment) (selector : gmap string string) : bool :=
  match dp_Selector d with
  | None => false
  | Some s =>
      bool_decide (length (ls_MatchExpressions s) = 0%nat) &&
      bool_decide (size (ls_MatchLabels s) = size selector) &&
      forallb (λ kv, bool_decide (map_read "" (ls_MatchLabels s) kv.1 = kv.2)) (map_to_list selector)
  end.

Definition is_fresh (m : ObjectMeta) : bool :=
  bool_decide (om_ResourceVersion m = "") && bool_decide (om_UID m = "").

Definition desired_spec_replicas (d : Deployment) (p : AIWorkload) : res (option Z) :=
  if negb (AutoscalingEnabled (Some p)) then
    Ok (Some (default 1%Z (sp_Replicas (w_Spec p))))
  else if is_fresh (dp_meta d) then
    a ← deref (sp_Autoscaling (w_Spec p));
    Ok (Some (default 1%Z (as_MinReplicas a)))
  else Ok (dp_Replicas d).

Definition mutateDeployment (d : Deployment) (p : AIWorkload) (requests limits : ResourceList)
    : res Deployment :=
  let selector := SelectorLabels p in
  if negb (is_fresh (dp_meta d)) && negb (selector_compatible d selector) then
    Err (Sentinel ErrImmutableSelector)
  else
    replicas ← desired_spec_replicas d p;
    Ok {|
      dp_meta := managedMetadata (dp_meta d) p;
      dp_Replicas := replicas;
      dp_Selector := Some {| ls_MatchLabels := selector; ls_MatchExpressions := [] |};
      dp_Template := {|
        pt_meta := managedMetadata (pt_meta (dp_Template d)) p;
        pt_Spec := mutatePodSpec (pt_Spec (dp_Template d)) p requests limits |};
      dp_Strategy := {| st_Type := "RollingUpdate";
        st_RollingUpdate := Some {| ru_MaxUnavailable := Some (FromInt32 0); ru_MaxSurge := Some (FromInt32 1) |} |};
      dp_MinReadySeconds := 0;
      dp_Paused := false;
      dp_ProgressDeadlineSeconds := Some 120%Z;
      dp_other := dp_other d;
      dp_Status := dp_Status d |}.

(** ** Facts on resource lists *)

Lemma map_of_replaceCompute c d : map_of (replaceCompute c d) = map_of d ∪ delete "memory" (delete "cpu" (map_of c)).
Proof. unfold replaceCompute. case_bool_decide as E; simpl; by rewrite ?E. Qed.

Lemma replaceCompute_idemp c d : replaceCompute (replaceCompute c d) d = replaceCompute c d.
Proof.
  unfold replaceCompute at 1. rewrite map_of_replaceCompute.
  assert (map_of d ∪ delete "memory" (delete "cpu" (map_of d ∪ delete "memory" (delete "cpu" (map_of c)))) =
          map_of d ∪ delete "memory" (delete "cpu" (map_of c))) as ->; [|done].
  apply map_eq. intros k. destruct (map_of d !! k) eqn:E.
  - by rewrite !(lookup_union_Some_l' _ _ k _ E).
  - rewrite !(lookup_union_None_l _ _ k E), !lookup_delete, (lookup_union_None_l _ _ k E), !lookup_delete.
    by repeat case_decide.
Qed.

(** What [parse] accepts, entry by entry. *)
Definition valid_entry (e : string * ResourceQuantity) : bool :=
  (bool_decide (e.1 = "cpu") || bool_decide (e.1 = "memory")) &&
  match ParseQuantity e.2 with Some q => (0 <=? Quantity_Sign q)%Z | None => false end.

Lemma parse_entries_valid entries result :
  NoDup entries.*1 → (∀ k, k ∈ entries.*1 → result !! k = None) →
  parse_entries entries result =
  if forallb valid_entry entries
  then Ok (result ∪ omap ParseQuantity (list_to_map entries : gmap string ResourceQuantity))
  else invalid.
Proof.
  revert result. induction entries as [|[k v] entries IH]; intros result Hnd Hres; simpl.
  { by rewrite omap_empty, (right_id_L ∅ _). }
  apply NoDup_cons in Hnd as [Hk Hnd]. unfold valid_entry at 1. simpl.
  rewrite <-negb_orb. destruct (_ || _); simpl; [|done].
  destruct (ParseQuantity v) as [q|] eqn:Eq; simpl; [|done].
  rewrite (Z.ltb_antisym 0). destruct (0 <=? Quantity_Sign q)%Z; simpl; [|done].
  rewrite IH; [|done|].
  - destruct (forallb valid_entry entries); [|done]. f_equal. apply map_eq. intros j.
    rewrite !lookup_union, !lookup_omap. destruct (decide (j = k)) as [->|].
    + rewrite !lookup_insert_eq, Hres by set_solver. simpl. rewrite Eq. by destruct (_ ≫= _).
    + by rewrite !lookup_insert_ne.
  - intros j Hj. rewrite lookup_insert_ne by set_solver. apply Hres. set_solver.
Qed.

Lemma parse_spec input :
  parse input =
  if forallb valid_entry (map_to_list input) then Ok (omap ParseQuantity input) else invalid.
Proof.
  unfold parse. rewrite parse_entries_valid.
  - by rewrite list_to_map_to_list, (left_id_L ∅ _).
  - apply NoDup_fst_map_to_list.
  - intros k _. apply lookup_empty.
Qed.

Lemma parse_no_panic input : no_panic (parse input).
Proof. rewrite parse_spec. by case_match. Qed.

Lemma default_requests_spec limits requests :
  NoDup limits.*1 →
  default_requests limits requests =
  if forallb (λ e, match requests !! e.1 with
                   | Some r => (Quantity_Cmp r e.2 <=? 0)%Z | None => true end) limits
  then Ok (requests ∪ list_to_map limits) else invalid.
Proof.
  revert requests. induction limits as [|[k l] limits IH]; intros requests; simpl.
  { by rewrite (right_id_L ∅ _). }
  intros [Hk Hnd]%NoDup_cons. destruct (requests !! k) as [r|] eqn:Er.
  - rewrite (Z.leb_antisym 0 (Quantity_Cmp r l)).
    destruct (0 <? Quantity_Cmp r l)%Z; simpl; [done|].
    rewrite IH by done. destruct (forallb _ limits); [|done]. f_equal. apply map_eq. intros j.
    destruct (decide (j = k)) as [->|]; [by rewrite !(lookup_union_Some_l' _ _ k r)|].
    by rewrite !lookup_union, lookup_insert_ne.
  - rewrite IH by done. simpl.
    assert (forallb (λ e, match <[k:=l]> requests !! e.1 with
              | Some r => (Quantity_Cmp r e.2 <=? 0)%Z | None => true end) limits =
            forallb (λ e, match requests !! e.1 with
              | Some r => (Quantity_Cmp r e.2 <=? 0)%Z | None => true end) limits) as ->.
    { clear -Hk. induction limits as [|[j m] limits IHl]; simpl; [done|].
      rewrite lookup_insert_ne by set_solver. rewrite IHl; [done|set_solver]. }
    destruct (forallb _ limits); [|done]. f_equal. apply map_eq. intros j.
    destruct (decide (j = k)) as [->|].
    + rewrite (lookup_union_Some_l' _ _ k l), lookup_union_None_l by (done || apply lookup_insert_eq).
      by rewrite lookup_insert_eq.
    + by rewrite !lookup_union, !lookup_insert_ne.
Qed.

Lemma resourceLists_no_panic spec : no_panic (resourceLists spec).
Proof.
  destruct spec as [spec|]; simpl; [|done].
  apply res_bind_no_panic; [apply parse_no_panic|]. intros requests _.
  apply res_bind_no_panic; [apply parse_no_panic|]. intros limits _.
  apply res_bind_no_panic; [|done].
  rewrite default_requests_spec by apply NoDup_fst_map_to_list. by case_match.
Qed.

(** ** Facts on containers *)

Lemma first_index_insert_same {A} (f : A → bool) l i x :
  first_index f l = Some i → f x = true → first_index f (<[i := x]> l) = Some i.
Proof.
  revert i. induction l as [|y l IHl]; intros i; simpl; [done|].
  destruct (f y) eqn:E; intros Hi Hx; simplify_eq/=; [by rewrite Hx|].
  destruct (first_index f l) as [j|] eqn:Ej; simplify_eq/=. rewrite E. by rewrite (IHl j).
Qed.

Lemma first_index_app_None {A} (f : A → bool) l x :
  first_index f l = None → f x = true → first_index f (l ++ [x]) = Some (length l).
Proof.
  induction l as [|y l IHl]; simpl; [by intros _ ->|].
  destruct (f y); [done|]. destruct (first_index f l); [done|]. intros _ Hx. by rewrite IHl.
Qed.

Lemma list_alter_insert {A} (f : A → A) (l : list A) i x :
  l !! i = Some x → alter f i l = <[i := f x]> l.
Proof.
  intros Hi. apply list_eq. intros j. destruct (decide (i = j)) as [->|].
  - rewrite list_lookup_alter_eq, list_lookup_insert_eq by (by eapply lookup_lt_Some). by rewrite Hi.
  - by rewrite list_lookup_alter_ne, list_lookup_insert_ne.
Qed.

Lemma mutatePorts_idemp port ports : mutatePorts port (mutatePorts port ports) = mutatePorts port ports.
Proof.
  unfold mutatePorts at 2 3. destruct (first_index _ ports) as [i|] eqn:Ei; unfold mutatePorts.
  - rewrite (first_index_insert_same _ _ i) by done. apply list_insert_insert_eq.
  - rewrite first_index_app_None by done. by rewrite insert_app_r_alt, Nat.sub_diag by lia.
Qed.

Lemma mutateContainer_idemp app p requests limits :
  mutateContainer (mutateContainer app p requests limits) p requests limits =
  mutateContainer app p requests limits.
Proof.
  unfold mutateContainer. cbn. by rewrite !replaceCompute_idemp, mutatePorts_idemp.
Qed.

Lemma mutateContainers_idemp cs p requests limits :
  mutateContainers (mutateContainers cs p requests limits) p requests limits =
  mutateContainers cs p requests limits.
Proof.
  unfold mutateContainers at 2 3. destruct (first_index _ cs) as [i|] eqn:Ei.
  - destruct (first_index_Some _ _ _ Ei) as (c & Hc & Hname & _).
    rewrite (list_alter_insert _ _ _ c) by done. unfold mutateContainers.
    rewrite (first_index_insert_same _ _ i) by done.
    erewrite list_alter_insert; [|apply list_lookup_insert_eq; by eapply lookup_lt_Some].
    by rewrite list_insert_insert_eq, mutateContainer_idemp.
  - unfold mutateContainers. rewrite first_index_app_None by done.
    erewrite list_alter_insert; [|by rewrite lookup_app_r, Nat.sub_diag by lia].
    by rewrite insert_app_r_alt, Nat.sub_diag, mutateContainer_idemp by lia.
Qed.

Lemma first_index_Forall2 {A} (f : A → bool) (R : A → A → Prop) l l' :
  (∀ x y, R x y → f y = f x) → Forall2 R l l' → first_index f l' = first_index f l.
Proof. intros HR. induction 1 as [|x y l l' Hxy _ IH]; simpl; [done|]. by rewrite (HR _ _ Hxy), IH. Qed.

(** Defaults in a container the mutation has rewritten are left alone. *)
Lemma mutateContainer_settled app s p requests limits :
  mutateContainer app p requests limits = app → accepted_container app s →
  mutateContainer s p requests limits = s.
Proof.
  intros <- (other & scother & ->). unfold mutateContainer. cbn.
  by rewrite !replaceCompute_idemp, mutatePorts_idemp.
Qed.

Lemma mutateContainers_settled cs ss p requests limits :
  Forall2 accepted_container (mutateContainers cs p requests limits) ss →
  mutateContainers ss p requests limits = ss.
Proof.
  intros Hs. pose proof (mutateContainers_idemp cs p requests limits) as Hi.
  set (ms := mutateContainers cs p requests limits) in *. unfold mutateContainers in *.
  rewrite (first_index_Forall2 _ accepted_container ms ss) by (try done; by intros ?? (?&?&->)).
  destruct (first_index _ ms) as [i|] eqn:Ei.
  - destruct (first_index_Some _ _ _ Ei) as (c & Hc & _).
    destruct (Forall2_lookup_l _ _ _ _ _ Hs Hc) as (s & Hsi & Ha).
    rewrite (list_alter_insert _ _ _ s) by done. apply list_insert_id. rewrite Hsi. f_equal. symmetry.
    eapply mutateContainer_settled; [|done].
    assert (alter (λ app, mutateContainer app p requests limits) i ms !! i = Some c) as Hl by by rewrite Hi.
    rewrite list_lookup_alter_eq, Hc in Hl. by injection Hl.
  - apply (f_equal length) in Hi. rewrite length_app in Hi. simpl in Hi. lia.
Qed.

(** Every container except the managed one is untouched and keeps its place. *)
Lemma mutateContainers_foreign cs p requests limits i c :
  cs !! i = Some c → co_Name c ≠ ContainerName → mutateContainers cs p requests limits !! i = Some c.
Proof.
  intros Hi Hc. unfold mutateContainers. destruct (first_index _ cs) as [j|] eqn:Ej.
  - rewrite list_lookup_alter_ne; [done|]. intros ->.
    destruct (first_index_Some _ _ _ Ej) as (d & Hd & Hname%bool_decide_eq_true & _). congruence.
  - rewrite lookup_app_l; [done|by eapply lookup_lt_Some].
Qed.

Lemma mutateContainers_managed cs p requests limits :
  ∃ app, mutateContainer app p requests limits ∈ mutateContainers cs p requests limits ∧
         first_match (λ c, bool_decide (co_Name c = ContainerName)) (mutateContainers cs p requests limits)
         = Some (mutateContainer app p requests limits).
Proof.
  unfold mutateContainers. destruct (first_index _ cs) as [i|] eqn:Ei.
  - destruct (first_index_Some _ _ _ Ei) as (c & Hc & Hname & _). exists c.
    rewrite (list_alter_insert _ _ _ c) by done.
    pose proof (first_index_insert_same _ _ i (mutateContainer c p requests limits) Ei Hname) as H1.
    destruct (first_index_Some _ _ _ H1) as (d & Hd & _ & Hm).
    rewrite list_lookup_insert_eq in Hd by (by eapply lookup_lt_Some). simplify_eq. split; [|done].
    apply list_elem_of_lookup. exists i. apply list_lookup_insert_eq. by eapply lookup_lt_Some.
  - exists (new_Container ContainerName). split; [set_solver|].
    set (x := mutateContainer _ _ _ _). assert (co_Name x = ContainerName) as Hx by done. clearbody x.
    induction cs as [|c cs IHcs]; simpl in *; [by rewrite bool_decide_true|].
    destruct (bool_decide _); [done|]. apply IHcs. by destruct (first_index _ cs).
Qed.

(** ** Facts on mutateDeployment *)

Lemma selector_compatible_desired d p selector :
  dp_Selector d = Some {| ls_MatchLabels := selector; ls_MatchExpressions := [] |} →
  (∀ k v, selector !! k = Some v → SelectorLabels p !! k = Some v) →
  size selector = size (SelectorLabels p) →
  selector_compatible d (SelectorLabels p) = true.
Proof.
  intros Hd Hsub Hsize. unfold selector_compatible. rewrite Hd. simpl.
  rewrite (bool_decide_true (size _ = _)) by done. simpl.
  assert (selector = SelectorLabels p) as ->.
  { apply map_subseteq_size_eq; [by apply map_subseteq_spec|by rewrite Hsize]. }
  apply forallb_forall. intros [k v] Hin%list_elem_of_In. apply elem_of_map_to_list in Hin.
  apply bool_decide_eq_true. unfold map_read. simpl. by rewrite Hin.
Qed.

Lemma mutateDeployment_identity d p rq lm d' :
  mutateDeployment d p rq lm = Ok d' → same_identity (dp_meta d') (dp_meta d).
Proof.
  unfold mutateDeployment. case_match; [done|]. intros Hd. inv_Ok Hd. by simplify_eq/=.
Qed.

Lemma desired_spec_replicas_no_panic d p : no_panic (desired_spec_replicas d p).
Proof.
  unfold desired_spec_replicas. destruct (AutoscalingEnabled (Some p)) eqn:E; simpl; [|done].
  apply AutoscalingEnabled_spec in E as (a & -> & _). by case_match.
Qed.

Lemma mutateDeployment_no_panic d p rq lm : no_panic (mutateDeployment d p rq lm).
Proof.
  unfold mutateDeployment. case_match; [done|].
  apply res_bind_no_panic; [apply desired_spec_replicas_no_panic|done].
Qed.

(** A mutated Deployment is a fixpoint of the mutation, also after the API server has stored it. *)
Lemma mutateDeployment_settled d p rq lm d' s :
  mutateDeployment d p rq lm = Ok d' → settled_meta (dp_meta s) (dp_meta d) (dp_meta d') →
  accepted_Deployment d' s → mutateDeployment s p rq lm = Ok s.
Proof.
  intros Hd (Hl & Ha & Hu & Hr) (m & pod & other & status & (pother & pscother & cs & Hcs & ->) & ->).
  unfold mutateDeployment in Hd.
  destruct (negb _ && _) eqn:Hg; [done|]. inv_Ok Hd. simplify_eq/=.
  unfold mutateDeployment. cbn [dp_meta].
  rewrite (selector_compatible_desired _ _ (SelectorLabels p)) by done.
  rewrite andb_false_r. cbn [dp_Template pt_meta pt_Spec].
  assert (managedMetadata m p = m) as Hm by (by apply (managedMetadata_fixpoint _ (dp_meta d))).
  match goal with E : desired_spec_replicas d p = Ok ?r |- context [desired_spec_replicas ?d2 p] =>
    assert (desired_spec_replicas d2 p = Ok r) as -> end.
  { match goal with E : desired_spec_replicas d p = Ok _ |- _ => revert E end.
    unfold desired_spec_replicas. cbn [dp_meta dp_Replicas].
    destruct (AutoscalingEnabled (Some p)) eqn:EA; simpl; [|done].
    destruct (is_fresh m) eqn:E; [|done]. unfold is_fresh in *.
    apply andb_true_iff in E as [Er%bool_decide_eq_true Eu%bool_decide_eq_true].
    by rewrite !bool_decide_true by auto. }
  unfold mbind, res_bind. cbn.
  rewrite Hm, managedMetadata_idemp. unfold mutatePodSpec. cbn.
  by rewrite (mutateContainers_settled _ _ _ _ _ Hcs).
Qed.

Lemma mutateDeployment_errors d p rq lm : local_errors (mutateDeployment d p rq lm).
Proof.
  unfold mutateDeployment. case_match; [done|]. apply local_errors_bind; [|done].
  unfold desired_spec_replicas. repeat case_match; auto with awcp.
Qed.

Lemma mutateDeployment_inv d p rq lm d' :
  mutateDeployment d p rq lm = Ok d' →
  (is_fresh (dp_meta d) = true ∨ selector_compatible d (SelectorLabels p) = true) ∧
  desired_spec_replicas d p = Ok (dp_Replicas d') ∧
  dp_meta d' = managedMetadata (dp_meta d) p ∧
  dp_Selector d' = Some {| ls_MatchLabels := SelectorLabels p; ls_MatchExpressions := [] |} ∧
  pt_meta (dp_Template d') = managedMetadata (pt_meta (dp_Template d)) p ∧
  pt_Spec (dp_Template d') = mutatePodSpec (pt_Spec (dp_Template d)) p rq lm ∧
  dp_Status d' = dp_Status d ∧ dp_other d' = dp_other d.
Proof.
  unfold mutateDeployment. destruct (negb _ && _) eqn:Hg; [done|]. intros Hd. inv_Ok Hd.
  simplify_eq/=. split; [|done]. destruct (is_fresh _), (selector_compatible _ _); naive_solver.
Qed.

End Deployment.
