(* ===== verification/ServiceIntent.v ===== *)
(** * Service, ServiceAccount and NetworkPolicy intents
    (internal/resource/service.go, identity.go, network.go) *)
From S2P Require Import Prelude Errors Kube Api Naming Intent.

(** ** ServiceAccount *)

Definition mutateServiceAccount (account : ServiceAccount) (p : AIWorkload) : res ServiceAccount :=
  Ok {| sa_meta := managedMetadata (sa_meta account) p;
        sa_AutomountServiceAccountToken := Some false;
        sa_other := sa_other account |}.

Definition serviceAccountIntent (p : AIWorkload) : Intent := {|
  i_Object := Pointer (OServiceAccount (new_ServiceAccount (new_meta (ChildName (w_Name p)) (w_Namespace p))));
  i_Mutate := Some (on_ServiceAccount (λ account, mutateServiceAccount account p));
  i_Absent := false |}.

(** ** Service *)

Definition ServiceEnabled (p : option AIWorkload) : bool :=
  match p with
  | None => false
  | Some p =>
      match sp_Service (w_Spec p) with
      | None => true
      | Some s => default true (ss_Enabled s)
      end
  end.

Definition ServicePort (p : option AIWorkload) : Z :=
  match p with
  | Some p =>
      match sp_Service (w_Spec p) with
      | Some s => default 80%Z (ss_Port s)
      | None => 80
      end
  | None => 80
  end.

Definition ServiceEndpoint (p : AIWorkload) : string :=
  if negb (ServiceEnabled (Some p)) then ""
  else ChildName (w_Name p) +:+ "." +:+ w_Namespace p +:+ ".svc:" +:+ pretty (ServicePort (Some p)).

Definition mutateService (s : Service) (p : AIWorkload) : res Service :=
  if negb (bool_decide (sv_Type s = "")) && negb (bool_decide (sv_Type s = "ClusterIP")) then
    Err (Sentinel ErrImmutableServiceAllocation)
  else if bool_decide (sv_ClusterIP s = "None") then
    Err (Sentinel ErrImmutableServiceAllocation)
  else Ok {|
    sv_meta := managedMetadata (sv_meta s) p;
    sv_Type := "ClusterIP";
    sv_ClusterIP := sv_ClusterIP s;
    sv_ClusterIPs := sv_ClusterIPs s;
    sv_IPFamilies := sv_IPFamilies s;
    sv_IPFamilyPolicy := sv_IPFamilyPolicy s;
    sv_Selector := SelectorLabels p;
    sv_Ports := [{| svp_Name := HTTPPortName; svp_Protocol := "TCP"; svp_Port := ServicePort (Some p);
      svp_TargetPort := FromString HTTPPortName; svp_other := [] |}];
    sv_other := sv_other s |}.

Definition serviceIntent (p : AIWorkload) : res Intent :=
  let object := Pointer (OService (new_Service (new_meta (ChildName (w_Name p)) (w_Namespace p)))) in
  if negb (ServiceEnabled (Some p)) then
    Ok {| i_Object := object; i_Mutate := None; i_Absent := true |}
  else
    let port := ServicePort (Some p) in
    if (port <? 1)%Z || (65535 <? port)%Z then invalid
    else Ok {|
      i_Object := object;
      i_Mutate := Some (on_Service (λ s, mutateService s p));
      i_Absent := false |}.

Definition HasAllocatedClusterNetwork (s : Service) : bool :=
  negb (bool_decide (sv_ClusterIP s = "")) || negb (bool_decide (length (sv_ClusterIPs s) = 0%nat)) ||
  negb (bool_decide (length (sv_IPFamilies s) = 0%nat)) || negb (bool_decide (sv_IPFamilyPolicy s = None)).

(** ** NetworkPolicy *)

Definition NetworkEnabled (p : option AIWorkload) : bool :=
  match p with
  | None => false
  | Some p =>
      match sp_Network (w_Spec p) with
      | None => true
      | Some n => default true (ns_Enabled n)
      end
  end.

Definition mutateNetworkPolicy (policy : NetworkPolicy) (p : AIWorkload) : res NetworkPolicy :=
  Ok {|
    np_meta := managedMetadata (np_meta policy) p;
    np_Spec := {|
      nps_PodSelector := {| ls_MatchLabels := SelectorLabels p; ls_MatchExpressions := [] |};
      nps_PolicyTypes := ["Ingress"];
      nps_Ingress := [{|
        npr_From := [{| npe_PodSelector := Some {| ls_MatchLabels := ∅; ls_MatchExpressions := [] |};
                        npe_other := [] |}];
        npr_Ports := [{| npp_Protocol := Some "TCP"; npp_Port := Some (FromString HTTPPortName);
                         npp_other := [] |}] |}];
      nps_other := [] |};
    np_other := np_other policy |}.

Definition networkPolicyIntent (p : AIWorkload) : Intent :=
  let object := Pointer (ONetworkPolicy (new_NetworkPolicy (new_meta (ChildName (w_Name p)) (w_Namespace p)))) in
  if negb (NetworkEnabled (Some p)) then
    {| i_Object := object; i_Mutate := None; i_Absent := true |}
  else {|
    i_Object := object;
    i_Mutate := Some (on_NetworkPolicy (λ policy, mutateNetworkPolicy policy p));
    i_Absent := false |}.

#[global] Arguments ServiceEnabled : simpl never.
#[global] Arguments ServicePort : simpl never.
#[global] Arguments NetworkEnabled : simpl never.

(** ** Facts *)

Lemma mutateServiceAccount_settled a p a' s :
  mutateServiceAccount a p = Ok a' → settled_meta (sa_meta s) (sa_meta a) (sa_meta a') →
  accepted_ServiceAccount a' s → mutateServiceAccount s p = Ok s.
Proof.
  unfold mutateServiceAccount. intros [= <-] (Hl & Ha & _) (m & other & ->). simpl in *.
  by rewrite (managedMetadata_fixpoint m (sa_meta a)).
Qed.

Lemma mutateService_inv s p s' :
  mutateService s p = Ok s' →
  (sv_Type s = "" ∨ sv_Type s = "ClusterIP") ∧ sv_ClusterIP s ≠ "None" ∧
  sv_meta s' = managedMetadata (sv_meta s) p ∧ sv_Type s' = "ClusterIP" ∧
  sv_ClusterIP s' = sv_ClusterIP s ∧ sv_ClusterIPs s' = sv_ClusterIPs s ∧
  sv_IPFamilies s' = sv_IPFamilies s ∧ sv_IPFamilyPolicy s' = sv_IPFamilyPolicy s ∧
  sv_Selector s' = SelectorLabels p ∧ sv_other s' = sv_other s.
Proof.
  unfold mutateService. repeat case_bool_decide; simpl; intros Hs; simplify_eq; naive_solver.
Qed.

Lemma mutateService_settled v p v' s :
  mutateService v p = Ok v' → settled_meta (sv_meta s) (sv_meta v) (sv_meta v') →
  accepted_Service v' s → mutateService s p = Ok s.
Proof.
  intros Hs (Hl & Ha & _) (m & ip & ips & families & policy & other & Hip & ->).
  pose proof (mutateService_inv _ _ _ Hs) as (_ & Hc & _ & _ & Hc' & _).
  revert Hs. unfold mutateService at 1. repeat case_match; intros [= <-].
  unfold mutateService. simpl in *. rewrite bool_decide_false by naive_solver.
  by rewrite (managedMetadata_fixpoint m (sv_meta v)).
Qed.

Lemma mutateNetworkPolicy_settled n p n' s :
  mutateNetworkPolicy n p = Ok n' → settled_meta (np_meta s) (np_meta n) (np_meta n') →
  accepted_NetworkPolicy n' s → mutateNetworkPolicy s p = Ok s.
Proof.
  unfold mutateNetworkPolicy. intros [= <-] (Hl & Ha & _) (m & other & ->). simpl in *.
  by rewrite (managedMetadata_fixpoint m (np_meta n)).
Qed.
