(* ===== verification/Availability.v ===== *)
(** * PodDisruptionBudget intent (internal/resource/availability.go) *)
From S2P Require Import Prelude Errors Kube Api Naming Intent Autoscaling.

Definition AvailabilityEnabled (p : option AIWorkload) : bool :=
  match p with
  | None => false
  | Some p =>
      match sp_Availability (w_Spec p) with
      | None => false
      | Some a => default false (av_Enabled a)
      end
  end.

Definition AvailabilityReplicaFloor (p : AIWorkload) : res Z :=
  if AutoscalingEnabled (Some p) then
    a ← deref (sp_Autoscaling (w_Spec p));
    Ok (default 1%Z (as_MinReplicas a))
  else Ok (default 1%Z (sp_Replicas (w_Spec p))).

Definition validateAvailability (p : option AIWorkload) : res unit :=
  match p with
  | None => invalid
  | Some p =>
      match sp_Availability (w_Spec p) with
      | None => invalid
      | Some spec =>
          if bool_decide (bool_decide (av_MinAvailable spec = None) = bool_decide (av_MaxUnavailable spec = None))
          then invalid
          else
            floor ← AvailabilityReplicaFloor p;
            if (floor <? 1)%Z ||
               match av_MinAvailable spec with
               | Some m => (m <? 1)%Z || (floor <? m)%Z | None => false end ||
               match av_MaxUnavailable spec with
               | Some m => (m <? 0)%Z || (floor <=? m)%Z | None => false end
            then invalid else Ok tt
      end
  end.

Definition mutatePDB (pdb : PodDisruptionBudget) (p : AIWorkload) : res PodDisruptionBudget :=
  _ ← validateAvailability (Some p);
  a ← deref (sp_Availability (w_Spec p));
  budget ←
    match av_MinAvailable a with
    | Some m => Ok (Some (FromInt32 m), None)
    | None => m ← deref (av_MaxUnavailable a); Ok (None, Some (FromInt32 m))
    end;
  Ok {|
    pdb_meta := managedMetadata (pdb_meta pdb) p;
    pdb_Selector := Some {| ls_MatchLabels := SelectorLabels p; ls_MatchExpressions := [] |};
    pdb_MinAvailable := budget.1;
    pdb_MaxUnavailable := budget.2;
    pdb_other := pdb_other pdb |}.

Definition availabilityIntent (p : AIWorkload) : res Intent :=
  let pdb := Pointer (OPodDisruptionBudget
    (new_PodDisruptionBudget (new_meta (ChildName (w_Name p)) (w_Namespace p)))) in
  if negb (AvailabilityEnabled (Some p)) then
    Ok {| i_Object := pdb; i_Mutate := None; i_Absent := true |}
  else
    _ ← validateAvailability (Some p);
    Ok {| i_Object := pdb;
          i_Mutate := Some (on_PodDisruptionBudget (λ target, mutatePDB target p));
          i_Absent := false |}.

#[global] Arguments AvailabilityEnabled : simpl never.

(** ** Facts *)

Lemma AvailabilityReplicaFloor_Ok p : ∃ floor, AvailabilityReplicaFloor p = Ok floor.
Proof.
  unfold AvailabilityReplicaFloor. destruct (AutoscalingEnabled (Some p)) eqn:E; [|eauto].
  apply AutoscalingEnabled_spec in E as (a & -> & _). simpl. eauto.
Qed.

Lemma validateAvailability_no_panic p : no_panic (validateAvailability p).
Proof.
  destruct p as [p|]; simpl; [|done]. case_match; [|done]. case_bool_decide; [done|].
  destruct (AvailabilityReplicaFloor_Ok p) as [f ->]. simpl. by case_match.
Qed.

Lemma validateAvailability_errors p : local_errors (validateAvailability p).
Proof.
  destruct p as [p|]; simpl; [|done]. case_match; [|done]. case_bool_decide; [done|].
  destruct (AvailabilityReplicaFloor_Ok p) as [f ->]. simpl. by case_match.
Qed.

Lemma mutatePDB_errors pdb p : local_errors (mutatePDB pdb p).
Proof.
  unfold mutatePDB. apply local_errors_bind; [apply validateAvailability_errors|]. intros _ _.
  apply local_errors_bind; [auto with awcp|]. intros a _.
  apply local_errors_bind; [|done]. case_match; [done|]. apply local_errors_bind; auto with awcp.
Qed.

Lemma validateAvailability_Ok p :
  validateAvailability (Some p) = Ok tt →
  ∃ a floor, sp_Availability (w_Spec p) = Some a ∧ AvailabilityReplicaFloor p = Ok floor ∧ (1 ≤ floor)%Z ∧
    ((∃ m, av_MinAvailable a = Some m ∧ av_MaxUnavailable a = None ∧ (1 ≤ m ≤ floor)%Z) ∨
     (∃ m, av_MinAvailable a = None ∧ av_MaxUnavailable a = Some m ∧ (0 ≤ m < floor)%Z)).
Proof.
  simpl. destruct (sp_Availability (w_Spec p)) as [a|]; [|done].
  destruct (AvailabilityReplicaFloor_Ok p) as [floor ->]. simpl.
  destruct (av_MinAvailable a) as [m|] eqn:Em, (av_MaxUnavailable a) as [u|] eqn:Eu; simpl; try done;
    destruct (_ || _) eqn:E; simpl; try done; intros _; exists a, floor;
    rewrite !orb_false_iff, ?Z.ltb_ge, ?Z.leb_gt in E; naive_solver lia.
Qed.

Lemma mutatePDB_no_panic pdb p : no_panic (mutatePDB pdb p).
Proof.
  unfold mutatePDB. apply res_bind_no_panic; [apply validateAvailability_no_panic|].
  intros [] (a & floor & -> & _ & _ & Hb)%validateAvailability_Ok. simpl.
  destruct Hb as [(m & -> & _)|(m & -> & -> & _)]; done.
Qed.

Lemma mutatePDB_settled pdb p pdb' s :
  mutatePDB pdb p = Ok pdb' → settled_meta (pdb_meta s) (pdb_meta pdb) (pdb_meta pdb') →
  accepted_PodDisruptionBudget pdb' s → mutatePDB s p = Ok s.
Proof.
  unfold mutatePDB. intros H (Hl & Ha & _) (m & other & ->). inv_Ok H. simplify_eq/=.
  repeat (match goal with E : _ = Ok _ |- _ => rewrite E; clear E; simpl end).
  by rewrite (managedMetadata_fixpoint m (pdb_meta pdb)).
Qed.
