(* ===== verification/Route.v ===== *)
(** * HTTPRoute intent (internal/resource/exposure.go) *)
From S2P Require Import Prelude Errors Kube Api Naming Intent ServiceIntent.

Definition HTTPRouteGVK : GroupVersionKind :=
  {| gvk_Group := "gateway.networking.k8s.io"; gvk_Version := "v1"; gvk_Kind := "HTTPRoute" |}.

Definition HTTPRouteEnabled (p : option AIWorkload) : bool :=
  match p with
  | None => false
  | Some p =>
      match sp_Exposure (w_Spec p) with
      | None => false
      | Some e => match ex_Mode e with ExposureHTTPRoute => true | _ => false end
      end
  end.

(** The desired [spec] of the route. *)
Definition route_spec (p : AIWorkload) (e : ExposureSpec) : any :=
  AMap [
    ("parentRefs", ASlice [AMap [
      ("name", AString (ex_Gateway e)); ("sectionName", AString (ex_SectionName e))]]);
    ("hostnames", ASlice [AString (ex_Hostname e)]);
    ("rules", ASlice [AMap [
      ("matches", ASlice [AMap [
        ("path", AMap [("type", AString "PathPrefix"); ("value", AString (ex_Path e))])]]);
      ("backendRefs", ASlice [AMap [
        ("name", AString (ChildName (w_Name p))); ("port", AInt (ServicePort (Some p)))]])]])].

Section Route.
Context `{UnstructuredHelpers}.

Definition mutateHTTPRoute (route : Unstructured) (p : AIWorkload) : res Unstructured :=
  let labels := managedLabels p (map_of (om_Labels (un_meta route))) in
  let meta := set_labels labels (un_meta route) in
  let annotations := <[WorkloadNameAnnotation := w_Name p]> (map_of (om_Annotations meta)) in
  let meta := set_annotations annotations meta in
  e ← deref (sp_Exposure (w_Spec p));
  Ok {|
    un_GVK := un_GVK route;
    un_meta := meta;
    un_Object := (SetNestedField (un_Object route) (route_spec p e) ["spec"]).1 |}.

(** The closure assigned to [intent.Mutate]. *)
Definition HTTPRouteMutation (p : AIWorkload) (object : Object) : res Object :=
  match object with
  | OUnstructured target =>
      if bool_decide (un_GVK target = HTTPRouteGVK) then OUnstructured <$> mutateHTTPRoute target p
      else invalid
  | _ => invalid
  end.

Definition HTTPRouteIntent (p : option AIWorkload) : res Intent :=
  match p with
  | None => invalid
  | Some p =>
      let object := Pointer (OUnstructured {| un_GVK := HTTPRouteGVK;
        un_meta := new_meta (ChildName (w_Name p)) (w_Namespace p); un_Object := [] |}) in
      let absent := negb (HTTPRouteEnabled (Some p)) in
      if absent then Ok {| i_Object := object; i_Mutate := None; i_Absent := absent |}
      else
        (* [ServiceEnabled] fails first; otherwise [p.Spec.Exposure] is read *)
        if negb (ServiceEnabled (Some p)) then invalid
        else
          e ← deref (sp_Exposure (w_Spec p));
          if bool_decide (ex_Gateway e = "") || bool_decide (ex_SectionName e = "") ||
             bool_decide (ex_Hostname e = "") || bool_decide (ex_Path e = "") then invalid
          else Ok {| i_Object := object; i_Mutate := Some (HTTPRouteMutation p); i_Absent := absent |}
  end.

End Route.

#[global] Arguments HTTPRouteEnabled : simpl never.

(** ** Facts *)

Lemma HTTPRouteEnabled_spec p :
  HTTPRouteEnabled (Some p) = true ↔
  ∃ e, sp_Exposure (w_Spec p) = Some e ∧ ex_Mode e = ExposureHTTPRoute.
Proof.
  unfold HTTPRouteEnabled. destruct (sp_Exposure (w_Spec p)) as [e|]; [|naive_solver].
  split.
  - intros Hm. exists e. by destruct (ex_Mode e).
  - by intros (e' & [= <-] & ->).
Qed.

Lemma any_set_idemp m k v : any_set (any_set m k v) k v = any_set m k v.
Proof.
  induction m as [|[k' v'] m IH]; simpl; [by rewrite bool_decide_true|].
  destruct (bool_decide (k = k')) eqn:E; simpl; [by rewrite bool_decide_true|].
  by rewrite E, IH.
Qed.

Lemma any_get_set m k v : any_get (any_set m k v) k = v.
Proof.
  induction m as [|[k' v'] m IH]; simpl; [by rewrite bool_decide_true|].
  destruct (bool_decide (k = k')) eqn:E; simpl; [by rewrite bool_decide_true|].
  by rewrite E.
Qed.

Lemma any_get_set_ne m k k' v : k' ≠ k → any_get (any_set m k v) k' = any_get m k'.
Proof.
  intros Hk. induction m as [|[j w] m IH]; simpl.
  - by rewrite bool_decide_false.
  - destruct (bool_decide (k = j)) eqn:E; simpl; [|by rewrite IH].
    apply bool_decide_eq_true in E as <-. by rewrite !bool_decide_false.
Qed.

Section RouteFacts.
Context `{UnstructuredHelpersLaws}.

Lemma mutateHTTPRoute_inv r p r' :
  mutateHTTPRoute r p = Ok r' →
  ∃ e, sp_Exposure (w_Spec p) = Some e ∧ un_GVK r' = un_GVK r ∧
    un_meta r' = managedMetadata (un_meta r) p ∧
    un_Object r' = any_set (un_Object r) "spec" (route_spec p e).
Proof.
  unfold mutateHTTPRoute. destruct (sp_Exposure (w_Spec p)) as [e|]; simpl; [|done].
  intros [= <-]. exists e. simpl. by rewrite SetNestedField_top.
Qed.

(** The engine's contract, for the route mutation.  It does not settle: it replaces [spec] whole. *)
Lemma route_mutation p e :
  sp_Exposure (w_Spec p) = Some e → SafeMutation (HTTPRouteMutation p).
Proof.
  intros He. split.
  - intros o o' Ho. destruct o as [| | | | | |u|]; try done. simpl in Ho. case_bool_decide; [|done].
    destruct (mutateHTTPRoute u p) as [u'| |] eqn:Eu; try done. injection Ho as <-.
    apply mutateHTTPRoute_inv in Eu as (?&_&_&Hm&_). simpl. by rewrite Hm.
  - intros o o' Ho. destruct o as [| | | | | |u|]; try done. simpl in Ho. case_bool_decide; [|done].
    destruct (mutateHTTPRoute u p) as [u'| |] eqn:Eu; try done. injection Ho as <-.
    by apply mutateHTTPRoute_inv in Eu as (?&_&?&_).
  - intros o. destruct o as [| | | | | |u|]; try done. simpl. case_bool_decide; [|done].
    unfold mutateHTTPRoute. by rewrite He.
  - intros o. destruct o as [| | | | | |u|]; try done. simpl. case_bool_decide; [|done].
    unfold mutateHTTPRoute. by rewrite He.
Qed.

End RouteFacts.
