(* ===== verification/Builder.v ===== *)
(** * The production plan (internal/resource/deployment.go, [WorkloadBuilder.Build]) *)
From S2P Require Import Prelude Errors Kube Api Naming Intent Autoscaling Deploy ServiceIntent Availability Route.

Section Builder.
Context `{Quantities}.

Definition deploymentIntent (p : AIWorkload) (requests limits : ResourceList) : Intent := {|
  i_Object := Pointer (ODeployment (new_Deployment (new_meta (ChildName (w_Name p)) (w_Namespace p))));
  i_Mutate := Some (on_Deployment (λ d, mutateDeployment d p requests limits));
  i_Absent := false |}.

Definition Build (p : option AIWorkload) : res (list Intent) :=
  match p with
  | None => invalid
  | Some p =>
      let desired := p in (* [p.DeepCopy()]: the model's values are immutable *)
      lists ← resourceLists (sp_Resources (w_Spec desired));
      let identity := serviceAccountIntent desired in
      let deployment := deploymentIntent desired lists.1 lists.2 in
      service ← serviceIntent desired;
      autoscaling ← autoscalingIntent desired;
      availability ← availabilityIntent desired;
      Ok [identity; deployment; service; networkPolicyIntent desired; autoscaling; availability]
  end.

(** ** Every mutation of the plan keeps the engine's contract *)

(** A property of outcomes through a type assertion. *)
Lemma fmap_Ok {A B} (f : A → B) (m : res A) b : f <$> m = Ok b ↔ ∃ a, m = Ok a ∧ f a = b.
Proof. destruct m; unfold fmap; simpl; naive_solver. Qed.

Lemma fmap_no_panic {A B} (f : A → B) (m : res A) : no_panic m → no_panic (f <$> m).
Proof. by destruct m. Qed.

Lemma fmap_errors {A B} (f : A → B) (m : res A) : local_errors m → local_errors (f <$> m).
Proof. by destruct m. Qed.

Ltac lift_mutation :=
  intros Hid Hidem Herr Hnp; split; [split|];
  [ intros o o' Ho; destruct o; try done; apply fmap_Ok in Ho as (x & Hx & <-);
    destruct (Hid _ _ Hx) as (?&?&?&?&?&?&?&_); done
  | intros o o' Ho; destruct o; try done; apply fmap_Ok in Ho as (x & Hx & <-); done
  | intros o; destruct o; try done; apply fmap_errors, Herr
  | intros o; destruct o; try done; apply fmap_no_panic, Hnp
  | intros o o' s Ho Hm Hs; destruct o; try done; apply fmap_Ok in Ho as (x & Hx & <-); destruct s; try done;
    simpl in Hm, Hs |- *; by rewrite (Hidem _ _ _ Hx Hm Hs) ].

Lemma Mutation_ServiceAccount f :
  (∀ x y, f x = Ok y → same_identity (sa_meta y) (sa_meta x)) →
  (∀ x y s, f x = Ok y → settled_meta (sa_meta s) (sa_meta x) (sa_meta y) →
    accepted_ServiceAccount y s → f s = Ok s) → (∀ x, local_errors (f x)) →
  (∀ x, no_panic (f x)) → Mutation (on_ServiceAccount f).
Proof. lift_mutation. Qed.

Lemma Mutation_Deployment f :
  (∀ x y, f x = Ok y → same_identity (dp_meta y) (dp_meta x)) →
  (∀ x y s, f x = Ok y → settled_meta (dp_meta s) (dp_meta x) (dp_meta y) →
    accepted_Deployment y s → f s = Ok s) → (∀ x, local_errors (f x)) →
  (∀ x, no_panic (f x)) → Mutation (on_Deployment f).
Proof. lift_mutation. Qed.

Lemma Mutation_Service f :
  (∀ x y, f x = Ok y → same_identity (sv_meta y) (sv_meta x)) →
  (∀ x y s, f x = Ok y → settled_meta (sv_meta s) (sv_meta x) (sv_meta y) →
    accepted_Service y s → f s = Ok s) → (∀ x, local_errors (f x)) →
  (∀ x, no_panic (f x)) → Mutation (on_Service f).
Proof. lift_mutation. Qed.

Lemma Mutation_NetworkPolicy f :
  (∀ x y, f x = Ok y → same_identity (np_meta y) (np_meta x)) →
  (∀ x y s, f x = Ok y → settled_meta (np_meta s) (np_meta x) (np_meta y) →
    accepted_NetworkPolicy y s → f s = Ok s) → (∀ x, local_errors (f x)) →
  (∀ x, no_panic (f x)) → Mutation (on_NetworkPolicy f).
Proof. lift_mutation. Qed.

Lemma Mutation_HorizontalPodAutoscaler f :
  (∀ x y, f x = Ok y → same_identity (hpa_meta y) (hpa_meta x)) →
  (∀ x y s, f x = Ok y → settled_meta (hpa_meta s) (hpa_meta x) (hpa_meta y) →
    accepted_HorizontalPodAutoscaler y s → f s = Ok s) → (∀ x, local_errors (f x)) →
  (∀ x, no_panic (f x)) → Mutation (on_HorizontalPodAutoscaler f).
Proof. lift_mutation. Qed.

Lemma Mutation_PodDisruptionBudget f :
  (∀ x y, f x = Ok y → same_identity (pdb_meta y) (pdb_meta x)) →
  (∀ x y s, f x = Ok y → settled_meta (pdb_meta s) (pdb_meta x) (pdb_meta y) →
    accepted_PodDisruptionBudget y s → f s = Ok s) → (∀ x, local_errors (f x)) →
  (∀ x, no_panic (f x)) → Mutation (on_PodDisruptionBudget f).
Proof. lift_mutation. Qed.

#[export] Instance serviceAccount_mutation p : Mutation (on_ServiceAccount (λ a, mutateServiceAccount a p)).
Proof.
  apply Mutation_ServiceAccount; [by intros ?? [= <-]|intros x y m; apply mutateServiceAccount_settled|done|done].
Qed.

#[export] Instance deployment_mutation p rq lm : Mutation (on_Deployment (λ d, mutateDeployment d p rq lm)).
Proof.
  apply Mutation_Deployment;
    eauto using mutateDeployment_identity, mutateDeployment_settled, mutateDeployment_errors, mutateDeployment_no_panic.
Qed.

#[export] Instance service_mutation p : Mutation (on_Service (λ s, mutateService s p)).
Proof.
  apply Mutation_Service; [|intros x y m; apply mutateService_settled| |].
  - intros x y (_&_&->&_)%mutateService_inv. done.
  - intros x. unfold mutateService. by repeat case_match.
  - intros x. unfold mutateService. by repeat case_match.
Qed.

#[export] Instance networkPolicy_mutation p : Mutation (on_NetworkPolicy (λ n, mutateNetworkPolicy n p)).
Proof.
  apply Mutation_NetworkPolicy; [by intros ?? [= <-]|intros x y m; apply mutateNetworkPolicy_settled|done|done].
Qed.

#[export] Instance availability_mutation p : Mutation (on_PodDisruptionBudget (λ b, mutatePDB b p)).
Proof.
  apply Mutation_PodDisruptionBudget; [|intros x y m; apply mutatePDB_settled|intros; apply mutatePDB_errors|intros; apply mutatePDB_no_panic].
  unfold mutatePDB. intros x y Hy. inv_Ok Hy. by simplify_eq/=.
Qed.

(** Without a stabilization window the autoscaler's mutation settles; with one it is only safe. *)
Lemma autoscaling_safe p a :
  sp_Autoscaling (w_Spec p) = Some a → as_MinReplicas a ≠ None → as_MaxReplicas a ≠ None →
  SafeMutation (on_HorizontalPodAutoscaler (λ h, mutateHPA h p)).
Proof.
  intros Ha Hmin Hmax. split.
  - intros o o' Ho. destruct o; try done. apply fmap_Ok in Ho as (x & Hx & <-).
    apply mutateHPA_Ok in Hx as (?&?&?&?&_&_&_&_&Hm&_). simpl. by rewrite Hm.
  - intros o o' Ho. destruct o; try done. by apply fmap_Ok in Ho as (x & Hx & <-).
  - intros o. destruct o; try done. apply fmap_errors, mutateHPA_errors.
  - intros o. destruct o as [| | | |x| | |]; try done. apply fmap_no_panic. unfold mutateHPA. rewrite Ha. simpl.
    apply res_bind_no_panic; [apply hpaMetrics_no_panic|]. intros metrics _.
    by destruct (as_MinReplicas a), (as_MaxReplicas a).
Qed.

Lemma autoscaling_mutation p a :
  sp_Autoscaling (w_Spec p) = Some a → as_MinReplicas a ≠ None → as_MaxReplicas a ≠ None →
  as_ScaleDownStabilizationSeconds a = None →
  Mutation (on_HorizontalPodAutoscaler (λ h, mutateHPA h p)).
Proof.
  intros Ha Hmin Hmax Hn. split; [by eapply autoscaling_safe|].
  intros o o' s Ho Hm Hs. destruct o; try done. apply fmap_Ok in Ho as (x & Hx & <-).
  destruct s; try done. simpl in *. by rewrite (mutateHPA_settled _ _ _ _ _ Ha Hn Hx Hm Hs).
Qed.

(** ** The shape of the plan *)

(** One intent of a plan for [p]: a fresh object with the child identity, and either an absence or
    a mutation that keeps the engine's contract. *)
Definition wellformed_intent (p : AIWorkload) (i : Intent) : Prop :=
  ptr_meta (i_Object i) = Some (new_meta (ChildName (w_Name p)) (w_Namespace p)) ∧
  match i_Mutate i with
  | None => i_Absent i = true
  | Some f => i_Absent i = false ∧ SafeMutation f
  end.

Lemma serviceIntent_wf p i : serviceIntent p = Ok i →
  wellformed_intent p i ∧ i_Absent i = negb (ServiceEnabled (Some p)) ∧
  i_Object i = Pointer (OService (new_Service (new_meta (ChildName (w_Name p)) (w_Namespace p)))).
Proof.
  unfold serviceIntent. destruct (ServiceEnabled (Some p)); simpl.
  - case_match; [done|]. intros [= <-].
    refine (conj (conj eq_refl (conj eq_refl _)) (conj eq_refl eq_refl)).
  - intros [= <-]. done.
Qed.

Lemma networkPolicyIntent_wf p :
  wellformed_intent p (networkPolicyIntent p) ∧
  i_Absent (networkPolicyIntent p) = negb (NetworkEnabled (Some p)) ∧
  i_Object (networkPolicyIntent p) =
    Pointer (ONetworkPolicy (new_NetworkPolicy (new_meta (ChildName (w_Name p)) (w_Namespace p)))).
Proof.
  unfold networkPolicyIntent, wellformed_intent. destruct (NetworkEnabled (Some p)); simpl; [|done].
  refine (conj (conj eq_refl (conj eq_refl _)) (conj eq_refl eq_refl)).
Qed.

Lemma autoscalingIntent_wf p i : autoscalingIntent p = Ok i →
  wellformed_intent p i ∧ i_Absent i = negb (AutoscalingEnabled (Some p)) ∧
  i_Object i = Pointer (OHorizontalPodAutoscaler
    (new_HorizontalPodAutoscaler (new_meta (ChildName (w_Name p)) (w_Namespace p)))).
Proof.
  unfold autoscalingIntent. destruct (AutoscalingEnabled (Some p)); simpl.
  - destruct (sp_Autoscaling (w_Spec p)) as [a|] eqn:Ha; simpl; [|done].
    destruct (_ || _) eqn:E; [done|]. intros [= <-].
    rewrite !orb_false_iff, !bool_decide_eq_false in E. destruct E as [[??]?].
    refine (conj (conj eq_refl (conj eq_refl _)) (conj eq_refl eq_refl)).
    by eapply autoscaling_safe.
  - intros [= <-]. done.
Qed.

Lemma availabilityIntent_wf p i : availabilityIntent p = Ok i →
  wellformed_intent p i ∧ i_Absent i = negb (AvailabilityEnabled (Some p)) ∧
  i_Object i = Pointer (OPodDisruptionBudget
    (new_PodDisruptionBudget (new_meta (ChildName (w_Name p)) (w_Namespace p)))).
Proof.
  unfold availabilityIntent. destruct (AvailabilityEnabled (Some p)); simpl negb; cbv iota.
  - intros Hi. inv_Ok Hi. simplify_eq.
    refine (conj (conj eq_refl (conj eq_refl _)) (conj eq_refl eq_refl)).
  - intros [= <-]. done.
Qed.

Lemma Build_inv p plan : Build (Some p) = Ok plan →
  ∃ rq lm service autoscaling availability,
    resourceLists (sp_Resources (w_Spec p)) = Ok (rq, lm) ∧ serviceIntent p = Ok service ∧
    autoscalingIntent p = Ok autoscaling ∧ availabilityIntent p = Ok availability ∧
    plan = [serviceAccountIntent p; deploymentIntent p rq lm; service; networkPolicyIntent p;
            autoscaling; availability].
Proof.
  unfold Build. intros Hp. inv_Ok Hp. simplify_eq.
  match goal with E : resourceLists _ = Ok ?l |- _ => destruct l as [rq lm] end. eauto 10.
Qed.

Lemma Build_wf p plan : Build (Some p) = Ok plan → Forall (wellformed_intent p) plan.
Proof.
  intros (rq & lm & s & a & b & _ & Hs & Ha & Hb & ->)%Build_inv.
  apply serviceIntent_wf in Hs as [? _]. apply autoscalingIntent_wf in Ha as [? _].
  apply availabilityIntent_wf in Hb as [? _].
  repeat apply Forall_cons_2; try done; [| |apply networkPolicyIntent_wf];
    refine (conj eq_refl (conj eq_refl _)).
Qed.

Lemma serviceIntent_no_panic p : no_panic (serviceIntent p).
Proof. unfold serviceIntent. by repeat case_match. Qed.

Lemma autoscalingIntent_no_panic p : no_panic (autoscalingIntent p).
Proof.
  unfold autoscalingIntent. destruct (AutoscalingEnabled (Some p)) eqn:E; simpl; [|done].
  apply AutoscalingEnabled_spec in E as (a & -> & _). simpl. by case_match.
Qed.

Lemma availabilityIntent_no_panic p : no_panic (availabilityIntent p).
Proof.
  unfold availabilityIntent. case_match; [done|].
  apply res_bind_no_panic; [apply validateAvailability_no_panic|done].
Qed.

Lemma Build_no_panic p : no_panic (Build p).
Proof.
  destruct p as [p|]; [|done]. unfold Build.
  apply res_bind_no_panic; [apply resourceLists_no_panic|]. intros lists _.
  apply res_bind_no_panic; [apply serviceIntent_no_panic|]. intros service _.
  apply res_bind_no_panic; [apply autoscalingIntent_no_panic|]. intros autoscaling _.
  by apply res_bind_no_panic; [apply availabilityIntent_no_panic|].
Qed.

Lemma parse_errors input : local_errors (parse input).
Proof. rewrite parse_spec. by case_match. Qed.

Lemma resourceLists_errors spec : local_errors (resourceLists spec).
Proof.
  destruct spec as [spec|]; simpl; [|done].
  apply local_errors_bind; [apply parse_errors|]. intros requests _.
  apply local_errors_bind; [apply parse_errors|]. intros limits _.
  apply local_errors_bind; [|done].
  rewrite default_requests_spec by apply NoDup_fst_map_to_list. by case_match.
Qed.

Lemma Build_errors p : local_errors (Build p).
Proof.
  destruct p as [p|]; [|done]. unfold Build.
  apply local_errors_bind; [apply resourceLists_errors|]. intros lists _.
  apply local_errors_bind; [unfold serviceIntent; by repeat case_match|]. intros service _.
  apply local_errors_bind; [unfold autoscalingIntent; case_match; auto with awcp|].
  { apply local_errors_bind; [auto with awcp|]. intros a _. by case_match. }
  intros autoscaling _. apply local_errors_bind; [|done].
  unfold availabilityIntent. case_match; [done|].
  by apply local_errors_bind; [apply validateAvailability_errors|].
Qed.

Lemma wellformed_intent_safe p i : wellformed_intent p i → safe_intent i.
Proof.
  intros [_ Hi]. unfold safe_intent. destruct (i_Mutate i) as [f|]; [|done].
  destruct Hi as [_ Hf]. apply Hf.
Qed.

#[export] Instance Build_plan_builder : PlanBuilder Build.
Proof.
  split; [apply Build_no_panic|apply Build_errors|]. intros [p|] plan Hp; [|done].
  eapply Forall_impl; [by eapply Build_wf|]. apply wellformed_intent_safe.
Qed.

End Builder.

(** ** The route intent *)

Section RouteIntent.
Context `{UnstructuredHelpersLaws}.

Lemma HTTPRouteIntent_wf p i : HTTPRouteIntent (Some p) = Ok i →
  wellformed_intent p i ∧ i_Absent i = negb (HTTPRouteEnabled (Some p)) ∧
  i_Object i = Pointer (OUnstructured {| un_GVK := HTTPRouteGVK;
    un_meta := new_meta (ChildName (w_Name p)) (w_Namespace p); un_Object := [] |}).
Proof.
  unfold HTTPRouteIntent. destruct (HTTPRouteEnabled (Some p)) eqn:E; simpl; [|by intros [= <-]].
  destruct (ServiceEnabled (Some p)); simpl; [|done].
  apply HTTPRouteEnabled_spec in E as (e & He & _). rewrite He. simpl. case_match; [done|].
  intros [= <-]. refine (conj (conj eq_refl (conj eq_refl _)) (conj eq_refl eq_refl)).
  by eapply route_mutation.
Qed.

Lemma HTTPRouteIntent_no_panic p : no_panic (HTTPRouteIntent p).
Proof.
  destruct p as [p|]; [|done]. unfold HTTPRouteIntent.
  destruct (HTTPRouteEnabled (Some p)) eqn:E; simpl; [|done]. case_match; [done|].
  apply HTTPRouteEnabled_spec in E as (e & -> & _). simpl. by case_match.
Qed.

Lemma HTTPRouteIntent_errors p : local_errors (HTTPRouteIntent p).
Proof.
  destruct p as [p|]; [|done]. unfold HTTPRouteIntent.
  destruct (HTTPRouteEnabled (Some p)) eqn:E; simpl; [|done]. case_match; [done|].
  apply HTTPRouteEnabled_spec in E as (e & -> & _). simpl. by case_match.
Qed.

End RouteIntent.

(** Everything the plan asks of the workload, down to its fields; what they compute to stays
    folded. *)
Ltac read_fields :=
  unfold Build, HTTPRouteIntent, serviceAccountIntent, deploymentIntent, serviceIntent, networkPolicyIntent,
    autoscalingIntent, availabilityIntent, validateAvailability, AvailabilityReplicaFloor, AvailabilityEnabled,
    AutoscalingEnabled, ServiceEnabled, ServicePort, NetworkEnabled, HTTPRouteEnabled, HTTPRouteMutation, mutateHTTPRoute,
    route_spec, mutateServiceAccount, mutateDeployment, desired_spec_replicas, mutatePodSpec, mutateContainers,
    mutateContainer, mutateService, mutateNetworkPolicy, mutateHPA, mutatePDB, validateAvailability, AvailabilityReplicaFloor,
    AvailabilityEnabled, AutoscalingEnabled, ServiceEnabled, ServicePort, managedMetadata, managedLabels, SelectorLabels,
    w_Name, w_Namespace, w_UID.
