(* ===== verification/Capability.v ===== *)
(** * Optional platform capabilities (internal/capability/catalog.go) *)
From S2P Require Import Prelude Errors Kube Api Effects.

(** [Feature] is a string; the catalog declares six. *)
Inductive Feature :=
  | ExternalSecrets
  | GatewayAPI
  | ArgoRollouts
  | ExternalMetrics
  | PrometheusMonitoring
  | ValidatingAdmissionPolicies
  | OtherFeature (s : string).

#[export] Instance Feature_eq_dec : EqDecision Feature.
Proof. solve_decision. Defined.

Record APIResource := { ar_GroupVersion : string; ar_Resource : string }.

Record Requirement := {
  rq_Feature : Feature;
  rq_Description : string;
  rq_Resources : list APIResource
}.

Definition requirements : list Requirement := [
  {| rq_Feature := ExternalSecrets;
     rq_Description := "External Secrets Operator namespaced SecretStore and ExternalSecret APIs";
     rq_Resources := [
       {| ar_GroupVersion := "external-secrets.io/v1"; ar_Resource := "secretstores" |};
       {| ar_GroupVersion := "external-secrets.io/v1"; ar_Resource := "externalsecrets" |}] |};
  {| rq_Feature := GatewayAPI;
     rq_Description := "Gateway API Gateway and HTTPRoute APIs";
     rq_Resources := [
       {| ar_GroupVersion := "gateway.networking.k8s.io/v1"; ar_Resource := "gateways" |};
       {| ar_GroupVersion := "gateway.networking.k8s.io/v1"; ar_Resource := "httproutes" |}] |};
  {| rq_Feature := ArgoRollouts;
     rq_Description := "Argo Rollouts Rollout API";
     rq_Resources := [{| ar_GroupVersion := "argoproj.io/v1alpha1"; ar_Resource := "rollouts" |}] |};
  {| rq_Feature := ExternalMetrics;
     rq_Description := "external.metrics.k8s.io API required for HPA scale-to-zero or external metrics";
     rq_Resources := [{| ar_GroupVersion := "external.metrics.k8s.io/v1beta1"; ar_Resource := "*" |}] |};
  {| rq_Feature := PrometheusMonitoring;
     rq_Description := "Prometheus Operator monitoring API for optional ServiceMonitor integration";
     rq_Resources := [{| ar_GroupVersion := "monitoring.coreos.com/v1"; ar_Resource := "servicemonitors" |}] |};
  {| rq_Feature := ValidatingAdmissionPolicies;
     rq_Description := "Kubernetes admissionregistration ValidatingAdmissionPolicy API";
     rq_Resources := [{| ar_GroupVersion := "admissionregistration.k8s.io/v1";
       ar_Resource := "validatingadmissionpolicies" |}] |}].

(** Both return copies, which the model's immutable values are. *)
Definition Requirements : list Requirement := requirements.

Definition RequirementFor (feature : Feature) : option Requirement :=
  first_match (λ r, bool_decide (rq_Feature r = feature)) requirements.

Inductive State := Available | Unavailable | Unknown.

#[export] Instance State_eq_dec : EqDecision State.
Proof. solve_decision. Defined.

(** [ResourceLookup], as its one method. *)
Definition ResourceLookup : Type := APIResource → program (reply bool).

Section DiscoveryLookup.
Context `{ApiErrors}.

(** [DiscoveryLookup.HasResource]: the discovery client answers the names of the resources of one
    group version. *)
Definition HasResource (resource : APIResource) : program (reply bool) :=
  list ← server_resources (ar_GroupVersion resource);
  match list with
  | inl err => if IsNotFound err then Ret (inr false) else Ret (inl err)
  | inr names =>
      Ret (inr (existsb (λ name, bool_decide (ar_Resource resource = "*") ||
                                 bool_decide (name = ar_Resource resource)) names))
  end.

End DiscoveryLookup.

Record Observation := { ob_Requirement : Requirement; ob_State : State; ob_Err : option error }.

Fixpoint detect_resources (lookup : ResourceLookup) (requirement : Requirement) (resources : list APIResource)
    : program Observation :=
  match resources with
  | [] => Ret {| ob_Requirement := requirement; ob_State := Available; ob_Err := None |}
  | resource :: resources' =>
      answer ← lookup resource;
      match answer with
      | inl err => Ret {| ob_Requirement := requirement; ob_State := Unknown; ob_Err := Some err |}
      | inr false => Ret {| ob_Requirement := requirement; ob_State := Unavailable; ob_Err := None |}
      | inr true => detect_resources lookup requirement resources'
      end
  end.

Definition Detect (lookup : ResourceLookup) (requirement : Requirement) : program Observation :=
  detect_resources lookup requirement (rq_Resources requirement).

#[global] Arguments Detect : simpl never.
#[global] Arguments RequirementFor : simpl never.
