(* ===== verification/Engine.v ===== *)
(** * The child engine (internal/controller/engine.go) *)
From S2P Require Import Prelude Errors GoStd Kube Api Naming Intent Route Effects.

Inductive Outcome := Created | Patched | Deleted | Unchanged.

#[export] Instance Outcome_eq_dec : EqDecision Outcome.
Proof. solve_decision. Defined.

(** [string(outcome)] *)
Definition Outcome_string (o : Outcome) : string :=
  match o with
  | Created => "created"
  | Patched => "patched"
  | Deleted => "deleted"
  | Unchanged => "unchanged"
  end.

(** The type switch.  A nil pointer to one of the typed kinds still selects its case. *)
Definition childOrder (o : ObjectPtr) : Z :=
  match o with
  | NilPointer KServiceAccount | Pointer (OServiceAccount _) => 0
  | NilPointer KDeployment | Pointer (ODeployment _) => 1
  | NilPointer KService | Pointer (OService _) => 2
  | NilPointer KNetworkPolicy | Pointer (ONetworkPolicy _) => 3
  | NilPointer KHorizontalPodAutoscaler | Pointer (OHorizontalPodAutoscaler _) => 4
  | NilPointer KPodDisruptionBudget | Pointer (OPodDisruptionBudget _) => 5
  | Pointer (OUnstructured object) => if bool_decide (un_GVK object = HTTPRouteGVK) then 6 else -1
  | NilInterface | Pointer (OOther _) => -1
  end.

(** [reflect.ValueOf(o).IsNil()], reached for a value of one of the cases above only. *)
Definition IsNil (o : ObjectPtr) : bool :=
  match o with
  | Pointer _ => false
  | _ => true
  end.

(** Metadata that no API server has touched. *)
Definition has_server_identity (m : ObjectMeta) : bool :=
  negb (bool_decide (om_UID m = "")) || negb (bool_decide (om_ResourceVersion m = "")) ||
  negb (bool_decide (length (om_OwnerReferences m) = 0%nat)) ||
  negb (bool_decide (length (om_Finalizers m) = 0%nat)) ||
  negb (bool_decide (om_DeletionTimestamp m = None)).

(** The range over [ordered], with the map [seen] as the set of its keys. *)
Fixpoint validate_intents (p : AIWorkload) (plan : list Intent) (seen : gset Z) : res unit :=
  match plan with
  | [] => Ok ()
  | i :: plan' =>
      if (childOrder (i_Object i) <? 0)%Z || IsNil (i_Object i) then invalid
      else
        let kind := childOrder (i_Object i) in
        m ← deref (ptr_meta (i_Object i));
        if (kind <? 0)%Z || bool_decide (kind ∈ seen) ||
           negb (bool_decide (om_Namespace m = w_Namespace p)) ||
           negb (bool_decide (om_Name m = ChildName (w_Name p))) ||
           i_Absent i && (kind <? 2)%Z ||
           negb (i_Absent i) && match i_Mutate i with None => true | Some _ => false end
        then invalid
        else if has_server_identity m then invalid
        else validate_intents p plan' ({[kind]} ∪ seen)
  end.

Definition ValidatePlan (p : AIWorkload) (plan : list Intent) : res (list Intent) :=
  if bool_decide (w_UID p = "") || bool_decide (w_Namespace p = "") || bool_decide (w_Name p = "")
  then invalid
  else
    _ ← validate_intents p plan ∅;
    Ok (SliceStable (λ i j, childOrder (i_Object i) <? childOrder (i_Object j))%Z plan).

Section Engine.
Context `{ApiErrors, OwnerHelpers, SemanticDeepEqual Object}.

Definition owns (p : AIWorkload) (o : Object) : bool :=
  let owner := GetControllerOf (om_OwnerReferences (obj_meta o)) in
  bool_decide (om_Namespace (obj_meta o) = w_Namespace p) &&
  match owner with
  | None => false
  | Some owner =>
      bool_decide (or_UID owner = w_UID p) && bool_decide (or_Name owner = w_Name p) &&
      bool_decide (or_Kind owner = "AIWorkload") && bool_decide (or_APIVersion owner = GroupVersion)
  end.

(** The check on the object a mutation returns for a child that does not exist. *)
Definition fresh_identity_kept (p : AIWorkload) (target current : ObjectMeta) : bool :=
  negb (negb (bool_decide (om_Name current = om_Name target)) ||
        negb (bool_decide (om_Namespace current = w_Namespace p)) ||
        has_server_identity current).

(** The check on the object a mutation returns for the child [before]. *)
Definition identity_kept (before current : ObjectMeta) : bool :=
  negb (negb (bool_decide (om_Name current = om_Name before)) ||
        negb (bool_decide (om_Namespace current = om_Namespace before)) ||
        negb (bool_decide (om_UID current = om_UID before)) ||
        negb (bool_decide (om_ResourceVersion current = om_ResourceVersion before)) ||
        negb (bool_decide (om_OwnerReferences current = om_OwnerReferences before)) ||
        negb (bool_decide (om_Finalizers current = om_Finalizers before)) ||
        negb (bool_decide (om_DeletionTimestamp current = om_DeletionTimestamp before))).

(** [controllerutil.SetControllerReference(p, current, e.Scheme, WithBlockOwnerDeletion(false))] *)
Definition set_controller (p : AIWorkload) (current : Object) : option Object :=
  refs ← SetControllerReference GroupVersion AIWorkloadKind (w_meta p) false
    (om_Namespace (obj_meta current)) (om_OwnerReferences (obj_meta current));
  Some (with_meta (set_owner_references refs (obj_meta current)) current).

(** [i.Mutate(current)]: a nil function panics. *)
Definition mutate (i : Intent) (current : Object) : program (reply Object) :=
  f ← or_panic (i_Mutate i);
  pure_call (f current).

(** The branch for a child the API does not have. *)
Definition apply_create (p : AIWorkload) (i : Intent) (object : Object) : program (reply Outcome) :=
  if i_Absent i then Ret (inr Unchanged) else
  mutated ← mutate i object;
  match mutated with
  | inl err => Ret (inl err)
  | inr current =>
      if negb (fresh_identity_kept p (obj_meta object) (obj_meta current)) then
        Ret (inl (Sentinel ErrInvalidPlan))
      else match set_controller p current with
      | None => Ret (inl (Sentinel ErrInvalidPlan))
      | Some current =>
          err ← client_Create current;
          match err with
          | Some err => Ret (inl err)
          | None => Ret (inr Created)
          end
      end
  end.

(** The branch for an owned child the plan does not want. *)
Definition apply_delete (current : Object) : program (reply Outcome) :=
  let uid := om_UID (obj_meta current) in
  let rv := om_ResourceVersion (obj_meta current) in
  err ← client_Delete current uid rv;
  match err with
  | None => Ret (inr Deleted)
  | Some err => if IsNotFound err then Ret (inr Unchanged) else Ret (inl err)
  end.

(** The branch for an owned child the plan wants. *)
Definition apply_patch (p : AIWorkload) (i : Intent) (before : Object) : program (reply Outcome) :=
  mutated ← mutate i before;
  match mutated with
  | inl err => Ret (inl err)
  | inr current =>
      if negb (identity_kept (obj_meta before) (obj_meta current)) then
        Ret (inl (Sentinel ErrInvalidPlan))
      else match set_controller p current with
      | None => Ret (inl (Sentinel ErrInvalidPlan))
      | Some current =>
          if DeepEqual before current then Ret (inr Unchanged)
          else
            err ← client_Patch before current;
            match err with
            | Some err => Ret (inl err)
            | None => Ret (inr Patched)
            end
      end
  end.

Definition Apply (p : AIWorkload) (i : Intent) : program (reply Outcome) :=
  if negb (Time_IsZero (w_DeletionTimestamp p)) then Ret (inr Unchanged) else
  valid ← pure_call (ValidatePlan p [i]);
  match valid with
  | inl err => Ret (inl err)
  | inr _ =>
      object ← or_panic (match i_Object i with Pointer object => Some object | _ => None end);
      answer ← client_Get object;
      match answer with
      | inl err => if IsNotFound err then apply_create p i object else Ret (inl err)
      | inr current =>
          if negb (owns p current) then Ret (inl (Sentinel ErrOwnershipConflict))
          else if negb (Time_IsZero (om_DeletionTimestamp (obj_meta current))) then
            Ret (inl (Sentinel ErrChildDeleting))
          else if i_Absent i then apply_delete current
          else apply_patch p i current
      end
  end.

End Engine.

#[global] Arguments ValidatePlan : simpl never.
#[global] Arguments Apply : simpl never.

(** ** Facts on plans *)

(** What the code requires of one intent. *)
Definition valid_intent (p : AIWorkload) (i : Intent) : Prop :=
  ∃ object, i_Object i = Pointer object ∧ (0 ≤ childOrder (i_Object i))%Z ∧
    om_Namespace (obj_meta object) = w_Namespace p ∧ om_Name (obj_meta object) = ChildName (w_Name p) ∧
    has_server_identity (obj_meta object) = false ∧
    (i_Absent i = true → (2 ≤ childOrder (i_Object i))%Z) ∧
    (i_Absent i = false → is_Some (i_Mutate i)).

Lemma validate_intents_Ok p plan seen :
  validate_intents p plan seen = Ok () ↔
  Forall (valid_intent p) plan ∧ NoDup (childOrder ∘ i_Object <$> plan) ∧
  Forall (λ i, childOrder (i_Object i) ∉ seen) plan.
Proof.
  revert seen. induction plan as [|i plan IH]; intros seen; simpl.
  { split; [|done]. repeat split; constructor. }
  rewrite !Forall_cons, NoDup_cons. split.
  - destruct (_ || IsNil _) eqn:E1; [done|]. intros Hv. inv_Ok Hv.
    destruct (i_Object i) as [| |object] eqn:Ei; try done. simplify_eq/=.
    destruct (_ || _ && _) eqn:E2; [done|]. destruct (has_server_identity _) eqn:E3; [done|].
    apply IH in Hv as (Hv & Hnd & Hs). rewrite !orb_false_iff, !andb_false_iff, !Z.ltb_ge in *.
    rewrite !negb_false_iff, !bool_decide_eq_true, bool_decide_eq_false in *.
    destruct E2 as [[[[[? ?] ?] ?] ?] ?].
    split; [split; [exists object; rewrite Ei; simpl|done]|split; [split; [|done]|split; [done|]]].
    + repeat split; try (done || lia); intros Ha; rewrite Ha in *; [naive_solver lia|].
      destruct (i_Mutate i); naive_solver.
    + intros (j & Hj & Hin)%list_elem_of_fmap. rewrite Forall_forall in Hs. specialize (Hs _ Hin).
      simpl in Hj. rewrite <-Hj in Hs. set_solver.
    + eapply Forall_impl; [done|]. set_solver.
  - intros [[(object & Ei & Ho & Hns & Hn & Hid & Ha & Hm) Hv] [[Hnin Hnd] [Hs Hss]]].
    rewrite Ei in *. destruct (Z.ltb_spec (childOrder (Pointer object)) 0); [lia|]. simpl IsNil.
    cbn [orb deref ptr_meta]. unfold mbind, res_bind.
    rewrite (bool_decide_false (_ ∈ seen)), !bool_decide_true by done. cbn [negb orb].
    destruct (i_Absent i); cbn [negb orb andb].
    + rewrite (proj2 (Z.ltb_ge _ 2)) by auto. rewrite Hid. apply IH. split; [done|]. split; [done|].
      rewrite Forall_forall in *. intros j Hj. apply not_elem_of_union. split; [|auto].
      rewrite elem_of_singleton. intros Heq. apply Hnin. apply list_elem_of_fmap. exists j.
      split; [|done]. simpl. by rewrite Heq.
    + destruct Hm as [f ->]; [done|]. rewrite Hid. apply IH. split; [done|]. split; [done|].
      rewrite Forall_forall in *. intros j Hj. apply not_elem_of_union. split; [|auto].
      rewrite elem_of_singleton. intros Heq. apply Hnin. apply list_elem_of_fmap. exists j.
      split; [|done]. simpl. by rewrite Heq.
Qed.

Lemma validate_intents_cases p plan seen :
  validate_intents p plan seen = Ok () ∨ validate_intents p plan seen = invalid.
Proof.
  revert seen. induction plan as [|i plan IH]; intros seen; simpl; [by left|].
  destruct (i_Object i); rewrite ?orb_true_r; try by right. rewrite orb_false_r.
  case_match; [by right|]. cbn. repeat case_match; auto.
Qed.

Lemma ValidatePlan_cases p plan :
  ValidatePlan p plan = Ok (SliceStable (λ i j, childOrder (i_Object i) <? childOrder (i_Object j))%Z plan) ∨
  ValidatePlan p plan = invalid.
Proof.
  unfold ValidatePlan. case_match; [by right|].
  destruct (validate_intents_cases p plan ∅) as [->| ->]; cbn; auto.
Qed.

Definition valid_owner (p : AIWorkload) : Prop := w_UID p ≠ "" ∧ w_Namespace p ≠ "" ∧ w_Name p ≠ "".

Lemma ValidatePlan_Ok p plan ordered :
  ValidatePlan p plan = Ok ordered ↔
  valid_owner p ∧ Forall (valid_intent p) plan ∧ NoDup (childOrder ∘ i_Object <$> plan) ∧
  ordered = SliceStable (λ i j, childOrder (i_Object i) <? childOrder (i_Object j))%Z plan.
Proof.
  unfold ValidatePlan, valid_owner. split.
  - destruct (_ || _) eqn:E; [done|]. rewrite !orb_false_iff, !bool_decide_eq_false in E.
    intros Hv. inv_Ok Hv. simplify_eq. destruct x. apply validate_intents_Ok in H. naive_solver.
  - intros ((?&?&?) & Hv & Hnd & ->). rewrite !bool_decide_false by done. cbn.
    assert (validate_intents p plan ∅ = Ok ()) as ->; [|done].
    apply validate_intents_Ok. split; [done|]. split; [done|]. rewrite Forall_forall. set_solver.
Qed.

Lemma ValidatePlan_sorted p plan ordered :
  ValidatePlan p plan = Ok ordered →
  ordered ≡ₚ plan ∧ Sorted (λ i j, childOrder (i_Object i) ≤ childOrder (i_Object j))%Z ordered.
Proof.
  intros (_&_&_&->)%ValidatePlan_Ok. split; [apply SliceStable_perm|].
  apply (SliceStable_sorted (childOrder ∘ i_Object)).
Qed.

(** Validating an accepted plan again, whole or intent by intent, accepts it. *)
Lemma ValidatePlan_idemp p plan ordered :
  ValidatePlan p plan = Ok ordered → ValidatePlan p ordered = Ok ordered.
Proof.
  intros Hv. destruct (ValidatePlan_sorted _ _ _ Hv) as [Hperm Hsort].
  apply ValidatePlan_Ok in Hv as (Ho & Hv & Hnd & _). apply ValidatePlan_Ok.
  split; [done|]. split; [by rewrite Hperm|]. split; [by rewrite Hperm|].
  symmetry. by apply (SliceStable_id (childOrder ∘ i_Object)).
Qed.

Lemma ValidatePlan_single p i : valid_owner p → valid_intent p i → ValidatePlan p [i] = Ok [i].
Proof.
  intros Ho Hi. apply ValidatePlan_Ok. split; [done|]. split; [by constructor|]. split; [|done].
  apply NoDup_singleton.
Qed.

Lemma ValidatePlan_members p plan ordered i :
  ValidatePlan p plan = Ok ordered → i ∈ ordered → ValidatePlan p [i] = Ok [i].
Proof.
  intros Hv Hi. destruct (ValidatePlan_sorted _ _ _ Hv) as [Hperm _].
  apply ValidatePlan_Ok in Hv as (Ho & Hv & _). apply ValidatePlan_single; [done|].
  rewrite Forall_forall in Hv. apply Hv. by rewrite <-Hperm.
Qed.

(** ** Facts on Apply *)

Section Facts.
Context `{ApiErrors, OwnerHelpers, SemanticDeepEqual Object}.

(** The calls of one [Apply], each after the history that leads to it: one read of the target,
    then at most one write, which depends on its answer. *)
Inductive apply_call (p : AIWorkload) (i : Intent) (h0 h : history) : event → Prop :=
  | apply_call_get object :
      i_Object i = Pointer object → h = h0 → apply_call p i h0 h (get_event object)
  | apply_call_create object x err f mutated o :
      i_Object i = Pointer object → i_Absent i = false → i_Mutate i = Some f →
      h = h0 ++ [Call (get_event object) x] → get_reply object x = inl err → IsNotFound err = true →
      f object = Ok mutated → fresh_identity_kept p (obj_meta object) (obj_meta mutated) = true →
      set_controller p mutated = Some o → apply_call p i h0 h (ECreate o)
  | apply_call_delete object x current :
      i_Object i = Pointer object → i_Absent i = true →
      h = h0 ++ [Call (get_event object) x] → get_reply object x = inr current →
      owns p current = true → Time_IsZero (om_DeletionTimestamp (obj_meta current)) = true →
      apply_call p i h0 h
        (EDelete current (om_UID (obj_meta current)) (om_ResourceVersion (obj_meta current)))
  | apply_call_patch object x before f mutated after :
      i_Object i = Pointer object → i_Absent i = false → i_Mutate i = Some f →
      h = h0 ++ [Call (get_event object) x] → get_reply object x = inr before →
      owns p before = true → Time_IsZero (om_DeletionTimestamp (obj_meta before)) = true →
      f before = Ok mutated → identity_kept (obj_meta before) (obj_meta mutated) = true →
      set_controller p mutated = Some after → DeepEqual before after = false →
      apply_call p i h0 h (EPatch before after).

(** An intent whose mutation panics on no object. *)
Definition intent_total (i : Intent) : Prop :=
  match i_Mutate i with Some f => mutation_total f | None => True end.

Lemma Apply_calls p i h :
  intent_total i →
  wp (λ _, True) (λ h' e, apply_call p i h h' e) h (Apply p i) (λ _ _, True).
Proof.
  intros Htot. unfold Apply. destruct (Time_IsZero (w_DeletionTimestamp p)); [|done]. simpl negb. cbv iota.
  destruct (ValidatePlan_cases p [i]) as [Hv|Hv]; rewrite Hv; [|done].
  apply ValidatePlan_Ok in Hv as (Ho & [(object & Ei & Hi) _]%Forall_cons & _).
  rewrite Ei. cbn. split; [by constructor|]. intros x _.
  destruct (get_reply object x) as [err|current] eqn:Ex.
  - destruct (IsNotFound err) eqn:En; [|done]. unfold apply_create.
    destruct (i_Absent i) eqn:Ea; [done|]. destruct Hi as (_&_&_&_&_&[f Hf]); [done|].
    unfold mutate, intent_total in *. rewrite Hf in *. cbn.
    destruct (f object) as [mutated|e|] eqn:Em; cbn; [|done|by apply Htot in Em].
    destruct (fresh_identity_kept _ _ _) eqn:Ek; cbn; [|done].
    destruct (set_controller p mutated) as [o|] eqn:Es; cbn; [|done].
    split; [by eapply apply_call_create|]. by intros [] _.
  - destruct (owns p current) eqn:Eo; cbn; [|done].
    destruct (Time_IsZero _) eqn:Ed; cbn; [|done].
    destruct (i_Absent i) eqn:Ea; cbn.
    + split; [by eapply apply_call_delete|]. intros [err|] _; cbn; [|done]. by destruct (IsNotFound err).
    + unfold apply_patch, mutate, intent_total in *. destruct Hi as (_&_&_&_&_&[f Hf]); [done|].
      rewrite Hf in *. cbn. destruct (f current) as [mutated|e|] eqn:Em; cbn; [|done|by apply Htot in Em].
      destruct (identity_kept _ _) eqn:Ek; cbn; [|done].
      destruct (set_controller p mutated) as [o|] eqn:Es; cbn; [|done].
      destruct (DeepEqual current o) eqn:Eq; [done|]. cbn.
      split; [by eapply apply_call_patch|]. by intros [] _.
Qed.

Lemma Apply_issues p i h e :
  intent_total i → issues (Apply p i) h e → apply_call p i [] h e.
Proof.
  intros Ht Hi. apply (wp_issues [] _ _ _ _ (Apply_calls p i [] Ht) Hi). by apply Forall_true.
Qed.

Lemma identity_kept_spec before m :
  identity_kept before m = true ↔
  om_Name m = om_Name before ∧ om_Namespace m = om_Namespace before ∧ om_UID m = om_UID before ∧
  om_ResourceVersion m = om_ResourceVersion before ∧ om_OwnerReferences m = om_OwnerReferences before ∧
  om_Finalizers m = om_Finalizers before ∧ om_DeletionTimestamp m = om_DeletionTimestamp before.
Proof.
  unfold identity_kept. rewrite negb_true_iff, !orb_false_iff, !negb_false_iff, !bool_decide_eq_true.
  tauto.
Qed.

Lemma has_server_identity_spec m :
  has_server_identity m = false ↔
  om_UID m = "" ∧ om_ResourceVersion m = "" ∧ om_OwnerReferences m = [] ∧ om_Finalizers m = [] ∧
  om_DeletionTimestamp m = None.
Proof.
  unfold has_server_identity. rewrite !orb_false_iff, !negb_false_iff, !bool_decide_eq_true.
  rewrite !length_zero_iff_nil. tauto.
Qed.

Lemma fresh_identity_kept_spec p target m :
  fresh_identity_kept p target m = true ↔
  om_Name m = om_Name target ∧ om_Namespace m = w_Namespace p ∧ has_server_identity m = false.
Proof.
  unfold fresh_identity_kept. rewrite negb_true_iff, !orb_false_iff, !negb_false_iff, !bool_decide_eq_true.
  tauto.
Qed.

Lemma set_controller_inv p o o' :
  set_controller p o = Some o' →
  ∃ refs, SetControllerReference GroupVersion AIWorkloadKind (w_meta p) false
      (om_Namespace (obj_meta o)) (om_OwnerReferences (obj_meta o)) = Some refs ∧
    o' = with_meta (set_owner_references refs (obj_meta o)) o.
Proof.
  unfold set_controller. destruct (SetControllerReference _ _ _ _ _ _) as [refs|] eqn:E; [|done].
  intros [= <-]. by exists refs.
Qed.

End Facts.

Section OwnerFacts.
Context `{ApiErrors, OwnerHelpersLaws, SemanticDeepEqual Object}.

(** An object the engine has put its controller reference on is one it owns. *)
Lemma set_controller_owns p o o' :
  om_Namespace (obj_meta o) = w_Namespace p → set_controller p o = Some o' → owns p o' = true.
Proof.
  intros Hns (refs & Hr & ->)%set_controller_inv. unfold owns. rewrite obj_meta_with_meta. simpl.
  rewrite (SetControllerReference_controller _ _ _ _ _ _ _ Hr). simpl.
  by rewrite !bool_decide_true.
Qed.

(** Ownership depends on the namespace and the owner references. *)
Lemma owns_ext p o o' :
  om_Namespace (obj_meta o') = om_Namespace (obj_meta o) →
  om_OwnerReferences (obj_meta o') = om_OwnerReferences (obj_meta o) → owns p o' = owns p o.
Proof. unfold owns. by intros -> ->. Qed.

(** The stored form of an object the engine wrote needs no further controller reference. *)
Lemma set_controller_settled p o o' s :
  set_controller p o = Some o' → om_Namespace (obj_meta s) = om_Namespace (obj_meta o') →
  om_OwnerReferences (obj_meta s) = om_OwnerReferences (obj_meta o') → set_controller p s = Some s.
Proof.
  intros (refs & Hr & ->)%set_controller_inv Hns Ho. rewrite obj_meta_with_meta in *. simpl in *.
  unfold set_controller. rewrite Hns, Ho, (SetControllerReference_idemp _ _ _ _ _ _ _ Hr). cbn. f_equal.
  etrans; [|apply with_meta_obj_meta]. f_equal. rewrite <-Ho. by destruct (obj_meta s).
Qed.

End OwnerFacts.
