(* ===== verification/Cluster.v ===== *)
(** * The API server's side of the engine

    An abstract cluster holds the child objects by kind, namespace and name.  [served] says which
    answers it may give to a call of the controller and what it stores then; [serves] is a whole
    history against it.  It is the specification the engine's convergence is stated against. *)
From S2P Require Import Prelude Errors Kube Api Naming Intent Route Effects Engine.

(** The key of a managed object: the place of its kind in [childOrder], namespace and name. *)
Abbreviation key := (Z * string * string)%type.

Definition object_key (o : Object) : key :=
  (childOrder (Pointer o), om_Namespace (obj_meta o), om_Name (obj_meta o)).

Abbreviation objects := (gmap key Object).

(** Every object is stored under its own key. *)
Definition keyed (s : objects) : Prop := ∀ k o, s !! k = Some o → object_key o = k.

(** What the server keeps of an object it accepted: its fields up to defaults, its name, and the
    metadata the controller writes; it assigns UID and resource version. *)
Definition stored (o s : Object) : Prop :=
  accepted o s ∧ om_UID (obj_meta s) ≠ "" ∧ om_ResourceVersion (obj_meta s) ≠ "" ∧
  om_Name (obj_meta s) = om_Name (obj_meta o) ∧ om_Namespace (obj_meta s) = om_Namespace (obj_meta o) ∧
  om_Labels (obj_meta s) = om_Labels (obj_meta o) ∧ om_Annotations (obj_meta s) = om_Annotations (obj_meta o) ∧
  om_OwnerReferences (obj_meta s) = om_OwnerReferences (obj_meta o) ∧
  om_DeletionTimestamp (obj_meta s) = om_DeletionTimestamp (obj_meta o).

Lemma accepted_order o s : accepted o s → childOrder (Pointer s) = childOrder (Pointer o).
Proof. destruct o, s; simpl; try done. by intros [-> _]. Qed.

Lemma stored_key o s : stored o s → object_key s = object_key o.
Proof. intros (Ha & _ & _ & Hn & Hns & _). unfold object_key. by rewrite (accepted_order _ _ Ha), Hn, Hns. Qed.

Lemma keyed_insert s k o : keyed s → object_key o = k → keyed (<[k := o]> s).
Proof.
  intros Hs Ho k' o'. rewrite lookup_insert. case_decide as Hk; [|apply Hs]. intros [= <-]. congruence.
Qed.

Lemma keyed_delete s k : keyed s → keyed (delete k s).
Proof. intros Hs k' o'. rewrite lookup_delete. case_decide; [done|apply Hs]. Qed.

Section Served.
Context `{ApiErrors, OwnerHelpers}.

(** A read under the key [k]: the object stored there; [NotFound] only when there is none; any
    other error at any time. *)
Definition read_from (s : objects) (k : key) (x : reply Object) : Prop :=
  match x with
  | inr o => s !! k = Some o
  | inl err => IsNotFound err = true → s !! k = None
  end.

(** An object whose deletion waits for its finalizers. *)
Definition marked_deleted (o s : Object) : Prop :=
  object_key s = object_key o ∧ Time_IsZero (om_DeletionTimestamp (obj_meta s)) = false.

(** The answers of the cluster [s] to the call [e], and the cluster after it.  A create needs a
    free key; a patch is made against the version the client read, and a delete names the UID and
    resource version; a refused write changes nothing. *)
Definition served (s s' : objects) (e : event) : answer e → Prop :=
  match e return answer e → Prop with
  | EGetServiceAccount ns name => λ x, s' = s ∧ read_from s (0%Z, ns, name) (reply_map OServiceAccount x)
  | EGetDeployment ns name => λ x, s' = s ∧ read_from s (1%Z, ns, name) (reply_map ODeployment x)
  | EGetService ns name => λ x, s' = s ∧ read_from s (2%Z, ns, name) (reply_map OService x)
  | EGetNetworkPolicy ns name => λ x, s' = s ∧ read_from s (3%Z, ns, name) (reply_map ONetworkPolicy x)
  | EGetHorizontalPodAutoscaler ns name => λ x,
      s' = s ∧ read_from s (4%Z, ns, name) (reply_map OHorizontalPodAutoscaler x)
  | EGetPodDisruptionBudget ns name => λ x,
      s' = s ∧ read_from s (5%Z, ns, name) (reply_map OPodDisruptionBudget x)
  | EGetUnstructured _ gvk ns name => λ x,
      s' = s ∧ (gvk = HTTPRouteGVK → read_from s (6%Z, ns, name) (reply_map OUnstructured x))
  | ECreate o => λ err,
      match err with
      | None => ∃ o', s !! object_key o = None ∧ stored o o' ∧ s' = <[object_key o := o']> s
      | Some _ => s' = s
      end
  | EPatch before after => λ err,
      match err with
      | None => ∃ o', s !! object_key before = Some before ∧ object_key after = object_key before ∧
          stored after o' ∧ s' = <[object_key before := o']> s
      | Some _ => s' = s
      end
  | EDelete o uid resourceVersion => λ err,
      match err with
      | None => ∃ current, s !! object_key o = Some current ∧ om_UID (obj_meta current) = uid ∧
          om_ResourceVersion (obj_meta current) = resourceVersion ∧
          (s' = delete (object_key o) s ∨
           ∃ o', marked_deleted current o' ∧ s' = <[object_key o := o']> s)
      | Some err => s' = s ∧ (IsNotFound err = true → s !! object_key o = None)
      end
  | _ => λ _, s' = s
  end.

Fixpoint serves (s : objects) (h : history) (s' : objects) : Prop :=
  match h with
  | [] => s' = s
  | Call e x :: h' => ∃ s1, served s s1 e x ∧ serves s1 h' s'
  end.

(** ** Facts *)

Lemma serves_app s h1 h2 s' : serves s (h1 ++ h2) s' ↔ ∃ s1, serves s h1 s1 ∧ serves s1 h2 s'.
Proof.
  revert s. induction h1 as [|[e x] h1 IH]; intros s; simpl.
  - split; [by exists s|]. by intros (s1 & -> & ?).
  - split.
    + intros (s1 & He & (s2 & H1 & H2)%IH). exists s2. eauto.
    + intros (s2 & (s1 & He & H1) & H2). exists s1. split; [done|]. apply IH. eauto.
Qed.

(** Only child writes change the cluster. *)
Lemma served_silent s s' e x : is_child_write e = false → served s s' e x → s' = s.
Proof. destruct e; simpl; naive_solver. Qed.

Lemma serves_silent s h s' :
  Forall (λ c, is_child_write (call_event c) = false) h → serves s h s' → s' = s.
Proof.
  revert s. induction h as [|[e x] h IH]; intros s; simpl; [done|].
  intros [He Hh]%Forall_cons (s1 & ->%served_silent & Hs); [|done]. by apply IH.
Qed.

(** A read of a managed object. *)
Lemma served_get s s' object x :
  (0 ≤ childOrder (Pointer object))%Z → served s s' (get_event object) x →
  s' = s ∧ read_from s (object_key object) (get_reply object x).
Proof.
  unfold object_key. destruct object; simpl; try done. case_bool_decide; [|done]. naive_solver.
Qed.

Lemma served_keyed s s' e x : keyed s → served s s' e x → keyed s'.
Proof.
  intros Hs. destruct e; simpl; try (by intros ->); try (by intros [-> _]); destruct x as [err|]; try (by intros ->).
  - intros (o' & _ & Ho & ->). apply keyed_insert; [done|]. by apply stored_key.
  - intros (o' & Hk & Hb & Ho & ->). apply keyed_insert; [done|]. rewrite <-Hb. by apply stored_key.
  - by intros [-> _].
  - intros (c & Hc & _ & _ & [->|(o' & [Ho _] & ->)]); [by apply keyed_delete|].
    apply keyed_insert; [done|]. rewrite Ho. by apply Hs.
Qed.

Lemma serves_keyed s h s' : keyed s → serves s h s' → keyed s'.
Proof.
  revert s. induction h as [|[e x] h IH]; intros s Hs; simpl; [by intros ->|].
  intros (s1 & He & Hh). eapply IH; [|done]. by eapply served_keyed.
Qed.

(** A call changes at most the key of the object it writes. *)
Lemma served_frame s s' e x k :
  served s s' e x → (∀ o, written_object e = Some o → k ≠ object_key o) → s' !! k = s !! k.
Proof.
  intros He Hk. destruct e; simpl in *; try (by subst); try (by destruct He as [-> _]);
    specialize (Hk _ eq_refl); destruct x as [err|]; try (by subst); try (by destruct He as [-> _]).
  - destruct He as (o' & _ & _ & ->). by rewrite lookup_insert_ne.
  - destruct He as (o' & _ & _ & _ & ->). by rewrite lookup_insert_ne.
  - destruct He as (c & _ & _ & _ & [->|(o' & _ & ->)]); [by rewrite lookup_delete_ne|by rewrite lookup_insert_ne].
Qed.

End Served.
