(* ===== verification/ClusterReference.v ===== *)
(** * An executable cluster

    A deterministic API server for the children, as [Cluster.served] specifies it: it stamps the
    metadata of what it stores, and completes an autoscaler's behavior.  The examples run the
    engine against it. *)
From S2P Require Import Prelude Errors Kube Api Naming Intent Route Effects Engine Cluster KubeReference Sample.

Module ClusterRef.
Import Ref Sample.

(** The writes so far, and the children. *)
Definition state : Type := N * objects.

(** The default scaling rules. *)
Definition default_rules : HPAScalingRules := {| sr_StabilizationWindowSeconds := Some 0%Z; sr_other := [] |}.

Definition with_defaults (o : Object) : Object :=
  match o with
  | OHorizontalPodAutoscaler h => OHorizontalPodAutoscaler {|
      hpa_meta := hpa_meta h; hpa_ScaleTargetRef := hpa_ScaleTargetRef h; hpa_MinReplicas := hpa_MinReplicas h;
      hpa_MaxReplicas := hpa_MaxReplicas h; hpa_Metrics := hpa_Metrics h;
      hpa_Behavior := (λ b, {|
        hb_ScaleDown := Some (default default_rules (hb_ScaleDown b));
        hb_ScaleUp := Some (default default_rules (hb_ScaleUp b)) |}) <$> hpa_Behavior h;
      hpa_Conditions := hpa_Conditions h; hpa_other := hpa_other h |}
  | _ => o
  end.

Definition saved (n : N) (o : Object) : Object := with_meta (stamp (n + 1) (obj_meta o)) (with_defaults o).

Definition put (k : key) (o : Object) (st : state) : state := ((st.1 + 1)%N, <[k := saved st.1 o]> st.2).

(** The answer to a read of the key [k] as an object of one kind; none when the kind is wrong. *)
Definition read {A} (sel : Object → option A) (k : key) (s : objects) : option (reply A) :=
  match s !! k with
  | None => Some (inl not_found)
  | Some o => inr <$> sel o
  end.

Definition conflict : error := api_error Conflict "the object has been modified".

Definition answer_with {e} (st : state) (x : option (answer e)) : option (state * answer e) := pair st <$> x.

Definition handle (st : state) (e : event) : option (state * answer e) :=
  let s := st.2 in
  match e return option (state * answer e) with
  | EGetServiceAccount ns name => answer_with (e := EGetServiceAccount ns name) st
      (read (λ o, match o with OServiceAccount x => Some x | _ => None end) (0%Z, ns, name) s)
  | EGetDeployment ns name => answer_with (e := EGetDeployment ns name) st
      (read (λ o, match o with ODeployment x => Some x | _ => None end) (1%Z, ns, name) s)
  | EGetService ns name => answer_with (e := EGetService ns name) st
      (read (λ o, match o with OService x => Some x | _ => None end) (2%Z, ns, name) s)
  | EGetNetworkPolicy ns name => answer_with (e := EGetNetworkPolicy ns name) st
      (read (λ o, match o with ONetworkPolicy x => Some x | _ => None end) (3%Z, ns, name) s)
  | EGetHorizontalPodAutoscaler ns name => answer_with (e := EGetHorizontalPodAutoscaler ns name) st
      (read (λ o, match o with OHorizontalPodAutoscaler x => Some x | _ => None end) (4%Z, ns, name) s)
  | EGetPodDisruptionBudget ns name => answer_with (e := EGetPodDisruptionBudget ns name) st
      (read (λ o, match o with OPodDisruptionBudget x => Some x | _ => None end) (5%Z, ns, name) s)
  | EGetUnstructured via gvk ns name => answer_with (e := EGetUnstructured via gvk ns name) st
      (if bool_decide (gvk = HTTPRouteGVK)
       then read (λ o, match o with OUnstructured x => Some x | _ => None end) (6%Z, ns, name) s
       else Some (inl not_found))
  | ECreate o =>
      match s !! object_key o with
      | None => Some (put (object_key o) o st, None)
      | Some _ => Some (st, Some (api_error AlreadyExists "exists"))
      end
  | EPatch before after =>
      if bool_decide (s !! object_key before = Some before) && bool_decide (object_key after = object_key before)
      then Some (put (object_key before) after st, None)
      else Some (st, Some conflict)
  | EDelete o uid resourceVersion =>
      match s !! object_key o with
      | None => Some (st, Some not_found)
      | Some current =>
          if bool_decide (om_UID (obj_meta current) = uid) &&
             bool_decide (om_ResourceVersion (obj_meta current) = resourceVersion)
          then Some (((st.1 + 1)%N, delete (object_key o) s), None)
          else Some (st, Some conflict)
      end
  | EEventf _ _ _ _ _ | ERecordResource _ _ | ERecordFailure _ => Some (st, tt)
  | ENow => Some (st, 0%Z)
  | _ => None
  end.

(** ** It keeps the specification *)

Lemma accepted_container_refl c : accepted_container c c.
Proof.
  exists (co_other c), (match co_SecurityContext c with Some sc => sc_other sc | None => [] end).
  destruct c as [? ? ? ? ? ? ? ? ? [[]|] ?]; done.
Qed.

Lemma accepted_pod_refl pod : accepted_pod pod pod.
Proof.
  exists (ps_other pod), (match ps_SecurityContext pod with Some c => psc_other c | None => [] end), (ps_Containers pod).
  split; [apply Forall2_same_length_lookup_2; [done|]; intros i x y Hx Hy; simplify_eq; apply accepted_container_refl|].
  destruct pod as [? ? ? [[]|] ? ?]; done.
Qed.

Lemma accepted_saved n o : accepted o (saved n o).
Proof.
  destruct o as [[]|d|[]|[]|h|[]|u|]; simpl.
  - by eexists _, _.
  - exists (stamp (n + 1) (dp_meta d)), (pt_Spec (dp_Template d)), (dp_other d), (dp_Status d).
    split; [apply accepted_pod_refl|]. by destruct d as [? ? ? [] ? ? ? ? ? ?].
  - by eexists _, _, _, _, _, _.
  - by eexists _, _.
  - eexists _, _, _, _. split; [|done]. destruct (hpa_Behavior h); simpl; eauto.
  - by eexists _, _.
  - split; [done|constructor].
  - done.
Qed.

Lemma digits_nonempty x s : s ≠ "" → pretty_N_go x s ≠ "".
Proof.
  revert s. induction (N.lt_wf_0 x) as [x _ IH]; intros s Hs.
  destruct (decide (x = 0%N)) as [->|]; [by rewrite pretty_N_go_0|].
  rewrite pretty_N_go_step by lia. apply IH; [apply N.div_lt; lia|done].
Qed.

Lemma number_nonempty (n : N) : pretty (n + 1)%N ≠ "".
Proof.
  unfold pretty, pretty_N. rewrite decide_False, pretty_N_go_step by lia. by apply digits_nonempty.
Qed.

Lemma stored_saved n o : stored o (saved n o).
Proof.
  split; [apply accepted_saved|]. unfold saved. rewrite obj_meta_with_meta. simpl.
  split; [by case_bool_decide|]. split; [apply number_nonempty|done].
Qed.

Lemma read_spec {A} (sel : Object → option A) wrap k s x :
  (∀ o a, sel o = Some a → o = wrap a) → read sel k s = Some x → read_from s k (reply_map wrap x).
Proof.
  unfold read. intros Hsel. destruct (s !! k) as [o|] eqn:Es; [|intros [= <-] _; exact Es].
  destruct (sel o) as [a|] eqn:Eo; simpl; intros [= <-]. simpl. rewrite Es. f_equal. by apply Hsel.
Qed.

Ltac read_served :=
  let H := fresh in intros H; apply fmap_Some in H as (? & H & [= -> ->]);
  split; [done|]; eapply read_spec; [|exact H]; intros o ? ?; destruct o; by simplify_eq.

Lemma handle_served st e st' x : handle st e = Some (st', x) → served st.2 st'.2 e x.
Proof.
  destruct e; simpl; unfold answer_with; try done; try (by intros [= <- _]); try read_served.
  - intros H. apply fmap_Some in H as (? & H & [= -> ->]). split; [done|]. intros ->.
    rewrite bool_decide_true in H by done. eapply read_spec; [|exact H]. intros o ? ?; destruct o; by simplify_eq.
  - destruct (st.2 !! object_key o) eqn:Ek; intros [= <- <-]; [done|].
    exists (saved st.1 o). split; [done|]. split; [apply stored_saved|done].
  - destruct (_ && _) eqn:E; intros [= <- <-]; [|done].
    apply andb_true_iff in E as [?%bool_decide_eq_true ?%bool_decide_eq_true].
    exists (saved st.1 after). split; [done|]. split; [done|]. split; [apply stored_saved|done].
  - destruct (st.2 !! object_key o) as [current|] eqn:Ek; [|by intros [= <- <-]].
    destruct (_ && _) eqn:E; intros [= <- <-]; [|done].
    apply andb_true_iff in E as [?%bool_decide_eq_true ?%bool_decide_eq_true].
    exists current. split; [done|]. split; [done|]. split; [done|]. by left.
Qed.

(** A run against it is a history the specification allows. *)
Lemma run_serves {A} (t : program A) st st' a :
  run handle st t = Some (st', a) → serves st.2 (log handle st t) st'.2.
Proof.
  revert st. induction t as [b|e k IH]; intros st; simpl; [by intros [= -> _]|].
  destruct (handle st e) as [[st1 x]|] eqn:Eh; [|done]. intros Hr.
  exists st1.2. split; [by eapply handle_served|]. by apply IH.
Qed.

End ClusterRef.
