(* ===== verification/Conditions.v ===== *)
(** * Status conditions and status patches
    (internal/controller/status.go, failures.go: [patchStatus], [preserveUnmanagedConditions])

    The condition types the controller manages, the writes to one condition, and the status patch
    with its single retry. *)
From S2P Require Import Prelude Errors Kube Api Effects.

Definition conditionReady : string := "Ready".
Definition conditionProgressing : string := "Progressing".
Definition conditionDegraded : string := "Degraded".
Definition conditionTenantReady : string := "TenantReady".
Definition conditionExternalSecretsReady : string := "ExternalSecretsReady".
Definition conditionExposureReady : string := "ExposureReady".
Definition conditionAutoscalingReady : string := "AutoscalingReady".
Definition conditionAvailabilityReady : string := "AvailabilityReady".

(** The types [preserveUnmanagedConditions] skips. *)
Definition is_managed_condition (t : string) : bool :=
  bool_decide (t = conditionReady) || bool_decide (t = conditionProgressing) ||
  bool_decide (t = conditionDegraded) || bool_decide (t = conditionTenantReady) ||
  bool_decide (t = conditionExternalSecretsReady) || bool_decide (t = conditionExposureReady) ||
  bool_decide (t = conditionAutoscalingReady) || bool_decide (t = conditionAvailabilityReady).

Section Conditions.
Context `{Conditions}.

(** [meta.SetStatusCondition(&p.Status.Conditions, metav1.Condition{..., ObservedGeneration:
    p.Generation})], which reads the clock. *)
Definition condition_of (p : AIWorkload) (typ : string) (status : ConditionStatus) (reason message : string)
    : Condition := {|
  c_Type := typ; c_Status := status; c_ObservedGeneration := w_Generation p;
  c_LastTransitionTime := 0; c_Reason := reason; c_Message := message |}.

Definition set_condition (typ : string) (status : ConditionStatus) (reason message : string) (p : AIWorkload)
    : program AIWorkload :=
  t ← now;
  Ret (set_Conditions (SetStatusCondition t (w_Conditions p) (condition_of p typ status reason message)) p).

(** [meta.RemoveStatusCondition(&p.Status.Conditions, typ)] *)
Definition remove_condition (typ : string) (p : AIWorkload) : AIWorkload :=
  set_Conditions (RemoveStatusCondition (w_Conditions p) typ) p.

(** The range over [current]. *)
Fixpoint preserve_conditions (current result : list Condition) : list Condition :=
  match current with
  | [] => result
  | condition :: current' =>
      if is_managed_condition (c_Type condition) then preserve_conditions current' result
      else match FindStatusCondition result (c_Type condition) with
      | None => preserve_conditions current' (result ++ [condition])
      | Some _ => preserve_conditions current' result
      end
  end.

Definition preserveUnmanagedConditions (desired current : list Condition) : list Condition :=
  preserve_conditions current desired.

Context `{ApiErrors, SemanticDeepEqual AIWorkloadStatus}.

(** The object of the retry: the fresh one with the observed status. *)
Definition retry_status (fresh after : AIWorkload) : AIWorkload :=
  set_Status (with_Conditions
    (preserveUnmanagedConditions (w_Conditions after) (w_Conditions fresh)) (w_Status after)) fresh.

(** Returns [after] as the call leaves it, and [(changed, err)].  A first patch that succeeds
    fills [after] with the server's response; the retry patches another object. *)
Definition patchStatus (before after : AIWorkload) : program (AIWorkload * reply bool) :=
  if DeepEqual (w_Status before) (w_Status after) then Ret (after, inr false) else
  patched ← status_Patch before after;
  match patched with
  | inr updated => Ret (updated, inr true)
  | inl err =>
      if negb (IsConflict err) then Ret (after, inl err) else
      got ← get_workload (w_Namespace after) (w_Name after);
      match got with
      | inl err => Ret (after, inl err)
      | inr fresh =>
          if negb (bool_decide (w_Generation fresh = w_Generation after)) then Ret (after, inl err) else
          let freshBefore := fresh in
          let fresh := retry_status freshBefore after in
          if DeepEqual (w_Status freshBefore) (w_Status fresh) then Ret (after, inr false) else
          patched ← status_Patch freshBefore fresh;
          match patched with
          | inl err => Ret (after, inl err)
          | inr _ => Ret (after, inr true)
          end
      end
  end.

End Conditions.

#[global] Arguments set_condition : simpl never.
#[global] Arguments remove_condition : simpl never.
#[global] Arguments patchStatus : simpl never.
#[global] Arguments preserveUnmanagedConditions : simpl never.
#[global] Arguments condition_of : simpl never.
