(* ===== verification/Status.v ===== *)
(** * Status observation (internal/controller/status.go, autoscaling.go, availability.go) *)
From S2P Require Import Prelude Errors Kube Api Naming Intent Autoscaling ServiceIntent Availability Effects Conditions.

Record statusAssessment := {
  sa_reason : string;
  sa_message : string;
  sa_ready : ConditionStatus;
  sa_progressing : ConditionStatus;
  sa_degraded : ConditionStatus
}.

Definition desiredReplicas (p : AIWorkload) : Z := default 1%Z (sp_Replicas (w_Spec p)).

Definition findDeploymentCondition (conditions : list DeploymentCondition) (typ : string) : option DeploymentCondition :=
  first_match (λ c, bool_decide (dc_Type c = typ)) conditions.

(** [appsv1.DeploymentAvailable], [appsv1.DeploymentProgressing] *)
Definition DeploymentAvailable : string := "Available".
Definition DeploymentProgressing : string := "Progressing".

Definition deploymentReady (deployment : Deployment) (desired : Z) : bool :=
  let st := dp_Status deployment in
  match findDeploymentCondition (ds_Conditions st) DeploymentAvailable with
  | None => false
  | Some available =>
      bool_decide (dc_Status available = ConditionTrue) &&
      (om_Generation (dp_meta deployment) <=? ds_ObservedGeneration st)%Z &&
      (ds_UpdatedReplicas st =? desired)%Z &&
      (ds_Replicas st =? desired)%Z &&
      (ds_ReadyReplicas st =? desired)%Z &&
      (ds_AvailableReplicas st =? desired)%Z
  end.

Definition progress_deadline_exceeded (deployment : Deployment) : bool :=
  match findDeploymentCondition (ds_Conditions (dp_Status deployment)) DeploymentProgressing with
  | Some progressing =>
      bool_decide (dc_Status progressing = ConditionFalse) &&
      bool_decide (dc_Reason progressing = "ProgressDeadlineExceeded")
  | None => false
  end.

Definition reports_unavailable (deployment : Deployment) : bool :=
  match findDeploymentCondition (ds_Conditions (dp_Status deployment)) DeploymentAvailable with
  | Some available => bool_decide (dc_Status available = ConditionFalse)
  | None => false
  end.

Definition assessDeployment (p : AIWorkload) (deployment : Deployment) : statusAssessment :=
  let desired := desiredReplicas p in
  if (desired =? 0)%Z then {|
    sa_reason := "ScaledToZero"; sa_message := "Desired replicas is zero; no ready workload Pods are required.";
    sa_ready := ConditionFalse; sa_progressing := ConditionFalse; sa_degraded := ConditionFalse |}
  else if progress_deadline_exceeded deployment then {|
    sa_reason := "ProgressDeadlineExceeded"; sa_message := "Deployment rollout exceeded its progress deadline.";
    sa_ready := ConditionFalse; sa_progressing := ConditionFalse; sa_degraded := ConditionTrue |}
  else if deploymentReady deployment desired then {|
    sa_reason := "WorkloadReady";
    sa_message := "Current Deployment rollout is available at the desired replica count.";
    sa_ready := ConditionTrue; sa_progressing := ConditionFalse; sa_degraded := ConditionFalse |}
  else if reports_unavailable deployment then {|
    sa_reason := "DeploymentUnavailable";
    sa_message := "Deployment reports unavailable replicas for the current rollout.";
    sa_ready := ConditionFalse; sa_progressing := ConditionTrue; sa_degraded := ConditionFalse |}
  else {|
    sa_reason := "Reconciling";
    sa_message := "Deployment rollout is progressing toward the desired replica count.";
    sa_ready := ConditionFalse; sa_progressing := ConditionTrue; sa_degraded := ConditionFalse |}.

(** [autoscalingv2.ScalingActive] *)
Definition ScalingActive : string := "ScalingActive".

Definition findHPACondition (conditions : list HPACondition) (typ : string) : option HPACondition :=
  first_match (λ c, bool_decide (hc_Type c = typ)) conditions.

Section Status.
Context `{Conditions, ApiErrors, SemanticDeepEqual AIWorkloadStatus}.

Definition setAssessmentConditions (p : AIWorkload) (assessment : statusAssessment) : program AIWorkload :=
  p ← set_condition conditionReady (sa_ready assessment) (sa_reason assessment) (sa_message assessment) p;
  p ← set_condition conditionProgressing (sa_progressing assessment) (sa_reason assessment) (sa_message assessment) p;
  set_condition conditionDegraded (sa_degraded assessment) (sa_reason assessment) (sa_message assessment) p.

(** A method that mutates its workload returns it with the method's error. *)
Definition setAutoscalingCondition (workload : AIWorkload) (status : ConditionStatus) (reason message : string)
    : program AIWorkload :=
  set_condition conditionAutoscalingReady status reason message workload.

Definition observeAutoscaling (workload : AIWorkload) : program (AIWorkload * option error) :=
  if negb (AutoscalingEnabled (Some workload)) then
    Ret (remove_condition conditionAutoscalingReady workload, None)
  else
    got ← get_HorizontalPodAutoscaler (w_Namespace workload) (ChildName (w_Name workload));
    match got with
    | inl err =>
        if IsNotFound err then
          workload ← setAutoscalingCondition workload ConditionFalse "HPAReconciling"
            "The owned HorizontalPodAutoscaler is awaiting API observation.";
          Ret (workload, None)
        else Ret (workload, Some err)
    | inr hpa =>
        if existsb (λ c, bool_decide (hc_Type c = ScalingActive) && bool_decide (hc_Status c = ConditionFalse))
             (hpa_Conditions hpa) then
          workload ← setAutoscalingCondition workload ConditionFalse "MetricUnavailable"
            "The HorizontalPodAutoscaler cannot obtain one or more configured metrics; inspect its status and the platform metric adapter.";
          Ret (workload, None)
        else if match findHPACondition (hpa_Conditions hpa) ScalingActive with
                | Some active => bool_decide (hc_Status active = ConditionTrue)
                | None => false
                end then
          workload ← setAutoscalingCondition workload ConditionTrue "HPAActive"
            "The owned HorizontalPodAutoscaler is actively evaluating configured metrics.";
          Ret (workload, None)
        else
          workload ← setAutoscalingCondition workload ConditionFalse "HPAReconciling"
            "The owned HorizontalPodAutoscaler is awaiting metric controller status.";
          Ret (workload, None)
    end.

Definition setAvailabilityCondition (workload : AIWorkload) (status : ConditionStatus) (reason message : string)
    : program AIWorkload :=
  set_condition conditionAvailabilityReady status reason message workload.

Definition observeAvailability (workload : AIWorkload) : program (AIWorkload * option error) :=
  if negb (AvailabilityEnabled (Some workload)) then
    Ret (remove_condition conditionAvailabilityReady workload, None)
  else
    got ← get_PodDisruptionBudget (w_Namespace workload) (ChildName (w_Name workload));
    match got with
    | inl err =>
        if IsNotFound err then
          workload ← setAvailabilityCondition workload ConditionFalse "PDBReconciling"
            "The owned PodDisruptionBudget is awaiting API observation.";
          Ret (workload, None)
        else Ret (workload, Some err)
    | inr pdb =>
        floor ← pure_value (AvailabilityReplicaFloor workload);
        if (floor =? 1)%Z then
          workload ← setAvailabilityCondition workload ConditionFalse "SingleReplicaDisruptionBlocked"
            "A single-replica workload cannot remain available during voluntary disruption; its PodDisruptionBudget blocks eviction until capacity is increased.";
          Ret (workload, None)
        else
          workload ← setAvailabilityCondition workload ConditionTrue "PDBActive"
            "The owned PodDisruptionBudget is active for voluntary disruption protection.";
          Ret (workload, None)
    end.

(** The four status fields [observeAndReportStatus] assigns. *)
Definition observed_status (workload : AIWorkload) (deployment : Deployment) : AIWorkload :=
  set_Status {|
    wst_ObservedGeneration := w_Generation workload;
    wst_DesiredReplicas := desiredReplicas workload;
    wst_ReadyReplicas := ds_ReadyReplicas (dp_Status deployment);
    wst_Endpoint := ServiceEndpoint workload;
    wst_Conditions := w_Conditions workload |} workload.

(** [recorder] tells whether the reconciler has an event recorder. *)
Definition observeAndReportStatus (recorder : bool) (workload : AIWorkload) : program (AIWorkload * option error) :=
  got ← get_Deployment (w_Namespace workload) (ChildName (w_Name workload));
  match got with
  | inl err => Ret (workload, Some (Errorf "observe workload Deployment" err))
  | inr deployment =>
      let before := workload in
      '(workload, err) ← observeAutoscaling workload;
      if err is Some err then Ret (workload, Some (Errorf "observe autoscaling" err)) else
      '(workload, err) ← observeAvailability workload;
      if err is Some err then Ret (workload, Some (Errorf "observe availability" err)) else
      let wasReady := IsStatusConditionTrue (w_Conditions before) conditionReady in
      let workload := observed_status workload deployment in
      let assessment := assessDeployment workload deployment in
      workload ← setAssessmentConditions workload assessment;
      '(workload, patched) ← patchStatus before workload;
      match patched with
      | inl err => Ret (workload, Some err)
      | inr changed =>
          _ ← (if changed && negb wasReady && bool_decide (sa_ready assessment = ConditionTrue) && recorder
               then Eventf workload "Normal" "WorkloadReady" "Status"
                      "Current Deployment rollout is available at the desired replica count."
               else Ret ());
          Ret (workload, None)
      end
  end.

End Status.

#[global] Arguments setAssessmentConditions : simpl never.
#[global] Arguments observeAutoscaling : simpl never.
#[global] Arguments observeAvailability : simpl never.
#[global] Arguments observeAndReportStatus : simpl never.
#[global] Arguments assessDeployment : simpl never.
#[global] Arguments observed_status : simpl never.
