(* ===== verification/Failures.v ===== *)
(** * Failure reports (internal/controller/failures.go) *)
From S2P Require Import Prelude Errors GoStd Kube Api ServiceIntent Effects Conditions Status.

(** [ctrl.Result], its delay in nanoseconds. *)
Record Result := { RequeueAfter : Z }.

Definition no_requeue : Result := {| RequeueAfter := 0 |}.
Definition Second : Z := 1000000000.
Definition Minute : Z := 60 * Second.

Section Failures.
Context `{Conditions, ApiErrors, SemanticDeepEqual AIWorkloadStatus}.

(** The [switch] of [retryError]. *)
Definition retry_category (err : error) : string :=
  if IsConflict err then "Conflict"
  else if IsAlreadyExists err then "AlreadyExists"
  else if IsForbidden err then "Forbidden"
  else if IsTimeout err || IsServerTimeout err then "Timeout"
  else if IsTooManyRequests err then "Throttled"
  else "UnexpectedError".

Definition retryError (err : option error) : option error :=
  match err with
  | None => None
  | Some err => Some (SafeRetry err (retry_category err))
  end.

Record failure := { f_reason : string; f_message : string; f_permanent : bool }.

(** [if test { reason, message, permanent = ... }] *)
Definition reclassify (test : bool) (reason message : string) (f : failure) : failure :=
  if test then {| f_reason := reason; f_message := message; f_permanent := true |} else f.

Definition reclassify_as (found : option (string * string)) (f : failure) : failure :=
  match found with
  | Some (reason, message) => {| f_reason := reason; f_message := message; f_permanent := true |}
  | None => f
  end.

Definition quota_exceeded (cause : error) : bool :=
  IsForbidden cause && Contains (ToLower (Error cause)) "exceeded quota".

(** The assignments to [reason], [message] and [permanent], in their order. *)
Definition classify (cause : error) : failure :=
  let f := {| f_reason := "ReconcileFailed";
              f_message := "Kubernetes API operation failed; inspect access, availability and controller logs.";
              f_permanent := false |} in
  let f := reclassify (errors_Is cause ErrOwnershipConflict) "ResourceOwnershipConflict"
    "A child name is occupied by a resource not controlled by this AIWorkload UID; resolve ownership without adoption." f in
  let f := reclassify (errors_Is cause ErrInvalidPlan || IsInvalid cause) "InvalidConfiguration"
    "Desired resource configuration is invalid; review the specification and builder contract." f in
  let f := reclassify (errors_Is cause ErrImmutableSelector) "ResourceOwnershipConflict"
    "The owned Deployment has an incompatible immutable selector; administrative resolution is required. Automatic deletion or replacement is disabled." f in
  let f := reclassify (errors_Is cause ErrImmutableServiceAllocation) "ResourceOwnershipConflict"
    "The owned Service has an incompatible immutable cluster allocation; administrative resolution is required. Automatic deletion or replacement is disabled." f in
  let f := reclassify (errors_Is cause ErrSecretNotFound) "SecretNotFound"
    "One or more referenced Secrets are unavailable in the workload namespace." f in
  let f := reclassify_as (errors_As_Tenant cause) f in
  let f := reclassify_as (errors_As_ExternalSecret cause) f in
  let f := reclassify_as (errors_As_Exposure cause) f in
  if quota_exceeded cause then {|
    f_reason := "QuotaExceeded";
    f_message := "Tenant quota blocked an AWCP child; reduce requested resources or ask a platform administrator to adjust the tenant profile.";
    f_permanent := f_permanent f |}
  else f.

(** [p.Status.ReadyReplicas = 0] *)
Definition clear_ReadyReplicas (p : AIWorkload) : AIWorkload :=
  set_Status {|
    wst_ObservedGeneration := wst_ObservedGeneration (w_Status p);
    wst_DesiredReplicas := wst_DesiredReplicas (w_Status p);
    wst_ReadyReplicas := 0;
    wst_Endpoint := wst_Endpoint (w_Status p);
    wst_Conditions := w_Conditions p |} p.

(** The assignments after the conditions. *)
Definition failed_status (p : AIWorkload) : AIWorkload :=
  set_Status {|
    wst_ObservedGeneration := w_Generation p;
    wst_DesiredReplicas := desiredReplicas p;
    wst_ReadyReplicas := wst_ReadyReplicas (w_Status p);
    wst_Endpoint := if negb (ServiceEnabled (Some p)) then "" else wst_Endpoint (w_Status p);
    wst_Conditions := w_Conditions p |} p.

(** The value the loop over the three types gives the condition [typ]. *)
Definition failure_status (permanent : bool) (typ : string) : ConditionStatus :=
  let value := if permanent then ConditionFalse else ConditionUnknown in
  if bool_decide (typ = "Degraded") then ConditionTrue else value.

Fixpoint set_failure_conditions (types : list string) (f : failure) (p : AIWorkload) : program AIWorkload :=
  match types with
  | [] => Ret p
  | typ :: types' =>
      p ← set_condition typ (failure_status (f_permanent f) typ) (f_reason f) (f_message f) p;
      set_failure_conditions types' f p
  end.

(** [if errors.As(cause, &target) { SetStatusCondition(typ, False) }] *)
Definition set_gate_condition (found : option (string * string)) (typ : string) (f : failure) (p : AIWorkload)
    : program AIWorkload :=
  match found with
  | Some _ => set_condition typ ConditionFalse (f_reason f) (f_message f) p
  | None => Ret p
  end.

Definition reportFailure (recorder telemetry : bool) (p : AIWorkload) (cause : error)
    : program (Result * option error) :=
  let f := classify cause in
  let before := p in
  let p := if IsNotFound cause then clear_ReadyReplicas p else p in
  p ← set_failure_conditions [conditionReady; conditionProgressing; conditionDegraded] f p;
  p ← set_gate_condition (errors_As_Tenant cause) conditionTenantReady f p;
  p ← set_gate_condition (errors_As_ExternalSecret cause) conditionExternalSecretsReady f p;
  p ← set_gate_condition (errors_As_Exposure cause) conditionExposureReady f p;
  let p := failed_status p in
  '(p, patched) ← patchStatus before p;
  match patched with
  | inl err => Ret (no_requeue, retryError (Some err))
  | inr changed =>
      _ ← (if changed && recorder then Eventf p "Warning" (f_reason f) "Reconcile" (f_message f) else Ret ());
      _ ← (if telemetry then RecordFailure (f_reason f) else Ret ());
      if f_permanent f then Ret ({| RequeueAfter := Minute |}, None)
      else Ret (no_requeue, retryError (Some cause))
  end.

End Failures.

#[global] Arguments classify : simpl never.
#[global] Arguments retryError : simpl never.
#[global] Arguments retry_category : simpl never.
#[global] Arguments reportFailure : simpl never.
#[global] Arguments failed_status : simpl never.
#[global] Arguments clear_ReadyReplicas : simpl never.
