(* ===== verification/Gates.v ===== *)
(** * Gates: tenant, Secret references, external Secrets, exposure
    (internal/controller/aiworkload_controller.go: [validateTenant]; secrets.go;
    external_secrets.go; exposure.go)

    Each gate reads the API, never writes a child, and answers with the workload it mutated. *)
From S2P Require Import Prelude Errors Kube Api Naming Intent ServiceIntent Route Effects Capability Conditions.
From S2P Require Import Failures.

Definition tenantProfileConfigMap : string := "awcp-tenant-profile".

Definition externalSecretGVK : GroupVersionKind :=
  {| gvk_Group := "external-secrets.io"; gvk_Version := "v1"; gvk_Kind := "ExternalSecret" |}.
Definition secretStoreGVK : GroupVersionKind :=
  {| gvk_Group := "external-secrets.io"; gvk_Version := "v1"; gvk_Kind := "SecretStore" |}.
Definition gatewayGVK : GroupVersionKind :=
  {| gvk_Group := "gateway.networking.k8s.io"; gvk_Version := "v1"; gvk_Kind := "Gateway" |}.

(** The fields of the reconciler the gates read: a nil reader falls back to the client. *)
Record gate_config := {
  r_TenantReader : option reader;
  r_ExternalSecretsReader : option reader;
  r_GatewayReader : option reader;
  r_CapabilityLookup : option ResourceLookup
}.

Record resolvedExternalSecret := { re_targetSecret : SecretReference; re_resourceVersion : string }.

Record exposureState := { xs_manageRoute : bool; xs_active : bool }.

Section Gates.
Context `{Conditions, ApiErrors, UnstructuredHelpers}.

(** ** Tenant profile *)

(** [profile.Data]: the checks on the profile ConfigMap. *)
Definition check_tenant_profile (tenant : string) (data : gmap string string) : option error :=
  if negb (bool_decide (map_read "" data "tenant" = tenant)) then
    Some (TenantConfigurationError "TenantMismatch"
      "spec.tenant must match the tenant profile bound to this namespace.")
  else if negb (bool_decide (map_read "" data "profile" = "small")) &&
          negb (bool_decide (map_read "" data "profile" = "medium")) &&
          negb (bool_decide (map_read "" data "profile" = "large")) then
    Some (TenantConfigurationError "TenantProfileInvalid"
      "The namespace tenant profile must select small, medium, or large.")
  else None.

Definition validateTenant (r : gate_config) (workload : AIWorkload) : program (AIWorkload * option error) :=
  if bool_decide (sp_Tenant (w_Spec workload) = "") then
    Ret (remove_condition conditionTenantReady workload, None)
  else
    let reader := default ClientReader (r_TenantReader r) in
    got ← get_ConfigMap reader (w_Namespace workload) tenantProfileConfigMap;
    match got with
    | inl err =>
        if IsNotFound err then
          Ret (workload, Some (TenantConfigurationError "TenantNotConfigured"
            "This namespace has no GitOps-managed AWCP tenant profile."))
        else Ret (workload, Some (Errorf "read tenant profile" err))
    | inr profile =>
        match check_tenant_profile (sp_Tenant (w_Spec workload)) (cm_Data profile) with
        | Some err => Ret (workload, Some err)
        | None =>
            workload ← set_condition conditionTenantReady ConditionTrue "TenantConfigured"
              "The workload tenant matches the namespace-local GitOps profile." workload;
            Ret (workload, None)
        end
    end.

(** ** Secret references *)

Fixpoint validate_secrets (namespace : string) (names : list SecretReference) : program (option error) :=
  match names with
  | [] => Ret None
  | name :: names' =>
      got ← get_SecretMetadata namespace name;
      match got with
      | inl err =>
          if IsNotFound err then Ret (Some (Sentinel ErrSecretNotFound))
          else Ret (Some (Errorf "get referenced Secret metadata" err))
      | inr _ => validate_secrets namespace names'
      end
  end.

Definition validateSecretReferences (workload : AIWorkload) : program (option error) :=
  validate_secrets (w_Namespace workload) (sp_SecretRefs (w_Spec workload)).

(** ** Conditions of unstructured objects *)

Definition hasTrueCondition (object : Unstructured) (typ : string) : bool :=
  match NestedSlice (un_Object object) ["status"; "conditions"] with
  | Some (conditions, true) =>
      existsb (λ value,
        match any_map value with
        | None => false
        | Some condition =>
            any_is_string (any_get condition "type") typ && any_is_string (any_get condition "status") "True"
        end) conditions
  | _ => false
  end.

(** [readyCondition] is the same loop for the type Ready. *)
Definition readyCondition (object : Unstructured) : bool :=
  match NestedSlice (un_Object object) ["status"; "conditions"] with
  | Some (conditions, true) =>
      existsb (λ raw,
        match any_map raw with
        | Some condition =>
            any_is_string (any_get condition "type") "Ready" && any_is_string (any_get condition "status") "True"
        | None => false
        end) conditions
  | _ => false
  end.

(** ** External Secrets *)

(** [fmt.Errorf("...: %w", observation.Err)] *)
Definition unknown_capability (prefix : string) (err : option error) : error :=
  match err with
  | Some err => Errorf prefix err
  | None => NewError (prefix +:+ ": %!w(<nil>)")
  end.

Definition external_error (reason message : string) : error := ExternalSecretConfigurationError reason message.

Definition ExternalSecretsUnavailable : error := external_error "ExternalSecretsUnavailable"
  "External Secrets Operator v1 APIs are unavailable; install ESO or remove spec.externalSecrets.".

(** The store the ExternalSecret selects, or the error of the two checks on it. *)
Definition selected_store (externalSecret : Unstructured) : error + string :=
  match NestedString (un_Object externalSecret) ["spec"; "secretStoreRef"; "name"] with
  | Some (storeName, true) =>
      if bool_decide (storeName = "") then
        inl (external_error "ExternalSecretInvalid" "The referenced ExternalSecret must select a namespace-local SecretStore.")
      else match NestedString (un_Object externalSecret) ["spec"; "secretStoreRef"; "kind"] with
      | Some (storeKind, true) =>
          if bool_decide (storeKind = "SecretStore") then inr storeName
          else inl (external_error "ExternalSecretStoreScopeInvalid"
            "The referenced ExternalSecret must use kind: SecretStore; ClusterSecretStore is outside this workload boundary.")
      | _ => inl (external_error "ExternalSecretStoreScopeInvalid"
          "The referenced ExternalSecret must use kind: SecretStore; ClusterSecretStore is outside this workload boundary.")
      end
  | _ => inl (external_error "ExternalSecretInvalid" "The referenced ExternalSecret must select a namespace-local SecretStore.")
  end.

(** The target Secret of the ExternalSecret, after the checks on it. *)
Definition checked_target (externalSecret : Unstructured) (reference : ExternalSecretReference) : error + string :=
  match NestedString (un_Object externalSecret) ["spec"; "target"; "name"] with
  | None => inl (external_error "ExternalSecretInvalid" "The referenced ExternalSecret target configuration is invalid.")
  | Some (name, found) =>
      let targetName :=
        if negb found || bool_decide (name = "") then om_Name (un_meta externalSecret) else name in
      if negb (bool_decide (targetName = er_TargetSecret reference)) then
        inl (external_error "ExternalSecretTargetMismatch"
          "spec.externalSecrets targetSecret must match the ExternalSecret target in the same namespace.")
      else if negb (readyCondition externalSecret) then
        inl (external_error "ExternalSecretNotReady"
          "The referenced ExternalSecret is not Ready; inspect External Secrets Operator status.")
      else inr targetName
  end.

(** One round of the loop over the references. *)
Definition resolve_reference (via : reader) (namespace : string) (direct : list string)
    (reference : ExternalSecretReference) : program (reply resolvedExternalSecret) :=
  if bool_decide (er_TargetSecret reference ∈ direct) then
    Ret (inl (external_error "ExternalSecretTargetDuplicate"
      "An external Secret target must not duplicate a direct spec.secretRefs entry."))
  else
    got ← get_Unstructured via externalSecretGVK namespace (er_ExternalSecret reference);
    match got with
    | inl err =>
        if IsNotFound err then
          Ret (inl (external_error "ExternalSecretNotFound"
            "A referenced ExternalSecret is unavailable in the workload namespace."))
        else Ret (inl (Errorf "get ExternalSecret metadata" err))
    | inr externalSecret =>
        match selected_store externalSecret with
        | inl err => Ret (inl err)
        | inr storeName =>
            got ← get_Unstructured via secretStoreGVK namespace storeName;
            match got with
            | inl err =>
                if IsNotFound err then
                  Ret (inl (external_error "SecretStoreNotFound"
                    "The referenced namespace-local SecretStore is unavailable."))
                else Ret (inl (Errorf "get SecretStore metadata" err))
            | inr store =>
                if negb (readyCondition store) then
                  Ret (inl (external_error "SecretStoreNotReady"
                    "The referenced SecretStore is not Ready; inspect External Secrets Operator status."))
                else match checked_target externalSecret reference with
                | inl err => Ret (inl err)
                | inr targetName =>
                    got ← get_SecretMetadata namespace targetName;
                    match got with
                    | inl err =>
                        if IsNotFound err then
                          Ret (inl (external_error "ExternalSecretTargetNotFound"
                            "The ready ExternalSecret target Secret is unavailable in the workload namespace."))
                        else Ret (inl (Errorf "get ExternalSecret target metadata" err))
                    | inr target =>
                        Ret (inr {| re_targetSecret := er_TargetSecret reference;
                                    re_resourceVersion := om_ResourceVersion target |})
                    end
                end
            end
        end
    end.

Fixpoint resolve_references (via : reader) (namespace : string) (direct : list string)
    (references : list ExternalSecretReference) (resolved : list resolvedExternalSecret)
    : program (reply (list resolvedExternalSecret)) :=
  match references with
  | [] => Ret (inr resolved)
  | reference :: references' =>
      got ← resolve_reference via namespace direct reference;
      match got with
      | inl err => Ret (inl err)
      | inr r => resolve_references via namespace direct references' (resolved ++ [r])
      end
  end.

Definition validateExternalSecrets (r : gate_config) (workload : AIWorkload)
    : program (AIWorkload * reply (list resolvedExternalSecret)) :=
  if bool_decide (length (sp_ExternalSecrets (w_Spec workload)) = 0%nat) then
    Ret (remove_condition conditionExternalSecretsReady workload, inr [])
  else match r_CapabilityLookup r with
  | None => Ret (workload, inl ExternalSecretsUnavailable)
  | Some lookup =>
      match RequirementFor ExternalSecrets with
      | None => Ret (workload, inl (NewError "external secrets capability contract is missing"))
      | Some requirement =>
          observation ← Detect lookup requirement;
          match ob_State observation with
          | Unavailable => Ret (workload, inl ExternalSecretsUnavailable)
          | Unknown =>
              Ret (workload, inl (unknown_capability "discover External Secrets Operator API" (ob_Err observation)))
          | Available =>
              let via := default ClientReader (r_ExternalSecretsReader r) in
              resolved ← resolve_references via (w_Namespace workload) (sp_SecretRefs (w_Spec workload))
                (sp_ExternalSecrets (w_Spec workload)) [];
              match resolved with
              | inl err => Ret (workload, inl err)
              | inr resolved =>
                  workload ← set_condition conditionExternalSecretsReady ConditionTrue "ExternalSecretsReady"
                    "Referenced namespace-local ExternalSecrets and target Secrets are Ready." workload;
                  Ret (workload, inr resolved)
              end
          end
      end
  end.

(** ** Exposure *)

Definition exposure_error (reason message : string) : error := ExposureConfigurationError reason message.

Definition GatewayAPIUnavailable : error := exposure_error "GatewayAPIUnavailable"
  "Gateway API v1 is unavailable; install it or select ClusterLocal exposure.".

Definition no_exposure : exposureState := {| xs_manageRoute := false; xs_active := false |}.

(** The checks for a workload that asks for a route. *)
Definition validate_gateway (r : gate_config) (workload : AIWorkload) : program (option error) :=
  if negb (ServiceEnabled (Some workload)) then
    Ret (Some (exposure_error "ExposureServiceDisabled"
      "HTTPRoute exposure requires the workload ClusterIP Service to be enabled."))
  else if NetworkEnabled (Some workload) then
    Ret (Some (exposure_error "ExposureNetworkPolicyEnabled"
      "HTTPRoute exposure requires spec.network.enabled=false; Gateway data-plane ingress policy is platform-managed."))
  else
    let via := default ClientReader (r_GatewayReader r) in
    exposure ← or_panic (sp_Exposure (w_Spec workload));
    got ← get_Unstructured via gatewayGVK (w_Namespace workload) (ex_Gateway exposure);
    match got with
    | inl err =>
        if IsNotFound err then
          Ret (Some (exposure_error "GatewayNotFound" "The referenced Gateway is unavailable in the workload namespace."))
        else Ret (Some (Errorf "get Gateway metadata" err))
    | inr gateway =>
        if negb (hasTrueCondition gateway "Programmed") then
          Ret (Some (exposure_error "GatewayNotReady"
            "The referenced Gateway is not Programmed; inspect the platform Gateway status."))
        else Ret None
    end.

Definition validateExposure (r : gate_config) (workload : AIWorkload) : program (AIWorkload * reply exposureState) :=
  let active := HTTPRouteEnabled (Some workload) in
  let previous := match FindStatusCondition (w_Conditions workload) conditionExposureReady with
                  | Some _ => true | None => false end in
  if negb active && negb previous then Ret (workload, inr no_exposure) else
  match r_CapabilityLookup r with
  | None => Ret (workload, inl GatewayAPIUnavailable)
  | Some lookup =>
      match RequirementFor GatewayAPI with
      | None => Ret (workload, inl (NewError "gateway API capability contract is missing"))
      | Some requirement =>
          observation ← Detect lookup requirement;
          match ob_State observation with
          | Unavailable =>
              if negb active then Ret (remove_condition conditionExposureReady workload, inr no_exposure)
              else Ret (workload, inl GatewayAPIUnavailable)
          | Unknown => Ret (workload, inl (unknown_capability "discover Gateway API" (ob_Err observation)))
          | Available =>
              let state := {| xs_manageRoute := true; xs_active := active |} in
              if negb active then Ret (workload, inr state)
              else
                err ← validate_gateway r workload;
                match err with
                | Some err => Ret (workload, inl err)
                | None => Ret (workload, inr state)
                end
          end
      end
  end.

(** [metav1.ConditionStatus(status)] *)
Definition condition_status (s : string) : ConditionStatus :=
  if bool_decide (s = "True") then ConditionTrue
  else if bool_decide (s = "False") then ConditionFalse
  else if bool_decide (s = "Unknown") then ConditionUnknown
  else ConditionOther s.

(** The loop over the conditions of the matching parent. *)
Fixpoint route_conditions (conditions : list any) (accepted resolved : ConditionStatus) : ConditionStatus * ConditionStatus :=
  match conditions with
  | [] => (accepted, resolved)
  | value :: conditions' =>
      match any_map value with
      | None => route_conditions conditions' accepted resolved
      | Some condition =>
          match any_string (any_get condition "status") with
          | None => route_conditions conditions' accepted resolved
          | Some status =>
              if any_is_string (any_get condition "type") "Accepted" then
                route_conditions conditions' (condition_status status) resolved
              else if any_is_string (any_get condition "type") "ResolvedRefs" then
                route_conditions conditions' accepted (condition_status status)
              else route_conditions conditions' accepted resolved
          end
      end
  end.

(** The loop over the parents. *)
Fixpoint route_parents (parents : list any) (gateway sectionName : string) : ConditionStatus * ConditionStatus * bool :=
  match parents with
  | [] => (ConditionUnknown, ConditionUnknown, false)
  | value :: parents' =>
      match any_map value with
      | None => route_parents parents' gateway sectionName
      | Some parent =>
          match any_map (any_get parent "parentRef") with
          | None => route_parents parents' gateway sectionName
          | Some parentRef =>
              if negb (any_is_string (any_get parentRef "name") gateway) ||
                 negb (any_is_string (any_get parentRef "sectionName") sectionName) then
                route_parents parents' gateway sectionName
              else match any_slice (any_get parent "conditions") with
              | None => (ConditionUnknown, ConditionUnknown, true)
              | Some conditions => (route_conditions conditions ConditionUnknown ConditionUnknown, true)
              end
          end
      end
  end.

Definition httpRouteConditions (route : Unstructured) (gateway sectionName : string)
    : ConditionStatus * ConditionStatus * bool :=
  match NestedSlice (un_Object route) ["status"; "parents"] with
  | Some (parents, true) => route_parents parents gateway sectionName
  | _ => (ConditionUnknown, ConditionUnknown, false)
  end.

Definition setExposureCondition (workload : AIWorkload) (status : ConditionStatus) (reason message : string)
    : program AIWorkload :=
  set_condition conditionExposureReady status reason message workload.

(** The [switch] of [observeExposure]: the condition to set and the delay. *)
Definition exposure_observation (observation : ConditionStatus * ConditionStatus * bool)
    : ConditionStatus * string * string * Z :=
  let '(accepted, resolved, observed) := observation in
  if negb observed then (ConditionFalse, "HTTPRoutePending",
    "The owned HTTPRoute is awaiting a matching Gateway status observation.", (15 * Second)%Z)
  else if bool_decide (accepted = ConditionFalse) then (ConditionFalse, "HTTPRouteRejected",
    "The platform Gateway rejected the owned HTTPRoute; inspect Gateway listener policy and route configuration.", Minute)
  else if negb (bool_decide (accepted = ConditionTrue)) then (ConditionFalse, "HTTPRoutePending",
    "The owned HTTPRoute is awaiting Gateway acceptance.", (15 * Second)%Z)
  else if bool_decide (resolved = ConditionFalse) then (ConditionFalse, "HTTPRouteReferencesNotResolved",
    "The platform Gateway cannot resolve the HTTPRoute backend reference.", Minute)
  else if negb (bool_decide (resolved = ConditionTrue)) then (ConditionFalse, "HTTPRoutePending",
    "The owned HTTPRoute is awaiting backend reference resolution.", (15 * Second)%Z)
  else (ConditionTrue, "HTTPRouteReady",
    "The owned HTTPRoute is accepted and its backend reference is resolved.", Minute).

Definition observeExposure (r : gate_config) (workload : AIWorkload) (state : exposureState)
    : program (AIWorkload * reply Z) :=
  if negb (xs_manageRoute state) then Ret (workload, inr 0%Z)
  else if negb (xs_active state) then Ret (remove_condition conditionExposureReady workload, inr 0%Z)
  else
    let via := default ClientReader (r_GatewayReader r) in
    got ← get_Unstructured via HTTPRouteGVK (w_Namespace workload) (ChildName (w_Name workload));
    match got with
    | inl err =>
        if IsNotFound err then
          workload ← setExposureCondition workload ConditionFalse "HTTPRoutePending"
            "The owned HTTPRoute is awaiting Gateway API observation.";
          Ret (workload, inr (15 * Second)%Z)
        else Ret (workload, inl (Errorf "observe HTTPRoute status" err))
    | inr route =>
        exposure ← or_panic (sp_Exposure (w_Spec workload));
        let '(status, reason, message, delay) :=
          exposure_observation (httpRouteConditions route (ex_Gateway exposure) (ex_SectionName exposure)) in
        workload ← setExposureCondition workload status reason message;
        Ret (workload, inr delay)
    end.

End Gates.

#[global] Arguments validateTenant : simpl never.
#[global] Arguments check_tenant_profile : simpl never.
#[global] Arguments validateSecretReferences : simpl never.
#[global] Arguments resolve_reference : simpl never.
#[global] Arguments validateExternalSecrets : simpl never.
#[global] Arguments selected_store : simpl never.
#[global] Arguments checked_target : simpl never.
#[global] Arguments validateExposure : simpl never.
#[global] Arguments observeExposure : simpl never.
#[global] Arguments exposure_observation : simpl never.
#[global] Arguments httpRouteConditions : simpl never.
#[global] Arguments validate_gateway : simpl never.
#[global] Arguments unknown_capability : simpl never.
