(* ===== verification/Controller.v ===== *)
(** * The reconciler (internal/controller/aiworkload_controller.go, external_secrets.go)

    [Reconcile] and the pieces only it uses: the watched namespaces, the revision of the external
    Secrets and its decoration of the plan, the plan itself, and the engine loop. *)
From S2P Require Import Prelude Errors GoStd Sha256 Kube Api Naming Intent Route Builder Effects Engine Conditions.
From S2P Require Import Status Failures Gates.

(** The reconciler's fields.  [Recorder] and [Telemetry] are tested for nil only; the client and
    the scheme are the environment. *)
Record AIWorkloadReconciler := {
  r_gates : gate_config;
  r_WatchNamespace : string;
  r_WatchNamespaces : list string;
  r_ControllerName : string;
  r_Builder : option Builder;
  r_Recorder : bool;
  r_Telemetry : bool
}.

Definition effectiveWatchNamespaces (r : AIWorkloadReconciler) : list string :=
  if negb (bool_decide (length (r_WatchNamespaces r) = 0%nat)) then r_WatchNamespaces r
  else if bool_decide (r_WatchNamespace r = "") then []
  else [r_WatchNamespace r].

Definition watchesNamespace (r : AIWorkloadReconciler) (namespace : string) : bool :=
  existsb (λ watched, bool_decide (namespace = watched)) (effectiveWatchNamespaces r).

Definition childKind (object : ObjectPtr) : string :=
  let order := childOrder object in
  if (order =? 0)%Z then "ServiceAccount"
  else if (order =? 1)%Z then "Deployment"
  else if (order =? 2)%Z then "Service"
  else if (order =? 3)%Z then "NetworkPolicy"
  else if (order =? 4)%Z then "HorizontalPodAutoscaler"
  else if (order =? 5)%Z then "PodDisruptionBudget"
  else if (order =? 6)%Z then "HTTPRoute"
  else "Unknown".

(** ** The revision of the external Secrets *)

(** The bytes written to the hash. *)
Definition revision_payload (references : list resolvedExternalSecret) : list N :=
  references ≫= λ reference,
    bytes (re_targetSecret reference) ++ [0%N] ++ bytes (re_resourceVersion reference) ++ [0%N].

Definition externalSecretRevision (references : list resolvedExternalSecret) : string :=
  match references with
  | [] => ""
  | _ => hex (Sum256 (revision_payload references))
  end.

Definition externalSecretRevisionKey : string := "platform.example.io/external-secret-revision".

(** [deployment.Spec.Template.Annotations[key] = revision] *)
Definition annotate_revision (revision : string) (d : Deployment) : Deployment := {|
  dp_meta := dp_meta d; dp_Replicas := dp_Replicas d; dp_Selector := dp_Selector d;
  dp_Template := {|
    pt_meta := set_annotations
      (<[externalSecretRevisionKey := revision]> (map_of (om_Annotations (pt_meta (dp_Template d)))))
      (pt_meta (dp_Template d));
    pt_Spec := pt_Spec (dp_Template d) |};
  dp_Strategy := dp_Strategy d; dp_MinReadySeconds := dp_MinReadySeconds d; dp_Paused := dp_Paused d;
  dp_ProgressDeadlineSeconds := dp_ProgressDeadlineSeconds d; dp_other := dp_other d;
  dp_Status := dp_Status d |}.

(** The closure that replaces [plan[index].Mutate]; a nil [mutate] panics when it is called. *)
Definition decorated_mutation (mutate : option (Object → res Object)) (revision : string) (object : Object) : res Object :=
  match mutate with
  | None => Panic
  | Some mutate =>
      object ← mutate object;
      match object with
      | ODeployment deployment => Ok (ODeployment (annotate_revision revision deployment))
      | _ => Err (NewError "external Secret revision was applied to a non-Deployment")
      end
  end.

(** [plan[index].Object.( *appsv1.Deployment )] *)
Definition is_deployment (o : ObjectPtr) : bool :=
  match o with
  | Pointer (ODeployment _) | NilPointer KDeployment => true
  | _ => false
  end.

Fixpoint decorate_plan (plan : list Intent) (revision : string) : list Intent :=
  match plan with
  | [] => []
  | i :: plan' =>
      if negb (is_deployment (i_Object i)) then i :: decorate_plan plan' revision
      else {| i_Object := i_Object i; i_Mutate := Some (decorated_mutation (i_Mutate i) revision);
              i_Absent := i_Absent i |} :: plan'
  end.

Definition decorateExternalSecretRevision (plan : list Intent) (revision : string) : list Intent :=
  if bool_decide (revision = "") then plan else decorate_plan plan revision.

Section Reconcile.
Context `{Conditions, ApiErrors, UnstructuredHelpers, OwnerHelpers}.
Context `{SemanticDeepEqual AIWorkloadStatus, SemanticDeepEqual Object}.
Context (r : AIWorkloadReconciler).

(** The three gates, each followed by a patch of the conditions it changed: lines 89 to 111.  The
    caller reports the error. *)
Definition run_gates (workload : AIWorkload)
    : program (AIWorkload * reply (list resolvedExternalSecret * exposureState)) :=
  let tenantBefore := workload in
  '(workload, err) ← validateTenant (r_gates r) workload;
  if err is Some err then Ret (workload, inl err) else
  '(workload, patched) ← patchStatus tenantBefore workload;
  if patched is inl err then Ret (workload, inl err) else
  let externalBefore := workload in
  '(workload, external) ← validateExternalSecrets (r_gates r) workload;
  match external with
  | inl err => Ret (workload, inl err)
  | inr external =>
      '(workload, patched) ← patchStatus externalBefore workload;
      if patched is inl err then Ret (workload, inl err) else
      let exposureBefore := workload in
      '(workload, exposure) ← validateExposure (r_gates r) workload;
      match exposure with
      | inl err => Ret (workload, inl err)
      | inr exposure =>
          '(workload, patched) ← patchStatus exposureBefore workload;
          if patched is inl err then Ret (workload, inl err) else
          Ret (workload, inr (external, exposure))
      end
  end.

(** The plan: lines 112 to 129. *)
Definition build_plan (build : Builder) (workload : AIWorkload) (external : list resolvedExternalSecret)
    (exposure : exposureState) : res (list Intent) :=
  let desired := append_SecretRefs (re_targetSecret <$> external) workload in
  plan ← build (Some desired);
  plan ← (if xs_manageRoute exposure then
            route ← HTTPRouteIntent (Some desired);
            Ok (plan ++ [route])
          else Ok plan);
  plan ← ValidatePlan workload plan;
  Ok (decorateExternalSecretRevision plan (externalSecretRevision external)).

(** The engine loop: lines 131 to 145. *)
Fixpoint apply_plan (workload : AIWorkload) (plan : list Intent) : program (option error) :=
  match plan with
  | [] => Ret None
  | intent :: plan' =>
      outcome ← Apply workload intent;
      match outcome with
      | inl err =>
          _ ← (if r_Telemetry r then RecordResource (childKind (i_Object intent)) "error" else Ret ());
          Ret (Some err)
      | inr outcome =>
          _ ← (if r_Telemetry r then RecordResource (childKind (i_Object intent)) (Outcome_string outcome)
               else Ret ());
          apply_plan workload plan'
      end
  end.

(** Plan, children, Secret references: lines 112 to 149. *)
Definition reconcile_children (build : Builder) (workload : AIWorkload) (external : list resolvedExternalSecret)
    (exposure : exposureState) : program (option error) :=
  plan ← pure_call (build_plan build workload external exposure);
  match plan with
  | inl err => Ret (Some err)
  | inr plan =>
      err ← apply_plan workload plan;
      match err with
      | Some err => Ret (Some err)
      | None => validateSecretReferences workload
      end
  end.

(** Exposure and status: lines 156 to 167. *)
Definition report_status (workload : AIWorkload) (exposure : exposureState) : program (Result * option error) :=
  let report workload err := reportFailure (r_Recorder r) (r_Telemetry r) workload err in
  let exposureBefore := workload in
  '(workload, exposureRequeue) ← observeExposure (r_gates r) workload exposure;
  match exposureRequeue with
  | inl err => report workload err
  | inr exposureRequeue =>
      '(workload, patched) ← patchStatus exposureBefore workload;
      if patched is inl err then report workload err else
      '(workload, err) ← observeAndReportStatus (r_Recorder r) workload;
      if err is Some err then report workload err else
      Ret ({| RequeueAfter := exposureRequeue |}, None)
  end.

Definition Reconcile (namespace name : string) : program (Result * option error) :=
  if bool_decide (length (effectiveWatchNamespaces r) = 0%nat) then
    Ret (no_requeue, Some (NewError "watch namespaces are required"))
  else if negb (watchesNamespace r namespace) then Ret (no_requeue, None)
  else
    got ← get_workload namespace name;
    match got with
    | inl err => Ret (no_requeue, retryError (if IsNotFound err then None else Some err))
    | inr workload =>
        match r_Builder r with
        | None => Ret (no_requeue, None)
        | Some build =>
            if negb (Time_IsZero (w_DeletionTimestamp workload)) then Ret (no_requeue, None) else
            '(workload, gates) ← run_gates workload;
            match gates with
            | inl err => reportFailure (r_Recorder r) (r_Telemetry r) workload err
            | inr (external, exposure) =>
                err ← reconcile_children build workload external exposure;
                match err with
                | Some err =>
                    if errors_Is err ErrChildDeleting then Ret ({| RequeueAfter := 2 * Second |}, None)
                    else reportFailure (r_Recorder r) (r_Telemetry r) workload err
                | None => report_status workload exposure
                end
            end
        end
    end.

End Reconcile.

#[global] Arguments run_gates : simpl never.
#[global] Arguments build_plan : simpl never.
#[global] Arguments reconcile_children : simpl never.
#[global] Arguments report_status : simpl never.
#[global] Arguments Reconcile : simpl never.
#[global] Arguments externalSecretRevision : simpl never.
#[global] Arguments decorateExternalSecretRevision : simpl never.
#[global] Arguments childKind : simpl never.

(** ** Facts on the decoration *)

Lemma decorated_mutation_inv f revision o o' :
  decorated_mutation (Some f) revision o = Ok o' →
  ∃ d, f o = Ok (ODeployment d) ∧ o' = ODeployment (annotate_revision revision d).
Proof.
  unfold decorated_mutation. intros Ho. inv_Ok Ho.
  match goal with E : match ?x with _ => _ end = Ok _ |- _ => destruct x; simplify_eq end. eauto.
Qed.

Lemma decorated_safe f revision : SafeMutation f → SafeMutation (decorated_mutation (Some f) revision).
Proof.
  intros Hf. split.
  - intros o o' (d & Hd & ->)%decorated_mutation_inv. apply (mutation_identity _ _ Hd).
  - intros o o' (d & Hd & ->)%decorated_mutation_inv.
    pose proof (mutation_kind _ _ Hd). by destruct o.
  - intros o. simpl. apply local_errors_bind; [apply mutation_errors|]. intros o' _. by destruct o'.
  - intros o. simpl. apply res_bind_no_panic; [apply mutation_no_panic|]. intros o' _. by destruct o'.
Qed.

Lemma decorate_objects plan revision :
  i_Object <$> decorateExternalSecretRevision plan revision = i_Object <$> plan.
Proof.
  unfold decorateExternalSecretRevision. case_bool_decide; [done|].
  induction plan as [|i plan IH]; simpl; [done|].
  destruct (is_deployment (i_Object i)); simpl; [done|]. f_equal. exact IH.
Qed.

(** The decorated intents target the same objects and are as safe. *)
Lemma decorate_intents p plan revision :
  Forall (valid_intent p) plan → Forall safe_intent plan →
  Forall (valid_intent p) (decorateExternalSecretRevision plan revision) ∧
  Forall safe_intent (decorateExternalSecretRevision plan revision).
Proof.
  intros Hv Hs. unfold decorateExternalSecretRevision. case_bool_decide; [done|].
  induction plan as [|i plan IH]; simpl; [done|].
  apply Forall_cons in Hv as [Hi Hv]. apply Forall_cons in Hs as [Hsi Hs].
  destruct (is_deployment (i_Object i)) eqn:Ed; simpl; rewrite !Forall_cons.
  - split; (split; [|done]).
    + destruct Hi as (object & Ho & ? & ? & ? & ? & Ha & Hm). exists object. simpl. rewrite Ho in *. split_and!; eauto.
    + destruct Hi as (object & Ho & ? & ? & ? & ? & Ha & Hm). rewrite Ho in *. destruct object; try done.
      destruct (i_Absent i); [by specialize (Ha eq_refl)|]. destruct (Hm eq_refl) as [f Hf].
      unfold safe_intent in *. simpl. rewrite Hf in *. by apply decorated_safe.
  - destruct (IH Hv Hs). done.
Qed.

Section BuildPlanFacts.
Context `{UnstructuredHelpersLaws}.

Lemma build_plan_inv build p external exposure plan :
  build_plan build p external exposure = Ok plan →
  ∃ children routes ordered,
    build (Some (append_SecretRefs (re_targetSecret <$> external) p)) = Ok children ∧
    (if xs_manageRoute exposure
     then ∃ route, HTTPRouteIntent (Some (append_SecretRefs (re_targetSecret <$> external) p)) = Ok route ∧
                   routes = [route]
     else routes = []) ∧
    ValidatePlan p (children ++ routes) = Ok ordered ∧
    plan = decorateExternalSecretRevision ordered (externalSecretRevision external).
Proof.
  unfold build_plan. intros Hp. inv_Ok Hp. simplify_eq.
  destruct (xs_manageRoute exposure).
  - match goal with E : (_ ≫= _) = Ok _ |- _ => inv_Ok E end. simplify_eq. eauto 10.
  - simplify_eq. eexists _, [], _. rewrite app_nil_r. eauto.
Qed.

Lemma build_plan_intents build p external exposure plan :
  PlanBuilder build → build_plan build p external exposure = Ok plan →
  valid_owner p ∧ Forall (valid_intent p) plan ∧ Forall safe_intent plan.
Proof.
  intros Hb (children & routes & ordered & Hc & Hr & Hv & ->)%build_plan_inv.
  destruct (ValidatePlan_sorted _ _ _ Hv) as [Hperm _].
  apply ValidatePlan_Ok in Hv as (Ho & Hv & _). split; [done|].
  rewrite <-Hperm in Hv. apply decorate_intents; [done|]. rewrite Hperm. apply Forall_app. split.
  - by eapply builder_safe.
  - destruct (xs_manageRoute exposure); [|by subst]. destruct Hr as (route & Hr & ->).
    apply HTTPRouteIntent_wf in Hr as [Hw _]. constructor; [|done]. by eapply wellformed_intent_safe.
Qed.

Lemma build_plan_no_panic build p external exposure :
  PlanBuilder build → no_panic (build_plan build p external exposure).
Proof.
  intros Hb. unfold build_plan. apply res_bind_no_panic; [apply builder_no_panic|]. intros plan _.
  apply res_bind_no_panic.
  - case_match; [|done]. by apply res_bind_no_panic; [apply HTTPRouteIntent_no_panic|].
  - intros plan' _. apply res_bind_no_panic; [|done].
    by destruct (ValidatePlan_cases p plan') as [-> | ->].
Qed.

Lemma build_plan_errors build p external exposure :
  PlanBuilder build → local_errors (build_plan build p external exposure).
Proof.
  intros Hb. unfold build_plan. apply local_errors_bind; [apply builder_errors|]. intros plan _.
  apply local_errors_bind.
  - case_match; [|done]. by apply local_errors_bind; [apply HTTPRouteIntent_errors|].
  - intros plan' _. apply local_errors_bind; [|done].
    by destruct (ValidatePlan_cases p plan') as [-> | ->].
Qed.

End BuildPlanFacts.
