(* ===== verification/Watches.v ===== *)
(** * Watches (internal/controller/watches.go) *)
From S2P Require Import Prelude Errors Kube Api Effects Controller.

Definition SecretReferenceIndex : string := "spec.secretRefs".

Section Predicate.
Context `{OwnerHelpers}.

(** The [UpdateFunc] of [primaryPredicate]; its other events pass. *)
Definition primaryPredicate (ObjectOld ObjectNew : ObjectMeta) : bool :=
  negb (bool_decide (om_UID ObjectOld = om_UID ObjectNew)) ||
  negb (bool_decide (om_Generation ObjectOld = om_Generation ObjectNew)) ||
  negb (Time_Equal (om_DeletionTimestamp ObjectOld) (om_DeletionTimestamp ObjectNew)).

End Predicate.

(** One range of [secretIndex]: the keys and the set [seen] after it. *)
Fixpoint index_names (names : list string) (keys : list string) (seen : gset string) : list string * gset string :=
  match names with
  | [] => (keys, seen)
  | name :: names' =>
      if negb (bool_decide (name = "")) && negb (bool_decide (name ∈ seen)) then
        index_names names' (keys ++ [name]) ({[name]} ∪ seen)
      else index_names names' keys seen
  end.

(** An object of another type is [None]. *)
Definition secretIndex (o : option AIWorkload) : list string :=
  match o with
  | None => []
  | Some p =>
      let '(keys, seen) := index_names (sp_SecretRefs (w_Spec p)) [] ∅ in
      (index_names (er_TargetSecret <$> sp_ExternalSecrets (w_Spec p)) keys seen).1
  end.

(** The requests, as namespace and name; a failed list is logged. *)
Definition RequestsForSecret (r : AIWorkloadReconciler) (o : ObjectMeta) : program (list (string * string)) :=
  if negb (watchesNamespace r (om_Namespace o)) then Ret [] else
  parents ← list_workloads (om_Namespace o) (Some (SecretReferenceIndex, om_Name o));
  match parents with
  | inl err => Ret []
  | inr items => Ret (map (λ p, (w_Namespace p, w_Name p)) items)
  end.

(** ** Facts *)

Lemma index_names_spec names keys seen :
  (∀ k, k ∈ keys ↔ k ∈ seen) → NoDup keys → "" ∉ keys →
  let '(keys', seen') := index_names names keys seen in
  (∀ k, k ∈ keys' ↔ k ∈ seen') ∧ NoDup keys' ∧ ("" ∉ keys') ∧
  (∀ k, k ∈ keys' ↔ k ∈ keys ∨ (k ∈ names ∧ k ≠ "")) ∧
  prefix keys keys'.
Proof.
  revert keys seen. induction names as [|name names IH]; intros keys seen Hs Hnd He; simpl.
  { split; [done|]. split; [done|]. split; [done|]. split; [set_solver|done]. }
  destruct (negb _ && _) eqn:E.
  - rewrite andb_true_iff, !negb_true_iff, !bool_decide_eq_false in E. destruct E as [Hn Hin].
    specialize (IH (keys ++ [name]) ({[name]} ∪ seen)). destruct (index_names _ _ _) as [keys' seen'].
    destruct IH as (H1 & H2 & H3 & H4 & H5).
    + set_solver.
    + apply NoDup_app. split; [done|]. split; [set_solver|apply NoDup_singleton].
    + set_solver.
    + split; [done|]. split; [done|]. split; [done|]. split; [set_solver|].
      etrans; [|done]. by apply prefix_app_r.
  - specialize (IH keys seen Hs Hnd He). destruct (index_names _ _ _) as [keys' seen'].
    destruct IH as (H1 & H2 & H3 & H4 & H5).
    split; [done|]. split; [done|]. split; [done|]. split; [|done].
    rewrite andb_false_iff, !negb_false_iff, !bool_decide_eq_true in E. set_solver.
Qed.
