(* ===== verification/Registration.v ===== *)
(** * Controller registration (internal/controller/aiworkload_controller.go, [SetupWithManager])

    What the reconciler registers with the manager: the cache index, the watches with their
    filters and mappings, and the name.  [requests] is what controller-runtime makes of it: the
    reconciliations an event of a watched object asks for. *)
From S2P Require Import Prelude Errors Kube Api Effects Engine Controller Watches.

(** The builder's calls, in the order of the source. *)
Record registration := {
  reg_Index : string * (option AIWorkload → list string);
  reg_For : ObjectMeta → ObjectMeta → bool;
  reg_Owns : list TypedKind;
  reg_WatchesSecretMetadata : ObjectMeta → program (list (string * string));
  reg_Named : string
}.

(** What the manager's own calls answer: the error of [IndexField] and of [Complete]. *)
Record registration_calls := { rc_IndexField : option error; rc_Complete : option error }.

(** [if err != nil { return err }] *)
Definition checked (err : option error) : res () :=
  match err with
  | Some err => Err err
  | None => Ok ()
  end.

Section Setup.
Context `{OwnerHelpers}.

(** The reconciler with its defaults; a recorder that is set stays. *)
Definition with_setup_defaults (r : AIWorkloadReconciler) : AIWorkloadReconciler := {|
  r_gates := r_gates r; r_WatchNamespace := r_WatchNamespace r; r_WatchNamespaces := r_WatchNamespaces r;
  r_ControllerName := if bool_decide (r_ControllerName r = "") then "aiworkload" else r_ControllerName r;
  r_Builder := r_Builder r; r_Recorder := true; r_Telemetry := r_Telemetry r |}.

Definition SetupWithManager (calls : registration_calls) (r : AIWorkloadReconciler)
    : res (AIWorkloadReconciler * registration) :=
  let r := with_setup_defaults r in
  _ ← checked (rc_IndexField calls);
  _ ← checked (rc_Complete calls);
  Ok (r, {|
    reg_Index := (SecretReferenceIndex, secretIndex);
    reg_For := primaryPredicate;
    reg_Owns := [KDeployment; KService; KServiceAccount; KNetworkPolicy; KHorizontalPodAutoscaler;
                 KPodDisruptionBudget];
    reg_WatchesSecretMetadata := RequestsForSecret r;
    reg_Named := r_ControllerName r |}).

(** Registration succeeds when the manager's calls do; the registration is the same for all. *)
Lemma SetupWithManager_Ok calls r r' reg :
  SetupWithManager calls r = Ok (r', reg) →
  rc_IndexField calls = None ∧ rc_Complete calls = None ∧ r' = with_setup_defaults r ∧
  reg_Index reg = (SecretReferenceIndex, secretIndex) ∧ reg_For reg = primaryPredicate ∧
  reg_Owns reg = [KDeployment; KService; KServiceAccount; KNetworkPolicy; KHorizontalPodAutoscaler; KPodDisruptionBudget] ∧
  reg_WatchesSecretMetadata reg = RequestsForSecret r' ∧ reg_Named reg = r_ControllerName r'.
Proof. unfold SetupWithManager. destruct (rc_IndexField calls), (rc_Complete calls); simpl; naive_solver. Qed.

End Setup.

(** ** What the watches ask for *)

(** The events of the watched objects, as the cache delivers them. *)
Inductive watch_event :=
  | PrimaryCreated (m : ObjectMeta)
  | PrimaryUpdated (old new : ObjectMeta)
  | PrimaryDeleted (m : ObjectMeta)
  | PrimaryGeneric (m : ObjectMeta)
  | ChildChanged (o : Object)
  | SecretChanged (m : ObjectMeta).

(** The typed kind of an object; an untyped one has none. *)
Definition typed_kind (o : Object) : option TypedKind :=
  match o with
  | OServiceAccount _ => Some KServiceAccount
  | ODeployment _ => Some KDeployment
  | OService _ => Some KService
  | ONetworkPolicy _ => Some KNetworkPolicy
  | OHorizontalPodAutoscaler _ => Some KHorizontalPodAutoscaler
  | OPodDisruptionBudget _ => Some KPodDisruptionBudget
  | OUnstructured _ | OOther _ => None
  end.

#[export] Instance TypedKind_eq_dec : EqDecision TypedKind.
Proof. solve_decision. Defined.

(** [handler.EnqueueRequestForOwner(..., handler.OnlyControllerOwner())] for the primary type. *)
Class OwnerRequests := EnqueueRequestForOwner : ObjectMeta → list (string * string).

(** It requests the controlling owner of the primary's group and kind, in the object's namespace. *)
Class OwnerRequestsLaws `{OwnerHelpers} `{OwnerRequests} : Prop := {
  EnqueueRequestForOwner_controller m ref :
    GetControllerOf (om_OwnerReferences m) = Some ref →
    or_Kind ref = AIWorkloadKind → or_APIVersion ref = GroupVersion →
    EnqueueRequestForOwner m = [(om_Namespace m, or_Name ref)]
}.

Section Requests.
Context `{OwnerRequests}.

Definition request_of (m : ObjectMeta) : string * string := (om_Namespace m, om_Name m).

(** A filter without a function for an event lets it pass. *)
Definition requests (reg : registration) (e : watch_event) : program (list (string * string)) :=
  match e with
  | PrimaryCreated m | PrimaryDeleted m | PrimaryGeneric m => Ret [request_of m]
  | PrimaryUpdated old new => Ret (if reg_For reg old new then [request_of new] else [])
  | ChildChanged o =>
      match typed_kind o with
      | Some k => Ret (if bool_decide (k ∈ reg_Owns reg) then EnqueueRequestForOwner (obj_meta o) else [])
      | None => Ret []
      end
  | SecretChanged m => reg_WatchesSecretMetadata reg m
  end.

End Requests.
