(* ===== verification/Telemetry.v ===== *)
(** * Metrics (internal/telemetry/telemetry.go)

    Counters and gauges as state.  A gauge is set to the float64 of an int, which is exact below
    2^53 workloads, so gauges are integers. *)
From S2P Require Import Prelude Errors Kube Api Effects Failures.

Record Metrics := {
  m_resources : gmap (string * string) N;
  m_failures : gmap string N;
  m_active : Z;
  m_ready : Z;
  m_degraded : Z
}.

Definition new_Metrics : Metrics :=
  {| m_resources := ∅; m_failures := ∅; m_active := 0; m_ready := 0; m_degraded := 0 |}.

(** [c.WithLabelValues(k).Inc()] *)
Definition inc {K} `{Countable K} (k : K) (c : gmap K N) : gmap K N :=
  <[k := (default 0 (c !! k) + 1)%N]> c.

Definition RecordResource_metric (kind operation : string) (m : Metrics) : Metrics := {|
  m_resources := inc (kind, operation) (m_resources m); m_failures := m_failures m;
  m_active := m_active m; m_ready := m_ready m; m_degraded := m_degraded m |}.

Definition RecordFailure_metric (reason : string) (m : Metrics) : Metrics := {|
  m_resources := m_resources m; m_failures := inc reason (m_failures m);
  m_active := m_active m; m_ready := m_ready m; m_degraded := m_degraded m |}.

(** The fully qualified names [New] registers, in its order. *)
Definition collectors : list string := [
  "awcp_controller_resource_reconciliations_total"; "awcp_controller_reconcile_failures_total";
  "awcp_controller_managed_workloads"; "awcp_controller_ready_workloads";
  "awcp_controller_degraded_workloads"].

Section Registration.
(** The registry and its [Register]. *)
Context {Registry : Type} (Register : Registry → string → Registry * option error).

Fixpoint register_all (names : list string) (registerer : Registry) : Registry * option error :=
  match names with
  | [] => (registerer, None)
  | name :: names' =>
      match Register registerer name with
      | (registerer', Some err) => (registerer', Some (Errorf "register AWCP metric" err))
      | (registerer', None) => register_all names' registerer'
      end
  end.

Definition New_metrics (registerer : Registry) : Registry * (error + Metrics) :=
  match register_all collectors registerer with
  | (registerer', Some err) => (registerer', inl err)
  | (registerer', None) => (registerer', inr new_Metrics)
  end.

(** [defaultOnce] and [defaultMetrics]: nothing before the first call; the pointer it stored
    afterwards, nil when [New] failed. *)
Definition default_state : Type := option (option Metrics).

Definition Default (registerer : Registry) (s : default_state) : Registry * default_state * res (option Metrics) :=
  match s with
  | Some m => (registerer, s, Ok m)
  | None =>
      match New_metrics registerer with
      | (registerer', inl _) => (registerer', Some None, Panic)
      | (registerer', inr m) => (registerer', Some (Some m), Ok (Some m))
      end
  end.

End Registration.

Section Refresh.
Context `{Conditions}.

(** [ready], [degraded] and [active] over the items of one namespace. *)
Definition count_condition (typ : string) (items : list AIWorkload) : Z :=
  Z.of_nat (length (filter (λ w, IsStatusConditionTrue (w_Conditions w) typ = true) items)).

Fixpoint count_namespaces (namespaces : list string) (active ready degraded : Z) : program (reply (Z * Z * Z)) :=
  match namespaces with
  | [] => Ret (inr (active, ready, degraded))
  | namespace :: namespaces' =>
      got ← list_workloads namespace None;
      match got with
      | inl err => Ret (inl err)
      | inr items =>
          count_namespaces namespaces' (active + Z.of_nat (length items))%Z
            (ready + count_condition "Ready" items)%Z (degraded + count_condition "Degraded" items)%Z
      end
  end.

Definition RefreshNamespaces (m : Metrics) (namespaces : list string) : program (Metrics * option error) :=
  got ← count_namespaces namespaces 0 0 0;
  match got with
  | inl err => Ret (m, Some err)
  | inr (active, ready, degraded) =>
      Ret ({| m_resources := m_resources m; m_failures := m_failures m;
              m_active := active; m_ready := ready; m_degraded := degraded |}, None)
  end.

Definition Refresh (m : Metrics) (namespace : string) : program (Metrics * option error) :=
  RefreshNamespaces m [namespace].

Record GaugeRefresher := { g_Namespace : string; g_Namespaces : list string; g_Interval : Z }.

Definition effective_interval (r : GaugeRefresher) : Z :=
  if (g_Interval r <=? 0)%Z then (15 * Second)%Z else g_Interval r.

(** The closure [refresh]: an error is logged and leaves the gauges. *)
Definition refresh (r : GaugeRefresher) (m : Metrics) : program Metrics :=
  let namespaces :=
    if bool_decide (length (g_Namespaces r) = 0%nat) then [g_Namespace r] else g_Namespaces r in
  '(m, _) ← RefreshNamespaces m namespaces;
  Ret m.

(** [Start] until its context is done, with [ticks] ticks of the timer before that. *)
Fixpoint refresh_loop (r : GaugeRefresher) (ticks : nat) (m : Metrics) : program Metrics :=
  match ticks with
  | O => Ret m
  | S ticks' => m ← refresh r m; refresh_loop r ticks' m
  end.

Definition GaugeRefresher_Start (r : GaugeRefresher) (ticks : nat) (m : Metrics) : program Metrics :=
  m ← refresh r m;
  refresh_loop r ticks m.

End Refresh.
