(* ===== verification/Manager.v ===== *)
(** * The manager's configuration and startup (internal/manager/manager.go, cmd/main.go)

    Options and their validation, [New] and [main] over the errors of the library calls they make,
    and the readiness check as a step relation. *)
From S2P Require Import Prelude Errors GoStd Kube Api Intent Builder Effects Capability Failures Gates Controller.
From S2P Require Import Watches Registration Telemetry.

Record Options := {
  op_WatchNamespace : string;
  op_WatchNamespaces : list string;
  op_ManagerNamespace : string;
  op_ProbeAddress : string;
  op_MetricsBindAddress : string;
  op_LeaderElection : bool;
  op_LeaseDuration : Z;
  op_RenewDeadline : Z;
  op_RetryPeriod : Z;
  op_ControllerName : string;
  op_Builder : option Builder
}.

Definition EffectiveWatchNamespaces (o : Options) : list string :=
  if negb (bool_decide (length (op_WatchNamespaces o) = 0%nat)) then op_WatchNamespaces o
  else [op_WatchNamespace o].

Definition ParseWatchNamespaces (value : string) : list string :=
  if bool_decide (value = "") then [] else Split value ",".

Definition effectiveLeaderElectionTiming (o : Options) : Z * Z * Z :=
  let leaseDuration := if (op_LeaseDuration o =? 0)%Z then (15 * Second)%Z else op_LeaseDuration o in
  let renewDeadline := if (op_RenewDeadline o =? 0)%Z then (10 * Second)%Z else op_RenewDeadline o in
  let retryPeriod := if (op_RetryPeriod o =? 0)%Z then (2 * Second)%Z else op_RetryPeriod o in
  (leaseDuration, renewDeadline, retryPeriod).

(** [k8s.io/apimachinery/pkg/util/validation]: no problem is reported. *)
Class Validation := IsDNS1123Label : string → bool.

(** The verb %q on a value without characters to escape. *)
Definition quoted (s : string) : string :=
  let quote := String (ascii_of_N 34) "" in quote +:+ s +:+ quote.

Section Manager.
Context `{Validation}.

Fixpoint validate_namespaces (values : list string) (seen : gset string) : option error :=
  match values with
  | [] => None
  | value :: values' =>
      if negb (IsDNS1123Label value) then
        Some (NewError "WATCH_NAMESPACES entries must be non-empty DNS-label namespaces")
      else if bool_decide (value ∈ seen) then
        Some (NewError ("WATCH_NAMESPACES contains duplicate namespace " +:+ quoted value))
      else validate_namespaces values' ({[value]} ∪ seen)
  end.

Definition Validate (o : Options) : option error :=
  if negb (bool_decide (op_WatchNamespace o = "")) &&
     negb (bool_decide (length (op_WatchNamespaces o) = 0%nat)) then
    Some (NewError "set either WATCH_NAMESPACE or WATCH_NAMESPACES, not both")
  else match validate_namespaces (EffectiveWatchNamespaces o) ∅ with
  | Some err => Some err
  | None =>
      if negb (IsDNS1123Label (op_ManagerNamespace o)) then
        Some (NewError "MANAGER_NAMESPACE must be one non-empty DNS-label namespace")
      else
        let '(leaseDuration, renewDeadline, retryPeriod) := effectiveLeaderElectionTiming o in
        if (leaseDuration <=? 0)%Z || (renewDeadline <=? 0)%Z || (retryPeriod <=? 0)%Z ||
           (leaseDuration <=? renewDeadline)%Z || (renewDeadline <=? retryPeriod)%Z
        then Some (NewError "leader election timing requires 0 < retry period < renew deadline < lease duration")
        else None
  end.

(** ** New

    What [New] hands to the libraries, and the errors their calls may answer with. *)
Record ManagerSetup := {
  ms_DefaultNamespaces : gset string;
  ms_BindAddress : string;
  ms_SecureServing : bool;
  ms_HealthProbeBindAddress : string;
  ms_LeaderElection : bool;
  ms_LeaderElectionID : string;
  ms_LeaderElectionNamespace : string;
  ms_LeaderElectionResourceLock : string;
  ms_LeaderElectionReleaseOnCancel : bool;
  ms_LeaseDuration : Z;
  ms_RenewDeadline : Z;
  ms_RetryPeriod : Z;
  ms_Reconciler : AIWorkloadReconciler;
  ms_Registration : registration;
  ms_Refresher : GaugeRefresher;
  ms_RefresherMetrics : option Metrics;
  ms_Healthz : list string;
  ms_Readyz : list string
}.

Record manager_calls := {
  mc_clientgoscheme : option error;
  mc_AddToScheme : option error;
  mc_NewManager : option error;
  mc_NewDiscoveryClient : option error;
  mc_registration : registration_calls;
  mc_AddReady : option error;
  mc_AddRefresher : option error;
  mc_AddHealthzCheck : option error;
  mc_AddReadyzCheck : option error
}.

Context `{ApiErrors, Quantities, OwnerHelpers}.

(** The reconciler literal. *)
Definition new_reconciler (options : Options) : AIWorkloadReconciler := {|
  r_gates := {|
    r_TenantReader := Some TenantReader;
    r_ExternalSecretsReader := Some ExternalSecretsReader;
    r_GatewayReader := Some GatewayReader;
    r_CapabilityLookup := Some HasResource |};
  r_WatchNamespace := "";
  r_WatchNamespaces := EffectiveWatchNamespaces options;
  r_ControllerName := op_ControllerName options;
  r_Builder := Some (default Build (op_Builder options));
  r_Recorder := false;
  r_Telemetry := true |}.

(** The part after the metrics are there: [metrics] is what the second [telemetry.Default()]
    returns. *)
Definition setup_manager (calls : manager_calls) (options : Options) (metrics : option Metrics) : res ManagerSetup :=
  let watchNamespaces := EffectiveWatchNamespaces options in
  let metricsAddress := if bool_decide (op_MetricsBindAddress options = "") then "0"
                        else op_MetricsBindAddress options in
  let '(leaseDuration, renewDeadline, retryPeriod) := effectiveLeaderElectionTiming options in
  setup ← SetupWithManager (mc_registration calls) (new_reconciler options);
  _ ← checked (mc_AddReady calls);
  _ ← checked (mc_AddRefresher calls);
  _ ← checked (mc_AddHealthzCheck calls);
  _ ← checked (mc_AddReadyzCheck calls);
  Ok {|
    ms_DefaultNamespaces := list_to_set watchNamespaces;
    ms_BindAddress := metricsAddress;
    ms_SecureServing := negb (bool_decide (metricsAddress = "0"));
    ms_HealthProbeBindAddress := op_ProbeAddress options;
    ms_LeaderElection := op_LeaderElection options;
    ms_LeaderElectionID := "awcp-controller.platform.example.io";
    ms_LeaderElectionNamespace := op_ManagerNamespace options;
    ms_LeaderElectionResourceLock := "leases";
    ms_LeaderElectionReleaseOnCancel := true;
    ms_LeaseDuration := leaseDuration;
    ms_RenewDeadline := renewDeadline;
    ms_RetryPeriod := retryPeriod;
    ms_Reconciler := setup.1;
    ms_Registration := setup.2;
    ms_Refresher := {| g_Namespace := ""; g_Namespaces := watchNamespaces; g_Interval := 0 |};
    ms_RefresherMetrics := metrics;
    ms_Healthz := ["process"];
    ms_Readyz := ["cache-and-leader"] |}.

Section New.
(** controller-runtime's registry; the second [telemetry.Default] finds what the first one stored and
    changes nothing, so it may be run before the errors of the calls between them. *)
Context {Registry : Type} (Register : Registry → string → Registry * option error).

Definition New (calls : manager_calls) (registry : Registry) (telemetry : default_state) (options : Options)
    : Registry * default_state * res ManagerSetup :=
  match (_ ← checked (Validate options);
         _ ← checked (mc_clientgoscheme calls);
         _ ← checked (mc_AddToScheme calls);
         _ ← checked (mc_NewManager calls);
         checked (mc_NewDiscoveryClient calls)) with
  | Ok _ =>
      let '(registry, telemetry, first) := Default Register registry telemetry in
      let '(registry', telemetry', second) := Default Register registry telemetry in
      (registry', telemetry', _ ← first; metrics ← second; setup_manager calls options metrics)
  | Err err => (registry, telemetry, Err err)
  | Panic => (registry, telemetry, Panic)
  end.

End New.

(** The options [main] builds from the environment and the flags. *)
Record Flags := {
  fl_probe_address : option string;
  fl_metrics_address : option string;
  fl_leader_elect : option bool;
  fl_lease_duration : option Z;
  fl_renew_deadline : option Z;
  fl_retry_period : option Z
}.

Definition main_options (Getenv : string → string) (flags : Flags) : Options := {|
  op_WatchNamespace := Getenv "WATCH_NAMESPACE";
  op_WatchNamespaces := ParseWatchNamespaces (Getenv "WATCH_NAMESPACES");
  op_ManagerNamespace := Getenv "MANAGER_NAMESPACE";
  op_ProbeAddress := default ":8081" (fl_probe_address flags);
  op_MetricsBindAddress := default ":8443" (fl_metrics_address flags);
  op_LeaderElection := default true (fl_leader_elect flags);
  op_LeaseDuration := default (15 * Second)%Z (fl_lease_duration flags);
  op_RenewDeadline := default (10 * Second)%Z (fl_renew_deadline flags);
  op_RetryPeriod := default (2 * Second)%Z (fl_retry_period flags);
  op_ControllerName := "";
  op_Builder := None |}.

(** How the process ends: [os.Exit] after a logged error, a panic, or the return of [main]. *)
Inductive process_end :=
  | Exit (code : Z) (message : string) (err : error)
  | Panicked
  | Finished.

(** What [main] asks of the libraries. *)
Record main_calls := {
  mn_GetConfig : option error;
  mn_manager : manager_calls;
  mn_Start : ManagerSetup → option error
}.

Definition main {Registry : Type} (Register : Registry → string → Registry * option error) (calls : main_calls)
    (registry : Registry) (Getenv : string → string) (flags : Flags) : process_end :=
  let options := main_options Getenv flags in
  match Validate options with
  | Some err => Exit 1 "Invalid namespace configuration" err
  | None =>
      match mn_GetConfig calls with
      | Some err => Exit 1 "Could not load Kubernetes configuration" err
      | None =>
          match (New Register (mn_manager calls) registry None options).2 with
          | Err err => Exit 1 "Could not create manager" err
          | Panic => Panicked
          | Ok mgr =>
              match mn_Start calls mgr with
              | Some err => Exit 1 "Manager stopped with error" err
              | None => Finished
              end
          end
      end
  end.

End Manager.

(** ** Startup readiness

    [Start] runs once, in its own goroutine, while probes call [check]. *)
Inductive start_point :=
  | NotStarted
  | WaitingForSync
  | Serving
  | Returned (err : option error).

Record startupReadiness := { sr_pc : start_point; sr_ready : bool }.

Definition initial_readiness : startupReadiness := {| sr_pc := NotStarted; sr_ready := false |}.

(** The atomic steps of [Start]. *)
Inductive readiness_step : startupReadiness → startupReadiness → Prop :=
  | step_start ready :
      readiness_step {| sr_pc := NotStarted; sr_ready := ready |} {| sr_pc := WaitingForSync; sr_ready := ready |}
  | step_sync_failed ready :
      readiness_step {| sr_pc := WaitingForSync; sr_ready := ready |}
        {| sr_pc := Returned (Some (NewError "cache did not synchronize")); sr_ready := ready |}
  | step_synced ready :
      readiness_step {| sr_pc := WaitingForSync; sr_ready := ready |} {| sr_pc := Serving; sr_ready := true |}
  | step_done ready :
      readiness_step {| sr_pc := Serving; sr_ready := ready |} {| sr_pc := Returned None; sr_ready := false |}.

Definition check (r : startupReadiness) : option error :=
  if negb (sr_ready r) then Some (NewError "manager startup is not complete") else None.
