(* ===== verification/Contract.v ===== *)
(** * What a reconciliation may do, and what it may assume

    [event_ok] lists the calls a reconciliation of one workload may issue; [api_contract] states
    the documented behaviour of the API server and the client the safety theorems rely on. *)
From S2P Require Import Prelude Errors Kube Api Naming Intent Route Builder Effects Engine Capability Conditions.
From S2P Require Import Status Failures Gates Controller.

(** ** Curated text

    Every reason and message the controller may put into a condition or an event. *)
Definition curated_texts : list (string * string) := [
  ("ScaledToZero",
   "Desired replicas is zero; no ready workload Pods are required.");
  ("ProgressDeadlineExceeded",
   "Deployment rollout exceeded its progress deadline.");
  ("WorkloadReady",
   "Current Deployment rollout is available at the desired replica count.");
  ("DeploymentUnavailable",
   "Deployment reports unavailable replicas for the current rollout.");
  ("Reconciling",
   "Deployment rollout is progressing toward the desired replica count.");
  ("HPAReconciling",
   "The owned HorizontalPodAutoscaler is awaiting API observation.");
  ("MetricUnavailable",
   "The HorizontalPodAutoscaler cannot obtain one or more configured metrics; inspect its status and the platform metric adapter.");
  ("HPAActive",
   "The owned HorizontalPodAutoscaler is actively evaluating configured metrics.");
  ("HPAReconciling",
   "The owned HorizontalPodAutoscaler is awaiting metric controller status.");
  ("PDBReconciling",
   "The owned PodDisruptionBudget is awaiting API observation.");
  ("SingleReplicaDisruptionBlocked",
   "A single-replica workload cannot remain available during voluntary disruption; its PodDisruptionBudget blocks eviction until capacity is increased.");
  ("PDBActive",
   "The owned PodDisruptionBudget is active for voluntary disruption protection.");
  ("ReconcileFailed",
   "Kubernetes API operation failed; inspect access, availability and controller logs.");
  ("ResourceOwnershipConflict",
   "A child name is occupied by a resource not controlled by this AIWorkload UID; resolve ownership without adoption.");
  ("InvalidConfiguration",
   "Desired resource configuration is invalid; review the specification and builder contract.");
  ("ResourceOwnershipConflict",
   "The owned Deployment has an incompatible immutable selector; administrative resolution is required. Automatic deletion or replacement is disabled.");
  ("ResourceOwnershipConflict",
   "The owned Service has an incompatible immutable cluster allocation; administrative resolution is required. Automatic deletion or replacement is disabled.");
  ("SecretNotFound",
   "One or more referenced Secrets are unavailable in the workload namespace.");
  ("QuotaExceeded",
   "Tenant quota blocked an AWCP child; reduce requested resources or ask a platform administrator to adjust the tenant profile.");
  ("TenantMismatch",
   "spec.tenant must match the tenant profile bound to this namespace.");
  ("TenantProfileInvalid",
   "The namespace tenant profile must select small, medium, or large.");
  ("TenantNotConfigured",
   "This namespace has no GitOps-managed AWCP tenant profile.");
  ("TenantConfigured",
   "The workload tenant matches the namespace-local GitOps profile.");
  ("ExternalSecretsUnavailable",
   "External Secrets Operator v1 APIs are unavailable; install ESO or remove spec.externalSecrets.");
  ("ExternalSecretInvalid",
   "The referenced ExternalSecret must select a namespace-local SecretStore.");
  ("ExternalSecretStoreScopeInvalid",
   "The referenced ExternalSecret must use kind: SecretStore; ClusterSecretStore is outside this workload boundary.");
  ("ExternalSecretInvalid",
   "The referenced ExternalSecret target configuration is invalid.");
  ("ExternalSecretTargetMismatch",
   "spec.externalSecrets targetSecret must match the ExternalSecret target in the same namespace.");
  ("ExternalSecretNotReady",
   "The referenced ExternalSecret is not Ready; inspect External Secrets Operator status.");
  ("ExternalSecretTargetDuplicate",
   "An external Secret target must not duplicate a direct spec.secretRefs entry.");
  ("ExternalSecretNotFound",
   "A referenced ExternalSecret is unavailable in the workload namespace.");
  ("SecretStoreNotFound",
   "The referenced namespace-local SecretStore is unavailable.");
  ("SecretStoreNotReady",
   "The referenced SecretStore is not Ready; inspect External Secrets Operator status.");
  ("ExternalSecretTargetNotFound",
   "The ready ExternalSecret target Secret is unavailable in the workload namespace.");
  ("ExternalSecretsReady",
   "Referenced namespace-local ExternalSecrets and target Secrets are Ready.");
  ("GatewayAPIUnavailable",
   "Gateway API v1 is unavailable; install it or select ClusterLocal exposure.");
  ("ExposureServiceDisabled",
   "HTTPRoute exposure requires the workload ClusterIP Service to be enabled.");
  ("ExposureNetworkPolicyEnabled",
   "HTTPRoute exposure requires spec.network.enabled=false; Gateway data-plane ingress policy is platform-managed.");
  ("GatewayNotFound",
   "The referenced Gateway is unavailable in the workload namespace.");
  ("GatewayNotReady",
   "The referenced Gateway is not Programmed; inspect the platform Gateway status.");
  ("HTTPRoutePending",
   "The owned HTTPRoute is awaiting a matching Gateway status observation.");
  ("HTTPRouteRejected",
   "The platform Gateway rejected the owned HTTPRoute; inspect Gateway listener policy and route configuration.");
  ("HTTPRoutePending",
   "The owned HTTPRoute is awaiting Gateway acceptance.");
  ("HTTPRouteReferencesNotResolved",
   "The platform Gateway cannot resolve the HTTPRoute backend reference.");
  ("HTTPRoutePending",
   "The owned HTTPRoute is awaiting backend reference resolution.");
  ("HTTPRouteReady",
   "The owned HTTPRoute is accepted and its backend reference is resolved.");
  ("HTTPRoutePending",
   "The owned HTTPRoute is awaiting Gateway API observation.")].

Definition is_curated (reason message : string) : bool :=
  existsb (λ t, bool_decide (t = (reason, message))) curated_texts.

Definition curated_reason (reason : string) : bool :=
  existsb (λ t, bool_decide (t.1 = reason)) curated_texts.

(** An error of the API client, or one made by the controller's own libraries: its chain ends in
    no value of this repository's packages. *)
Definition plain_error (e : error) : Prop :=
  match root_cause e with
  | APIError _ | NewError _ => True
  | _ => False
  end.

(** A configuration error carries curated text. *)
Definition curated_error (e : error) : Prop :=
  match root_cause e with
  | TenantConfigurationError reason message | ExternalSecretConfigurationError reason message
  | ExposureConfigurationError reason message => is_curated reason message = true
  | _ => True
  end.

(** ** Calls *)

Definition managed_gvk (gvk : GroupVersionKind) : bool :=
  bool_decide (gvk = HTTPRouteGVK) || bool_decide (gvk = gatewayGVK) ||
  bool_decide (gvk = externalSecretGVK) || bool_decide (gvk = secretStoreGVK).

(** The object is a child of the workload [ns/name]. *)
Definition is_child (ns name : string) (o : Object) : Prop :=
  (0 ≤ childOrder (Pointer o))%Z ∧ om_Namespace (obj_meta o) = ns ∧ om_Name (obj_meta o) = ChildName name.

(** ** What is known of the answers

    Every workload the API server answers with, and every Deployment, satisfies a predicate. *)
Record knowledge := {
  good_workload : AIWorkload → Prop;
  good_deployment : Deployment → Prop
}.

(** Nothing is known. *)
Definition any_text : knowledge := {| good_workload _ := True; good_deployment _ := True |}.

(** The controller's own writes to a workload keep the predicate. *)
Class Preserved `{Conditions} (K : knowledge) : Prop := {
  good_set t typ status reason message w :
    good_workload K w → is_managed_condition typ = true → known_status status = true → is_curated reason message = true →
    good_workload K (set_Conditions (SetStatusCondition t (w_Conditions w) (condition_of w typ status reason message)) w);
  good_remove typ w : good_workload K w → good_workload K (remove_condition typ w);
  good_retry fresh w :
    good_workload K fresh → good_workload K w → w_Generation fresh = w_Generation w → good_workload K (retry_status fresh w);
  good_observed d w : good_workload K w → good_deployment K d → good_workload K (observed_status w d);
  good_cleared w : good_workload K w → good_workload K (clear_ReadyReplicas w);
  good_failed w : good_workload K w → good_workload K (failed_status w)
}.

#[export] Instance any_text_preserved `{Conditions} : Preserved any_text.
Proof. by split. Qed.

Section Contract.
Context (K : knowledge).

Definition event_ok (ns name : string) (e : event) : Prop :=
  match e with
  | EGetWorkload n m => n = ns ∧ m = name
  | EGetServiceAccount n m | EGetDeployment n m | EGetService n m | EGetNetworkPolicy n m
  | EGetHorizontalPodAutoscaler n m | EGetPodDisruptionBudget n m => n = ns ∧ m = ChildName name
  | EGetUnstructured _ gvk n _ => n = ns ∧ managed_gvk gvk = true
  | EGetOther _ _ => False
  | EGetConfigMap _ n m => n = ns ∧ m = tenantProfileConfigMap
  | EGetSecretMetadata n _ => n = ns
  | EListWorkloads _ _ => False
  | EServerResources _ => True
  | ECreate o | EDelete o _ _ => is_child ns name o
  | EPatch before after => is_child ns name before ∧ is_child ns name after
  | EPatchStatus before after =>
      w_Namespace after = ns ∧ w_Name after = name ∧ good_workload K after
  | EEventf about _ reason _ note =>
      w_Namespace about = ns ∧ w_Name about = name ∧ is_curated reason note = true
  | ERecordResource _ _ => True
  | ERecordFailure reason => curated_reason reason = true
  | ENow => True
  | EPanic => False
  end.

Definition is_discovery (e : event) : Prop :=
  match e with EServerResources _ => True | _ => False end.

(** ** Answers *)

Definition answer_error (e : event) : answer e → option error :=
  match e return answer e → option error with
  | EGetWorkload _ _ | EGetServiceAccount _ _ | EGetDeployment _ _ | EGetService _ _
  | EGetNetworkPolicy _ _ | EGetHorizontalPodAutoscaler _ _ | EGetPodDisruptionBudget _ _
  | EGetUnstructured _ _ _ _ | EGetOther _ _ | EGetConfigMap _ _ _ | EGetSecretMetadata _ _
  | EListWorkloads _ _ | EServerResources _ | EPatchStatus _ _ =>
      λ x, match x with inl err => Some err | inr _ => None end
  | ECreate _ | EPatch _ _ | EDelete _ _ _ => λ x, x
  | _ => λ _, None
  end.

(** What a status patch leaves alone: everything but the status and the resource version. *)
Definition same_workload (w w' : AIWorkload) : Prop :=
  w_Spec w' = w_Spec w ∧ w_Namespace w' = w_Namespace w ∧ w_Name w' = w_Name w ∧ w_UID w' = w_UID w ∧
  w_Generation w' = w_Generation w ∧ w_DeletionTimestamp w' = w_DeletionTimestamp w.

(** A read answers with the object of the key; a status patch answers with the object it patched. *)
Definition answer_ok (e : event) : answer e → Prop :=
  match e return answer e → Prop with
  | EGetWorkload ns name => λ x, ∀ w, x = inr w →
      w_Namespace w = ns ∧ w_Name w = name ∧ good_workload K w
  | EPatchStatus _ after => λ x, ∀ w, x = inr w → same_workload after w ∧ good_workload K w
  | EGetServiceAccount _ name => λ x, ∀ o, x = inr o → om_Name (sa_meta o) = name
  | EGetDeployment _ name => λ x, ∀ o, x = inr o → om_Name (dp_meta o) = name ∧ good_deployment K o
  | EGetService _ name => λ x, ∀ o, x = inr o → om_Name (sv_meta o) = name
  | EGetNetworkPolicy _ name => λ x, ∀ o, x = inr o → om_Name (np_meta o) = name
  | EGetHorizontalPodAutoscaler _ name => λ x, ∀ o, x = inr o → om_Name (hpa_meta o) = name
  | EGetPodDisruptionBudget _ name => λ x, ∀ o, x = inr o → om_Name (pdb_meta o) = name
  | EGetUnstructured _ gvk _ name => λ x, ∀ o, x = inr o → om_Name (un_meta o) = name ∧ un_GVK o = gvk
  | _ => λ _, True
  end.

Definition api_contract (c : call event answer) : Prop :=
  match c with
  | Call e x => answer_ok e x ∧ ∀ err, answer_error e x = Some err → plain_error err
  end.

(** The lookup of the platform's APIs makes discovery calls only. *)
Definition lookup_ok (lookup : ResourceLookup) : Prop :=
  ∀ resource, safe api_contract is_discovery (lookup resource) (λ r, ∀ err, r = inl err → plain_error err).

(** ** Facts *)

Lemma same_workload_refl w : same_workload w w.
Proof. done. Qed.

Lemma same_workload_trans w1 w2 w3 : same_workload w1 w2 → same_workload w2 w3 → same_workload w1 w3.
Proof. unfold same_workload. intuition congruence. Qed.

Lemma plain_error_curated e : plain_error e → curated_error e.
Proof. unfold plain_error, curated_error. by destruct (root_cause e). Qed.

Lemma plain_error_Errorf p e : plain_error e → plain_error (Errorf p e).
Proof. done. Qed.

Lemma curated_error_Errorf p e : curated_error e → curated_error (Errorf p e).
Proof. done. Qed.

(** Reading a child of the workload is permitted, and answers with one of its kind and name. *)
Lemma get_event_ok ns name o : is_child ns name o → event_ok ns name (get_event o).
Proof.
  intros (Ho & Hns & Hn). destruct o; simpl in *; try done.
  case_bool_decide as Hg; [|done]. split; [done|]. unfold managed_gvk. by rewrite Hg, bool_decide_true.
Qed.

Lemma get_reply_error o x err : get_reply o x = inl err → answer_error (get_event o) x = Some err.
Proof. destruct o, x; simpl; intros; by simplify_eq. Qed.

Lemma get_reply_ok o x current :
  answer_ok (get_event o) x → get_reply o x = inr current →
  (0 ≤ childOrder (Pointer o))%Z →
  om_Name (obj_meta current) = om_Name (obj_meta o) ∧ childOrder (Pointer current) = childOrder (Pointer o).
Proof.
  destruct o, x as [|y]; simpl; intros Hok ? Ho; simplify_eq/=; split; try done; try by apply Hok.
  destruct (Hok y eq_refl) as [_ ->]. done.
Qed.

Lemma same_kind_order o o' : same_kind o o' → childOrder (Pointer o') = childOrder (Pointer o).
Proof. destruct o, o'; simpl; try done. by intros ->. Qed.

Lemma with_meta_order m o : childOrder (Pointer (with_meta m o)) = childOrder (Pointer o).
Proof. by destruct o. Qed.

Lemma wrapped_error_curated p e : plain_error e → curated_error (Errorf p e).
Proof. intros He. by apply plain_error_curated. Qed.

End Contract.

#[export] Hint Resolve same_workload_refl plain_error_curated plain_error_Errorf curated_error_Errorf : awcp.

(** The production lookup keeps the contract of the reconciler's. *)
Lemma HasResource_ok `{ApiErrors} K : lookup_ok K HasResource.
Proof.
  intros resource. split; [done|]. intros [err|names] [_ Herr]; simpl; [|done].
  destruct (IsNotFound err); [done|]. intros ? [= <-]. by apply Herr.
Qed.
