(* ===== verification/Safety.v ===== *)
(** * Safety of a reconciliation

    Every part of [Reconcile] issues only the calls [event_ok] permits, under [api_contract];
    composed into one triple for [Reconcile]. *)
From S2P Require Import Prelude Errors Kube Api Naming Intent Autoscaling ServiceIntent Availability Route Builder.
From S2P Require Import Effects Engine Capability Conditions Status Failures Gates Controller Contract.

Section Safety.
Context `{ConditionsLaws, ApiErrors, UnstructuredHelpers, OwnerHelpers}.
Context `{SemanticDeepEqual AIWorkloadStatus, SemanticDeepEqual Object}.
Context (K : knowledge) `{!Preserved K}.
(** The workload the reconciliation read. *)
Context (w0 : AIWorkload).

Let R := api_contract K.
Let G := event_ok K (w_Namespace w0) (w_Name w0).

(** The workload in memory: the one that was read, except for its status. *)
Definition follows (w : AIWorkload) : Prop := same_workload w0 w ∧ good_workload K w.

Lemma follows_ns w : follows w → w_Namespace w = w_Namespace w0 ∧ w_Name w = w_Name w0.
Proof. intros [(_&?&?&_) _]. done. Qed.

Lemma follows_status w st : follows w → good_workload K (set_Status st w) → follows (set_Status st w).
Proof. intros [Hs _] Hc. split; [|done]. by eapply same_workload_trans. Qed.

Lemma remove_condition_ok typ w : follows w → follows (remove_condition typ w).
Proof. intros Hw. apply follows_status; [done|]. apply good_remove, Hw. Qed.

Lemma set_condition_safe typ status reason message w :
  follows w → is_managed_condition typ = true → known_status status = true → is_curated reason message = true →
  safe R G (set_condition typ status reason message w) follows.
Proof.
  intros Hw Ht Hs Hc. split; [done|]. intros t _. simpl. apply follows_status; [done|]. by apply good_set; [apply Hw|..].
Qed.

#[local] Opaque set_condition.

(** The error a part returns is one of the API's. *)
Definition plain_reply {A} (r : reply A) : Prop := ∀ err, r = inl err → plain_error err.

Lemma plain_inr {A} (a : A) : plain_reply (inr a).
Proof. done. Qed.

Lemma patchStatus_safe before after :
  follows after →
  safe R G (patchStatus before after) (λ '(w, r), follows w ∧ plain_reply r).
Proof.
  intros Ha. destruct (follows_ns _ Ha) as [Hns Hn]. unfold patchStatus.
  destruct (DeepEqual _ _); [by split|]. simpl. split; [by split; [|split; [|apply Ha]]|].
  intros [err|updated] [Hok Herr].
  - destruct (IsConflict err); simpl; [|by split; [|intros ? [= <-]; apply Herr]].
    split; [done|]. intros [err'|fresh] [Hok' Herr']; [by split; [|intros ? [= <-]; apply Herr']|].
    destruct (Hok' fresh eq_refl) as (Hfn & Hfm & Hfc).
    case_bool_decide as Hg; simpl; [|by split; [|intros ? [= <-]; apply Herr]].
    destruct (DeepEqual _ _); simpl; [by split|].
    split; [|by intros [err''|?] [_ Herr'']; split; [|intros ? [= <-]; apply Herr''| |]].
    split; [by rewrite <-Hns|]. split; [by rewrite <-Hn|].
    apply good_retry; [done|apply Ha|done].
  - simpl. destruct (Hok updated eq_refl) as [Hs Hc]. split; [|done].
    split; [|done]. by eapply same_workload_trans; [apply Ha|].
Qed.

#[local] Opaque patchStatus.

(** ** Gates *)

(** The error a part reports. *)
Definition curated_result (w_err : AIWorkload * option error) : Prop :=
  follows w_err.1 ∧ ∀ err, w_err.2 = Some err → curated_error err.

Definition curated_reply {A} (w_r : AIWorkload * reply A) : Prop :=
  follows w_r.1 ∧ ∀ err, w_r.2 = inl err → curated_error err.

Lemma check_tenant_profile_curated tenant data err :
  check_tenant_profile tenant data = Some err → curated_error err.
Proof. unfold check_tenant_profile. repeat case_match; intros; simplify_eq; done. Qed.

Lemma validateTenant_safe g w : follows w → safe R G (validateTenant g w) curated_result.
Proof.
  intros Hw. destruct (follows_ns _ Hw) as [Hns Hn]. unfold validateTenant.
  case_bool_decide; [split; [by apply remove_condition_ok|done]|].
  simpl. split; [done|]. intros [err|profile] [_ Herr].
  - destruct (IsNotFound err); simpl; (split; [done|]); intros ? [= <-]; [done|].
    by apply wrapped_error_curated, Herr.
  - destruct (check_tenant_profile _ _) as [err|] eqn:E.
    + split; [done|]. intros ? [= <-]. by eapply check_tenant_profile_curated.
    + eapply safe_seq; [by apply set_condition_safe|]. intros w' Hw'. by split.
Qed.

Lemma validate_secrets_safe names :
  safe R G (validate_secrets (w_Namespace w0) names) (λ r, ∀ err, r = Some err → curated_error err).
Proof.
  induction names as [|name names IH]; simpl; [done|]. split; [done|].
  intros [err|meta] [_ Herr]; [|apply IH].
  destruct (IsNotFound err); intros ? [= <-]; [done|]. by apply wrapped_error_curated, Herr.
Qed.

Context (g : gate_config) (Hlookup : ∀ lookup, r_CapabilityLookup g = Some lookup → lookup_ok K lookup).

Lemma Detect_safe lookup rq : lookup_ok K lookup →
  safe R G (Detect lookup rq) (λ o, ∀ err, ob_Err o = Some err → plain_error err).
Proof.
  intros Hl. unfold Detect. generalize (rq_Resources rq). intros rs.
  induction rs as [|resource rs IH]; simpl; [done|].
  eapply safe_seq.
  - eapply safe_impl; [apply (Hl resource)|done| |by intros a Ha; exact Ha].
    intros e He. by destruct e.
  - intros [err|[]] Hr; simpl; [by intros ? [= <-]; apply Hr|apply IH|done].
Qed.

Lemma unknown_capability_plain prefix o :
  (∀ err, o = Some err → plain_error err) → plain_error (unknown_capability prefix o).
Proof. destruct o as [err|]; simpl; [|done]. intros Ho. by apply (Ho err). Qed.

Lemma selected_store_curated x err : selected_store x = inl err → curated_error err.
Proof. unfold selected_store. repeat case_match; intros; simplify_eq; done. Qed.

Lemma checked_target_curated x reference err : checked_target x reference = inl err → curated_error err.
Proof. unfold checked_target. repeat case_match; intros; simplify_eq; done. Qed.

Lemma resolve_reference_safe via direct reference :
  safe R G (resolve_reference via (w_Namespace w0) direct reference)
    (λ r, ∀ err, r = inl err → curated_error err).
Proof.
  unfold resolve_reference. case_bool_decide; [by intros ? [= <-]|].
  simpl. split; [done|]. intros [err|x] [_ Herr].
  { destruct (IsNotFound err); intros ? [= <-]; [done|]. by apply wrapped_error_curated, Herr. }
  destruct (selected_store x) as [err|store] eqn:Es.
  { intros ? [= <-]. by eapply selected_store_curated. }
  simpl. split; [done|]. intros [err|y] [_ Herr'].
  { destruct (IsNotFound err); intros ? [= <-]; [done|]. by apply wrapped_error_curated, Herr'. }
  destruct (readyCondition y); simpl; [|by intros ? [= <-]].
  destruct (checked_target x reference) as [err|target] eqn:Et.
  { intros ? [= <-]. by eapply checked_target_curated. }
  simpl. split; [done|]. intros [err|m] [_ Herr'']; [|done].
  destruct (IsNotFound err); intros ? [= <-]; [done|]. by apply wrapped_error_curated, Herr''.
Qed.

Lemma resolve_references_safe via direct references resolved :
  safe R G (resolve_references via (w_Namespace w0) direct references resolved)
    (λ r, ∀ err, r = inl err → curated_error err).
Proof.
  revert resolved. induction references as [|x references IH]; intros resolved; simpl; [done|].
  eapply safe_seq; [apply resolve_reference_safe|]. intros [err|r] Hr; [|apply IH].
  simpl. intros ? [= <-]. by apply Hr.
Qed.

Lemma validateExternalSecrets_safe w :
  follows w → safe R G (validateExternalSecrets g w) curated_reply.
Proof.
  intros Hw. destruct (follows_ns _ Hw) as [Hns Hn]. unfold validateExternalSecrets.
  case_bool_decide; [split; [by apply remove_condition_ok|done]|].
  destruct (r_CapabilityLookup g) as [lookup|] eqn:El; [|by split; [|intros ? [= <-]]].
  cbn [RequirementFor]. simpl. eapply safe_seq; [by apply Detect_safe, Hlookup|].
  intros [rq st err] Ho. simpl in Ho. destruct st; simpl.
  - rewrite Hns. eapply safe_seq; [apply resolve_references_safe|]. intros [err'|resolved] Hr.
    + split; [done|]. intros ? [= <-]. by apply Hr.
    + eapply safe_seq; [by apply set_condition_safe|]. intros w' Hw'. by split.
  - by split; [|intros ? [= <-]].
  - split; [done|]. intros ? [= <-]. by apply plain_error_curated, unknown_capability_plain.
Qed.

(** The route is active only when the workload asks for it. *)
Definition exposure_ok (state : exposureState) : Prop :=
  xs_active state = true → is_Some (sp_Exposure (w_Spec w0)).

Lemma HTTPRouteEnabled_exposure w :
  follows w → HTTPRouteEnabled (Some w) = true → is_Some (sp_Exposure (w_Spec w0)).
Proof. intros [[Hs _] _] (e & He & _)%HTTPRouteEnabled_spec. rewrite <-Hs. by exists e. Qed.

Lemma validate_gateway_safe w :
  follows w → HTTPRouteEnabled (Some w) = true →
  safe R G (validate_gateway g w) (λ r, ∀ err, r = Some err → curated_error err).
Proof.
  intros Hw He. destruct (follows_ns _ Hw) as [Hns Hn]. unfold validate_gateway.
  destruct (ServiceEnabled (Some w)); simpl; [|by intros ? [= <-]].
  destruct (NetworkEnabled (Some w)); simpl; [by intros ? [= <-]|].
  apply HTTPRouteEnabled_spec in He as (e & He & _). rewrite He. simpl. split; [done|].
  intros [err|gateway] [_ Herr].
  - destruct (IsNotFound err); intros ? [= <-]; [done|]. by apply wrapped_error_curated, Herr.
  - destruct (hasTrueCondition _ _); simpl; [done|by intros ? [= <-]].
Qed.

Lemma validateExposure_safe w :
  follows w →
  safe R G (validateExposure g w) (λ wr, curated_reply wr ∧ ∀ st, wr.2 = inr st → exposure_ok st).
Proof.
  intros Hw. unfold validateExposure.
  set (previous := match FindStatusCondition _ _ with Some _ => true | None => false end). clearbody previous.
  destruct (HTTPRouteEnabled (Some w)) eqn:He; simpl.
  - destruct (r_CapabilityLookup g) as [lookup|] eqn:El; [|by split; [split; [|intros ? [= <-]]|]].
    cbn [RequirementFor]. simpl. eapply safe_seq; [by apply Detect_safe, Hlookup|].
    intros [rq st err] Ho. simpl in Ho. destruct st; simpl.
    + eapply safe_seq; [by apply validate_gateway_safe|]. intros [err'|] Hr; simpl.
      * split; [|done]. split; [done|]. intros ? [= <-]. by apply Hr.
      * split; [by split|]. intros ? [= <-] _. by eapply HTTPRouteEnabled_exposure.
    + by split; [split; [|intros ? [= <-]]|].
    + split; [|done]. split; [done|]. intros ? [= <-]. by apply plain_error_curated, unknown_capability_plain.
  - destruct previous; simpl; [|by split; [split|intros ? [= <-]]].
    destruct (r_CapabilityLookup g) as [lookup|] eqn:El; [|by split; [split; [|intros ? [= <-]]|]].
    cbn [RequirementFor]. simpl. eapply safe_seq; [by apply Detect_safe, Hlookup|].
    intros [rq st err] Ho. simpl in Ho. destruct st; simpl.
    + by split; [split|intros ? [= <-]].
    + by split; [split; [by apply remove_condition_ok|done]|intros ? [= <-]].
    + split; [|done]. split; [done|]. intros ? [= <-]. by apply plain_error_curated, unknown_capability_plain.
Qed.

(** The delays an observed route asks for. *)
Definition exposure_delay (delay : Z) : Prop := delay = 0%Z ∨ delay = (15 * Second)%Z ∨ delay = Minute.

Lemma exposure_observation_ok o status reason message delay :
  exposure_observation o = (status, reason, message, delay) →
  is_curated reason message = true ∧ known_status status = true ∧ exposure_delay delay.
Proof.
  destruct o as [[acc rsv] obs]. unfold exposure_observation, exposure_delay.
  repeat case_match; intros [= <- <- <- <-]; auto.
Qed.

Lemma observeExposure_safe w st :
  follows w → exposure_ok st →
  safe R G (observeExposure g w st) (λ wr, curated_reply wr ∧ ∀ d, wr.2 = inr d → exposure_delay d).
Proof.
  intros Hw Hst. destruct (follows_ns _ Hw) as [Hns Hn]. unfold observeExposure.
  assert (exposure_delay 0) as Hd0 by (by left). assert (exposure_delay (15 * Second)) as Hd15 by (by right; left).
  destruct (xs_manageRoute st); simpl; [|by split; [split|intros ? [= <-]]].
  destruct (xs_active st) eqn:Ea; simpl; [|by split; [split; [apply remove_condition_ok|]|intros ? [= <-]]].
  split; [done|]. intros [err|route] [_ Herr].
  - destruct (IsNotFound err); simpl.
    + eapply safe_seq; [by apply set_condition_safe|]. intros w' Hw'. by split; [split|intros ? [= <-]].
    + split; [|done]. split; [done|]. intros ? [= <-]. by apply wrapped_error_curated, Herr.
  - destruct (Hst Ea) as [e He]. destruct Hw as [[Hs ?] ?]. rewrite Hs, He. simpl.
    destruct (exposure_observation _) as [[[status reason] message] delay] eqn:Eo.
    apply exposure_observation_ok in Eo as (Hc & Hst' & Hd).
    eapply safe_seq; [by apply set_condition_safe|]. intros w' Hw'. by split; [split|intros ? [= <-]].
Qed.

(** ** Status *)

Lemma assessDeployment_curated p d :
  is_curated (sa_reason (assessDeployment p d)) (sa_message (assessDeployment p d)) = true.
Proof. unfold assessDeployment. by repeat case_match. Qed.

(** The statuses an assessment sets. *)
Definition known_assessment (a : statusAssessment) : Prop :=
  known_status (sa_ready a) = true ∧ known_status (sa_progressing a) = true ∧ known_status (sa_degraded a) = true.

Lemma assessDeployment_known p d : known_assessment (assessDeployment p d).
Proof. unfold assessDeployment. by repeat case_match. Qed.

Lemma setAssessmentConditions_safe w a :
  follows w → known_assessment a → is_curated (sa_reason a) (sa_message a) = true →
  safe R G (setAssessmentConditions w a) follows.
Proof.
  intros Hw (Hr & Hp & Hd) Ha. unfold setAssessmentConditions.
  eapply safe_seq; [by apply set_condition_safe|]. intros w1 Hw1.
  eapply safe_seq; [by apply set_condition_safe|]. intros w2 Hw2. by apply set_condition_safe.
Qed.

Definition plain_result (w_err : AIWorkload * option error) : Prop :=
  follows w_err.1 ∧ ∀ err, w_err.2 = Some err → plain_error err.

Lemma observeAutoscaling_safe w : follows w → safe R G (observeAutoscaling w) plain_result.
Proof.
  intros Hw. destruct (follows_ns _ Hw) as [Hns Hn]. unfold observeAutoscaling.
  destruct (AutoscalingEnabled (Some w)); simpl; [|by split; [apply remove_condition_ok|]].
  split; [by rewrite Hns, Hn|]. unfold setAutoscalingCondition. intros [err|hpa] [_ Herr].
  - destruct (IsNotFound err); simpl.
    + eapply safe_seq; [by apply set_condition_safe|]. intros w' Hw'. by split.
    + split; [done|]. intros ? [= <-]. by apply Herr.
  - repeat case_match;
      (eapply safe_seq; [by apply set_condition_safe|]; intros w' Hw'; by split).
Qed.

Lemma observeAvailability_safe w : follows w → safe R G (observeAvailability w) plain_result.
Proof.
  intros Hw. destruct (follows_ns _ Hw) as [Hns Hn]. unfold observeAvailability.
  destruct (AvailabilityEnabled (Some w)); simpl; [|by split; [apply remove_condition_ok|]].
  split; [by rewrite Hns, Hn|]. unfold setAvailabilityCondition. intros [err|pdb] [_ Herr].
  - destruct (IsNotFound err); simpl.
    + eapply safe_seq; [by apply set_condition_safe|]. intros w' Hw'. by split.
    + split; [done|]. intros ? [= <-]. by apply Herr.
  - destruct (AvailabilityReplicaFloor_Ok w) as [floor ->]. simpl.
    case_match; (eapply safe_seq; [by apply set_condition_safe|]; intros w' Hw'; by split).
Qed.

#[local] Opaque observeAutoscaling observeAvailability setAssessmentConditions.

Lemma observeAndReportStatus_safe recorder w :
  follows w → safe R G (observeAndReportStatus recorder w) plain_result.
Proof.
  intros Hw. destruct (follows_ns _ Hw) as [Hns Hn]. unfold observeAndReportStatus.
  simpl. split; [by rewrite Hns, Hn|]. intros [err|d] [Hok Herr].
  { split; [done|]. intros ? [= <-]. by apply plain_error_Errorf, Herr. }
  eapply safe_seq; [by apply observeAutoscaling_safe|]. intros [w1 [err|]] [Hw1 He1].
  { split; [done|]. intros ? [= <-]. by apply plain_error_Errorf, He1. }
  eapply safe_seq; [by apply observeAvailability_safe|]. intros [w2 [err|]] [Hw2 He2].
  { split; [done|]. intros ? [= <-]. by apply plain_error_Errorf, He2. }
  eapply safe_seq.
  { apply setAssessmentConditions_safe; [|apply assessDeployment_known|apply assessDeployment_curated].
    apply follows_status; [done|]. apply good_observed; [apply Hw2|]. by destruct (Hok d eq_refl). }
  intros w3 Hw3. eapply safe_seq; [by apply patchStatus_safe|].
  intros [w4 [err|changed]] [Hw4 He4]; [by split; [|intros ? [= <-]; apply He4]|]. destruct (follows_ns _ Hw4) as [Hns4 Hn4].
  eapply safe_seq with (Q1 := λ _, True); [by case_match|]. intros _ _. by split.
Qed.

(** ** Failure reports *)

Lemma reclassify_curated test reason message f :
  is_curated reason message = true → is_curated (f_reason f) (f_message f) = true →
  is_curated (f_reason (reclassify test reason message f)) (f_message (reclassify test reason message f)) = true.
Proof. intros. by destruct test. Qed.

Lemma reclassify_as_curated found f :
  (∀ r m, found = Some (r, m) → is_curated r m = true) → is_curated (f_reason f) (f_message f) = true →
  is_curated (f_reason (reclassify_as found f)) (f_message (reclassify_as found f)) = true.
Proof. intros Hf ?. destruct found as [[r m]|]; [|done]. by apply Hf. Qed.

Lemma classify_curated cause :
  curated_error cause → is_curated (f_reason (classify cause)) (f_message (classify cause)) = true.
Proof.
  intros Hc. unfold classify. destruct (quota_exceeded cause); [done|].
  apply reclassify_as_curated; [intros r m Hr%errors_As_Exposure_root; unfold curated_error in Hc; by rewrite Hr in Hc|].
  apply reclassify_as_curated; [intros r m Hr%errors_As_ExternalSecret_root; unfold curated_error in Hc; by rewrite Hr in Hc|].
  apply reclassify_as_curated; [intros r m Hr%errors_As_Tenant_root; unfold curated_error in Hc; by rewrite Hr in Hc|].
  do 5 (apply reclassify_curated; [done|]). done.
Qed.

Lemma is_curated_reason reason message : is_curated reason message = true → curated_reason reason = true.
Proof.
  unfold is_curated, curated_reason. rewrite !existsb_exists.
  intros ([r m] & Hin & Ht%bool_decide_eq_true). exists (r, m). split; [done|].
  by apply bool_decide_eq_true; simplify_eq.
Qed.

(** The outcome of a reconciliation that ends in a failure report. *)
Definition report_outcome (out : Result * option error) : Prop :=
  (out.1 = {| RequeueAfter := Minute |} ∧ out.2 = None) ∨
  (out.1 = no_requeue ∧ ∃ cause, out.2 = Some (SafeRetry cause (retry_category cause))).

Lemma failure_status_known permanent typ : known_status (failure_status permanent typ) = true.
Proof. unfold failure_status. case_bool_decide; [done|]. by destruct permanent. Qed.

Lemma set_failure_conditions_safe types f w :
  follows w → Forall (λ typ, is_managed_condition typ = true) types → is_curated (f_reason f) (f_message f) = true →
  safe R G (set_failure_conditions types f w) follows.
Proof.
  intros Hw Ht Hf. revert w Hw. induction Ht as [|typ types Hm _ IH]; intros w Hw; simpl; [done|].
  eapply safe_seq; [by apply set_condition_safe; [..|apply failure_status_known|]|]. intros w' Hw'. by apply IH.
Qed.

Lemma set_gate_condition_safe found typ f w :
  follows w → is_managed_condition typ = true → is_curated (f_reason f) (f_message f) = true →
  safe R G (set_gate_condition found typ f w) follows.
Proof. intros Hw Ht Hf. destruct found; simpl; [by apply set_condition_safe|done]. Qed.

#[local] Opaque set_failure_conditions set_gate_condition.

Lemma reportFailure_safe recorder telemetry w cause :
  follows w → curated_error cause →
  safe R G (reportFailure recorder telemetry w cause) report_outcome.
Proof.
  intros Hw Hc. apply classify_curated in Hc. unfold reportFailure.
  set (f := classify cause) in *. clearbody f.
  assert (follows (if IsNotFound cause then clear_ReadyReplicas w else w)) as Hw1.
  { case_match; [|done]. apply follows_status; [done|apply good_cleared, Hw]. }
  eapply safe_seq; [by apply set_failure_conditions_safe; [|repeat constructor|]|]. intros w2 Hw2.
  eapply safe_seq; [by apply set_gate_condition_safe|]. intros w3 Hw3.
  eapply safe_seq; [by apply set_gate_condition_safe|]. intros w4 Hw4.
  eapply safe_seq; [by apply set_gate_condition_safe|]. intros w5 Hw5.
  eapply safe_seq; [apply patchStatus_safe, follows_status; [done|apply good_failed, Hw5]|].
  intros [w6 [err|changed]] [Hw6 He6]; [by right; split; [|exists err]|].
  destruct (follows_ns _ Hw6) as [Hns6 Hn6].
  eapply safe_seq with (Q1 := λ _, True); [by destruct (changed && recorder)|]. intros _ _.
  eapply safe_seq with (Q1 := λ _, True).
  { destruct telemetry; [|done]. split; [by eapply is_curated_reason|done]. }
  intros _ _. destruct (f_permanent f); [by left|]. by right; split; [|exists cause].
Qed.

(** ** Children *)

Lemma local_error_curated {A} (m : res A) err : local_errors m → m = Err err → curated_error err.
Proof. intros Hm ->. by destruct err. Qed.

Lemma set_controller_child ns name w o o' :
  is_child ns name o → set_controller w o = Some o' → is_child ns name o'.
Proof.
  intros (Ho & Hns & Hn) (refs & _ & ->)%set_controller_inv. unfold is_child.
  rewrite with_meta_order, obj_meta_with_meta. done.
Qed.

Lemma mutate_safe i f o Q :
  i_Mutate i = Some f → SafeMutation f →
  (∀ err, curated_error err → Q (inl err)) → (∀ o', f o = Ok o' → Q (inr o')) →
  safe R G (mutate i o) Q.
Proof.
  intros Hi Hf Herr Hok. unfold mutate. rewrite Hi. simpl.
  destruct (f o) as [o'|err|] eqn:Eo; simpl; [by apply Hok| |by apply mutation_no_panic in Eo].
  apply Herr. eapply local_error_curated; [apply mutation_errors|done].
Qed.

#[local] Opaque mutate.

Lemma Apply_safe w i :
  follows w → safe_intent i → safe R G (Apply w i) (λ r, ∀ err, r = inl err → curated_error err).
Proof.
  intros Hw Hi. destruct (follows_ns _ Hw) as [Hns Hn]. unfold Apply.
  destruct (Time_IsZero (w_DeletionTimestamp w)); [|done]. simpl negb. cbv iota.
  destruct (ValidatePlan_cases w [i]) as [Hv|Hv]; rewrite Hv; [|by intros ? [= <-]].
  apply ValidatePlan_Ok in Hv as (_ & [(object & Ei & Ho & Hons & Hon & Hid & Ha & Hm) _]%Forall_cons & _).
  unfold safe_intent in Hi. rewrite Ei in *. cbn.
  assert (is_child (w_Namespace w0) (w_Name w0) object) as Hchild by (by rewrite <-Hns, <-Hn).
  split; [by apply get_event_ok|]. intros x [Hok Herr].
  destruct (get_reply object x) as [err|current] eqn:Ex.
  - apply get_reply_error, Herr in Ex. unfold apply_create.
    destruct (IsNotFound err); [|intros ? [= <-]; by apply plain_error_curated].
    destruct (i_Absent i); [done|]. destruct (Hm eq_refl) as [f Hf]. rewrite Hf in Hi.
    eapply safe_bind, (mutate_safe i f); [done|done|by intros e He ? [= <-]|].
    intros o' Ho'. simpl. destruct (fresh_identity_kept _ _ _) eqn:Ek; simpl; [|by intros ? [= <-]].
    apply fresh_identity_kept_spec in Ek as (Hk1 & Hk2 & _).
    destruct (set_controller w o') as [o|] eqn:Es; simpl; [|by intros ? [= <-]].
    assert (is_child (w_Namespace w0) (w_Name w0) o') as Hc.
    { apply mutation_kind, same_kind_order in Ho'. split; [lia|]. split; congruence. }
    split; [by eapply set_controller_child|]. intros [e|] [_ He]; simpl; [|done].
    intros ? [= <-]. by apply plain_error_curated, He.
  - destruct (get_reply_ok _ _ _ _ Hok Ex Ho) as [Hcn Hco].
    destruct (owns w current) eqn:Eo; simpl; [|by intros ? [= <-]].
    apply andb_true_iff in Eo as [Hcns%bool_decide_eq_true _].
    assert (is_child (w_Namespace w0) (w_Name w0) current) as Hc by (split; [by rewrite Hco|split; congruence]).
    destruct (Time_IsZero _); simpl; [|by intros ? [= <-]].
    destruct (i_Absent i); simpl.
    + split; [done|]. intros [e|] [_ He]; simpl; [|done]. destruct (IsNotFound e); [done|].
      intros ? [= <-]. by apply plain_error_curated, He.
    + unfold apply_patch. destruct (Hm eq_refl) as [f Hf]. rewrite Hf in Hi.
      eapply safe_bind, (mutate_safe i f); [done|done|by intros e He ? [= <-]|].
      intros o' Ho'. simpl. destruct (identity_kept _ _) eqn:Ek; simpl; [|by intros ? [= <-]].
      apply identity_kept_spec in Ek as (Hk1 & Hk2 & _).
      destruct (set_controller w o') as [o|] eqn:Es; simpl; [|by intros ? [= <-]].
      assert (is_child (w_Namespace w0) (w_Name w0) o') as Hc'.
      { apply mutation_kind, same_kind_order in Ho'. destruct Hc as (?&?&?). split; [lia|]. split; congruence. }
      destruct (DeepEqual current o); simpl; [done|].
      split; [split; [done|by eapply set_controller_child]|]. intros [e|] [_ He]; simpl; [|done].
      intros ? [= <-]. by apply plain_error_curated, He.
Qed.

End Safety.

(** ** Reconcile *)

Section Reconcile.
Context `{ConditionsLaws, ApiErrors, UnstructuredHelpersLaws, OwnerHelpers}.
Context `{SemanticDeepEqual AIWorkloadStatus, SemanticDeepEqual Object}.
Context (K : knowledge) `{!Preserved K}.
Context (r : AIWorkloadReconciler).
Context (Hlookup : ∀ lookup, r_CapabilityLookup (r_gates r) = Some lookup → lookup_ok K lookup).
Context (Hbuild : ∀ build, r_Builder r = Some build → PlanBuilder build).

#[local] Opaque patchStatus validateTenant validateExternalSecrets validateExposure reportFailure
  observeExposure observeAndReportStatus Apply.

Lemma run_gates_safe w0 w :
  follows K w0 w →
  safe (api_contract K) (event_ok K (w_Namespace w0) (w_Name w0)) (run_gates r w)
    (λ '(w', out), follows K w0 w' ∧
       match out with
       | inl err => curated_error err
       | inr (_, exposure) => exposure_ok w0 exposure
       end).
Proof.
  intros Hw. unfold run_gates.
  eapply safe_seq; [by apply validateTenant_safe|]. intros [w1 [err|]] [Hw1 He1]; [by split; [|apply He1]|].
  eapply safe_seq; [by apply patchStatus_safe|]. intros [w2 [err|b]] [Hw2 He2].
  { split; [done|]. by apply plain_error_curated, He2. }
  eapply safe_seq; [by apply validateExternalSecrets_safe|]. intros [w3 [err|ext]] [Hw3 He3]; [by split; [|apply He3]|].
  eapply safe_seq; [by apply patchStatus_safe|]. intros [w4 [err|b4]] [Hw4 He4].
  { split; [done|]. by apply plain_error_curated, He4. }
  eapply safe_seq; [by apply validateExposure_safe|]. intros [w5 [err|st]] [[Hw5 He5] Hst]; [by split; [|apply He5]|].
  eapply safe_seq; [by apply patchStatus_safe|]. intros [w6 [err|b6]] [Hw6 He6].
  { split; [done|]. by apply plain_error_curated, He6. }
  split; [done|]. by apply Hst.
Qed.

Lemma apply_plan_safe w0 w plan :
  follows K w0 w → Forall safe_intent plan →
  safe (api_contract K) (event_ok K (w_Namespace w0) (w_Name w0)) (apply_plan r w plan)
    (λ out, ∀ err, out = Some err → curated_error err).
Proof.
  intros Hw. induction plan as [|i plan IH]; simpl; [done|]. intros [Hi Hp]%Forall_cons.
  eapply safe_seq; [by apply Apply_safe|]. intros [err|o] He.
  - eapply safe_seq with (Q1 := λ _, True); [by destruct (r_Telemetry r)|]. intros _ _.
    intros ? [= <-]. by apply He.
  - eapply safe_seq with (Q1 := λ _, True); [by destruct (r_Telemetry r)|]. intros _ _. by apply IH.
Qed.

#[local] Opaque apply_plan.

Lemma reconcile_children_safe build w0 w external exposure :
  follows K w0 w → PlanBuilder build →
  safe (api_contract K) (event_ok K (w_Namespace w0) (w_Name w0)) (reconcile_children r build w external exposure)
    (λ out, ∀ err, out = Some err → curated_error err).
Proof.
  intros Hw Hb. destruct (follows_ns _ _ _ Hw) as [Hns Hn]. unfold reconcile_children.
  destruct (build_plan _ _ _ _) as [plan|err|] eqn:Ep; simpl.
  - apply build_plan_intents in Ep as (_ & _ & Hs); [|done].
    eapply safe_seq; [by apply apply_plan_safe|]. intros [err|] He; simpl; [intros ? [= <-]; by apply He|].
    unfold validateSecretReferences. rewrite Hns. apply validate_secrets_safe.
  - intros ? [= <-]. eapply local_error_curated; [by apply build_plan_errors|done].
  - by apply build_plan_no_panic in Ep.
Qed.

(** How a reconciliation may end. *)
Definition reconcile_outcome (out : Result * option error) : Prop :=
  (out.2 = None ∧ RequeueAfter out.1 ∈ [0; 2 * Second; 15 * Second; Minute]%Z) ∨
  (out.1 = no_requeue ∧
   ((∃ cause, out.2 = Some (SafeRetry cause (retry_category cause))) ∨
    out.2 = Some (NewError "watch namespaces are required"))).

Lemma report_reconcile_outcome out : report_outcome out → reconcile_outcome out.
Proof.
  intros [[Ho1 Ho2]|[Ho1 Ho2]]; [left; rewrite Ho1|right; auto].
  split; [done|]. apply list_elem_of_In. simpl. auto.
Qed.

Lemma done_outcome delay :
  exposure_delay delay → reconcile_outcome ({| RequeueAfter := delay |}, None).
Proof. intros Hd. left. split; [done|]. simpl. apply list_elem_of_In.
  destruct Hd as [-> |[-> | ->]]; simpl; auto. Qed.

Lemma report_status_safe w0 w st :
  follows K w0 w → exposure_ok w0 st →
  safe (api_contract K) (event_ok K (w_Namespace w0) (w_Name w0)) (report_status r w st) reconcile_outcome.
Proof.
  intros Hw Hst. unfold report_status.
  eapply safe_seq; [by apply observeExposure_safe|]. intros [w1 [err|delay]] [[Hw1 He1] Hd].
  { eapply safe_mono; [apply reportFailure_safe; [done..|by apply He1]|apply report_reconcile_outcome]. }
  eapply safe_seq; [by apply patchStatus_safe|]. intros [w2 [err|b]] [Hw2 He2].
  { eapply safe_mono; [apply reportFailure_safe; [done..|by apply plain_error_curated, He2]|apply report_reconcile_outcome]. }
  eapply safe_seq; [by apply observeAndReportStatus_safe|]. intros [w3 [err|]] [Hw3 He3].
  { eapply safe_mono; [apply reportFailure_safe; [done..|by apply plain_error_curated, He3]|apply report_reconcile_outcome]. }
  by apply done_outcome, Hd.
Qed.

#[local] Opaque run_gates reconcile_children report_status.

Lemma no_requeue_outcome : reconcile_outcome (no_requeue, None).
Proof. apply done_outcome. by left. Qed.

Lemma Reconcile_safe ns name :
  safe (api_contract K) (event_ok K ns name) (Reconcile r ns name) reconcile_outcome.
Proof.
  unfold Reconcile. case_bool_decide; [by right; split; [|right]|].
  destruct (watchesNamespace r ns); simpl; [|apply no_requeue_outcome].
  split; [done|]. intros [err|w] [Hok Herr].
  { destruct (IsNotFound err); [apply no_requeue_outcome|]. right. split; [done|]. left. by exists err. }
  destruct (r_Builder r) as [build|] eqn:Eb; [|apply no_requeue_outcome].
  destruct (Time_IsZero _); simpl; [|apply no_requeue_outcome].
  destruct (Hok w eq_refl) as (<- & <- & Hk).
  assert (follows K w w) as Hw by done.
  eapply safe_seq; [by apply run_gates_safe|]. intros [w1 [err|[ext st]]] [Hw1 Hg].
  { eapply safe_mono; [by apply reportFailure_safe|apply report_reconcile_outcome]. }
  eapply safe_seq; [by apply reconcile_children_safe; [|apply Hbuild]|]. intros [err|] Hc; simpl.
  - destruct (errors_Is err ErrChildDeleting).
    { left. split; [done|]. simpl. set_solver. }
    eapply safe_mono; [apply reportFailure_safe; [done..|by apply Hc]|apply report_reconcile_outcome].
  - by apply report_status_safe.
Qed.

End Reconcile.
