(* ===== verification/Gating.v ===== *)
(** * The gates come first

    No child is written before the tenant profile, the external Secrets and the Gateway the
    workload names have been read and found in order: facts about the calls before a write. *)
From S2P Require Import Prelude Errors Kube Api Naming Intent ServiceIntent Route Builder Effects Engine Capability.
From S2P Require Import Conditions Status Failures Gates Controller Contract Safety.

Section Checked.
Context `{Conditions, ApiErrors, UnstructuredHelpers}.

(** ** What the gates have established, read off the history *)

Definition tenant_checked (w : AIWorkload) (h : history) : Prop :=
  sp_Tenant (w_Spec w) = "" ∨
  ∃ via profile,
    Call (EGetConfigMap via (w_Namespace w) tenantProfileConfigMap) (inr profile) ∈ h ∧
    check_tenant_profile (sp_Tenant (w_Spec w)) (cm_Data profile) = None.

Definition reference_checked (ns : string) (direct : list string) (h : history) (x : ExternalSecretReference) : Prop :=
  (er_TargetSecret x ∉ direct) ∧
  ∃ via externalSecret storeName store target,
    Call (EGetUnstructured via externalSecretGVK ns (er_ExternalSecret x)) (inr externalSecret) ∈ h ∧
    selected_store externalSecret = inr storeName ∧
    Call (EGetUnstructured via secretStoreGVK ns storeName) (inr store) ∈ h ∧
    readyCondition store = true ∧
    checked_target externalSecret x = inr (er_TargetSecret x) ∧
    Call (EGetSecretMetadata ns (er_TargetSecret x)) (inr target) ∈ h.

Definition externals_checked (w : AIWorkload) (h : history) : Prop :=
  Forall (reference_checked (w_Namespace w) (sp_SecretRefs (w_Spec w)) h) (sp_ExternalSecrets (w_Spec w)).

Definition gateway_checked (w : AIWorkload) (h : history) : Prop :=
  HTTPRouteEnabled (Some w) = true →
  ServiceEnabled (Some w) = true ∧ NetworkEnabled (Some w) = false ∧
  ∃ exposure via gateway,
    sp_Exposure (w_Spec w) = Some exposure ∧
    Call (EGetUnstructured via gatewayGVK (w_Namespace w) (ex_Gateway exposure)) (inr gateway) ∈ h ∧
    hasTrueCondition gateway "Programmed" = true.

(** They depend on the workload's identity and spec, and stay true as the history grows. *)
Lemma prefix_elem_of {A} (x : A) h h' : prefix h h' → x ∈ h → x ∈ h'.
Proof. intros [k ->]. set_solver. Qed.

Lemma tenant_checked_mono w w' h h' :
  same_workload w w' → prefix h h' → tenant_checked w h → tenant_checked w' h'.
Proof.
  intros (Hs & Hns & _) Hp [?|(via & profile & ? & ?)]; [left; congruence|].
  right. exists via, profile. rewrite Hs, Hns. eauto using prefix_elem_of.
Qed.

Lemma reference_checked_mono ns direct h h' x :
  prefix h h' → reference_checked ns direct h x → reference_checked ns direct h' x.
Proof. intros Hp (? & via & ? & ? & ? & ? & ? & ? & ? & ? & ? & ?). split; [done|]. eauto 20 using prefix_elem_of. Qed.

Lemma externals_checked_mono w w' h h' :
  same_workload w w' → prefix h h' → externals_checked w h → externals_checked w' h'.
Proof.
  unfold externals_checked. intros (-> & -> & _) Hp. intros Hc. eapply Forall_impl; [done|].
  intros x. by apply reference_checked_mono.
Qed.

Lemma HTTPRouteEnabled_spec_eq w w' : w_Spec w' = w_Spec w → HTTPRouteEnabled (Some w') = HTTPRouteEnabled (Some w).
Proof. unfold HTTPRouteEnabled. by intros ->. Qed.

Lemma HTTPRouteEnabled_same w w' : same_workload w w' → HTTPRouteEnabled (Some w') = HTTPRouteEnabled (Some w).
Proof. intros [Hs _]. by apply HTTPRouteEnabled_spec_eq. Qed.

Lemma gateway_checked_mono w w' h h' :
  same_workload w w' → prefix h h' → gateway_checked w h → gateway_checked w' h'.
Proof.
  intros (Hs & Hns & _) Hp Hc He. rewrite (HTTPRouteEnabled_spec_eq w w') in He by done.
  destruct (Hc He) as (? & ? & exposure & via & gateway & ? & ? & ?).
  unfold ServiceEnabled, NetworkEnabled. rewrite Hs, Hns. split; [done|]. split; [done|].
  exists exposure, via, gateway. eauto using prefix_elem_of.
Qed.

(** ** The gates establish it *)

Context (R : call event answer → Prop).
Let anything := λ (_ : history) (_ : event), True.

Lemma elem_of_last {A} (x : A) h : x ∈ h ++ [x].
Proof. set_solver. Qed.

Lemma validateTenant_checks g w h :
  wp R anything h (validateTenant g w) (λ h' '(_, err), err = None → tenant_checked w h').
Proof.
  unfold validateTenant. case_bool_decide; [by left|]. simpl. split; [done|].
  intros [err|profile] _; [by destruct (IsNotFound err)|].
  destruct (check_tenant_profile _ _) as [err|] eqn:E; [done|].
  simpl. split; [done|]. intros t _ _. right.
  exists (default ClientReader (r_TenantReader g)), profile. split; [|done]. set_solver.
Qed.

Lemma checked_target_inv es x target :
  checked_target es x = inr target → target = er_TargetSecret x ∧ readyCondition es = true.
Proof.
  unfold checked_target. destruct (NestedString _ _) as [[name found]|]; [|done].
  destruct (bool_decide (_ = er_TargetSecret x)) eqn:E; simpl; [|done].
  apply bool_decide_eq_true in E. destruct (readyCondition es); simpl; [|done]. intros [= <-]. done.
Qed.

Lemma resolve_reference_checks via ns direct x h :
  wp R anything h (resolve_reference via ns direct x)
    (λ h' out, prefix h h' ∧ ∀ y, out = inr y → reference_checked ns direct h' x).
Proof.
  unfold resolve_reference. case_bool_decide; [by split|].
  simpl. split; [done|]. intros [err|es] _.
  { destruct (IsNotFound err); (split; [by apply prefix_app_r|done]). }
  destruct (selected_store es) as [err|store] eqn:Es; [split; [by apply prefix_app_r|done]|].
  simpl. split; [done|]. intros [err|st] _.
  { destruct (IsNotFound err); (split; [by rewrite <-app_assoc; apply prefix_app_r|done]). }
  destruct (readyCondition st) eqn:Er; simpl; [|split; [by rewrite <-app_assoc; apply prefix_app_r|done]].
  destruct (checked_target es x) as [err|target] eqn:Et; [split; [by rewrite <-app_assoc; apply prefix_app_r|done]|].
  simpl. split; [done|]. intros [err|m] _; rewrite <-!app_assoc.
  { destruct (IsNotFound err); (split; [by apply prefix_app_r|done]). }
  split; [by apply prefix_app_r|]. intros y _. split; [done|].
  apply checked_target_inv in Et as Ht. destruct Ht as [-> _].
  exists via, es, store, st, m. split_and!; try done; set_solver.
Qed.

Lemma resolve_references_checks via ns direct references resolved h :
  wp R anything h (resolve_references via ns direct references resolved)
    (λ h' out, prefix h h' ∧ ∀ y, out = inr y → Forall (reference_checked ns direct h') references).
Proof.
  revert resolved h. induction references as [|x references IH]; intros resolved h; simpl; [by split|].
  eapply wp_seq; [apply resolve_reference_checks|]. intros h1 [err|y] [Hp Hx]; [by split|].
  eapply wp_mono; [apply IH|]. intros h2 out [Hp2 Hrs]. split; [by etrans|].
  intros y2 ->. constructor; [|by eapply Hrs]. eapply reference_checked_mono; [done|]. by eapply Hx.
Qed.

Lemma wp_anything {A} (t : program A) h : wp R anything h t (λ _ _, True).
Proof. revert h. induction t as [a|e k IH]; intros h; simpl; [done|]. split; auto. done. Qed.

Lemma validateExternalSecrets_checks g w h :
  wp R anything h (validateExternalSecrets g w) (λ h' '(_, out), ∀ y, out = inr y → externals_checked w h').
Proof.
  unfold validateExternalSecrets. case_bool_decide as He.
  { intros y _. unfold externals_checked. by destruct (sp_ExternalSecrets (w_Spec w)). }
  destruct (r_CapabilityLookup g) as [lookup|]; [|done]. cbn [RequirementFor].
  eapply wp_seq; [apply wp_anything|]. intros h1 [rq st err] _. destruct st; simpl; try done.
  eapply wp_seq; [apply resolve_references_checks|]. intros h2 [err'|resolved] [_ Hr]; [done|].
  simpl. split; [done|]. intros t _ y _. unfold externals_checked. eapply Forall_impl; [by eapply Hr|].
  intros x. apply reference_checked_mono. by apply prefix_app_r.
Qed.

Lemma validate_gateway_checks g w h :
  wp R anything h (validate_gateway g w) (λ h' err, err = None → gateway_checked w h').
Proof.
  unfold validate_gateway. destruct (ServiceEnabled (Some w)) eqn:Es; simpl; [|done].
  destruct (NetworkEnabled (Some w)) eqn:En; simpl; [done|].
  destruct (sp_Exposure (w_Spec w)) as [e|] eqn:Ee; simpl; [|by split; [|intros []]].
  split; [done|]. intros [err|gateway] _; [by destruct (IsNotFound err)|].
  destruct (hasTrueCondition _ _) eqn:Ec; simpl; [|done]. intros _ _.
  split; [done|]. split; [done|]. exists e, (default ClientReader (r_GatewayReader g)), gateway.
  split; [done|]. split; [set_solver|done].
Qed.

Lemma validateExposure_checks g w h :
  wp R anything h (validateExposure g w) (λ h' '(_, out), ∀ y, out = inr y → gateway_checked w h').
Proof.
  unfold validateExposure.
  destruct (HTTPRouteEnabled (Some w)) eqn:Hr; simpl.
  - destruct (r_CapabilityLookup g) as [lookup|]; [|done]. cbn [RequirementFor].
    eapply wp_seq; [apply wp_anything|]. intros h1 [rq st err] _. destruct st; simpl; try done.
    eapply wp_seq; [apply validate_gateway_checks|]. intros h2 [err'|] Hg; [done|]. intros y _. by apply Hg.
  - eapply wp_mono with (Q := λ _ _, True); [apply wp_anything|].
    intros h' [w' out] _ y _ He. congruence.
Qed.

(** ** The gates write no child *)

Let silent (e : event) : Prop := is_child_write e = false.

Lemma silent_seq {A B} (t : program A) (f : A → program B) :
  safe R silent t (λ _, True) → (∀ a, safe R silent (f a) (λ _, True)) → safe R silent (bind f t) (λ _, True).
Proof. intros Ht Hf. by eapply safe_seq; [|intros a _]. Qed.

Context (g : gate_config)
  (Hlookup : ∀ lookup resource, r_CapabilityLookup g = Some lookup →
    safe R is_discovery (lookup resource) (λ _, True)).

Ltac silent_step :=
  match goal with
  | |- safe _ _ (bind _ _) _ => apply silent_seq; [|intros ?]
  | |- safe _ _ (_ ≫= _) _ => apply silent_seq; [|intros ?]
  | |- safe _ _ (if ?b then _ else _) _ => destruct b
  | |- safe _ _ (match ?x with _ => _ end) _ => destruct x eqn:?
  | |- safe _ _ (Ret _) _ => done
  | |- safe _ _ _ _ => solve [by split]
  end.

Lemma set_condition_silent typ status reason message w :
  safe R silent (set_condition typ status reason message w) (λ _, True).
Proof. by split. Qed.

Lemma patchStatus_silent `{SemanticDeepEqual AIWorkloadStatus} before after :
  safe R silent (patchStatus before after) (λ _, True).
Proof. unfold patchStatus. repeat (silent_step; auto using set_condition_silent). Qed.

Lemma validateTenant_silent w : safe R silent (validateTenant g w) (λ _, True).
Proof. unfold validateTenant. repeat (silent_step; auto using set_condition_silent). Qed.

Lemma Detect_silent lookup requirement :
  (∀ resource, safe R is_discovery (lookup resource) (λ _, True)) →
  safe R silent (Detect lookup requirement) (λ _, True).
Proof.
  intros Hl. unfold Detect. generalize (rq_Resources requirement). intros rs.
  induction rs as [|resource rs IH]; simpl; [done|]. apply silent_seq.
  - eapply safe_impl; [by apply Hl|done|by intros []|done].
  - by intros [err|[]].
Qed.

Lemma resolve_references_silent via ns direct references resolved :
  safe R silent (resolve_references via ns direct references resolved) (λ _, True).
Proof.
  revert resolved. induction references as [|x references IH]; intros resolved; simpl; [done|].
  apply silent_seq; [|by intros [err|y]].
  unfold resolve_reference. repeat silent_step.
Qed.

Lemma validateExternalSecrets_silent w : safe R silent (validateExternalSecrets g w) (λ _, True).
Proof.
  unfold validateExternalSecrets. case_bool_decide; [done|].
  destruct (r_CapabilityLookup g) as [lookup|]; [|done].
  pose proof (λ resource, Hlookup lookup resource eq_refl) as Hl.
  repeat (silent_step; auto using Detect_silent, resolve_references_silent).
Qed.

Lemma validate_gateway_silent w : safe R silent (validate_gateway g w) (λ _, True).
Proof. unfold validate_gateway, or_panic. repeat silent_step. Qed.

Lemma validateExposure_silent w : safe R silent (validateExposure g w) (λ _, True).
Proof.
  unfold validateExposure. destruct (_ && _); [done|].
  destruct (r_CapabilityLookup g) as [lookup|]; [|done].
  pose proof (λ resource, Hlookup lookup resource eq_refl) as Hl.
  repeat (silent_step; auto using Detect_silent, validate_gateway_silent).
Qed.

(** ** Nor do the parts that observe and report *)

Lemma validate_secrets_silent ns names : safe R silent (validate_secrets ns names) (λ _, True).
Proof.
  induction names as [|name names IH]; simpl; [done|]. split; [done|].
  intros [err|m] _; [by destruct (IsNotFound err)|done].
Qed.

Lemma observeExposure_silent w st : safe R silent (observeExposure g w st) (λ _, True).
Proof.
  unfold observeExposure, setExposureCondition, or_panic.
  repeat (silent_step; auto using set_condition_silent).
Qed.

Lemma observeAutoscaling_silent w : safe R silent (observeAutoscaling w) (λ _, True).
Proof.
  unfold observeAutoscaling, setAutoscalingCondition. repeat (silent_step; auto using set_condition_silent).
Qed.

Lemma observeAvailability_silent w : safe R silent (observeAvailability w) (λ _, True).
Proof.
  unfold observeAvailability, setAvailabilityCondition, pure_value.
  repeat (silent_step; auto using set_condition_silent).
Qed.

Lemma observeAndReportStatus_silent `{SemanticDeepEqual AIWorkloadStatus} recorder w :
  safe R silent (observeAndReportStatus recorder w) (λ _, True).
Proof.
  unfold observeAndReportStatus, setAssessmentConditions.
  repeat (silent_step; auto using set_condition_silent, observeAutoscaling_silent, observeAvailability_silent,
    patchStatus_silent).
Qed.

End Checked.

(** ** The reconciler *)

Section Gated.
Context `{ConditionsLaws, ApiErrors, UnstructuredHelpersLaws, OwnerHelpers}.
Context `{SemanticDeepEqual AIWorkloadStatus, SemanticDeepEqual Object}.
Context (r : AIWorkloadReconciler).

Let K := any_text.
Let R := api_contract K.
Let silent (e : event) : Prop := is_child_write e = false.

Context (Hlookup : ∀ lookup, r_CapabilityLookup (r_gates r) = Some lookup → lookup_ok K lookup).

Lemma lookup_silent lookup resource :
  r_CapabilityLookup (r_gates r) = Some lookup → safe R is_discovery (lookup resource) (λ _, True).
Proof. intros Hl. eapply safe_impl; [by apply Hlookup|done|done|done]. Qed.

(** A gate stage: silent, safe, and with a fact on the history. *)
Lemma stage {A} w (t : program A) Q Q' h :
  safe R silent t (λ _, True) → safe R (event_ok K (w_Namespace w) (w_Name w)) t Q →
  wp R (λ _ _, True) h t Q' →
  wp R (λ _ e, silent e) h t (λ h' a, prefix h h' ∧ Q a ∧ Q' h' a).
Proof.
  intros Hs Ht Hw.
  pose proof (safe_wp t _ (λ _ e, silent e) h Hs (λ _ _ _ He, He)) as Hwp1.
  pose proof (safe_wp t _ (λ _ _, True) h Ht (λ _ _ _ _, I)) as Hwp2.
  eapply wp_impl; [eapply wp_mono; [exact (wp_and _ _ _ _ Hwp1 (wp_and _ _ _ _ Hwp2 Hw))|]|done|naive_solver].
  naive_solver.
Qed.

(** What holds of the history once the gates have let [w] through. *)
Definition gates_passed (w : AIWorkload) (h : history) : Prop :=
  tenant_checked w h ∧ externals_checked w h ∧ gateway_checked w h.

Lemma gates_passed_mono w h h' : prefix h h' → gates_passed w h → gates_passed w h'.
Proof.
  intros Hp (?&?&?). split_and!;
    eauto using tenant_checked_mono, externals_checked_mono, gateway_checked_mono with awcp.
Qed.

#[local] Ltac prefix_trans := repeat first [done | etrans; [eassumption|]].

Lemma run_gates_passed w h :
  wp R (λ _ e, silent e) h (run_gates r w)
    (λ h' '(_, out), prefix h h' ∧ ∀ y, out = inr y → gates_passed w h').
Proof.
  assert (follows K w w) as Hw by done.
  assert (∀ w', same_workload w w' → same_workload w' w) as Hsym by (unfold same_workload; naive_solver).
  unfold run_gates. eapply wp_seq.
  { apply (stage w); [apply validateTenant_silent|by apply validateTenant_safe|apply validateTenant_checks]. }
  intros h1 [w1 [err|]] (Hp1 & [Hw1 _] & Ht); [by split|]. simpl in Hw1.
  eapply wp_seq.
  { apply (stage w); [apply patchStatus_silent|by apply patchStatus_safe|apply wp_anything]. }
  intros h2 [w2 [err|b2]] (Hp2 & [Hw2 _] & _); [by split; [prefix_trans|]|].
  eapply wp_seq.
  { apply (stage w); [apply validateExternalSecrets_silent, lookup_silent|by apply validateExternalSecrets_safe|
      apply validateExternalSecrets_checks]. }
  intros h3 [w3 [err|ext]] (Hp3 & [Hw3 _] & He); [by split; [prefix_trans|]|]. simpl in Hw3.
  eapply wp_seq.
  { apply (stage w); [apply patchStatus_silent|by apply patchStatus_safe|apply wp_anything]. }
  intros h4 [w4 [err|b4]] (Hp4 & [Hw4 _] & _); [by split; [prefix_trans|]|].
  eapply wp_seq.
  { apply (stage w); [apply validateExposure_silent, lookup_silent|by apply validateExposure_safe|
      apply validateExposure_checks]. }
  intros h5 [w5 [err|st]] (Hp5 & [[Hw5 _] _] & Hg); [by split; [prefix_trans|]|]. simpl in Hw5.
  eapply wp_seq.
  { apply (stage w); [apply patchStatus_silent|by apply patchStatus_safe|apply wp_anything]. }
  intros h6 [w6 [err|b6]] (Hp6 & _ & _); (split; [prefix_trans|done || intros _ _]).
  split_and!.
  - eapply (tenant_checked_mono w w _ _); [done| |by apply Ht]. prefix_trans.
  - eapply (externals_checked_mono w2 w); [apply Hsym, Hw2| |by eapply He]. prefix_trans.
  - eapply (gateway_checked_mono w4 w); [apply Hsym, Hw4| |by eapply Hg]. prefix_trans.
Qed.

Lemma reportFailure_silent recorder telemetry w cause :
  safe R silent (reportFailure recorder telemetry w cause) (λ _, True).
Proof.
  unfold reportFailure. apply silent_seq.
  { generalize (if IsNotFound cause then clear_ReadyReplicas w else w).
    induction [conditionReady; conditionProgressing; conditionDegraded] as [|t ts IH]; intros p; simpl; [done|].
    by split. }
  intros p1. apply silent_seq; [by destruct (errors_As_Tenant cause)|].
  intros p2. apply silent_seq; [by destruct (errors_As_ExternalSecret cause)|].
  intros p3. apply silent_seq; [by destruct (errors_As_Exposure cause)|].
  intros p4. apply silent_seq; [apply patchStatus_silent|]. intros [p5 [err|changed]]; [done|].
  apply silent_seq; [by destruct (_ && _)|]. intros _.
  apply silent_seq; [by destruct telemetry|]. intros _. by destruct (f_permanent _).
Qed.

(** Once a monotone fact holds of the history, it holds at every later call. *)
Lemma wp_later {A} (I : history → Prop) (t : program A) h :
  (∀ h1 h2, prefix h1 h2 → I h1 → I h2) → I h → wp R (λ h' _, I h') h t (λ _ _, True).
Proof.
  intros Hmono. revert h. induction t as [a|e k IH]; simpl; intros h Hh; [done|].
  split; [done|]. intros x _. apply IH. eapply Hmono; [|done]. by apply prefix_app_r.
Qed.

(** The workload a reconciliation read, if it is to be reconciled, with its gates passed. *)
Definition admitted (ns name : string) (h : history) : Prop :=
  ∃ w, Call (EGetWorkload ns name) (inr w) ∈ h ∧
    Time_IsZero (w_DeletionTimestamp w) = true ∧ gates_passed w h.

Lemma admitted_mono ns name h1 h2 : prefix h1 h2 → admitted ns name h1 → admitted ns name h2.
Proof.
  intros Hp (w & Hin & Hd & Hg). exists w. eauto using prefix_elem_of, gates_passed_mono.
Qed.

Lemma Reconcile_admitted ns name :
  wp R (λ h e, is_child_write e = true → admitted ns name h) [] (Reconcile r ns name) (λ _ _, True).
Proof.
  unfold Reconcile. case_bool_decide; [done|]. destruct (watchesNamespace r ns); simpl; [|done].
  split; [done|]. intros [err|w] _; [done|]. destruct (r_Builder r) as [build|]; [|done].
  destruct (Time_IsZero _) eqn:Ed; simpl; [|done].
  set (h0 := [Call (EGetWorkload ns name) (inr w)]).
  assert (∀ (h : history) e, silent e → is_child_write e = true → admitted ns name h) as Hsilent.
  { unfold silent. congruence. }
  eapply wp_seq.
  { eapply wp_impl; [apply run_gates_passed|done|]. intros h e He. by apply Hsilent. }
  intros h1 [w1 [err|[ext st]]] [Hp Hg].
  - eapply wp_mono; [eapply safe_wp; [apply reportFailure_silent|]|done]. intros h e _ He. by apply Hsilent.
  - assert (admitted ns name h1) as Ha.
    { exists w. split; [|split; [done|by eapply Hg]]. eapply prefix_elem_of; [done|]. subst h0. set_solver. }
    eapply wp_impl; [apply (wp_later (admitted ns name)); [apply admitted_mono|done]|done|]. auto.
Qed.

End Gated.
