(* ===== verification/EngineTheorems.v ===== *)
(** * Theorems about the child engine *)
From stdpp Require Import sorting.
From S2P Require Import Prelude Errors GoStd Kube Api Naming Intent ServiceIntent Effects KubeReference Sample.
From S2P Require Import Builder Engine Cluster.

(** ** Plans *)

Lemma nodup_key_inj {A} (key : A → Z) l i j : NoDup (key <$> l) → i ∈ l → j ∈ l → key i = key j → i = j.
Proof.
  induction l as [|k l IH]; [set_solver|]. rewrite fmap_cons. intros [Hk Hnd]%NoDup_cons.
  intros [->|Hi]%elem_of_cons [->|Hj]%elem_of_cons Hij; [done| | |auto]; destruct Hk.
  - rewrite Hij. by apply list_elem_of_fmap_2.
  - rewrite <-Hij. by apply list_elem_of_fmap_2.
Qed.

(** C16. [ValidatePlan] accepts a plan exactly when the owner is identified, every intent targets a
    fresh object of a managed kind with the owner's namespace and child name, absent intents are of
    optional kinds, present ones have a mutation, and no kind occurs twice; its result is then the
    one arrangement of the plan in dependency order. *)
Theorem ValidatePlan_spec p plan ordered :
  ValidatePlan p plan = Ok ordered ↔
  (w_UID p ≠ "" ∧ w_Namespace p ≠ "" ∧ w_Name p ≠ "") ∧ Forall (valid_intent p) plan ∧
  NoDup (childOrder ∘ i_Object <$> plan) ∧
  ordered ≡ₚ plan ∧ StronglySorted (λ i j, childOrder (i_Object i) ≤ childOrder (i_Object j))%Z ordered.
Proof.
  set (key := childOrder ∘ i_Object).
  assert (∀ l, Sorted (λ i j, key i ≤ key j)%Z l → StronglySorted (λ i j, key i ≤ key j)%Z l) as Hss.
  { intros l. apply Sorted_StronglySorted. intros i j k ? ?. lia. }
  split.
  - intros Hv. destruct (ValidatePlan_sorted _ _ _ Hv) as [Hp Hs].
    apply ValidatePlan_Ok in Hv as (? & ? & ? & _). auto 10.
  - intros (Ho & Hv & Hnd & Hp & Hs). apply ValidatePlan_Ok. split; [done|]. split; [done|]. split; [done|].
    apply (StronglySorted_unique_strong (λ i j, key i ≤ key j)%Z); [|done| |].
    + intros i j Hi Hj ? ?. apply (nodup_key_inj key plan); [done|by rewrite <-Hp| |lia].
      by rewrite <-(SliceStable_perm (λ i j, key i <? key j)%Z).
    + apply Hss, SliceStable_sorted.
    + rewrite Hp. symmetry. apply SliceStable_perm.
Qed.

(** A plan that [ValidatePlan] does not accept is refused with [ErrInvalidPlan], and never with a
    panic. *)
Theorem ValidatePlan_refuses p plan :
  (∃ ordered, ValidatePlan p plan = Ok ordered) ∨ ValidatePlan p plan = Err (Sentinel ErrInvalidPlan).
Proof. destruct (ValidatePlan_cases p plan); eauto. Qed.

(** ** Apply *)

Section Apply.
Context `{ApiErrors, OwnerHelpers, SemanticDeepEqual Object}.

(** C9. The engine writes a child only right after reading it: it creates one the API did not have,
    and it deletes or patches only the object it read, when its controller reference names this
    owner and it is not being deleted; a delete carries the UID and resource version it read. *)
Theorem Apply_writes_only_owned p i h e :
  intent_total i → issues (Apply p i) h e → is_child_write e = true →
  ∃ object, i_Object i = Pointer object ∧
    ((∃ err o, answered h object (inl err) ∧ IsNotFound err = true ∧
        i_Absent i = false ∧ e = ECreate o) ∨
     (∃ current, answered h object (inr current) ∧ owns p current = true ∧
        Time_IsZero (om_DeletionTimestamp (obj_meta current)) = true ∧
        ((i_Absent i = true ∧
          e = EDelete current (om_UID (obj_meta current)) (om_ResourceVersion (obj_meta current))) ∨
         (i_Absent i = false ∧ ∃ after, e = EPatch current after)))).
Proof.
  intros Ht Hi Hw. apply Apply_issues in Hi; [|done]. destruct Hi.
  - by destruct object.
  - exists object. split; [done|]. left. exists err, o. split; [by exists [], x|done].
  - exists object. split; [done|]. right. exists current. split; [by exists [], x|auto].
  - exists object. split; [done|]. right. exists before. split; [by exists [], x|]. eauto 10.
Qed.

(** One [Apply] makes at most two calls: a read of its target, then at most one write, and no
    write without the read.  It never panics. *)
Theorem Apply_one_write p i h e :
  intent_total i → issues (Apply p i) h e →
  e ≠ EPanic ∧ (length h ≤ 1)%nat ∧ (is_child_write e = true ↔ length h = 1%nat).
Proof.
  intros Ht Hi. apply Apply_issues in Hi; [|done].
  destruct Hi; subst; simpl; (split; [|split; [lia|]]); try done.
  all: by destruct object.
Qed.

End Apply.

Section Owned.
Context `{ApiErrors, OwnerHelpersLaws, SemanticDeepEqual Object}.

(** C15. Whatever the mutation does, the object the engine sends is a child of this owner with the
    target's name: its controller reference names the owner, and a patched object keeps the name,
    namespace, UID, resource version, finalizers and deletion mark of the object it was made from. *)
Theorem Apply_keeps_identity p i h e :
  intent_total i → issues (Apply p i) h e →
  match e with
  | ECreate o =>
      owns p o = true ∧ om_Name (obj_meta o) = ChildName (w_Name p) ∧ om_UID (obj_meta o) = "" ∧
      om_ResourceVersion (obj_meta o) = "" ∧ om_Finalizers (obj_meta o) = [] ∧
      om_DeletionTimestamp (obj_meta o) = None
  | EPatch before after =>
      owns p after = true ∧ om_Name (obj_meta after) = om_Name (obj_meta before) ∧
      om_Namespace (obj_meta after) = om_Namespace (obj_meta before) ∧
      om_UID (obj_meta after) = om_UID (obj_meta before) ∧
      om_ResourceVersion (obj_meta after) = om_ResourceVersion (obj_meta before) ∧
      om_Finalizers (obj_meta after) = om_Finalizers (obj_meta before) ∧
      om_DeletionTimestamp (obj_meta after) = om_DeletionTimestamp (obj_meta before)
  | _ => True
  end.
Proof.
  intros Ht Hi. pose proof Hi as Hv. apply Apply_issues in Hi; [|done]. destruct Hi as
    [object|object x err f mutated o Ei Ha Hf -> Hx Hn Hm Hk Hs| |object x before f mutated after Ei Ha Hf -> Hx Ho Hd Hm Hk Hs He].
  - by destruct object.
  - apply fresh_identity_kept_spec in Hk as (Hkn & Hkns & (?&?&?&?&?)%has_server_identity_spec).
    split; [by eapply set_controller_owns|].
    apply set_controller_inv in Hs as (refs & _ & ->). rewrite obj_meta_with_meta. simpl.
    split; [|done]. rewrite Hkn.
    revert Hv. unfold Apply. destruct (Time_IsZero _); simpl; [|done].
    destruct (ValidatePlan_cases p [i]) as [Hp|Hp]; rewrite Hp; [|done].
    apply ValidatePlan_Ok in Hp as (_ & [(obj & Ei' & _ & _ & Hname & _) _]%Forall_cons & _). intros _. by rewrite Ei in Ei'; simplify_eq.
  - done.
  - apply identity_kept_spec in Hk as (? & ? & ? & ? & ? & ? & ?).
    split; [|apply set_controller_inv in Hs as (refs & _ & ->); rewrite obj_meta_with_meta; simpl; auto 10].
    eapply set_controller_owns; [|done]. apply andb_true_iff in Ho as [Ho%bool_decide_eq_true _]. congruence.
Qed.

Context `{!SemanticDeepEqualLaws Object}.

(** A child the engine leaves alone: its owner's, live, and one the mutation and the controller
    reference leave semantically equal. *)
Definition settled_child (p : AIWorkload) (i : Intent) (s : Object) : Prop :=
  owns p s = true ∧ Time_IsZero (om_DeletionTimestamp (obj_meta s)) = true ∧
  ∃ f m after, i_Mutate i = Some f ∧ f s = Ok m ∧ identity_kept (obj_meta s) (obj_meta m) = true ∧
    set_controller p m = Some after ∧ DeepEqual s after = true.

Lemma apply_patch_settled p i s :
  settled_child p i s → apply_patch p i s = Ret (inr Unchanged).
Proof.
  intros (_ & _ & f & m & after & Hf & Hm & Hk & Hc & Hq).
  unfold apply_patch, mutate. rewrite Hf. simpl. rewrite Hm. simpl. by rewrite Hk, Hc, Hq.
Qed.

(** What the server stores of an object the engine wrote is such a child. *)
Lemma written_settled p i f old mutated o s :
  i_Mutate i = Some f → Mutation f → f old = Ok mutated → set_controller p mutated = Some o →
  om_Namespace (obj_meta mutated) = w_Namespace p →
  Time_IsZero (om_DeletionTimestamp (obj_meta mutated)) = true → stored o s → settled_child p i s.
Proof.
  intros Hf Hmf Hm Hs Hmn Hd (Hacc & Hu & Hr & _ & Hns & Hl & Han & Hor & Hdt).
  pose proof (set_controller_inv _ _ _ Hs) as (refs & _ & ->). rewrite obj_meta_with_meta in *. simpl in *.
  split; [|split; [by rewrite Hdt|exists f, s, s; split; [done|split; [|split; [|split; [|apply DeepEqual_refl]]]]]].
  - rewrite <-(set_controller_owns p mutated _ Hmn Hs). apply owns_ext; by rewrite obj_meta_with_meta.
  - apply (mutation_settles old mutated s Hm); [|by eapply accepted_with_meta]. by split_and!.
  - by apply identity_kept_spec.
  - eapply set_controller_settled; [done|..]; by rewrite obj_meta_with_meta.
Qed.

(** The object the engine sends is what the mutation made, with the controller reference; the owner
    is live and the intent valid. *)
Lemma written_made p i h e o :
  intent_total i → issues (Apply p i) h e → (e = ECreate o ∨ ∃ before, e = EPatch before o) →
  ∃ f old mutated, i_Mutate i = Some f ∧ i_Absent i = false ∧ f old = Ok mutated ∧
    set_controller p mutated = Some o ∧ om_Namespace (obj_meta mutated) = w_Namespace p ∧
    Time_IsZero (om_DeletionTimestamp (obj_meta mutated)) = true ∧
    Time_IsZero (w_DeletionTimestamp p) = true ∧ ValidatePlan p [i] = Ok [i].
Proof.
  intros Ht Hi Hw. assert (Time_IsZero (w_DeletionTimestamp p) = true ∧ ValidatePlan p [i] = Ok [i]) as [Hlive Hv].
  { revert Hi. unfold Apply. destruct (Time_IsZero _); [|done]. simpl.
    destruct (ValidatePlan_cases p [i]) as [Hp|Hp]; rewrite Hp; [|done]. intros _. split; [done|].
    by rewrite <-(ValidatePlan_idemp _ _ _ Hp). }
  apply Apply_issues in Hi; [|done]. destruct Hi as
    [ob|ob ? ? f mutated o' ? Ha Hf ? ? ? Hm Hk Hs| |? ? before f mutated after ? Ha Hf ? ? Ho Hdb Hm Hk Hs _].
  - destruct ob, Hw as [|[]]; done.
  - destruct Hw as [[= ->]|[]]; [|done]. exists f, ob, mutated.
    apply fresh_identity_kept_spec in Hk as (_ & Hns & (_&_&_&_&Hdt)%has_server_identity_spec).
    rewrite Hdt, Time_IsZero_nil. by split_and!.
  - by destruct Hw as [|[]].
  - destruct Hw as [|[b [= -> ->]]]; [done|]. exists f, b, mutated.
    apply identity_kept_spec in Hk as (_ & Hns & _ & _ & _ & _ & Hdt). rewrite Hdt.
    apply andb_true_iff in Ho as [Ho%bool_decide_eq_true _]. split_and!; try done. congruence.
Qed.

(** An [Apply] that reads a settled child does nothing more. *)
Lemma reading_settled p i object s x :
  Time_IsZero (w_DeletionTimestamp p) = true → ValidatePlan p [i] = Ok [i] → i_Absent i = false →
  i_Object i = Pointer object → get_reply object x = inr s → settled_child p i s →
  returns (Apply p i) [Call (get_event object) x] (inr Unchanged).
Proof.
  intros Hlive Hv Ha Ei Hx Hs. pose proof Hs as (Ho & Hd & _). unfold Apply. rewrite Hlive. simpl.
  rewrite Hv, Ei. simpl. exists x, []. split; [done|]. rewrite Hx, Ho, Hd, Ha. simpl. by rewrite apply_patch_settled.
Qed.

(** Reconciliation settles: once the API server has stored the object the engine created or
    patched, applying the same intent again reads it, changes nothing, and reports [Unchanged]. *)
Theorem Apply_settles p i f h e o object s x :
  i_Mutate i = Some f → Mutation f → issues (Apply p i) h e →
  (e = ECreate o ∨ ∃ before, e = EPatch before o) → stored o s →
  i_Object i = Pointer object → get_reply object x = inr s →
  returns (Apply p i) [Call (get_event object) x] (inr Unchanged).
Proof.
  intros Hf Hmf Hi Hw Hst Ei Hx.
  assert (intent_total i) as Ht by (unfold intent_total; rewrite Hf; apply mutation_no_panic).
  destruct (written_made p i h e o Ht Hi Hw) as (f' & old & mutated & Hf' & Ha & Hm & Hs & Hns & Hd & Hlive & Hv).
  rewrite Hf in Hf'. injection Hf' as <-.
  apply (reading_settled p i object s x); try done. by apply (written_settled p i f old mutated o).
Qed.

(** The engine refuses to touch what it must not: a child another owner controls is an
    ownership conflict, a child being deleted is waited for, a failed read is returned, an absent
    child that is already gone is left, and nothing at all happens for an owner being deleted. *)
Theorem Apply_refusals p i object x :
  valid_owner p → valid_intent p i → i_Object i = Pointer object →
  let read := [Call (get_event object) x] in
  (Time_IsZero (w_DeletionTimestamp p) = false → returns (Apply p i) [] (inr Unchanged)) ∧
  (Time_IsZero (w_DeletionTimestamp p) = true →
   match get_reply object x with
   | inl err =>
       (IsNotFound err = false → returns (Apply p i) read (inl err)) ∧
       (IsNotFound err = true → i_Absent i = true → returns (Apply p i) read (inr Unchanged))
   | inr current =>
       (owns p current = false → returns (Apply p i) read (inl (Sentinel ErrOwnershipConflict))) ∧
       (owns p current = true → Time_IsZero (om_DeletionTimestamp (obj_meta current)) = false →
        returns (Apply p i) read (inl (Sentinel ErrChildDeleting)))
   end).
Proof.
  intros Ho Hi Ei read. unfold Apply. split; [by intros ->|]. intros ->. simpl negb. cbv iota.
  rewrite (ValidatePlan_single p i) by done. rewrite Ei. cbn.
  destruct (get_reply object x) as [err|current] eqn:Ex; split.
  - intros Hn. exists x, []. by rewrite Ex, Hn.
  - intros Hn Ha. exists x, []. rewrite Ex, Hn. unfold apply_create. by rewrite Ha.
  - intros Hc. exists x, []. by rewrite Ex, Hc.
  - intros Hc Hd. exists x, []. by rewrite Ex, Hc, Hd.
Qed.

End Owned.

(** ** Witnesses *)

Section Witnesses.
Import Ref Sample.

Definition identity := serviceAccountIntent workload.
Definition first := Apply workload identity.
Definition first_calls := calls (cluster workload) first.

Lemma identity_total : intent_total identity.
Proof. exact mutation_no_panic. Qed.

Lemma first_issued : issues first (take 1 first_calls) (nth_event first_calls 1).
Proof. apply issued. vm_compute. reflexivity. Qed.

Lemma Apply_writes_only_owned_witness :
  is_child_write (nth_event first_calls 1) = true ∧ ∃ object, i_Object identity = Pointer object.
Proof.
  assert (is_child_write (nth_event first_calls 1) = true) as Hw by (vm_compute; reflexivity).
  split; [exact Hw|].
  destruct (Apply_writes_only_owned workload identity (take 1 first_calls) _ identity_total first_issued Hw) as (object & Ho & _).
  exists object. exact Ho.
Defined.

Lemma Apply_one_write_witness : nth_event first_calls 1 ≠ EPanic ∧ (length (take 1 first_calls) ≤ 1)%nat.
Proof.
  destruct (Apply_one_write workload identity (take 1 first_calls) _ identity_total first_issued) as (Hp & Hl & _).
  split; [exact Hp|exact Hl].
Defined.

Lemma Apply_keeps_identity_witness :
  ∃ o, nth_event first_calls 1 = ECreate o ∧ owns workload o = true.
Proof.
  pose proof (Apply_keeps_identity workload identity (take 1 first_calls) _ identity_total first_issued) as Hk.
  assert (∃ o, nth_event first_calls 1 = ECreate o) as [o Ho] by (vm_compute; eexists; reflexivity).
  rewrite Ho in Hk. exists o. split; [exact Ho|apply Hk].
Defined.

Definition target : Object :=
  Eval vm_compute in OServiceAccount (new_ServiceAccount (new_meta (ChildName (w_Name workload)) ns)).

(** The ServiceAccount after the first [Apply], as the cluster stores it. *)
Definition created : Object :=
  Eval vm_compute in match nth_event first_calls 1 with ECreate o => o | _ => target end.
Definition kept : Object := Eval vm_compute in with_meta (stamp 10 (obj_meta created)) created.
Definition read_again : answer (get_event target) :=
  Eval vm_compute in match kept with OServiceAccount a => inr a | _ => inl not_found end.

Lemma kept_stored : stored created kept.
Proof.
  split; [eexists _, _; reflexivity|]. split; [discriminate|]. split; [discriminate|].
  repeat (split; [reflexivity|]). reflexivity.
Qed.

Lemma Apply_settles_witness :
  returns first [Call (get_event target) read_again] (inr Unchanged).
Proof.
  apply (Apply_settles workload identity (on_ServiceAccount (λ a, mutateServiceAccount a workload))
    (take 1 first_calls) (nth_event first_calls 1) created target kept read_again).
  - reflexivity.
  - typeclasses eauto.
  - exact first_issued.
  - left. vm_compute. reflexivity.
  - exact kept_stored.
  - reflexivity.
  - vm_compute. reflexivity.
Defined.

Lemma Apply_refusals_witness :
  returns (Apply workload (networkPolicyIntent full_workload))
    [Call (EGetNetworkPolicy ns (ChildName "sample")) (inl not_found)] (inr Unchanged).
Proof.
  destruct (Apply_refusals workload (networkPolicyIntent full_workload)
    (ONetworkPolicy (new_NetworkPolicy (new_meta (ChildName "sample") ns))) (inl not_found)) as [_ Hr].
  - repeat split; discriminate.
  - exists (ONetworkPolicy (new_NetworkPolicy (new_meta (ChildName "sample") ns))).
    split; [reflexivity|]. split; [discriminate|]. split; [reflexivity|]. split; [reflexivity|].
    split; [reflexivity|]. split; [intros _; discriminate|intros Ha; discriminate Ha].
  - reflexivity.
  - apply Hr; reflexivity.
Defined.

End Witnesses.
