(* ===== verification/ReconcileTheorems.v ===== *)
(** * Theorems about the reconciler *)
From S2P Require Import Prelude Errors GoStd Sha256 Kube Api Naming Intent Builder Effects KubeReference Sample.
From S2P Require Import Engine Capability Conditions Status Failures Gates Controller Contract Safety Gating.

Section Reconcile.
Context `{ConditionsLaws, ApiErrors, UnstructuredHelpersLaws, OwnerHelpers}.
Context `{SemanticDeepEqual AIWorkloadStatus, SemanticDeepEqual Object}.

(** A reconciler whose parts keep their promises: the lookup only discovers, the builder's plans
    never panic and keep identities. *)
Definition well_built (K : knowledge) (r : AIWorkloadReconciler) : Prop :=
  (∀ lookup, r_CapabilityLookup (r_gates r) = Some lookup → lookup_ok K lookup) ∧
  (∀ build, r_Builder r = Some build → PlanBuilder build).

(** C7. Whatever the API answers, no child is created, patched or deleted before the reconciliation has
    read the workload, found it not being deleted, and passed every gate its specification names: the
    tenant profile matches, each external Secret is ready in a ready local store with the target it
    declares, and the Gateway of an exposed workload is programmed. *)
Theorem Reconcile_admits_before_writing r ns name h e :
  well_built any_text r → Forall (api_contract any_text) h →
  issues (Reconcile r ns name) h e → is_child_write e = true →
  ∃ w, Call (EGetWorkload ns name) (inr w) ∈ h ∧ Time_IsZero (w_DeletionTimestamp w) = true ∧
    tenant_checked w h ∧ externals_checked w h ∧ gateway_checked w h.
Proof.
  intros [Hl _] Hh Hi Hw.
  exact (wp_issues [] _ _ _ _ (Reconcile_admitted r Hl ns name) Hi Hh Hw).
Qed.

(** The namespace a call is addressed to. *)
Definition call_namespace (e : event) : option string :=
  match e with
  | EGetWorkload ns _ | EGetServiceAccount ns _ | EGetDeployment ns _ | EGetService ns _
  | EGetNetworkPolicy ns _ | EGetHorizontalPodAutoscaler ns _ | EGetPodDisruptionBudget ns _
  | EGetUnstructured _ _ ns _ | EGetOther ns _ | EGetConfigMap _ ns _ | EGetSecretMetadata ns _
  | EListWorkloads ns _ => Some ns
  | ECreate o | EDelete o _ _ => Some (om_Namespace (obj_meta o))
  | EPatch _ o => Some (om_Namespace (obj_meta o))
  | EPatchStatus _ w | EEventf w _ _ _ _ => Some (w_Namespace w)
  | EServerResources _ | ERecordResource _ _ | ERecordFailure _ | ENow | EPanic => None
  end.

Lemma event_ok_namespace K ns name e n :
  event_ok K ns name e → call_namespace e = Some n → n = ns.
Proof. destruct e; simpl; unfold is_child; naive_solver. Qed.

(** C8. A reconciliation stays in its scope: it makes no call for a namespace that is not watched; every
    call that addresses a namespace addresses the request's; and the only objects it writes are
    children of a managed kind under the workload's child name, and the workload's own status. *)
Theorem Reconcile_stays_in_scope r ns name h e :
  well_built any_text r → Forall (api_contract any_text) h → issues (Reconcile r ns name) h e →
  watchesNamespace r ns = true ∧
  (∀ n, call_namespace e = Some n → n = ns) ∧
  (∀ o, written_object e = Some o →
    (0 ≤ childOrder (Pointer o))%Z ∧ om_Name (obj_meta o) = ChildName name) ∧
  (∀ before after, e = EPatchStatus before after → w_Name after = name).
Proof.
  intros [Hl Hb] Hh Hi. split.
  { revert Hi. unfold Reconcile. case_bool_decide; [done|]. by destruct (watchesNamespace r ns). }
  pose proof (safe_issues _ _ _ _ (Reconcile_safe any_text r Hl Hb ns name) Hi Hh) as He.
  split; [intros n; by eapply event_ok_namespace|].
  split; [|by intros before after ->; apply He].
  intros o Ho. destruct e; simplify_eq/=; unfold is_child in He; naive_solver.
Qed.

(** C12. A reconciliation never panics, whatever the specification holds and whatever the API answers. *)
Theorem Reconcile_never_panics r ns name h :
  well_built any_text r → Forall (api_contract any_text) h → ¬ issues (Reconcile r ns name) h EPanic.
Proof.
  intros [Hl Hb] Hh Hi.
  exact (safe_issues _ _ _ _ (Reconcile_safe any_text r Hl Hb ns name) Hi Hh).
Qed.

(** Every condition has a reason and message of [K]. *)
Definition texts (K : string → string → Prop) : knowledge := {|
  good_workload w := Forall (λ c, K (c_Reason c) (c_Message c)) (w_Conditions w);
  good_deployment _ := True |}.

Lemma preserve_conditions_Forall (P : Condition → Prop) current result :
  Forall P current → Forall P result → Forall P (preserve_conditions current result).
Proof.
  revert result. induction current as [|c current IH]; intros result; simpl; [done|].
  intros [Hc Hcs]%Forall_cons Hr. repeat case_match; try by apply IH.
  apply IH; [done|]. apply Forall_app. split; [done|]. by constructor.
Qed.

Lemma texts_preserved K : (∀ reason message, is_curated reason message = true → K reason message) → Preserved (texts K).
Proof.
  intros HK. split; simpl; try done.
  - intros t typ status reason message w Hw _ _ Hc%HK. rewrite !Forall_forall in *. intros d Hd.
    apply Set_members in Hd as [(_ & _ & _ & Hr & Hm)|Hd]; [by rewrite Hr, Hm|by apply Hw].
  - intros typ w Hw. rewrite !Forall_forall in *. intros d [Hd _]%Remove_members. by apply Hw.
  - intros fresh w Hf Hw _. by apply preserve_conditions_Forall.
Qed.

(** C11. Nothing an API error says reaches users: every reason and message the controller puts into an
    event is a fixed text of the source, and the conditions of every status it sends hold only such
    texts and the ones the API server already had. *)
Theorem Reconcile_curated_text K r ns name h e :
  (∀ reason message, is_curated reason message = true → K reason message) →
  well_built (texts K) r → Forall (api_contract (texts K)) h → issues (Reconcile r ns name) h e →
  match e with
  | EEventf _ _ reason _ note => is_curated reason note = true
  | EPatchStatus _ after => Forall (λ c, K (c_Reason c) (c_Message c)) (w_Conditions after)
  | ERecordFailure reason => curated_reason reason = true
  | _ => True
  end.
Proof.
  intros HK%texts_preserved [Hl Hb] Hh Hi.
  pose proof (safe_issues _ _ _ _ (Reconcile_safe (texts K) r Hl Hb ns name) Hi Hh) as He.
  destruct e; try done; apply He.
Qed.

(** The texts [Error] gives for the errors a reconciliation returns. *)
Definition logged_errors : list string := [
  "watch namespaces are required"; "reconciliation failed: Conflict"; "reconciliation failed: AlreadyExists";
  "reconciliation failed: Forbidden"; "reconciliation failed: Timeout"; "reconciliation failed: Throttled";
  "reconciliation failed: UnexpectedError"].

Lemma retry_category_logged cause : Error (SafeRetry cause (retry_category cause)) ∈ logged_errors.
Proof.
  unfold retry_category. cbn [Error]. apply list_elem_of_In. repeat case_match; vm_compute; auto 10.
Qed.

(** C14. A reconciliation ends in one of four delays without an error, or with an error, no delay, and a
    fixed text that quotes no API error body, whose cause stays visible to [errors.Is]. *)
Theorem Reconcile_outcomes r ns name h result err :
  well_built any_text r → Forall (api_contract any_text) h →
  returns (Reconcile r ns name) h (result, err) →
  match err with
  | None => RequeueAfter result ∈ [0; 2 * Second; 15 * Second; Minute]%Z
  | Some err => RequeueAfter result = 0%Z ∧ Error err ∈ logged_errors ∧
      (err = NewError "watch namespaces are required" ∨
       ∃ cause, err = SafeRetry cause (retry_category cause) ∧ ∀ s, errors_Is err s = errors_Is cause s)
  end.
Proof.
  intros [Hl Hb] Hh Hr.
  pose proof (safe_returns _ _ _ _ (Reconcile_safe any_text r Hl Hb ns name) Hr Hh) as Ho.
  destruct Ho as [[He Hd]|[He Hc]]; simpl in *; subst; [done|].
  destruct Hc as [[cause ->]| ->].
  - split; [done|]. split; [apply retry_category_logged|]. right. by exists cause.
  - split; [done|]. split; [|by left]. apply list_elem_of_In. vm_compute. auto.
Qed.

(** A reconciliation that has nothing to do does nothing: for an unwatched namespace it makes no call,
    and for a workload that is gone or being deleted the read of the workload is its only call. *)
Theorem Reconcile_idle r ns name :
  effectiveWatchNamespaces r ≠ [] →
  (watchesNamespace r ns = false → returns (Reconcile r ns name) [] (no_requeue, None)) ∧
  (watchesNamespace r ns = true → ∀ answered,
    (∀ err, answered = inl err → IsNotFound err = true) →
    (∀ w, answered = inr w → Time_IsZero (w_DeletionTimestamp w) = false) →
    returns (Reconcile r ns name) [Call (EGetWorkload ns name) answered] (no_requeue, None)).
Proof.
  intros Hns. unfold Reconcile. rewrite bool_decide_false by by destruct (effectiveWatchNamespaces r).
  split; [by intros ->|]. intros -> x Herr Hw. simpl.
  exists x, []. split; [done|]. destruct x as [err|w].
  - by rewrite (Herr err eq_refl).
  - rewrite (Hw w eq_refl). by destruct (r_Builder r).
Qed.

(** A reconciliation terminates with a result against every environment that answers its calls. *)
Theorem Reconcile_terminates {S} (handler : S → ∀ e, option (S * answer e)) r ns name s :
  well_built any_text r →
  (∀ s e, e ≠ EPanic → ∃ s' x, handler s e = Some (s', x) ∧ api_contract any_text (Call e x)) →
  ∃ s' result err, run handler s (Reconcile r ns name) = Some (s', (result, err)).
Proof.
  intros [Hl Hb] Hh.
  destruct (run_safe handler _ _ s _ _ (Reconcile_safe any_text r Hl Hb ns name))
    as (s' & [result err] & Hr & _); [|eauto].
  intros s0 e He. apply Hh. by intros ->.
Qed.

End Reconcile.

(** ** Witnesses *)

Section Witnesses.
Import Ref Sample.

(** The reconciler the manager builds for one namespace. *)
Definition reconciler : AIWorkloadReconciler := {|
  r_gates := {| r_TenantReader := Some TenantReader; r_ExternalSecretsReader := Some ExternalSecretsReader;
    r_GatewayReader := Some GatewayReader; r_CapabilityLookup := Some HasResource |};
  r_WatchNamespace := ""; r_WatchNamespaces := [ns]; r_ControllerName := ""; r_Builder := Some Build;
  r_Recorder := true; r_Telemetry := true |}.

Lemma reconciler_well_built K : well_built K reconciler.
Proof.
  split.
  - intros lookup [= <-]. apply HasResource_ok.
  - intros build [= <-]. typeclasses eauto.
Qed.

Lemma find_child_Some {A} (sel : Object → option A) n name s a :
  find_child sel n name s = Some a →
  ∃ o, sel o = Some a ∧ om_Name (obj_meta o) = name ∧ om_Namespace (obj_meta o) = n.
Proof.
  unfold find_child. induction (srv_children s) as [|o l IH]; simpl; [done|].
  unfold same_key at 1. destruct (_ && _) eqn:E; [|done].
  apply andb_true_iff in E as [En%bool_decide_eq_true Em%bool_decide_eq_true].
  destruct (sel o) eqn:Es; [|done]. intros [= <-]. eauto.
Qed.

Lemma found {A} (o : option A) a : answer_of o = inr a → o = Some a.
Proof. destruct o; simpl; congruence. Qed.

Lemma find_unstructured_Some gvk n name s u :
  find_unstructured gvk n name s = Some u → om_Name (un_meta u) = name ∧ un_GVK u = gvk.
Proof.
  unfold find_unstructured. destruct (find_child _ _ _ _) as [v|] eqn:E.
  - intros [= <-]. apply find_child_Some in E as (o & Ho & Hn & _). destruct o; simplify_eq/=.
    case_bool_decide; naive_solver.
  - intros [_ [Hg%bool_decide_eq_true [_ Hn%bool_decide_eq_true]%andb_true_iff]%andb_true_iff]%first_match_Some.
    done.
Qed.

(** The sample cluster keeps the contract of the API server. *)
Lemma cluster_contract s e : e ≠ EPanic → ∃ s' x, handler s e = Some (s', x) ∧ api_contract any_text (Call e x).
Proof.
  intros He. destruct e; try done; (eexists _, _; split; [reflexivity|]); split; simpl; try done.
  all: try (intros err Herr; by repeat case_match; simplify_eq).
  all: try (intros o (c & Hc & Hn & _)%found%find_child_Some; destruct c; simplify_eq/=; done).
  - case_match eqn:Ek; intros ? [= <-].
    apply andb_true_iff in Ek as [?%bool_decide_eq_true ?%bool_decide_eq_true].
    done.
  - by destruct (find_child _ _ _ _); intros ? [= <-].
  - by destruct (find_child _ _ _ _); intros ? [= <-].
  - by destruct (find_child _ _ _ _); intros ? [= <-].
  - by destruct (find_child _ _ _ _); intros ? [= <-].
  - by destruct (find_child _ _ _ _); intros ? [= <-].
  - by destruct (find_child _ _ _ _); intros ? [= <-].
  - intros o Ho%found. by apply find_unstructured_Some in Ho.
  - by destruct (find_unstructured _ _ _ _); intros ? [= <-].
Qed.

Lemma calls_contract {A} s (t : program A) : Forall (api_contract any_text) (calls s t).
Proof.
  apply (log_Forall handler (λ _, True)); [|done]. intros s1 e s2 x _ Hh. split; [done|].
  destruct (decide (is_Some (handler s1 e))) as [_|Hn]; [|by rewrite Hh in Hn; destruct Hn].
  assert (e ≠ EPanic) as He by (by intros ->).
  destruct (cluster_contract s1 e He) as (s3 & y & Hy & Hc). rewrite Hh in Hy. by simplify_eq.
Qed.

Definition full_run : program (Result * option error) := Reconcile reconciler ns "sample".
Definition full_calls : history := calls (cluster full_workload) full_run.

Lemma full_contract n : Forall (api_contract any_text) (take n full_calls).
Proof. apply Forall_take. exact (calls_contract (cluster full_workload) full_run). Qed.

(** The first child write of the run, of the ServiceAccount. *)
Definition write_at : nat := Eval vm_compute in
  default 0%nat (first_index (λ c, is_child_write (call_event c)) full_calls).

Lemma full_issued n :
  (n <? length full_calls)%nat = true → issues full_run (take n full_calls) (nth_event full_calls n).
Proof. exact (issued (cluster full_workload) full_run n). Qed.

Lemma Reconcile_admits_before_writing_witness :
  ∃ w, Call (EGetWorkload ns "sample") (inr w) ∈ take write_at full_calls ∧ tenant_checked w (take write_at full_calls).
Proof.
  destruct (Reconcile_admits_before_writing reconciler ns "sample" (take write_at full_calls) (nth_event full_calls write_at)
    (reconciler_well_built _) (full_contract _)) as (w & Hin & _ & Ht & _).
  - apply full_issued. vm_compute. reflexivity.
  - vm_compute. reflexivity.
  - exists w. split; assumption.
Defined.

Lemma Reconcile_stays_in_scope_witness : watchesNamespace reconciler ns = true.
Proof.
  destruct (Reconcile_stays_in_scope reconciler ns "sample" (take write_at full_calls) (nth_event full_calls write_at)
    (reconciler_well_built _) (full_contract _)) as [Hw _].
  - apply full_issued. vm_compute. reflexivity.
  - exact Hw.
Defined.

Lemma Reconcile_never_panics_witness : ¬ issues full_run full_calls EPanic.
Proof.
  apply (Reconcile_never_panics reconciler ns "sample" full_calls (reconciler_well_built _)).
  apply calls_contract.
Defined.

Lemma Reconcile_outcomes_witness :
  ∃ result, returns full_run full_calls (result, None) ∧ RequeueAfter result = (15 * Second)%Z ∧
    RequeueAfter result ∈ [0; 2 * Second; 15 * Second; Minute]%Z.
Proof.
  assert (∃ s', run handler (cluster full_workload) full_run = Some (s', ({| RequeueAfter := 15 * Second |}, None)))
    as [s' Hs] by (vm_compute; eexists; reflexivity).
  apply run_returns in Hs. exists {| RequeueAfter := 15 * Second |}. split; [exact Hs|]. split; [reflexivity|].
  exact (Reconcile_outcomes reconciler ns "sample" full_calls _ None (reconciler_well_built _) (calls_contract _ _) Hs).
Defined.

Lemma Reconcile_idle_witness : returns (Reconcile reconciler "elsewhere" "sample") [] (no_requeue, None).
Proof.
  destruct (Reconcile_idle reconciler "elsewhere" "sample") as [Hr _]; [discriminate|].
  apply Hr. vm_compute. reflexivity.
Defined.

Lemma Reconcile_terminates_witness :
  ∃ s' result err, run handler (cluster full_workload) full_run = Some (s', (result, err)).
Proof.
  apply (Reconcile_terminates handler reconciler ns "sample" (cluster full_workload) (reconciler_well_built _)).
  exact cluster_contract.
Defined.

(** The calls before the first status patch. *)
Definition before_patch : history := [
  Call (EGetWorkload ns "sample") (inr full_workload : answer (EGetWorkload ns "sample"));
  Call (EGetConfigMap TenantReader ns tenantProfileConfigMap)
    (inr profile : answer (EGetConfigMap TenantReader ns tenantProfileConfigMap));
  Call ENow (0%Z : answer ENow)].

Definition curated (reason message : string) : Prop := is_curated reason message = true.

Lemma Reconcile_curated_text_witness :
  ∃ before after, nth_event full_calls 3 = EPatchStatus before after ∧
    Forall (λ c, curated (c_Reason c) (c_Message c)) (w_Conditions after).
Proof.
  pose proof (full_issued 3) as Hi.
  assert (∃ before after, nth_event full_calls 3 = EPatchStatus before after) as (before & after & He)
    by (vm_compute; eexists _, _; reflexivity).
  assert (take 3 full_calls = before_patch) as Hh by (vm_compute; reflexivity).
  rewrite Hh, He in Hi. exists before, after. split; [exact He|].
  apply (Reconcile_curated_text curated reconciler ns "sample" before_patch (EPatchStatus before after)).
  - intros reason message Hc. exact Hc.
  - apply reconciler_well_built.
  - apply Forall_cons_2; [split; [|discriminate]|].
    { intros w [= <-]. split; [reflexivity|]. split; [reflexivity|]. constructor. }
    apply Forall_cons_2; [split; [exact I|discriminate]|].
    apply Forall_cons_2; [split; [exact I|discriminate]|]. apply Forall_nil_2.
  - apply Hi. vm_compute. reflexivity.
Defined.

End Witnesses.
