(* ===== verification/Ordering.v ===== *)
(** * The order of a reconciliation's writes

    The engine loop applies a validated plan in dependency order; composed with the rest of
    [Reconcile], which writes no child, the writes of one pass come in that order. *)
From S2P Require Import Prelude Errors GoStd Kube Api Naming Intent Route Builder Effects Engine Capability.
From S2P Require Import Conditions Status Failures Gates Controller Contract Safety Gating ReconcileTheorems.
From S2P Require Import KubeReference Sample.

(** The place of a child write in the dependency order. *)
Definition write_order (e : event) : Z :=
  match written_object e with
  | Some o => childOrder (Pointer o)
  | None => -1
  end.

(** The child writes so far came before the place [k]. *)
Definition writes_below (k : Z) (h : history) : Prop :=
  Forall (λ c, is_child_write (call_event c) = true → (write_order (call_event c) < k)%Z) h.

(** A child write comes after all the writes before it. *)
Definition in_order (h : history) (e : event) : Prop :=
  is_child_write e = true → writes_below (write_order e) h.

Lemma writes_below_app k h1 h2 : writes_below k (h1 ++ h2) ↔ writes_below k h1 ∧ writes_below k h2.
Proof. apply Forall_app. Qed.

Lemma writes_below_le k k' h : (k ≤ k')%Z → writes_below k h → writes_below k' h.
Proof. intros Hk Hh. eapply Forall_impl; [done|]. simpl. intros c Hc Hw. specialize (Hc Hw). lia. Qed.

Lemma writes_below_silent k h :
  Forall (λ c, is_child_write (call_event c) = false) h → writes_below k h.
Proof. intros Hh. eapply Forall_impl; [done|]. simpl. congruence. Qed.

(** The order of an intent's target. *)
Definition intent_order (i : Intent) : Z := childOrder (i_Object i).

Lemma get_event_silent o : is_child_write (get_event o) = false.
Proof. by destruct o. Qed.

(** The order of a plan depends on its targets only. *)
Lemma StronglySorted_map_objects plan plan' :
  i_Object <$> plan' = i_Object <$> plan →
  StronglySorted (λ i j, intent_order i < intent_order j)%Z plan →
  StronglySorted (λ i j, intent_order i < intent_order j)%Z plan'.
Proof.
  revert plan'. induction plan as [|i plan IH]; intros [|i' plan'] Ho; try done.
  rewrite !fmap_cons in Ho. injection Ho as Hi Ho. intros [Hs Hlt]%StronglySorted_inv. constructor; [by apply IH|].
  rewrite Forall_forall in *. intros j Hj.
  assert (i_Object j ∈ i_Object <$> plan) as (j' & Hj' & Hin)%list_elem_of_fmap.
  { rewrite <-Ho. by apply list_elem_of_fmap_2. }
  specialize (Hlt _ Hin). unfold intent_order in *. by rewrite Hi, Hj'.
Qed.

Section Ordering.
Context `{ConditionsLaws, ApiErrors, UnstructuredHelpersLaws, OwnerHelpers}.
Context `{SemanticDeepEqual AIWorkloadStatus, SemanticDeepEqual Object}.

Let R := api_contract any_text.

(** ** One intent *)

Lemma safe_intent_total i : safe_intent i → intent_total i.
Proof. unfold intent_total, safe_intent. destruct (i_Mutate i); [intros Hs; exact mutation_no_panic|done]. Qed.

(** Its writes have the place of its target. *)
Lemma Apply_order p i :
  safe_intent i → (0 ≤ intent_order i)%Z →
  safe R (λ e, is_child_write e = true → write_order e = intent_order i) (Apply p i) (λ _, True).
Proof.
  intros Hs Ho.
  assert (∀ f a b, i_Mutate i = Some f → f a = Ok b → childOrder (Pointer b) = childOrder (Pointer a)) as Hkind.
  { intros f a b Hf Hab. unfold safe_intent in Hs. rewrite Hf in Hs.
    exact (same_kind_order _ _ (mutation_kind _ _ Hab)). }
  assert (∀ a b, set_controller p a = Some b → childOrder (Pointer b) = childOrder (Pointer a)) as Hctl.
  { intros a b (refs & _ & ->)%set_controller_inv. apply with_meta_order. }
  assert (∀ object x current, i_Object i = Pointer object → Forall R ([] ++ [Call (get_event object) x]) →
    get_reply object x = inr current → childOrder (Pointer current) = childOrder (Pointer object)) as Hget.
  { intros object x current Ei [[Hok _] _]%Forall_cons Hx. unfold intent_order in Ho. rewrite Ei in Ho.
    by destruct (get_reply_ok _ _ _ _ Hok Hx Ho). }
  assert (wp R (λ h e, apply_call p i [] h e) [] (Apply p i) (λ _ _, True)) as Hcalls.
  { eapply wp_impl; [by apply Apply_calls, safe_intent_total|done|auto]. }
  apply (wp_safe _ _ []). eapply wp_impl; [apply (wp_rely _ _ _ Hcalls); constructor|done|].
  intros h e [Hc Hh] Hw. unfold intent_order. destruct Hc as
      [object Ei ->|object x err f mutated o Ei Ha Hf -> Hx Hn Hm Hk Hcs
      |object x current Ei Ha -> Hx Ho' Hd|object x before f mutated after Ei Ha Hf -> Hx Ho' Hd Hm Hk Hcs _];
      rewrite Ei; unfold write_order; cbn [written_object].
  - by rewrite get_event_silent in Hw.
  - rewrite (Hctl _ _ Hcs). by apply (Hkind f).
  - by eapply Hget.
  - by eapply Hget.
Qed.

(** No write of an [Apply] follows another one. *)
Lemma Apply_first_write p i h :
  safe_intent i →
  wp R (λ h' e, is_child_write e = true →
    ∃ k, h' = h ++ k ∧ Forall (λ c, is_child_write (call_event c) = false) k) h (Apply p i) (λ _ _, True).
Proof.
  intros Hs. eapply wp_impl; [by apply Apply_calls, safe_intent_total|done|]. intros h' e Hc Hw.
  destruct Hc as [object _ ->|object x err f mutated o _ _ _ -> _ _ _ _ _
    |object x current _ _ -> _ _ _|object x before f mutated after _ _ _ -> _ _ _ _ _ _ _].
  1: by rewrite get_event_silent in Hw.
  all: eexists; (split; [reflexivity|]); constructor; [apply get_event_silent|constructor].
Qed.

Lemma Apply_in_order p i h :
  safe_intent i → (0 ≤ intent_order i)%Z → writes_below (intent_order i) h →
  wp R in_order h (Apply p i) (λ h' _, writes_below (intent_order i + 1) h').
Proof.
  intros Hs Ho Hh.
  eapply wp_impl; [eapply wp_mono; [apply (wp_and _ _ _ _
    (safe_wp_history _ _ h (Apply_order p i Hs Ho)) (Apply_first_write p i h Hs))|]|done|].
  - intros h' a [(k & -> & Hk & _) _]. apply writes_below_app. split; [eapply writes_below_le; [|done]; lia|].
    eapply Forall_impl; [done|]. simpl. intros c Hc Hw. rewrite (Hc Hw). lia.
  - intros h' e [(k & _ & _ & He) Hf] Hw. rewrite (He Hw). destruct (Hf Hw) as (k' & -> & Hk').
    apply writes_below_app. split; [done|by apply writes_below_silent].
Qed.

(** ** The loop *)

(** A part that writes no child keeps the order and its bound. *)
Lemma silent_in_order {A} (t : program A) k h :
  safe R (λ e, is_child_write e = false) t (λ _, True) → writes_below k h →
  wp R in_order h t (λ h' _, writes_below k h').
Proof.
  intros Ht Hh. eapply wp_impl; [eapply wp_mono; [apply (safe_wp_history _ _ h Ht)|]|done|].
  - intros h' a (k' & -> & Hk' & _). apply writes_below_app. split; [done|by apply writes_below_silent].
  - intros h' e (_ & _ & _ & He) Hw. congruence.
Qed.

Lemma apply_plan_in_order r w plan k h :
  Forall safe_intent plan → StronglySorted (λ i j, intent_order i < intent_order j)%Z plan →
  Forall (λ i, k ≤ intent_order i)%Z plan → (0 ≤ k)%Z → writes_below k h →
  wp R in_order h (apply_plan r w plan) (λ _ _, True).
Proof.
  revert k h. induction plan as [|i plan IH]; intros k h Hs Hsort Hk Hk0 Hh; simpl; [done|].
  apply Forall_cons in Hs as [Hsi Hs]. apply Forall_cons in Hk as [Hki Hk].
  apply StronglySorted_inv in Hsort as [Hsort Hlt].
  eapply wp_seq; [apply Apply_in_order; [done|lia|by eapply writes_below_le]|].
  intros h1 [err|outcome] Hh1;
    (eapply wp_seq; [eapply silent_in_order; [by destruct (r_Telemetry r)|exact Hh1]|]); [done|].
  intros h2 ? Hh2. apply (IH (intent_order i + 1)%Z); [done|done| |lia|done].
  eapply Forall_impl; [exact Hlt|]. simpl. lia.
Qed.

(** The plan the loop gets is in strict order. *)
Lemma build_plan_sorted build w external exposure plan :
  build_plan build w external exposure = Ok plan →
  StronglySorted (λ i j, intent_order i < intent_order j)%Z plan.
Proof.
  intros (children & routes & ordered & _ & _ & Hv & ->)%build_plan_inv.
  destruct (ValidatePlan_sorted _ _ _ Hv) as [Hp Hsort]. apply ValidatePlan_Ok in Hv as (_ & _ & Hnd & _).
  rewrite <-Hp in Hnd. clear -Hsort Hnd.
  assert (∀ l : list Intent, Sorted (λ i j, intent_order i ≤ intent_order j)%Z l → NoDup (intent_order <$> l) →
    StronglySorted (λ i j, intent_order i < intent_order j)%Z l) as Hstrict.
  { intros l Hl%Sorted_StronglySorted; [|intros ???; lia]. induction Hl as [|i l Hl IH Hi]; [constructor|].
    rewrite fmap_cons, NoDup_cons. intros [Hni Hnd']. constructor; [by apply IH|].
    rewrite Forall_forall in *. intros j Hj. specialize (Hi _ Hj).
    assert (intent_order i ≠ intent_order j); [|lia]. intros He. apply Hni. rewrite He. by apply list_elem_of_fmap_2. }
  apply (StronglySorted_map_objects ordered); [apply decorate_objects|by apply Hstrict].
Qed.

(** ** The reconciliation *)

(** A silent part is in order whatever came before. *)
Lemma silent_anywhere {A} (t : program A) h :
  safe R (λ e, is_child_write e = false) t (λ _, True) → wp R in_order h t (λ _ _, True).
Proof.
  intros Ht. pose proof (safe_wp _ _ (λ _ e, is_child_write e = false) h Ht (λ _ _ _ He, He)) as Hwp.
  eapply wp_impl; [eapply wp_mono; [exact Hwp|done]|done|]. intros h1 e He Hw. congruence.
Qed.

Lemma reconcile_children_in_order r build w external exposure h :
  PlanBuilder build → writes_below 0 h →
  wp R in_order h (reconcile_children r build w external exposure) (λ _ _, True).
Proof.
  intros Hb Hh. unfold reconcile_children.
  destruct (build_plan _ _ _ _) as [plan|err|] eqn:Ep; simpl; [|done|by apply build_plan_no_panic in Ep].
  pose proof (build_plan_sorted _ _ _ _ _ Ep) as Hsort.
  apply build_plan_intents in Ep as (_ & Hv & Hs); [|done].
  eapply wp_seq; [apply (apply_plan_in_order r w plan 0); try done|].
  { eapply Forall_impl; [exact Hv|]. simpl. intros i (object & Hi & Ho & _). exact Ho. }
  intros h' [err|] _; simpl; [done|].
  apply silent_anywhere, validate_secrets_silent.
Qed.

Lemma report_status_silent r w st : safe R (λ e, is_child_write e = false) (report_status r w st) (λ _, True).
Proof.
  unfold report_status.
  eapply silent_seq; [apply observeExposure_silent|]. intros [w1 [err|delay]]; [apply reportFailure_silent|].
  eapply silent_seq; [apply patchStatus_silent|]. intros [w2 [err|b]]; [apply reportFailure_silent|].
  eapply silent_seq; [apply observeAndReportStatus_silent|].
  intros [w3 [err|]]; [apply reportFailure_silent|done].
Qed.

(** C10. A reconciliation writes its children in dependency order, identity first, and no kind twice:
    every child write comes strictly after all the child writes before it, in the order
    ServiceAccount, Deployment, Service, NetworkPolicy, HorizontalPodAutoscaler,
    PodDisruptionBudget, HTTPRoute. *)
Theorem Reconcile_writes_in_order r ns name h e :
  well_built any_text r → Forall R h → issues (Reconcile r ns name) h e → is_child_write e = true →
  Forall (λ c, is_child_write (call_event c) = true → (write_order (call_event c) < write_order e)%Z) h.
Proof.
  intros [Hl Hb] Hh Hi.
  assert (wp R in_order [] (Reconcile r ns name) (λ _ _, True)) as Hwp; [|exact (wp_issues [] _ _ _ _ Hwp Hi Hh)].
  clear Hh Hi h e. unfold Reconcile. case_bool_decide; [done|]. destruct (watchesNamespace r ns); simpl; [|done].
  split; [done|]. intros [err|w] _; [done|]. destruct (r_Builder r) as [build|] eqn:Eb; [|done].
  destruct (Time_IsZero _); simpl; [|done].
  eapply wp_seq; [eapply (silent_in_order _ 0)|].
  - eapply wp_safe with (h := []). eapply wp_mono; [apply run_gates_passed; exact Hl|done].
  - constructor; [done|constructor].
  - intros h1 [w1 [err|[external exposure]]] Hh1; [apply silent_anywhere, reportFailure_silent|].
    eapply wp_seq; [apply reconcile_children_in_order; [by apply Hb|done]|].
    intros h2 [err|] _; [|apply silent_anywhere, report_status_silent].
    destruct (errors_Is err ErrChildDeleting); [done|]. apply silent_anywhere, reportFailure_silent.
Qed.

(** The runs of [Apply] on the intents of a plan, in their order. *)
Inductive applied (w : AIWorkload) : list Intent → history → Prop :=
  | applied_nil : applied w [] []
  | applied_cons i plan h outcome metrics h' :
      returns (Apply w i) h (inr outcome) → Forall (λ c, is_write (call_event c) = false) metrics →
      applied w plan h' → applied w (i :: plan) (h ++ metrics ++ h').

(** The engine loop is complete: when it ends without an error, it has applied every intent of the
    plan, in the plan's order; when it ends with one, it has applied the intents before the first
    that failed, and nothing after it. *)
Theorem apply_plan_complete r w plan h out :
  returns (apply_plan r w plan) h out →
  match out with
  | None => applied w plan h
  | Some err => ∃ before i after h1 h2 metrics, plan = before ++ i :: after ∧ h = h1 ++ h2 ++ metrics ∧
      applied w before h1 ∧ returns (Apply w i) h2 (inl err) ∧
      Forall (λ c, is_write (call_event c) = false) metrics
  end.
Proof.
  revert h. induction plan as [|i plan IH]; intros h; simpl.
  { intros [-> ->]. constructor. }
  intros (h1 & outcome & h2 & -> & Hi & Hr)%returns_bind.
  assert (∀ o h a, returns (if r_Telemetry r then RecordResource (childKind (i_Object i)) o else Ret ()) h a →
    Forall (λ c, is_write (call_event c) = false) h) as Hm.
  { intros o h a. destruct (r_Telemetry r); simpl; [|by intros [-> _]].
    intros (x & h' & -> & -> & _). by repeat constructor. }
  destruct outcome as [err|outcome]; apply returns_bind in Hr as (h3 & [] & h4 & -> & Ht%Hm & Hr).
  - destruct Hr as [-> ->]. rewrite app_nil_r. exists [], i, plan, [], h1, h3. split_and!; try done. constructor.
  - specialize (IH _ Hr). destruct out as [err|].
    + destruct IH as (before & j & after & k1 & k2 & metrics & -> & -> & Hb & Hj & Hmt).
      exists (i :: before), j, after, (h1 ++ h3 ++ k1), k2, metrics. rewrite <-!app_assoc.
      split_and!; try done. by econstructor.
    + by econstructor.
Qed.

End Ordering.

(** ** Witnesses *)

Section Witnesses.
Import Ref Sample.

(** The second child write of the sample run, of the Deployment. *)
Definition deployment_write : nat := Eval vm_compute in
  default 0%nat (first_index (λ c, match call_event c with ECreate (ODeployment _) => true | _ => false end) full_calls).

Lemma Reconcile_writes_in_order_witness :
  write_order (nth_event full_calls deployment_write) = 1%Z ∧
  Forall (λ c, is_child_write (call_event c) = true → (write_order (call_event c) < 1)%Z) (take deployment_write full_calls).
Proof.
  assert (write_order (nth_event full_calls deployment_write) = 1%Z) as Ho by (vm_compute; reflexivity).
  split; [exact Ho|]. rewrite <-Ho.
  apply (Reconcile_writes_in_order reconciler ns "sample" (take deployment_write full_calls)
    (nth_event full_calls deployment_write) (reconciler_well_built _) (full_contract _)).
  - apply full_issued. vm_compute. reflexivity.
  - vm_compute. reflexivity.
Defined.

Definition first_plan : list Intent := match Build (Some workload) with Ok plan => plan | _ => [] end.
Definition plan_run : program (option error) := apply_plan reconciler workload first_plan.

Lemma apply_plan_complete_witness : applied workload first_plan (calls (cluster workload) plan_run).
Proof.
  assert (∃ s', run handler (cluster workload) plan_run = Some (s', None)) as [s' Hs]
    by (vm_compute; eexists; reflexivity).
  apply run_returns in Hs.
  exact (apply_plan_complete reconciler workload first_plan (calls (cluster workload) plan_run) None Hs).
Defined.

End Witnesses.
