(* ===== verification/Convergence.v ===== *)
(** * Convergence

    The engine loop against the abstract cluster of [Cluster]: a pass that ends without an error
    leaves every child of the plan as its intent wants it and touches nothing else; a pass over
    such a cluster writes nothing; and no pass, whatever other clients do between its calls,
    changes an object that is not the workload's own. *)
From S2P Require Import Prelude Errors GoStd Kube Api Naming Intent Autoscaling Deploy ServiceIntent Availability Route.
From S2P Require Import Builder Effects Engine Cluster Conditions Status Failures Gates Controller Contract Safety Gating.
From S2P Require Import EngineTheorems ReconcileTheorems Ordering KubeReference Sample ClusterReference.

(** An intent whose mutation, if it has one, leaves alone what the server made of its result. *)
Definition settling_intent (i : Intent) : Prop := ∀ f, i_Mutate i = Some f → Mutation f.

(** ** The mutations of a plan settle *)

Lemma annotate_with_revision revision d :
  map_of (om_Annotations (pt_meta (dp_Template d))) !! externalSecretRevisionKey = Some revision →
  om_Annotations (pt_meta (dp_Template d)) ≠ None → annotate_revision revision d = d.
Proof.
  destruct d as [? ? ? [[] ?] ? ? ? ? ? ?]. unfold annotate_revision, set_annotations. simpl.
  destruct om_Annotations as [a|]; [|done]. simpl. intros Ha _. by rewrite insert_id.
Qed.

Section Settling.
Context `{Quantities}.

(** The revision and the Deployment's mutation write different annotations. *)
Lemma mutateDeployment_annotate revision d p rq lm :
  mutateDeployment (annotate_revision revision d) p rq lm =
  annotate_revision revision <$> mutateDeployment d p rq lm.
Proof.
  unfold mutateDeployment. simpl. unfold selector_compatible, desired_spec_replicas. simpl.
  destruct (negb _ && _); [done|].
  destruct (if negb _ then _ else _) as [replicas|e|]; try done. simpl. unfold annotate_revision. simpl.
  do 4 f_equal. unfold managedMetadata, set_annotations, set_labels. simpl.
  by rewrite insert_insert_ne.
Qed.

Lemma decorated_deployment_mutation revision p rq lm :
  Mutation (decorated_mutation (Some (on_Deployment (λ d, mutateDeployment d p rq lm))) revision).
Proof.
  split; [apply decorated_safe; typeclasses eauto|].
  intros o o' s (d & Hd & ->)%decorated_mutation_inv Hm Hs.
  destruct o as [|d0| | | | | |]; try done. apply fmap_Ok in Hd as (d1 & Hd & [= ->]).
  destruct s as [|s| | | | | |]; try done.
  assert (mutateDeployment (annotate_revision revision d0) p rq lm = Ok (annotate_revision revision d)) as Hd'.
  { by rewrite mutateDeployment_annotate, Hd. }
  assert (mutateDeployment s p rq lm = Ok s) as Hfix by (by eapply mutateDeployment_settled).
  unfold decorated_mutation. simpl. rewrite Hfix. simpl. do 2 f_equal.
  destruct Hs as (m & pod & other & status & _ & ->).
  apply annotate_with_revision; [|done]. simpl. by rewrite lookup_insert_eq.
Qed.

End Settling.

(** The mutation of a Deployment, before its decoration. *)
Definition deployment_intent (i : Intent) : Prop :=
  is_deployment (i_Object i) = true →
  ∃ (Hq : Quantities) p rq lm, i_Mutate i = Some (on_Deployment (λ d, mutateDeployment d p rq lm)).

(** The workload asks for nothing whose stored form the controller keeps rewriting: no
    stabilization window of the autoscaler, and no route. *)
Definition settling_workload (w : AIWorkload) : Prop :=
  (∀ a, AutoscalingEnabled (Some w) = true → sp_Autoscaling (w_Spec w) = Some a →
    as_ScaleDownStabilizationSeconds a = None) ∧
  HTTPRouteEnabled (Some w) = false.

Lemma decorate_settling plan revision :
  Forall settling_intent plan → Forall deployment_intent plan →
  Forall settling_intent (decorateExternalSecretRevision plan revision).
Proof.
  intros Hs Hd. unfold decorateExternalSecretRevision. case_bool_decide; [done|].
  induction plan as [|i plan IH]; simpl; [done|].
  apply Forall_cons in Hs as [Hi Hs]. apply Forall_cons in Hd as [Hdi Hd].
  destruct (is_deployment (i_Object i)) eqn:E; simpl; apply Forall_cons; auto. split; [|done].
  destruct (Hdi E) as (Hq & p & rq & lm & Hm). intros f [= <-]. rewrite Hm.
  apply decorated_deployment_mutation.
Qed.

Section PlanSettling.
Context `{QuantitiesLaws, UnstructuredHelpersLaws}.

Lemma absent_settling o : settling_intent {| i_Object := o; i_Mutate := None; i_Absent := true |}.
Proof. done. Qed.

Lemma Build_settling p plan :
  Build (Some p) = Ok plan → settling_workload p →
  Forall settling_intent plan ∧ Forall deployment_intent plan.
Proof.
  intros (rq & lm & s & a & b & _ & Hs & Ha & Hb & ->)%Build_inv [Hh _].
  pose proof (serviceIntent_wf _ _ Hs) as (_ & _ & Hso). pose proof (autoscalingIntent_wf _ _ Ha) as (_ & _ & Hao).
  pose proof (availabilityIntent_wf _ _ Hb) as (_ & _ & Hbo).
  split; repeat apply Forall_cons_2; try done.
  - intros f [= <-]. typeclasses eauto.
  - intros f [= <-]. typeclasses eauto.
  - revert Hs. unfold serviceIntent. destruct (ServiceEnabled _); simpl; [|by intros [= <-]].
    case_match; [done|]. intros [= <-] f [= <-]. typeclasses eauto.
  - unfold networkPolicyIntent. case_match; intros f; [done|]. intros [= <-]. typeclasses eauto.
  - revert Ha. unfold autoscalingIntent. destruct (AutoscalingEnabled _); simpl; [|by intros [= <-]].
    destruct (sp_Autoscaling (w_Spec p)) as [sa|] eqn:Esa; simpl; [|done].
    destruct (_ || _) eqn:E; [done|]. rewrite !orb_false_iff, !bool_decide_eq_false in E.
    intros [= <-] f [= <-]. by apply (autoscaling_mutation p sa); naive_solver.
  - revert Hb. unfold availabilityIntent. case_match; [by intros [= <-]|].
    intros Hb. inv_Ok Hb. intros f. simplify_eq. intros [= <-]. typeclasses eauto.
  - intros _. by exists _, p, rq, lm.
  - unfold deployment_intent. by rewrite Hso.
  - unfold deployment_intent, networkPolicyIntent. by case_match.
  - unfold deployment_intent. by rewrite Hao.
  - unfold deployment_intent. by rewrite Hbo.
Qed.

Lemma build_plan_settling p external exposure plan :
  build_plan Build p external exposure = Ok plan → settling_workload p → Forall settling_intent plan.
Proof.
  intros (children & routes & ordered & Hc & Hr & Hv & ->)%build_plan_inv Hp.
  assert (settling_workload (append_SecretRefs (re_targetSecret <$> external) p)) as Hp' by done.
  destruct (Build_settling _ _ Hc Hp') as [Hs Hd]. destruct (ValidatePlan_sorted _ _ _ Hv) as [Hperm _].
  assert (Forall settling_intent routes ∧ Forall deployment_intent routes) as [Hsr Hdr].
  { destruct (xs_manageRoute exposure); [|by subst]. destruct Hr as (route & Hr & ->).
    unfold HTTPRouteIntent in Hr. destruct Hp' as [_ He]. rewrite He in Hr. injection Hr as <-.
    split; repeat constructor; done. }
  apply decorate_settling; rewrite Hperm; by apply Forall_app.
Qed.

End PlanSettling.

Section Convergence.
Context `{ApiErrors, OwnerHelpersLaws, SemanticDeepEqualLaws Object}.
Implicit Types (r : AIWorkloadReconciler) (plan : list Intent) (w : AIWorkload) (i : Intent) (object : Object) (s : objects) (h : history).

(** What an intent wants of its child: gone, or on its way out, when it is absent, and otherwise
    settled. *)
Definition child_converged (w : AIWorkload) (s : objects) (i : Intent) : Prop :=
  ∃ object, i_Object i = Pointer object ∧
  match s !! object_key object with
  | None => i_Absent i = true
  | Some c =>
      if i_Absent i then Time_IsZero (om_DeletionTimestamp (obj_meta c)) = false
      else settled_child w i c
  end.

(** The key of an intent's child; the intents of a plan have different keys. *)
Definition intent_key (w : AIWorkload) (i : Intent) : key :=
  (childOrder (i_Object i), w_Namespace w, ChildName (w_Name w)).

Lemma valid_intent_key w i object :
  valid_intent w i → i_Object i = Pointer object → object_key object = intent_key w i.
Proof. intros (o & Ho & _ & Hns & Hn & _) Ei. unfold object_key, intent_key. rewrite Ei in *. simplify_eq. congruence. Qed.

Lemma set_controller_key w m o : set_controller w m = Some o → object_key o = object_key m.
Proof.
  intros (refs & _ & ->)%set_controller_inv. unfold object_key.
  by rewrite with_meta_order, obj_meta_with_meta.
Qed.

(** A write of one key. *)
Lemma insert_converged (w : AIWorkload) (s : objects) (i : Intent) (object o : Object) :
  i_Object i = Pointer object → i_Absent i = false → settled_child w i o →
  child_converged w (<[object_key object := o]> s) i ∧
  ∀ k, k ≠ object_key object → <[object_key object := o]> s !! k = s !! k.
Proof.
  intros Ei Ha Ho. split; [|intros k Hk; by rewrite lookup_insert_ne].
  exists object. split; [done|]. by rewrite lookup_insert_eq, Ha.
Qed.

(** The three branches of [Apply] after the read: a child is created, deleted, or patched. *)
Lemma apply_create_converges (w : AIWorkload) (i : Intent) (object : Object) (h : history) (outcome : Outcome) (s s' : objects) :
  valid_intent w i → settling_intent i → i_Object i = Pointer object → s !! object_key object = None →
  returns (apply_create w i object) h (inr outcome) → serves s h s' →
  child_converged w s' i ∧ ∀ k, k ≠ object_key object → s' !! k = s !! k.
Proof.
  intros Hi Hset Ei Hread Hr Hs. unfold apply_create in Hr. destruct (i_Absent i) eqn:Eabs.
  { destruct Hr as [-> _]. simpl in Hs. subst s'. split; [|done]. exists object. split; [done|]. by rewrite Hread. }
  destruct Hi as (object' & Ei' & _ & Hns & _ & _ & _ & Hm). rewrite Ei in Ei'. injection Ei' as <-.
  destruct (Hm Eabs) as [f Hf]. pose proof (Hset _ Hf) as Hmut. unfold mutate in Hr. rewrite Hf in Hr. simpl in Hr.
  destruct (f object) as [m|e|] eqn:Ef; simpl in Hr; [|by destruct Hr|by apply mutation_no_panic in Ef].
  destruct (fresh_identity_kept _ _ _) eqn:Ek; simpl in Hr; [|by destruct Hr].
  destruct (set_controller w m) as [o|] eqn:Es; simpl in Hr; [|by destruct Hr].
  destruct Hr as ([err'|] & h2 & -> & [-> Hr]); [done|]. destruct Hs as (s1 & (o' & _ & Hst & ->) & Hs).
  simpl in Hs. subst s'.
  apply fresh_identity_kept_spec in Ek as (Hkn & Hkns & (_&_&_&_&Hdt)%has_server_identity_spec).
  assert (object_key o = object_key object) as ->.
  { rewrite (set_controller_key _ _ _ Es). unfold object_key. rewrite Hkn, Hkns, Hns.
    by rewrite (same_kind_order object m) by (by apply mutation_kind). }
  apply insert_converged; [done|done|].
  apply (written_settled w i f object m o); try done. by rewrite Hdt, Time_IsZero_nil.
Qed.

Lemma apply_delete_converges (w : AIWorkload) (i : Intent) (object current : Object) (h : history) (outcome : Outcome) (s s' : objects) :
  i_Object i = Pointer object → i_Absent i = true → s !! object_key object = Some current →
  object_key current = object_key object →
  returns (apply_delete current) h (inr outcome) → serves s h s' →
  child_converged w s' i ∧ ∀ k, k ≠ object_key object → s' !! k = s !! k.
Proof.
  intros Ei Ha Hread Hk Hr. unfold apply_delete in Hr. simpl in Hr. destruct Hr as (err & h2 & -> & Hr).
  intros (s1 & He & Hs).
  assert (h2 = []) as -> by (destruct err as [err|]; [destruct (IsNotFound err)|]; simpl in Hr; by destruct Hr).
  simpl in Hs. subst s'. destruct err as [err|]; simpl in He; rewrite Hk in He.
  - destruct He as [-> He]. destruct (IsNotFound err); [|by destruct Hr]. by rewrite He in Hread.
  - destruct He as (c & _ & _ & _ & [->|(o' & [_ Hmark] & ->)]).
    + split; [|intros k Hne; by rewrite lookup_delete_ne]. exists object. split; [done|]. by rewrite lookup_delete_eq.
    + split; [|intros k Hne; by rewrite lookup_insert_ne]. exists object. split; [done|]. by rewrite lookup_insert_eq, Ha.
Qed.

Lemma apply_patch_converges (w : AIWorkload) (i : Intent) (object current : Object) (h : history) (outcome : Outcome) (s s' : objects) :
  valid_intent w i → settling_intent i → i_Object i = Pointer object → i_Absent i = false →
  s !! object_key object = Some current → object_key current = object_key object → owns w current = true →
  Time_IsZero (om_DeletionTimestamp (obj_meta current)) = true →
  returns (apply_patch w i current) h (inr outcome) → serves s h s' →
  child_converged w s' i ∧ ∀ k, k ≠ object_key object → s' !! k = s !! k.
Proof.
  intros Hi Hset Ei Ha Hread Hk Ho Hd Hr Hs. destruct Hi as (_ & _ & _ & _ & _ & _ & _ & Hm).
  destruct (Hm Ha) as [f Hf]. pose proof (Hset _ Hf) as Hmut.
  unfold apply_patch, mutate in Hr. rewrite Hf in Hr. simpl in Hr.
  destruct (f current) as [m|e|] eqn:Ef; simpl in Hr; [|by destruct Hr|by apply mutation_no_panic in Ef].
  destruct (identity_kept _ _) eqn:Ek; simpl in Hr; [|by destruct Hr].
  destruct (set_controller w m) as [o|] eqn:Es; simpl in Hr; [|by destruct Hr].
  destruct (DeepEqual current o) eqn:Eq.
  { destruct Hr as [-> _]. simpl in Hs. subst s'. split; [|done]. exists object. split; [done|].
    rewrite Hread, Ha. split; [done|]. split; [done|]. by exists f, m, o. }
  simpl in Hr. destruct Hr as ([err'|] & h2 & -> & [-> Hr]); [done|].
  destruct Hs as (s1 & (o' & _ & _ & Hst & ->) & Hs). simpl in Hs. subst s'. rewrite Hk.
  apply identity_kept_spec in Ek as (_ & Hkns & _ & _ & _ & _ & Hdt).
  apply insert_converged; [done|done|].
  apply (written_settled w i f current m o); try done; [|by rewrite Hdt].
  rewrite Hkns. by apply andb_true_iff in Ho as [Ho%bool_decide_eq_true _].
Qed.

(** One intent applied without an error leaves its child as it wants it, and every other alone. *)
Lemma Apply_converges (w : AIWorkload) (i : Intent) (h : history) (outcome : Outcome) (s s' : objects) :
  valid_owner w → valid_intent w i → settling_intent i → Time_IsZero (w_DeletionTimestamp w) = true →
  keyed s → returns (Apply w i) h (inr outcome) → serves s h s' →
  child_converged w s' i ∧ ∀ k, k ≠ intent_key w i → s' !! k = s !! k.
Proof.
  intros Ho Hi Hset Hlive Hkey Hr Hs. pose proof Hi as (object & Ei & Hord & _).
  rewrite <-(valid_intent_key _ _ _ Hi Ei). rewrite Ei in Hord.
  unfold Apply in Hr. rewrite Hlive in Hr. simpl in Hr. rewrite (ValidatePlan_single w i), Ei in Hr by done. simpl in Hr.
  destruct Hr as (x & h' & -> & Hr). destruct Hs as (s1 & [-> Hread]%served_get & Hs); [|done].
  simpl in Hr. destruct (get_reply object x) as [err|current]; simpl in Hread.
  - destruct (IsNotFound err); [|destruct Hr as [_ [=]]]. eapply apply_create_converges; eauto.
  - pose proof (Hkey _ _ Hread) as Hck.
    destruct (owns w current) eqn:Eo; simpl in Hr; [|destruct Hr as [_ [=]]].
    destruct (Time_IsZero (om_DeletionTimestamp (obj_meta current))) eqn:Ed; simpl in Hr; [|destruct Hr as [_ [=]]].
    destruct (i_Absent i) eqn:Eabs; [by eapply apply_delete_converges|by eapply apply_patch_converges].
Qed.

(** An intent's wish concerns its own key. *)
Lemma child_converged_ext w (s s' : objects) i :
  valid_intent w i → s' !! intent_key w i = s !! intent_key w i → child_converged w s i → child_converged w s' i.
Proof.
  intros Hi Hk (object & Ei & Hc). exists object. split; [done|].
  by rewrite (valid_intent_key _ _ _ Hi Ei), Hk, <-(valid_intent_key _ _ _ Hi Ei).
Qed.

Lemma record_silent r kind outcome h a :
  returns (if r_Telemetry r then RecordResource kind outcome else Ret ()) h a →
  Forall (λ c, is_child_write (call_event c) = false) h.
Proof.
  destruct (r_Telemetry r); simpl; [|by intros [-> _]]. intros (x & h' & -> & -> & _). by repeat constructor.
Qed.

(** The engine loop without an error: an [Apply] without one, and then the rest. *)
Lemma apply_plan_cons r w i plan h :
  returns (apply_plan r w (i :: plan)) h None →
  ∃ h1 outcome h2 h3, h = h1 ++ h2 ++ h3 ∧ returns (Apply w i) h1 (inr outcome) ∧
    Forall (λ c, is_child_write (call_event c) = false) h2 ∧ returns (apply_plan r w plan) h3 None.
Proof.
  simpl. intros (h1 & out & h2 & -> & Hi & Hr)%returns_bind.
  destruct out as [err|outcome]; apply returns_bind in Hr as (h3 & [] & h4 & -> & Ht%record_silent & Hr).
  - by destruct Hr as [_ [=]].
  - by exists h1, outcome, h3, h4.
Qed.

Lemma loop_converges r w plan h (s s' : objects) :
  valid_owner w → Time_IsZero (w_DeletionTimestamp w) = true →
  Forall (valid_intent w) plan → Forall settling_intent plan → NoDup (childOrder ∘ i_Object <$> plan) →
  keyed s → returns (apply_plan r w plan) h None → serves s h s' →
  Forall (child_converged w s') plan ∧ ∀ k, (∀ i, i ∈ plan → k ≠ intent_key w i) → s' !! k = s !! k.
Proof.
  intros Ho Hlive. revert h s. induction plan as [|i plan IH]; intros h s Hv Hset Hnd Hkey Hr Hs.
  { destruct Hr as [-> _]. simpl in Hs. subst. split; [constructor|done]. }
  apply Forall_cons in Hv as [Hi Hv]. apply Forall_cons in Hset as [Hsi Hset].
  rewrite fmap_cons in Hnd. apply NoDup_cons in Hnd as [Hni Hnd].
  apply apply_plan_cons in Hr as (h1 & outcome & h2 & h3 & -> & Ha & Hm & Hr).
  apply serves_app in Hs as (s1 & Hs1 & (s2 & ->%serves_silent & Hs)%serves_app); [|done].
  destruct (Apply_converges w i h1 outcome s s1) as [Hc Hf]; try done.
  destruct (IH h3 s1) as [Hcs Hfs]; try done; [by eapply serves_keyed|]. split.
  - apply Forall_cons. split; [|done]. eapply child_converged_ext; [done| |exact Hc]. apply Hfs.
    intros j Hj Hk. unfold intent_key in Hk. apply Hni, list_elem_of_fmap. exists j. split; [|done]. simpl. congruence.
  - intros k Hk. rewrite Hfs, Hf; set_solver.
Qed.

(** ** A converged plan *)

(** Every read of a managed child in [h] succeeded or found nothing. *)
Definition reads_answered (h : history) : Prop :=
  Forall (λ c, match c with Call e x => ∀ err, answer_error e x = Some err → IsNotFound err = true end) h.

(** What [Apply] does after its read. *)
Definition after_read w i object (got : reply Object) : program (reply Outcome) :=
  match got with
  | inl err => if IsNotFound err then apply_create w i object else Ret (inl err)
  | inr current =>
      if negb (owns w current) then Ret (inl (Sentinel ErrOwnershipConflict))
      else if negb (Time_IsZero (om_DeletionTimestamp (obj_meta current))) then Ret (inl (Sentinel ErrChildDeleting))
      else if i_Absent i then apply_delete current
      else apply_patch w i current
  end.

Lemma Apply_reads w i object :
  valid_owner w → valid_intent w i → Time_IsZero (w_DeletionTimestamp w) = true → i_Object i = Pointer object →
  Apply w i = Vis (get_event object) (λ x, after_read w i object (get_reply object x)).
Proof. intros Ho Hi Hlive Ei. unfold Apply. rewrite Hlive. simpl. by rewrite (ValidatePlan_single w i), Ei. Qed.

Lemma after_read_idle w i object s (got : reply Object) :
  child_converged w s i → i_Object i = Pointer object → read_from s (object_key object) got →
  ∃ out, after_read w i object got = Ret out ∧
    ((∀ err, got = inl err → IsNotFound err = true) → (i_Absent i = true → s !! object_key object = None) →
     out = inr Unchanged).
Proof.
  intros (object' & Ei' & Hc) Ei Hr. rewrite Ei in Ei'. injection Ei' as <-. destruct got as [err|c]; simpl in *.
  - destruct (IsNotFound err) eqn:En; [|exists (inl err); split; [done|]; intros He; by rewrite He in En].
    rewrite (Hr eq_refl) in Hc. unfold apply_create. rewrite Hc. by exists (inr Unchanged).
  - rewrite Hr in *. destruct (i_Absent i) eqn:Ea.
    + rewrite Hc. simpl. destruct (owns w c); simpl; eexists; (split; [done|]); intros _ Hn; by specialize (Hn eq_refl).
    + pose proof Hc as (Ho & Hd & _). rewrite Ho, Hd. simpl. rewrite apply_patch_settled by done. by exists (inr Unchanged).
Qed.

(** A converged child is read, and that is all; only a child that is on its way out, or a read
    that failed, ends the loop. *)
Lemma Apply_idle w i s :
  valid_owner w → valid_intent w i → Time_IsZero (w_DeletionTimestamp w) = true → child_converged w s i →
  (∀ h e s', issues (Apply w i) h e → serves s h s' → is_child_write e = false) ∧
  (∀ h out s', returns (Apply w i) h out → serves s h s' →
    s' = s ∧ (reads_answered h → (i_Absent i = true → s !! intent_key w i = None) → out = inr Unchanged)).
Proof.
  intros Ho Hi Hlive Hc. pose proof Hi as (object & Ei & Hord & _). rewrite Ei in Hord.
  rewrite <-(valid_intent_key _ _ _ Hi Ei), (Apply_reads w i object) by done.
  assert (is_child_write (get_event object) = false) as Hsil by (by destruct object).
  split.
  - intros h e s' [[-> ->]|(x & h' & -> & Hr)]; [done|]. intros (s1 & [-> Hread]%served_get & _); [|done].
    by destruct (after_read_idle w i object s _ Hc Ei Hread) as (out & Heq & _); rewrite Heq in Hr.
  - intros h out s' (x & h' & -> & Hr) (s1 & [-> Hread]%served_get & Hs); [|done].
    destruct (after_read_idle w i object s _ Hc Ei Hread) as (out' & Heq & Hout). rewrite Heq in Hr.
    destruct Hr as [-> ->]. simpl in Hs. split; [done|]. intros [Hx _]%Forall_cons. apply Hout.
    intros err Herr. by apply Hx, get_reply_error.
Qed.

Lemma loop_idle r w plan s :
  valid_owner w → Time_IsZero (w_DeletionTimestamp w) = true → Forall (valid_intent w) plan →
  Forall (child_converged w s) plan →
  (∀ h e s', issues (apply_plan r w plan) h e → serves s h s' → is_child_write e = false) ∧
  (∀ h out s', returns (apply_plan r w plan) h out → serves s h s' →
    s' = s ∧ (reads_answered h → (∀ i, i ∈ plan → i_Absent i = true → s !! intent_key w i = None) → out = None)).
Proof.
  intros Ho Hlive Hv Hc. induction plan as [|i plan IH]; simpl.
  { split; [done|]. by intros h out s' [-> ->] ->. }
  apply Forall_cons in Hv as [Hi Hv]. apply Forall_cons in Hc as [Hci Hc]. destruct (IH Hv Hc) as [IHi IHr].
  destruct (Apply_idle w i s) as [Hai Har]; try done. split.
  - intros h e s' [Ha|(h1 & out & h2 & -> & Ha & Hr)]%issues_bind Hs; [by eapply Hai|].
    apply serves_app in Hs as (s1 & Hs1 & Hs). destruct (Har _ _ _ Ha Hs1) as [-> _].
    destruct out as [err|outcome]; apply issues_bind in Hr as [Hr|(h3 & [] & h4 & -> & Hm%record_silent & Hr)].
    + destruct (r_Telemetry r); simpl in Hr; [|done]. destruct Hr as [[_ ->]|(? & ? & _ & [])]. done.
    + done.
    + destruct (r_Telemetry r); simpl in Hr; [|done]. destruct Hr as [[_ ->]|(? & ? & _ & [])]. done.
    + apply serves_app in Hs as (s2 & ->%serves_silent & Hs); [|done]. by eapply IHi.
  - intros h out s' (h1 & o & h2 & -> & Ha & Hr)%returns_bind (s1 & Hs1 & Hs)%serves_app.
    destruct (Har _ _ _ Ha Hs1) as [-> Hout].
    destruct o as [err|outcome]; apply returns_bind in Hr as (h3 & [] & h4 & -> & Hm%record_silent & Hr);
      apply serves_app in Hs as (s2 & ->%serves_silent & Hs); try done.
    + destruct Hr as [-> ->]. simpl in Hs. split; [done|]. intros [Hh _]%Forall_app Hgone.
      specialize (Hout Hh (Hgone i ltac:(set_solver))). done.
    + destruct (IHr _ _ _ Hr Hs) as [-> Hn]. split; [done|].
      intros (_ & (_ & Hh)%Forall_app)%Forall_app Hgone. apply Hn; [done|]. intros j Hj. apply Hgone. set_solver.
Qed.

End Convergence.

(** The kinds of a sorted plan are different. *)
Lemma sorted_orders plan :
  StronglySorted (λ i j, intent_order i < intent_order j)%Z plan → NoDup (childOrder ∘ i_Object <$> plan).
Proof.
  induction 1 as [|i l Hl IH Hi]; [constructor|]. rewrite fmap_cons. constructor; [|done].
  intros (j & Hj & Hin)%list_elem_of_fmap. rewrite Forall_forall in Hi. specialize (Hi _ Hin).
  unfold intent_order in Hi. simpl in Hj. lia.
Qed.

Section Pass.
Context `{QuantitiesLaws, UnstructuredHelpersLaws, ApiErrors, OwnerHelpersLaws, SemanticDeepEqualLaws Object}.
Implicit Types (s : objects) (h : history).

(** C1. The engine converges, for a live workload without route and stabilization window (the two that
    never settle, see below) and a cluster that stores each object under its own key.  A pass over
    the plan that ends without an error leaves each child as its intent wants it: gone or terminating
    if absent, and otherwise present, owned, live and a fixpoint of its mutation, also after the API
    server's defaults; no other object of the cluster changes.  A further pass over that cluster
    issues no child write and changes nothing, and ends without an error unless a read fails or a
    child is still terminating. *)
Theorem apply_plan_converges r w external exposure plan h s s' :
  build_plan Build w external exposure = Ok plan → settling_workload w →
  Time_IsZero (w_DeletionTimestamp w) = true → keyed s →
  returns (apply_plan r w plan) h None → serves s h s' →
  Forall (child_converged w s') plan ∧
  (∀ k, (∀ i, i ∈ plan → k ≠ intent_key w i) → s' !! k = s !! k) ∧
  (∀ h2 e s2, issues (apply_plan r w plan) h2 e → serves s' h2 s2 → is_child_write e = false) ∧
  (∀ h2 out s2, returns (apply_plan r w plan) h2 out → serves s' h2 s2 →
    s2 = s' ∧ (reads_answered h2 → (∀ i, i ∈ plan → i_Absent i = true → s' !! intent_key w i = None) → out = None)).
Proof.
  intros Hp Hw Hlive Hkey Hr Hs. pose proof (build_plan_settling _ _ _ _ Hp Hw) as Hset.
  pose proof (build_plan_sorted _ _ _ _ _ Hp) as Hsort.
  apply build_plan_intents in Hp as (Ho & Hv & _); [|typeclasses eauto].
  destruct (loop_converges r w plan h s s') as [Hc Hf]; try done; [by apply sorted_orders|].
  destruct (loop_idle r w plan s') as [Hi Hout]; done.
Qed.

End Pass.

(** ** What never settles *)

Section Unsettled.
Context `{QuantitiesLaws, UnstructuredHelpersLaws, ApiErrors, OwnerHelpersLaws, SemanticDeepEqual Object}.
Implicit Types (w : AIWorkload) (i : Intent).

(** Semantic equality tells a missing scaling rule from one that is there. *)
Definition equality_sees_rules : Prop :=
  ∀ a b, DeepEqual (OHorizontalPodAutoscaler a) (OHorizontalPodAutoscaler b) = true →
    is_Some (hpa_Behavior a ≫= hb_ScaleUp) → is_Some (hpa_Behavior b ≫= hb_ScaleUp).

(** The weight of a route's first backend reference, [ANil] when there is none. *)
Definition any_field (v : any) (k : string) : any := match any_map v with Some m => any_get m k | None => ANil end.
Definition any_first (v : any) : any := match any_slice v with Some (x :: _) => x | _ => ANil end.
Definition route_weight (u : Unstructured) : any :=
  any_field (any_first (any_field (any_first (any_field (any_get (un_Object u) "spec") "rules")) "backendRefs")) "weight".

(** Semantic equality tells a missing weight from one that is there. *)
Definition equality_sees_weight : Prop :=
  ∀ u v, DeepEqual (OUnstructured u) (OUnstructured v) = true → route_weight u ≠ ANil → route_weight v ≠ ANil.

(** An intent whose mutation changes the stored form [s] of what it wrote patches it again. *)
Lemma Apply_repatches w i h e o object s s' x :
  safe_intent i → issues (Apply w i) h e → (e = ECreate o ∨ ∃ before, e = EPatch before o) →
  stored o s → i_Object i = Pointer object → get_reply object x = inr s →
  (∀ f, i_Mutate i = Some f → f s = Ok s') → DeepEqual s s' = false →
  issues (Apply w i) [Call (get_event object) x] (EPatch s s').
Proof.
  intros Hsafe Hi Hw Hst Eo Hx Hm Heq.
  destruct (written_made w i h e o (safe_intent_total _ Hsafe) Hi Hw) as (f & old & mutated & Hf & Ha & _ & Hs & Hns & Hd & Hlive & Hv).
  specialize (Hm f Hf). unfold safe_intent in Hsafe. rewrite Hf in Hsafe.
  pose proof (mutation_identity _ _ Hm) as Hid. destruct Hst as (_ & _ & _ & _ & Hsns & _ & _ & Hsor & Hsd).
  assert (owns w s = true) as Hown by (rewrite <-(set_controller_owns w _ _ Hns Hs); by apply owns_ext).
  unfold Apply. rewrite Hlive. simpl. rewrite Hv, Eo. simpl. right. exists x, []. split; [done|].
  pose proof (set_controller_inv _ _ _ Hs) as (refs & _ & Ho).
  rewrite Hx, Hown, Hsd, Ho, obj_meta_with_meta. simpl. rewrite Hd, Ha. simpl.
  unfold apply_patch, mutate. rewrite Hf. simpl. rewrite Hm. simpl.
  rewrite (proj2 (identity_kept_spec _ _)) by done. simpl. destruct Hid as (_ & Hns' & _ & _ & Hor' & _).
  rewrite (set_controller_settled w _ _ s' Hs) by congruence. rewrite Heq. by left.
Qed.

Lemma autoscalingIntent_mutate w i :
  autoscalingIntent w = Ok i → i_Absent i = false →
  i_Mutate i = Some (on_HorizontalPodAutoscaler (λ h, mutateHPA h w)).
Proof.
  unfold autoscalingIntent. destruct (AutoscalingEnabled (Some w)); simpl; [|by intros [= <-]].
  destruct (sp_Autoscaling (w_Spec w)); simpl; [|done]. case_match; [done|]. by intros [= <-].
Qed.

Lemma HTTPRouteIntent_mutate w i :
  HTTPRouteIntent (Some w) = Ok i → i_Absent i = false → i_Mutate i = Some (HTTPRouteMutation w).
Proof.
  unfold HTTPRouteIntent. destruct (HTTPRouteEnabled (Some w)); simpl; [|by intros [= <-]].
  destruct (ServiceEnabled (Some w)); simpl; [|done]. destruct (sp_Exposure (w_Spec w)); simpl; [|done].
  case_match; [done|]. by intros [= <-].
Qed.

(** The two children whose stored form the controller rewrites: an autoscaler with a stabilization
    window, whose behavior the server completes, and a route whose backend the server weighs. *)
Definition window_intent_of w i : Prop :=
  autoscalingIntent w = Ok i ∧
  ∃ a seconds, sp_Autoscaling (w_Spec w) = Some a ∧ as_ScaleDownStabilizationSeconds a = Some seconds.

Definition weighed_route_of w i (s : Object) : Prop :=
  HTTPRouteIntent (Some w) = Ok i ∧ ∃ u, s = OUnstructured u ∧ route_weight u ≠ ANil.

Lemma window_rewritten w i f old mutated s :
  window_intent_of w i → equality_sees_rules → i_Mutate i = Some f → i_Absent i = false → f old = Ok mutated → accepted mutated s →
  ∃ s', f s = Ok s' ∧ DeepEqual s s' = false ∧ accepted s' s.
Proof.
  intros (Ei & a & seconds & Ea & Es) Heq Hf Ha Hm Hacc.
  rewrite (autoscalingIntent_mutate w i Ei Ha) in Hf. injection Hf as <-.
  destruct old as [| | | |old| | |]; try done. apply fmap_Ok in Hm as (made & Hm & <-).
  destruct s as [| | | |s| | |]; try done. simpl in Hacc.
  destruct (mutateHPA_unsettled w a seconds old made s Ea Es Hm Hacc) as (s' & Hs' & Hacc' & Hnone & Hsome).
  exists (OHorizontalPodAutoscaler s'). simpl. rewrite Hs'. split; [done|]. split; [|done].
  apply not_true_is_false. intros Eq. destruct (Heq _ _ Eq Hsome) as [rules Hr]. by rewrite Hnone in Hr.
Qed.

Lemma any_defaulted_field m m' k :
  any_defaulted (AMap m) (AMap m') → any_get m k ≠ ANil → any_defaulted (any_get m k) (any_get m' k).
Proof. inversion 1; subst; [constructor|auto]. Qed.

Lemma weighed_rewritten w i f old mutated s :
  weighed_route_of w i s → equality_sees_weight → i_Mutate i = Some f → i_Absent i = false → f old = Ok mutated → accepted mutated s →
  ∃ s', f s = Ok s' ∧ DeepEqual s s' = false ∧ accepted s' s.
Proof.
  intros (Ei & u & -> & Hu) Heq Hf Ha Hm Hacc. rewrite (HTTPRouteIntent_mutate w i Ei Ha) in Hf. injection Hf as <-.
  destruct old as [| | | | | |old|]; try done. simpl in Hm. case_bool_decide as Hg; [|done]. apply fmap_Ok in Hm as (made & Hm & <-).
  apply mutateHTTPRoute_inv in Hm as (x & Hx & Hgvk & _ & Hmade). destruct Hacc as [Hgu Hdef].
  assert (∃ u', mutateHTTPRoute u w = Ok u') as [u' Hu'] by (unfold mutateHTTPRoute; rewrite Hx; by eexists).
  exists (OUnstructured u'). simpl. rewrite bool_decide_true, Hu' by congruence. split; [done|].
  apply mutateHTTPRoute_inv in Hu' as (y & Hy & Hgvk' & _ & Hmade'). rewrite Hx in Hy. injection Hy as <-. split.
  - apply not_true_is_false. intros Eq. apply (Heq _ _ Eq Hu). unfold route_weight. by rewrite Hmade', any_get_set.
  - split; [done|]. rewrite Hmade'. constructor. intros k. destruct (decide (k = "spec")) as [->|Hk].
    + rewrite any_get_set. intros _. rewrite Hmade in Hdef. rewrite <-(any_get_set (un_Object old) "spec" (route_spec w x)).
      apply any_defaulted_field; [done|]. by rewrite any_get_set.
    + rewrite any_get_set_ne by done. constructor.
Qed.

(** C36. Two children never settle: an autoscaler with a stabilization window, and a route.  The API
    server completes them with the default scaling rules and the default weight of a backend; the
    next pass reads the completion, drops it again, and patches; the server completes the patched
    object to the one it had. *)
Theorem Apply_rewrites_defaults w i h e o object s x :
  issues (Apply w i) h e → (e = ECreate o ∨ ∃ before, e = EPatch before o) → stored o s →
  i_Object i = Pointer object → get_reply object x = inr s →
  (window_intent_of w i ∧ equality_sees_rules ∨ weighed_route_of w i s ∧ equality_sees_weight) →
  ∃ after, issues (Apply w i) [Call (get_event object) x] (EPatch s after) ∧ accepted after s.
Proof.
  intros Hi Hw Hst Eo Hx Hcase.
  assert (safe_intent i) as Hsafe.
  { apply (wellformed_intent_safe w). destruct Hcase as [[[E%autoscalingIntent_wf _] _]|[[E%HTTPRouteIntent_wf _] _]]; apply E. }
  destruct (written_made w i h e o (safe_intent_total _ Hsafe) Hi Hw) as (f & old & mutated & Hf & Ha & Hm & Hs & _).
  pose proof (proj1 Hst) as Hacc. apply set_controller_inv in Hs as (refs & _ & Ho). rewrite Ho in Hacc. apply accepted_with_meta in Hacc.
  assert (∃ s', f s = Ok s' ∧ DeepEqual s s' = false ∧ accepted s' s) as (s' & Hs' & Hneq & Hacc').
  { destruct Hcase as [[Hc Heq]|[Hc Heq]]; [by eapply window_rewritten|by eapply weighed_rewritten]. }
  exists s'. split; [|done]. eapply (Apply_repatches w i h e o object s s' x); try done. by rewrite Hf; intros ? [= <-].
Qed.

End Unsettled.

(** ** Other clients

    Here the cluster a write meets is any cluster: what other clients did since the read is
    arbitrary. *)
Section Isolation.
Context `{ConditionsLaws, ApiErrors, UnstructuredHelpersLaws, OwnerHelpers}.
Context `{SemanticDeepEqual AIWorkloadStatus, SemanticDeepEqual Object}.
Implicit Types (s : objects) (h : history).

Let R := api_contract any_text.

(** An object of the workload [w] that is not being deleted. *)
Definition own_live (w : AIWorkload) (o : Object) : Prop :=
  owns w o = true ∧ Time_IsZero (om_DeletionTimestamp (obj_meta o)) = true.

(** The history read [o]. *)
Definition was_read h (o : Object) : Prop :=
  ∃ object x, Call (get_event object) x ∈ h ∧ get_reply object x = inr o.

(** A write is about an object of [w] as the history read it. *)
Definition write_of (w : AIWorkload) h (e : event) : Prop :=
  match e with
  | EPatch before _ => own_live w before
  | EDelete o uid resourceVersion =>
      own_live w o ∧ was_read h o ∧ uid = om_UID (obj_meta o) ∧ resourceVersion = om_ResourceVersion (obj_meta o)
  | _ => True
  end.

Definition own_write ns name h (e : event) : Prop :=
  is_child_write e = true → ∃ w, Call (EGetWorkload ns name) (inr w) ∈ h ∧ write_of w h e.

(** A resource version names one version of an object. *)
Definition versions_identify h s : Prop :=
  ∀ o k current, was_read h o → s !! k = Some current → om_UID (obj_meta current) = om_UID (obj_meta o) →
    om_ResourceVersion (obj_meta current) = om_ResourceVersion (obj_meta o) → current = o.

Lemma owns_same w w' o : same_workload w w' → owns w' o = owns w o.
Proof. intros (_ & Hns & Hn & Hu & _). unfold owns. by rewrite Hns, Hn, Hu. Qed.

Lemma apply_plan_own r ns name w0 w plan h :
  same_workload w0 w → Forall safe_intent plan → Call (EGetWorkload ns name) (inr w0) ∈ h →
  wp R (own_write ns name) h (apply_plan r w plan) (λ _ _, True).
Proof.
  intros Hsame. revert h. induction plan as [|i plan IH]; intros h Hs Hin; simpl; [done|].
  apply Forall_cons in Hs as [Hi Hs].
  assert (∀ (t : program ()) h1, safe R (λ e, is_child_write e = false) t (λ _, True) →
    wp R (own_write ns name) h1 t (λ h2 _, prefix h1 h2)) as Hsilent.
  { intros t h1 Ht. eapply wp_mono; [apply (safe_wp _ _ _ h1 Ht)|naive_solver]. unfold own_write. congruence. }
  assert (wp R (λ _ _, True) h (Apply w i) (λ h' _, prefix h h')) as Hgrow by (eapply wp_impl; [apply wp_grows|done|done]).
  eapply wp_seq.
  { eapply wp_impl; [apply (wp_and _ _ _ _ (wp_impl _ _ _ (Apply_calls w i h (safe_intent_total i Hi)) (λ _ _, I) (λ _ _ Hc, Hc)) Hgrow)|done|].
    intros h' e [Hc _] Hw. exists w0. destruct Hc as [object _ ->|object x err f mutated o _ _ _ -> _ _ _ _ _
      |object x current _ _ -> Hx Ho Hd|object x before f mutated after _ _ _ -> Hx Ho Hd _ _ _ _].
    - by rewrite get_event_silent in Hw.
    - set_solver.
    - split; [set_solver|]. split; [split; [by rewrite <-(owns_same w0 w)|done]|]. split; [|done].
      exists object, x. split; [set_solver|done].
    - split; [set_solver|]. split; [by rewrite <-(owns_same w0 w)|done]. }
  intros h1 [err|outcome] [_ Hp1]; (eapply wp_seq; [apply Hsilent; by destruct (r_Telemetry r)|]); [done|].
  intros h2 ? Hp2. apply IH; [done|]. eapply prefix_elem_of; [|done]. by etrans.
Qed.

Lemma silent_own {A} ns name (t : program A) h :
  safe R (λ e, is_child_write e = false) t (λ _, True) → wp R (own_write ns name) h t (λ _ _, True).
Proof.
  intros Ht. eapply wp_mono; [apply (safe_wp _ _ _ h Ht)|done]. unfold own_write. congruence.
Qed.

Lemma Reconcile_own r ns name :
  well_built any_text r → wp R (own_write ns name) [] (Reconcile r ns name) (λ _ _, True).
Proof.
  intros [Hl Hb]. unfold Reconcile. case_bool_decide; [done|]. destruct (watchesNamespace r ns); simpl; [|done].
  split; [done|]. intros [err|w] [Hok _]; [done|]. destruct (r_Builder r) as [build|] eqn:Eb; [|done].
  destruct (Time_IsZero _); simpl; [|done]. destruct (Hok w eq_refl) as (_ & _ & Hk).
  set (h0 := [Call (EGetWorkload ns name) (inr w)]).
  assert (follows any_text w w) as Hw by (by split; [|apply Hk]).
  eapply (wp_seq _ _ _ (λ h1 '(w1, _), prefix h0 h1 ∧ same_workload w w1)).
  { eapply wp_impl; [eapply wp_mono; [apply (wp_and _ _ _ _ (run_gates_passed r Hl w h0)
      (safe_wp _ _ (λ _ _, True) h0 (run_gates_safe any_text r Hl w w Hw) (λ _ _ _ _, I)))|]|done|].
    - intros h1 [w1 out] [_ [Hp [[Hs _] _]]]. done.
    - intros h1 e [He _] Hcw. congruence. }
  intros h1 [w1 [err|[external exposure]]] [Hp1 Hs1]; [apply silent_own, reportFailure_silent|].
  assert (Call (EGetWorkload ns name) (inr w) ∈ h1) as Hin by (eapply prefix_elem_of; [done|]; set_solver).
  eapply (wp_seq _ _ _ (λ _ _, True)).
  - unfold reconcile_children.
    destruct (build_plan _ _ _ _) as [plan|err|] eqn:Ep; simpl; [|done|by apply build_plan_no_panic in Ep; [|apply Hb]].
    apply build_plan_intents in Ep as (_ & _ & Hs); [|by apply Hb].
    eapply wp_seq; [by apply (apply_plan_own r ns name w)|]. intros h' [err|] _; simpl; [done|].
    apply silent_own, validate_secrets_silent.
  - intros h2 [err|] _; [|apply silent_own, report_status_silent].
    destruct (errors_Is err ErrChildDeleting); [done|]. apply silent_own, reportFailure_silent.
Qed.

(** C5. Whatever other clients do to the cluster between the calls of a reconciliation, the
    reconciliation changes a stored object only if it is a live child of the workload it read; all
    it can do otherwise is create one where there was none. *)
Theorem Reconcile_changes_only_own r ns name h e x s s' k :
  well_built any_text r → Forall R h → issues (Reconcile r ns name) h e →
  served s s' e x → versions_identify h s → s' !! k ≠ s !! k →
  ∃ w, Call (EGetWorkload ns name) (inr w) ∈ h ∧
    match s !! k with
    | None => ∃ o, e = ECreate o ∧ k = object_key o
    | Some current => own_live w current
    end.
Proof.
  intros Hb Hh Hi Hserved Hv Hne.
  destruct (is_child_write e) eqn:Hw; [|by apply served_silent in Hserved as ->].
  destruct (wp_issues [] _ _ _ _ (Reconcile_own r ns name Hb) Hi Hh Hw) as (w & Hin & Hwr).
  exists w. split; [done|]. destruct e; try done; simpl in *.
  - destruct x as [err|]; [by subst|]. destruct Hserved as (o' & Hk & _ & ->).
    destruct (decide (k = object_key o)) as [->|]; [rewrite Hk; eauto|by rewrite lookup_insert_ne in Hne].
  - destruct x as [err|]; [by subst|]. destruct Hserved as (o' & Hk & _ & _ & ->).
    destruct (decide (k = object_key before)) as [->|]; [by rewrite Hk|by rewrite lookup_insert_ne in Hne].
  - destruct Hwr as (Hown & Hread & -> & ->). destruct x as [err|]; [by destruct Hserved as [-> _]|].
    destruct Hserved as (c & Hc & Hu & Hr & Hs').
    destruct (decide (k = object_key o)) as [->|].
    + rewrite Hc. by rewrite (Hv o _ c Hread Hc Hu Hr).
    + destruct Hs' as [->|(o' & _ & ->)]; [by rewrite lookup_delete_ne in Hne|by rewrite lookup_insert_ne in Hne].
Qed.

End Isolation.

(** ** Witnesses *)

Section Witnesses.
Import Ref Sample ClusterRef.

(** The plan of the sample workload, and its first pass over an empty cluster. *)
Definition sample_plan : res (list Intent) := build_plan Build workload [] no_exposure.
Definition sample_pass : program (option error) := apply_plan reconciler workload (result_of sample_plan []).

(** A pass that ends without an error. *)
Definition passed (t : program (option error)) : bool :=
  match run handle (0%N, ∅) t with Some (_, None) => true | _ => false end.

Lemma passed_run t : passed t = true → ∃ st, run handle (0%N, ∅) t = Some (st, None).
Proof. unfold passed. destruct (run _ _ t) as [[st [|]]|]; try done. eauto. Qed.

Lemma workload_settling : settling_workload workload.
Proof. split; [intros a Ha; discriminate Ha|reflexivity]. Qed.

Lemma apply_plan_converges_witness :
  ∃ plan st, sample_plan = Ok plan ∧ length plan = 6%nat ∧
    run handle (0%N, ∅) (apply_plan reconciler workload plan) = Some (st, None) ∧
    Forall (child_converged workload st.2) plan.
Proof.
  assert (∃ plan, sample_plan = Ok plan) as [plan Hp].
  { exists (result_of sample_plan []). apply result_of_Ok. vm_compute. reflexivity. }
  assert (length plan = 6%nat) as Hl.
  { assert (length (result_of sample_plan []) = 6%nat) as Hl by (vm_compute; reflexivity).
    rewrite Hp in Hl. exact Hl. }
  assert (∃ st, run handle (0%N, ∅) (apply_plan reconciler workload plan) = Some (st, None)) as [st Hr].
  { assert (passed sample_pass = true) as Hr by (vm_compute; reflexivity).
    unfold sample_pass in Hr. rewrite Hp in Hr. apply passed_run. exact Hr. }
  exists plan, st. split; [exact Hp|]. split; [exact Hl|]. split; [exact Hr|].
  apply (apply_plan_converges reconciler workload [] no_exposure plan
    (log handle (0%N, ∅) (apply_plan reconciler workload plan)) ∅ st.2 Hp workload_settling).
  - reflexivity.
  - intros k o Ho. discriminate Ho.
  - eapply run_returns. exact Hr.
  - exact (run_serves _ _ _ _ Hr).
Defined.

(** The sample workload with an autoscaler that has a stabilization window. *)
Definition window_autoscaling : AutoscalingSpec := {|
  as_Enabled := Some true; as_MinReplicas := Some 3%Z; as_MaxReplicas := Some 6%Z;
  as_Metrics := [{| am_Type := AutoscalingCPU; am_TargetUtilization := Some 70%Z; am_MetricName := ""; am_TargetValue := None |}];
  as_ScaleDownStabilizationSeconds := Some 300%Z |}.

Definition window_workload : AIWorkload := {| w_meta := meta; w_Status := empty_status; w_Spec := {|
  sp_Environment := ""; sp_Tenant := ""; sp_Policy := ""; sp_Image := "registry.example/app:1";
  sp_Replicas := None; sp_Autoscaling := Some window_autoscaling; sp_Availability := None;
  sp_Container := {| cs_Port := 8080 |}; sp_Resources := None; sp_Health := None; sp_Service := None;
  sp_Exposure := None; sp_SecretRefs := []; sp_ExternalSecrets := []; sp_Network := None |} |}.

Definition window_target : Object := OHorizontalPodAutoscaler
  (new_HorizontalPodAutoscaler (new_meta (ChildName (w_Name window_workload)) (w_Namespace window_workload))).
Definition window_intent : Intent := {| i_Object := Pointer window_target;
  i_Mutate := Some (on_HorizontalPodAutoscaler (λ h, mutateHPA h window_workload)); i_Absent := false |}.
Definition window_apply : program (reply Outcome) := Apply window_workload window_intent.
Definition window_calls : history := calls (Sample.cluster window_workload) window_apply.

(** The autoscaler it creates, and what the server stores of it. *)
Definition window_created : Object :=
  Eval vm_compute in match nth_event window_calls 1 with ECreate o => o | _ => window_target end.
Definition window_stored : Object := Eval vm_compute in saved 0 window_created.

Definition window_read : answer (get_event window_target) :=
  Eval vm_compute in match window_stored with OHorizontalPodAutoscaler h => inr h | _ => inl not_found end.

Lemma window_saved : stored window_created window_stored.
Proof.
  assert (saved 0 window_created = window_stored) as <- by (vm_compute; reflexivity). apply stored_saved.
Qed.

(** The route of the full sample workload, with the weight a Gateway API server gives its backend. *)
Definition on_field (k : string) (f : any → any) (v : any) : any :=
  match v with AMap m => AMap (any_set m k (f (any_get m k))) | _ => v end.
Definition on_first (f : any → any) (v : any) : any :=
  match v with ASlice (x :: l) => ASlice (f x :: l) | _ => v end.
Definition or_one (v : any) : any := match v with ANil => AInt 1 | _ => v end.

Definition defaulting (f : any → any) : Prop := ∀ v, v ≠ ANil → any_defaulted v (f v).

Lemma on_field_defaulting k f : defaulting f → defaulting (on_field k f).
Proof.
  intros Hf [| | | | |m] _; try constructor. intros k' Hk. destruct (decide (k' = k)) as [->|Hne].
  - rewrite any_get_set. by apply Hf.
  - rewrite any_get_set_ne by done. constructor.
Qed.

Lemma on_first_defaulting f : (∀ v, any_defaulted v (f v)) → defaulting (on_first f).
Proof. intros Hf [| | | |[|x l]|] _; try constructor. constructor; [apply Hf|]. induction l; by repeat constructor. Qed.

Lemma or_one_defaulting : defaulting or_one.
Proof. intros [| | | | |]; try constructor. done. Qed.

(** Nothing is added to a value that is not there. *)
Lemma defaulting_total f : f ANil = ANil → defaulting f → ∀ v, any_defaulted v (f v).
Proof. intros Hn Hf v. destruct (decide (v = ANil)) as [->|Hv]; [rewrite Hn; constructor|by apply Hf]. Qed.

Definition weigh (v : any) : any :=
  on_field "spec" (on_field "rules" (on_first (on_field "backendRefs" (on_first (on_field "weight" or_one))))) v.

Lemma weigh_defaulting : defaulting weigh.
Proof.
  unfold weigh. repeat (apply on_field_defaulting).
  apply on_first_defaulting, defaulting_total, on_field_defaulting; [done|].
  apply on_first_defaulting, defaulting_total, on_field_defaulting; [done|]. apply or_one_defaulting.
Qed.

Definition weighed (u : Unstructured) : Unstructured := {|
  un_GVK := un_GVK u; un_meta := stamp 1 (un_meta u);
  un_Object := match weigh (AMap (un_Object u)) with AMap m => m | _ => [] end |}.

Lemma weighed_stored u : stored (OUnstructured u) (OUnstructured (weighed u)).
Proof.
  split; [split; [done|]|].
  - apply (weigh_defaulting (AMap (un_Object u))). done.
  - simpl. split; [by case_bool_decide|done].
Qed.

Definition weighed_target : Object := OUnstructured {| un_GVK := HTTPRouteGVK;
  un_meta := new_meta (ChildName (w_Name full_workload)) (w_Namespace full_workload); un_Object := [] |}.
Definition weighed_intent : Intent := {| i_Object := Pointer weighed_target;
  i_Mutate := Some (HTTPRouteMutation full_workload); i_Absent := false |}.
Definition weighed_calls : history := calls (Sample.cluster full_workload) (Apply full_workload weighed_intent).
Definition weighed_created : Unstructured :=
  Eval vm_compute in match nth_event weighed_calls 1 with
    | ECreate (OUnstructured u) => u
    | _ => {| un_GVK := HTTPRouteGVK; un_meta := new_meta "" ""; un_Object := [] |} end.
Definition weighed_read : answer (get_event weighed_target) := inr (weighed weighed_created).

Lemma Apply_rewrites_defaults_witness :
  (∃ after, issues (Apply window_workload window_intent) [Call (get_event window_target) window_read] (EPatch window_stored after)) ∧
  (∃ after, issues (Apply full_workload weighed_intent) [Call (get_event weighed_target) weighed_read]
    (EPatch (OUnstructured (weighed weighed_created)) after)).
Proof.
  split.
  - destruct (Apply_rewrites_defaults window_workload window_intent (take 1 window_calls) (nth_event window_calls 1)
      window_created window_target window_stored window_read) as (after & Hi & _).
    + apply issued. vm_compute. reflexivity.
    + left. vm_compute. reflexivity.
    + exact window_saved.
    + reflexivity.
    + reflexivity.
    + left. split; [split; [reflexivity|]|].
      * exists window_autoscaling, 300%Z. split; reflexivity.
      * intros a b Heq%bool_decide_eq_true. injection Heq as ->. trivial.
    + exists after. exact Hi.
  - destruct (Apply_rewrites_defaults full_workload weighed_intent (take 1 weighed_calls) (nth_event weighed_calls 1)
      (OUnstructured weighed_created) weighed_target (OUnstructured (weighed weighed_created)) weighed_read) as (after & Hi & _).
    + apply issued. vm_compute. reflexivity.
    + left. vm_compute. reflexivity.
    + apply weighed_stored.
    + reflexivity.
    + reflexivity.
    + right. split; [split; [reflexivity|]|].
      * exists (weighed weighed_created). split; [reflexivity|]. intros Hn. vm_compute in Hn. discriminate Hn.
      * intros a b Heq%bool_decide_eq_true. injection Heq as ->. trivial.
    + exists after. exact Hi.
Defined.

(** The first write of the full sample run, against a cluster without children. *)
Definition first_write : event := nth_event full_calls write_at.
Definition written : Object := match first_write with ECreate o => o | _ => target end.

Lemma Reconcile_changes_only_own_witness :
  ∃ w, Call (EGetWorkload ns "sample") (inr w) ∈ take write_at full_calls ∧ ∃ o, first_write = ECreate o.
Proof.
  assert (first_write = ECreate written) as Hw by (vm_compute; reflexivity).
  destruct (Reconcile_changes_only_own reconciler ns "sample" (take write_at full_calls) (ECreate written) None
    ∅ {[object_key written := saved 0 written]} (object_key written) (reconciler_well_built _) (full_contract _))
    as (w & Hin & o & Ho & _).
  - rewrite <-Hw. apply full_issued. vm_compute. reflexivity.
  - exists (saved 0 written). split; [reflexivity|]. split; [apply stored_saved|reflexivity].
  - intros o k current _ Hk. discriminate Hk.
  - rewrite lookup_singleton_eq. discriminate.
  - exists w. split; [exact Hin|]. exists o. rewrite Hw. exact Ho.
Defined.

End Witnesses.
