(* ===== verification/Watching.v ===== *)
(** * What brings a workload back

    The watches [SetupWithManager] registers, and for the one child no watch covers, the route, the
    delay a reconciliation asks for. *)
From S2P Require Import Prelude Errors GoStd Kube Api Naming Intent Route Builder Effects Engine Capability.
From S2P Require Import Conditions Status Failures Gates Controller Watches Registration Contract Safety Gating.
From S2P Require Import ReconcileTheorems KubeReference Sample.

(** ** Watches *)

Section Watches.
Context `{OwnerHelpersLaws, OwnerRequests, !OwnerRequestsLaws}.

(** The change of a workload that [primaryPredicate] looks for. *)
Definition relevant_change (old new : ObjectMeta) : Prop :=
  om_UID old ≠ om_UID new ∨ om_Generation old ≠ om_Generation new ∨
  Time_Equal (om_DeletionTimestamp old) (om_DeletionTimestamp new) = false.

Lemma primaryPredicate_spec old new : primaryPredicate old new = true ↔ relevant_change old new.
Proof.
  unfold primaryPredicate, relevant_change.
  rewrite !orb_true_iff, !negb_true_iff, !bool_decide_eq_false. tauto.
Qed.

Lemma owns_controller w o :
  owns w o = true →
  om_Namespace (obj_meta o) = w_Namespace w ∧
  ∃ ref, GetControllerOf (om_OwnerReferences (obj_meta o)) = Some ref ∧ or_Name ref = w_Name w ∧
    or_Kind ref = AIWorkloadKind ∧ or_APIVersion ref = GroupVersion.
Proof.
  unfold owns. rewrite andb_true_iff, bool_decide_eq_true. intros [Hns Ho]. split; [done|].
  destruct (GetControllerOf _) as [ref|]; [|done].
  rewrite !andb_true_iff, !bool_decide_eq_true in Ho. destruct Ho as [[[? ?] ?] ?]. by exists ref.
Qed.

(** An event on a child of a watched kind requests its workload. *)
Lemma owned_request calls r r' reg w o :
  SetupWithManager calls r = Ok (r', reg) → owns w o = true → (0 ≤ childOrder (Pointer o) < 6)%Z →
  requests reg (ChildChanged o) = Ret [(w_Namespace w, w_Name w)].
Proof.
  intros (_ & _ & _ & _ & _ & Howns & _)%SetupWithManager_Ok (Hns & ref & Hc & Hn & Hk & Hv)%owns_controller Ho.
  unfold requests. rewrite Howns. destruct o; try (simpl in Ho; lia); cbn [typed_kind];
    try (rewrite bool_decide_true by set_solver; by rewrite (EnqueueRequestForOwner_controller _ _ Hc Hk Hv), Hns, Hn).
  simpl in Ho. case_bool_decide; lia.
Qed.

(** C37. Every change that matters reaches the reconciler: any event on a child of the workload of the
    six typed kinds requests exactly the workload; so does its creation and deletion, and an update
    when it changes the generation (which the API server raises with the specification), the deletion
    mark or the UID.  Every other update requests nothing: neither one of labels or annotations, nor
    the controller's own status patches, which leave all three alone.  The route is not watched. *)
Theorem watches_cover calls r r' reg :
  SetupWithManager calls r = Ok (r', reg) →
  (∀ w o, owns w o = true → (0 ≤ childOrder (Pointer o) < 6)%Z →
    requests reg (ChildChanged o) = Ret [(w_Namespace w, w_Name w)]) ∧
  (∀ o, childOrder (Pointer o) = 6%Z → requests reg (ChildChanged o) = Ret []) ∧
  (∀ m, requests reg (PrimaryCreated m) = Ret [request_of m] ∧ requests reg (PrimaryDeleted m) = Ret [request_of m]) ∧
  (∀ old new, relevant_change old new → requests reg (PrimaryUpdated old new) = Ret [request_of new]) ∧
  (∀ old new, ¬ relevant_change old new → requests reg (PrimaryUpdated old new) = Ret []) ∧
  (∀ w w', same_workload w w' → requests reg (PrimaryUpdated (w_meta w) (w_meta w')) = Ret []).
Proof.
  intros Hs. pose proof Hs as (_ & _ & _ & _ & Hfor & _)%SetupWithManager_Ok.
  assert (∀ old new, ¬ relevant_change old new → requests reg (PrimaryUpdated old new) = Ret []) as Hquiet.
  { intros old new Hn. simpl. rewrite Hfor. destruct (primaryPredicate old new) eqn:E; [|done]. by apply primaryPredicate_spec in E. }
  split; [by intros w o; apply (owned_request calls r r')|split; [|split; [done|split; [|split; [done|]]]]].
  - intros o Ho. destruct o; simpl in Ho; try lia; done.
  - intros old new Hc%primaryPredicate_spec. simpl. by rewrite Hfor, Hc.
  - intros w w' (_ & _ & _ & Hu & Hg & Hd). apply Hquiet. intros [E|[E|E]].
    + by destruct E.
    + by destruct E.
    + change (om_DeletionTimestamp (w_meta w')) with (w_DeletionTimestamp w') in E. rewrite Hd in E.
      unfold w_DeletionTimestamp in E. by rewrite Time_Equal_refl in E.
Qed.

End Watches.

(** ** The route *)

Section Route.
Context `{ConditionsLaws, ApiErrors, UnstructuredHelpersLaws, OwnerHelpers}.
Context `{SemanticDeepEqual AIWorkloadStatus, SemanticDeepEqual Object}.

Let R := api_contract any_text.
Let anything (_ : event) : Prop := True.

(** A workload whose specification is still that of [w0]. *)
Abbreviation of_workload w0 := (follows any_text w0).

Definition managed_route (st : exposureState) : Prop := xs_manageRoute st = true ∧ xs_active st = true.

Lemma validateExposure_active g w :
  HTTPRouteEnabled (Some w) = true →
  safe R anything (validateExposure g w) (λ wr, ∀ st, wr.2 = inr st → managed_route st).
Proof.
  intros He. unfold validateExposure. rewrite He. simpl.
  destruct (r_CapabilityLookup g) as [lookup|]; [|done]. cbn [RequirementFor]. simpl.
  eapply safe_seq; [apply safe_trivial|]. intros [rq st err] _. destruct st; simpl; try done.
  eapply safe_seq; [apply safe_trivial|]. intros [err'|] _; simpl; [done|]. by intros ? [= <-].
Qed.

Lemma observeExposure_delay g w st :
  managed_route st → is_Some (sp_Exposure (w_Spec w)) →
  safe R anything (observeExposure g w st) (λ wr, ∀ d, wr.2 = inr d → d = (15 * Second)%Z ∨ d = Minute).
Proof.
  intros [Hm Ha] [e He]. unfold observeExposure. rewrite Hm, Ha. simpl. split; [done|]. intros [err|route] _.
  - destruct (IsNotFound err); simpl; [|done]. split; [done|]. intros t _ d [= <-]. by left.
  - rewrite He. simpl. destruct (exposure_observation _) as [[[status reason] message] delay] eqn:Eo.
    split; [done|]. intros t _ d [= <-].
    revert Eo. destruct (httpRouteConditions _ _ _) as [[accepted resolved] observed].
    unfold exposure_observation. repeat case_match; intros [= _ _ _ <-]; auto.
Qed.

(** The weakening of a triple of [Safety] to the calls of this section. *)
Lemma relax {A} w0 (t : program A) (Q : A → Prop) :
  safe R (event_ok any_text (w_Namespace w0) (w_Name w0)) t Q → safe R anything t Q.
Proof. intros Ht. by eapply safe_impl. Qed.

Context (r : AIWorkloadReconciler) (Hwb : well_built any_text r).

Lemma run_gates_active w :
  HTTPRouteEnabled (Some w) = true →
  safe R anything (run_gates r w)
    (λ '(w', out), of_workload w w' ∧ ∀ external st, out = inr (external, st) → managed_route st).
Proof.
  intros He. destruct Hwb as [Hl _]. assert (of_workload w w) as Hw by (by split).
  unfold run_gates.
  eapply safe_seq; [apply (relax w); by apply (validateTenant_safe any_text)|].
  intros [w1 [err|]] [Hw1 He1]; [by split|].
  eapply safe_seq; [apply (relax w); by apply (patchStatus_safe any_text)|]. intros [w2 [err|b]] [Hw2 He2]; [by split|].
  eapply safe_seq; [apply (relax w); by apply (validateExternalSecrets_safe any_text)|].
  intros [w3 [err|ext]] [Hw3 He3]; [by split|].
  eapply safe_seq; [apply (relax w); by apply (patchStatus_safe any_text)|]. intros [w4 [err|b4]] [Hw4 He4]; [by split|].
  assert (HTTPRouteEnabled (Some w4) = true) as He4' by (by rewrite (HTTPRouteEnabled_same w) by apply Hw4).
  eapply safe_seq.
  { eapply safe_and_post; [apply (relax w); by apply (validateExposure_safe any_text)|
      by apply validateExposure_active]. }
  intros [w5 [err|st]] [[[Hw5 _] _] Hst]; [by split|].
  eapply safe_seq; [apply (relax w); by apply (patchStatus_safe any_text)|]. intros [w6 [err|b6]] [Hw6 He6]; [by split|].
  split; [done|]. intros external st' [= _ <-]. by apply Hst.
Qed.

(** The workload is looked at again: an outcome without an error asks for a delay. *)
Definition rechecked (out : Result * option error) : Prop :=
  out.2 = None → RequeueAfter out.1 ∈ [2 * Second; 15 * Second; Minute]%Z.

Lemma report_rechecked out : report_outcome out → rechecked out.
Proof.
  intros [[Ho _]|[_ [cause Hc]]] Hn; [rewrite Ho; simpl; set_solver|by rewrite Hc in Hn].
Qed.

Lemma reportFailure_rechecked w0 w cause :
  of_workload w0 w → curated_error cause →
  safe R anything (reportFailure (r_Recorder r) (r_Telemetry r) w cause) rechecked.
Proof.
  intros Hw Hc. apply (relax w0). eapply safe_mono; [by apply (reportFailure_safe any_text)|].
  apply report_rechecked.
Qed.

Lemma report_status_rechecked w0 w st :
  of_workload w0 w → managed_route st → is_Some (sp_Exposure (w_Spec w0)) →
  safe R anything (report_status r w st) rechecked.
Proof.
  intros Hw Hst He. unfold report_status.
  eapply safe_seq.
  { eapply safe_and_post; [apply (relax w0), (observeExposure_safe any_text); [done|by intros _]|].
    apply observeExposure_delay; [done|]. by rewrite (proj1 (proj1 Hw)). }
  intros [w1 [err|delay]] [[[Hw1 He1] _] Hd]; [by apply (reportFailure_rechecked w0), He1|].
  eapply safe_seq; [apply (relax w0); by apply (patchStatus_safe any_text)|].
  intros [w2 [err|b]] [Hw2 He2]; [by apply (reportFailure_rechecked w0), plain_error_curated, He2|].
  eapply safe_seq; [apply (relax w0); by apply (observeAndReportStatus_safe any_text)|].
  intros [w3 [err|]] [Hw3 He3]; [by apply (reportFailure_rechecked w0), plain_error_curated, He3|].
  intros _. simpl. destruct (Hd delay eq_refl) as [->| ->]; set_solver.
Qed.

(** What a reconciliation does with the workload it read. *)
Lemma after_read_rechecked build ns name w :
  r_Builder r = Some build → answer_ok any_text (EGetWorkload ns name) (inr w) →
  Time_IsZero (w_DeletionTimestamp w) = true → HTTPRouteEnabled (Some w) = true →
  safe R anything ('(workload, gates) ← run_gates r w;
    match gates with
    | inl err => reportFailure (r_Recorder r) (r_Telemetry r) workload err
    | inr (external, exposure) =>
        err ← reconcile_children r build workload external exposure;
        match err with
        | Some err =>
            if errors_Is err ErrChildDeleting then Ret ({| RequeueAfter := 2 * Second |}, None)
            else reportFailure (r_Recorder r) (r_Telemetry r) workload err
        | None => report_status r workload exposure
        end
    end) rechecked.
Proof.
  intros Eb Hok Hlive He. destruct (Hok w eq_refl) as (_ & _ & Hc). destruct Hwb as [Hl Hb].
  assert (is_Some (sp_Exposure (w_Spec w))) as Hex by (apply HTTPRouteEnabled_spec in He as (e & ? & _); by exists e).
  eapply safe_seq.
  { eapply safe_and_post; [apply (relax w), (run_gates_safe any_text r Hl w w); by split|
      by apply run_gates_active]. }
  intros [w1 [err|[external st]]] [[Hw1 Hg] [_ Hst]]; [by apply (reportFailure_rechecked w)|].
  eapply safe_seq.
  { apply (relax w), (reconcile_children_safe any_text); [done|by apply Hb]. }
  intros [err|] Herr; [|apply (report_status_rechecked w); [done|by eapply Hst|done]].
  destruct (errors_Is err ErrChildDeleting); [intros _; simpl; set_solver|].
  by apply (reportFailure_rechecked w), Herr.
Qed.

(** The answer of a read of the workload. *)
Definition workload_answer (c : call event answer) : option (reply AIWorkload) :=
  match c with
  | Call (EGetWorkload _ _) x => Some x
  | _ => None
  end.

(** C6. A workload with a route is polled: whenever a reconciliation of it, read while it is not being
    deleted, ends without an error, it asks for another one, after two seconds, fifteen seconds or a
    minute; also after a success, where docs/reconciliation.md promises an empty result. *)
Theorem Reconcile_polls_route ns name w h result :
  returns (Reconcile r ns name) (Call (EGetWorkload ns name) (inr w) :: h) (result, None) →
  Forall R (Call (EGetWorkload ns name) (inr w) :: h) → r_Builder r ≠ None →
  Time_IsZero (w_DeletionTimestamp w) = true → HTTPRouteEnabled (Some w) = true →
  RequeueAfter result ∈ [2 * Second; 15 * Second; Minute]%Z.
Proof.
  intros Hr [[Hok _] Hh]%Forall_cons Hb Hlive He.
  unfold Reconcile in Hr. case_bool_decide; [by destruct Hr|]. destruct (watchesNamespace r ns); [|by destruct Hr].
  destruct Hr as (x & h' & Hx & Hr). pose proof (f_equal tail Hx) as Hh'. simpl in Hh'. subst h'.
  apply (f_equal (λ l, workload_answer <$> head l)) in Hx. injection Hx as <-.
  destruct (r_Builder r) as [build|] eqn:Eb; [|done]. cbn in Hr. rewrite Hlive in Hr.
  exact (safe_returns _ _ _ _ (after_read_rechecked build ns name w Eb Hok Hlive He) Hr Hh eq_refl).
Qed.

End Route.

(** ** Witnesses *)

Module RequestsRef.
Import Ref.

(** The requests of the controlling owner, whatever its type. *)
#[export] Instance owner_requests : OwnerRequests := λ m,
  match GetControllerOf (om_OwnerReferences m) with
  | Some ref => if bool_decide (or_Kind ref = AIWorkloadKind) && bool_decide (or_APIVersion ref = GroupVersion)
                then [(om_Namespace m, or_Name ref)] else []
  | None => []
  end.

#[export] Instance owner_requests_laws : OwnerRequestsLaws.
Proof.
  split. intros m ref Hr Hk Hv. unfold EnqueueRequestForOwner, owner_requests.
  by rewrite Hr, !bool_decide_true.
Qed.

End RequestsRef.

Section Witnesses.
Import Ref Sample RequestsRef.

Definition registered := SetupWithManager {| rc_IndexField := None; rc_Complete := None |} reconciler.

(** A status patch of the sample workload does not bring it back. *)
Lemma watches_cover_witness :
  ∃ r' reg, registered = Ok (r', reg) ∧ requests reg (PrimaryUpdated (w_meta workload) (w_meta full_workload)) = Ret [].
Proof.
  assert (∃ r' reg, registered = Ok (r', reg)) as (r' & reg & Hr) by (eexists _, _; reflexivity).
  exists r', reg. split; [exact Hr|].
  destruct (watches_cover _ _ _ _ Hr) as (_ & _ & _ & _ & _ & Hs).
  exact (Hs full_workload full_workload (same_workload_refl _)).
Defined.

Lemma Reconcile_polls_route_witness :
  ∃ h result, returns full_run (Call (EGetWorkload ns "sample") (inr full_workload) :: h) (result, None) ∧
    RequeueAfter result ∈ [2 * Second; 15 * Second; Minute]%Z.
Proof.
  assert (∃ s', run handler (cluster full_workload) full_run = Some (s', ({| RequeueAfter := 15 * Second |}, None)))
    as [s' Hs] by (vm_compute; eexists; reflexivity).
  apply run_returns in Hs.
  assert (log handler (cluster full_workload) full_run =
    Call (EGetWorkload ns "sample") (inr full_workload : answer (EGetWorkload ns "sample")) :: tail full_calls) as Hl
    by reflexivity.
  pose proof (calls_contract (cluster full_workload) full_run) as Hc. unfold calls in Hc. rewrite Hl in Hs, Hc.
  exists (tail full_calls), {| RequeueAfter := 15 * Second |}. split; [exact Hs|].
  apply (Reconcile_polls_route reconciler (reconciler_well_built _) ns "sample" full_workload (tail full_calls) _ Hs Hc).
  - discriminate.
  - reflexivity.
  - reflexivity.
Defined.

End Witnesses.
