(* ===== verification/Quiescence.v ===== *)
(** * Quiescence: the status

    A stage of [Reconcile] that finds its reads answered as before, and the conditions it set, passes
    again without a call that anyone else sees.  Each stage leaves verdicts on conditions; they
    stay in the status the server keeps, because every later stage writes other types. *)
From S2P Require Import Prelude Errors GoStd Kube Api Naming Intent Autoscaling Deploy ServiceIntent Availability Route.
From S2P Require Import Builder Effects Capability Engine Cluster Conditions Status Failures Gates Controller Contract.
From S2P Require Import Safety Gating ReconcileTheorems.

(** A call that changes nothing anyone else sees, except the counter of the engine's outcomes. *)
Definition idle (e : event) : Prop :=
  match e with
  | ECreate _ | EPatch _ _ | EDelete _ _ _ | EPatchStatus _ _ | EEventf _ _ _ _ _ | ERecordFailure _ | EPanic => False
  | _ => True
  end.

(** ** Replaying a run

    A program whose calls are answered as in a run it has completed does the same again. *)
Section Replay.
Context (R : call event answer → Prop).

Lemma replay {A} (t : program A) h a (G : event → Prop) :
  returns t h a → Forall (λ c, G (call_event c)) h →
  (∀ e (x y : answer e), Call e x ∈ h → R (Call e y) → y = x) → safe R G t (λ b, b = a).
Proof.
  revert h. induction t as [b|e k IH]; simpl; intros h; [by intros [_ ->]|].
  intros (x & h' & -> & Hr) [He Hg]%Forall_cons Hs. split; [done|]. intros y Hy.
  rewrite (Hs e x y); [|by left|done]. apply (IH x h'); [done|done|]. intros e' x' y' Hin. apply Hs. by right.
Qed.

(** A call and the rest. *)
Lemma returns_call {A} e (f : answer e → program A) h a :
  returns (trigger e ≫= f) h a → ∃ x h', h = Call e x :: h' ∧ returns (f x) h' a.
Proof. done. Qed.

(** The calls of a completed run satisfy the guarantee. *)
Lemma safe_history {A} (G : event → Prop) (t : program A) Q h a :
  safe R G t Q → returns t h a → Forall R h → Forall (λ c, G (call_event c)) h.
Proof.
  revert h. induction t as [b|e k IH]; simpl; intros h; [by intros _ [-> _] _|].
  intros [He Hk] (x & h' & -> & Hr) [Hx Hh]%Forall_cons. constructor; [done|]. by eapply IH; [apply Hk| |].
Qed.

End Replay.

(** ** Conditions as verdicts *)

Inductive verdict :=
  | Absent (typ : string)
  | Says (typ : string) (status : ConditionStatus) (reason message : string).

Definition verdict_type (v : verdict) : string :=
  match v with
  | Absent typ | Says typ _ _ _ => typ
  end.

Section Verdicts.
Context `{ConditionsLaws}.
Implicit Types (w : AIWorkload) (v : verdict).

(** The status shows the verdict, for the workload's generation. *)
Definition shows w v : Prop :=
  match v with
  | Absent typ => FindStatusCondition (w_Conditions w) typ = None
  | Says typ status reason message =>
      ∃ d, FindStatusCondition (w_Conditions w) typ = Some d ∧
        same_observation d (condition_of w typ status reason message)
  end.

(** Only conditions of the types [T] changed. *)
Definition only (T : list string) w w' : Prop :=
  same_workload w w' ∧ ∀ typ, typ ∉ T → FindStatusCondition (w_Conditions w') typ = FindStatusCondition (w_Conditions w) typ.

Lemma only_refl T w : only T w w.
Proof. done. Qed.

Lemma only_trans T1 T2 w1 w2 w3 : only T1 w1 w2 → only T2 w2 w3 → only (T1 ++ T2) w1 w3.
Proof.
  intros [Hs1 H1] [Hs2 H2]. split; [by eapply same_workload_trans|]. intros typ Ht. rewrite H2, H1; set_solver.
Qed.

Lemma only_status T w w' w'' : only T w w' → same_workload w' w'' → w_Status w'' = w_Status w' → only T w w''.
Proof.
  intros [Hs H1] Hs' Hst. split; [by eapply same_workload_trans|]. unfold w_Conditions. by rewrite Hst.
Qed.

Lemma shows_only T w w' v : only T w w' → verdict_type v ∉ T → shows w v → shows w' v.
Proof.
  intros [(_ & _ & _ & _ & Hg & _) Hf] Ht. unfold shows, condition_of. rewrite Hg. destruct v; by rewrite Hf.
Qed.

Lemma shows_status w w' v : same_workload w w' → w_Status w' = w_Status w → shows w v → shows w' v.
Proof.
  intros (_ & _ & _ & _ & Hg & _) Hs. unfold shows, condition_of, w_Conditions. by rewrite Hg, Hs.
Qed.

Lemma set_same_Conditions w : set_Conditions (w_Conditions w) w = w.
Proof. by destruct w as [? ? []]. Qed.

Lemma set_condition_shows R G typ status reason message w :
  G ENow → safe R G (set_condition typ status reason message w)
    (λ w', only [typ] w w' ∧ shows w' (Says typ status reason message) ∧
      ∃ cs, w' = set_Conditions cs w).
Proof.
  intros HG. split; [done|]. intros t _. simpl. split; [split; [done|]|split; [|eauto]].
  - intros u Hu. simpl. apply Find_Set_other. set_solver.
  - simpl. apply Find_Set_same.
Qed.

Lemma set_condition_idle R (G : event → Prop) typ status reason message w :
  G ENow → shows w (Says typ status reason message) →
  safe R G (set_condition typ status reason message w) (λ w', w' = w).
Proof.
  intros HG (d & Hd & Hs). split; [done|]. intros t _. simpl.
  by rewrite (Set_unchanged _ _ _ d), set_same_Conditions.
Qed.

Lemma remove_condition_shows typ w :
  only [typ] w (remove_condition typ w) ∧ shows (remove_condition typ w) (Absent typ).
Proof.
  split; [split; [done|]|].
  - intros u Hu. simpl. apply Find_Remove_other. set_solver.
  - simpl. apply Find_None. intros c. simpl. by intros [_ ?]%Remove_members.
Qed.

Lemma remove_condition_idle typ w : shows w (Absent typ) → remove_condition typ w = w.
Proof. intros Hw. unfold remove_condition. by rewrite Remove_absent, set_same_Conditions. Qed.

End Verdicts.

(** ** The stored status *)

Definition patched_status (c : call event answer) : option AIWorkloadStatus :=
  match c with
  | Call e x =>
      match e return answer e → option AIWorkloadStatus with
      | EPatchStatus _ _ => λ x, match x with inr u => Some (w_Status u) | inl _ => None end
      | _ => λ _, None
      end x
  end.

(** The status of the stored workload after the patches of [h]. *)
Definition stored_status (st : AIWorkloadStatus) (h : history) : AIWorkloadStatus :=
  foldl (λ st c, default st (patched_status c)) st h.

(** A status patch is accepted, and the server keeps the status it was sent. *)
Definition patch_kept (c : call event answer) : Prop :=
  match c with
  | Call e x =>
      match e return answer e → Prop with
      | EPatchStatus _ after => λ x, ∃ u, x = inr u ∧ w_Status u = w_Status after
      | _ => λ _, True
      end x
  end.

Definition kept_contract (c : call event answer) : Prop := api_contract any_text c ∧ patch_kept c.

Lemma stored_status_app st h1 h2 : stored_status st (h1 ++ h2) = stored_status (stored_status st h1) h2.
Proof. apply foldl_app. Qed.

Lemma stored_status_silent st h : Forall (λ c, is_status_write (call_event c) = false) h → stored_status st h = st.
Proof.
  revert st. induction h as [|[e x] h IH]; intros st; [done|]. intros [He Hh]%Forall_cons.
  unfold stored_status. simpl. destruct e; try done; by apply IH.
Qed.

(** ** Reads outside the cluster of children *)

Definition steady_read (e : event) : bool :=
  match e with
  | EGetConfigMap _ _ _ | EGetSecretMetadata _ _ | EServerResources _ => true
  | EGetUnstructured _ gvk _ _ => negb (bool_decide (gvk = HTTPRouteGVK))
  | _ => false
  end.

(** Under [R] these reads are answered as in [h]. *)
Definition as_in (h : history) (R : call event answer → Prop) : Prop :=
  ∀ e (x y : answer e), steady_read e = true → Call e x ∈ h → R (Call e y) → y = x.

Lemma as_in_sub h h' R : (∀ c, c ∈ h' → c ∈ h) → as_in h R → as_in h' R.
Proof. intros Hs Ha e x y He Hx. apply Ha; auto. Qed.

(** A program of such reads patches no status, and replays. *)
Section Steady.
Context {A} (t : program A) (h : history) (a : A).
Hypothesis t_steady : safe (api_contract any_text) (λ e, steady_read e = true) t (λ _, True).
Hypothesis h_contract : Forall (api_contract any_text) h.
Hypothesis t_returns : returns t h a.

Lemma steady_silent : Forall (λ c, is_status_write (call_event c) = false) h.
Proof.
  eapply Forall_impl; [exact (safe_history _ _ _ _ _ _ t_steady t_returns h_contract)|]. intros [e x]. by destruct e.
Qed.

Lemma replay_steady R : as_in h R → safe R idle t (λ b, b = a).
Proof.
  intros Ha. pose proof (safe_history _ _ _ _ _ _ t_steady t_returns h_contract) as Hs.
  apply (replay R t h a idle t_returns).
  - eapply Forall_impl; [exact Hs|]. intros [e x]. by destruct e.
  - intros e x y Hx. apply Ha; [|done]. rewrite Forall_forall in Hs. by apply (Hs _ Hx).
Qed.

End Steady.

Section Gates.
Context `{ConditionsLaws, ApiErrors, UnstructuredHelpers}.
Implicit Types (w : AIWorkload) (h : history).

Let R1 := api_contract any_text.

Lemma steady_detect lookup requirement :
  lookup_ok any_text lookup → safe R1 (λ e, steady_read e = true) (Detect lookup requirement) (λ _, True).
Proof.
  intros Hl. unfold Detect. induction (rq_Resources requirement) as [|x l IH]; [done|]. simpl.
  eapply safe_seq; [eapply safe_impl; [apply (Hl x)|done| |done]; by intros []|].
  by intros [err|[]] _.
Qed.

Lemma steady_references via ns direct references resolved :
  safe R1 (λ e, steady_read e = true) (resolve_references via ns direct references resolved) (λ _, True).
Proof.
  revert resolved. induction references as [|x l IH]; intros resolved; simpl; [done|].
  eapply (safe_seq _ _ (λ _, True)); [|by intros [err|r] _].
  unfold resolve_reference. case_bool_decide; [done|]. simpl. split; [done|].
  intros [err|es] _; simpl; [by destruct (IsNotFound err)|].
  destruct (selected_store es) as [err|store]; simpl; [done|]. split; [done|].
  intros [err|st] _; simpl; [by destruct (IsNotFound err)|].
  destruct (readyCondition st); simpl; [|done]. destruct (checked_target es x) as [err|target]; simpl; [done|].
  split; [done|]. intros [err|t] _; simpl; [by destruct (IsNotFound err)|done].
Qed.

Lemma steady_secrets ns names : safe R1 (λ e, steady_read e = true) (validate_secrets ns names) (λ _, True).
Proof.
  induction names as [|x l IH]; simpl; [done|]. split; [done|]. intros [err|m] _; simpl; [by destruct (IsNotFound err)|done].
Qed.

Lemma set_condition_returns typ status reason message w h w' :
  returns (set_condition typ status reason message w) h w' →
  only [typ] w w' ∧ shows w' (Says typ status reason message) ∧
  Forall (λ c, is_status_write (call_event c) = false) h.
Proof.
  intros Hr. pose proof (set_condition_shows (λ _, True) (λ e, e = ENow) typ status reason message w eq_refl) as Hs.
  assert (Forall (λ _ : call event answer, True) h) as Ht by (apply Forall_true; done).
  destruct (safe_returns _ _ _ _ Hs Hr Ht) as (? & ? & _). split_and!; try done.
  eapply Forall_impl; [exact (safe_history _ _ _ _ _ _ Hs Hr Ht)|]. by intros [e x] ->.
Qed.

(** What a gate that passed left behind, and that it passes again. *)
Definition gate_passed {A} (gate : AIWorkload → program (AIWorkload * A)) w w' (a : A) (v : verdict) h
    (steady : (call event answer → Prop) → Prop) : Prop :=
  only [verdict_type v] w w' ∧ shows w' v ∧ Forall (λ c, is_status_write (call_event c) = false) h ∧
  ∀ R w2, same_workload w w2 → shows w2 v → steady R → safe R idle (gate w2) (λ out, out = (w2, a)).

Lemma validateTenant_passed g w h w' :
  returns (validateTenant g w) h (w', None) →
  ∃ v, verdict_type v = conditionTenantReady ∧ gate_passed (validateTenant g) w w' None v h (as_in h).
Proof.
  unfold gate_passed, validateTenant. case_bool_decide as Ht.
  - intros [-> [= ->]]. exists (Absent conditionTenantReady). split; [done|].
    destruct (remove_condition_shows conditionTenantReady w) as [Ho Hs]. split_and!; [done..|].
    intros R w2 (Hsp & _) Hw2 _. rewrite Hsp, bool_decide_true by done. simpl. by rewrite remove_condition_idle.
  - intros (x & h' & -> & Hr)%returns_call. destruct x as [err|profile]; [by destruct (IsNotFound err), Hr|].
    destruct (check_tenant_profile _ _) as [err|] eqn:Ec; [by destruct Hr|].
    apply returns_bind in Hr as (h1 & w1 & h2 & -> & Hr & [-> [= ->]]). rewrite app_nil_r in *.
    apply set_condition_returns in Hr as (Ho & Hs & Hh).
    eexists (Says conditionTenantReady _ _ _). split; [done|]. split; [exact Ho|]. split; [exact Hs|].
    split; [by constructor|]. intros R w2 (Hsp & Hns & _) Hw2 Ha. rewrite Hsp, bool_decide_false, Hns by done.
    split; [done|]. intros y Hy. rewrite (Ha (EGetConfigMap _ _ _) (inr profile) y eq_refl) by (done || by left). cbn. rewrite Ec.
    eapply safe_seq; [by apply set_condition_idle|]. by intros ? ->.
Qed.

Lemma validateExternalSecrets_passed g w h w' external :
  (∀ lookup, r_CapabilityLookup g = Some lookup → lookup_ok any_text lookup) → Forall R1 h →
  returns (validateExternalSecrets g w) h (w', inr external) →
  ∃ v, verdict_type v = conditionExternalSecretsReady ∧ gate_passed (validateExternalSecrets g) w w' (inr external) v h (as_in h).
Proof.
  intros Hl Hh. unfold gate_passed, validateExternalSecrets. case_bool_decide as Ht.
  - intros [-> [= -> ->]]. exists (Absent conditionExternalSecretsReady). split; [done|].
    destruct (remove_condition_shows conditionExternalSecretsReady w) as [Ho Hs]. split_and!; [done..|].
    intros R w2 (Hsp & _) Hw2 _. rewrite Hsp, bool_decide_true by done. simpl. by rewrite remove_condition_idle.
  - destruct (r_CapabilityLookup g) as [lookup|] eqn:El; [|by intros [_ [=]]].
    destruct (RequirementFor ExternalSecrets) as [requirement|]; [|by intros [_ [=]]].
    intros (h1 & observation & h2 & -> & Hd & Hr)%returns_bind. apply Forall_app in Hh as [Hh1 Hh2].
    destruct (ob_State observation) eqn:Eo; [|by destruct Hr as [_ [=]]|by destruct Hr as [_ [=]]].
    apply returns_bind in Hr as (h3 & [err|resolved] & h4 & -> & Hres & Hr); [by destruct Hr as [_ [=]]|].
    apply returns_bind in Hr as (h5 & w1 & h6 & -> & Hr & [-> [= -> ->]]). rewrite app_nil_r in *.
    apply Forall_app in Hh2 as [Hh3 Hh5].
    apply set_condition_returns in Hr as (Ho & Hs & Hq).
    eexists (Says conditionExternalSecretsReady _ _ _). split; [done|]. split; [exact Ho|]. split; [exact Hs|].
    assert (∀ R, as_in (h1 ++ h3 ++ h5) R → as_in h1 R ∧ as_in h3 R) as Hin.
    { intros R Ha. split; (eapply as_in_sub; [|exact Ha]); set_solver. }
    pose proof (steady_silent _ _ _ (steady_detect _ _ (Hl _ eq_refl)) Hh1 Hd) as Hq1.
    pose proof (steady_silent _ _ _ (steady_references _ _ _ _ _) Hh3 Hres) as Hq3.
    split; [by rewrite !Forall_app|]. intros R w2 (Hsp & Hns & _) Hw2 [Ha1 Ha3]%Hin.
    rewrite Hsp, bool_decide_false, Hns by done.
    eapply safe_seq; [exact (replay_steady _ _ _ (steady_detect _ _ (Hl _ eq_refl)) Hh1 Hd R Ha1)|]. intros ? ->.
    rewrite Eo.
    eapply safe_seq; [exact (replay_steady _ _ _ (steady_references _ _ _ _ _) Hh3 Hres R Ha3)|]. intros ? ->.
    eapply safe_seq; [by apply set_condition_idle|]. by intros ? ->.
Qed.

(** Without a route to expose, the gate at most removes the condition of a former one. *)
Lemma validateExposure_passed g w h w' st :
  (∀ lookup, r_CapabilityLookup g = Some lookup → lookup_ok any_text lookup) → Forall R1 h →
  HTTPRouteEnabled (Some w) = false → returns (validateExposure g w) h (w', inr st) →
  only [conditionExposureReady] w w' ∧ Forall (λ c, is_status_write (call_event c) = false) h ∧ xs_active st = false ∧
  (xs_manageRoute st = false → shows w' (Absent conditionExposureReady)).
Proof.
  intros Hl Hh He. unfold validateExposure. rewrite He. cbn [negb andb].
  destruct (FindStatusCondition _ _) eqn:Ef; cbn [negb andb]; [|by intros [-> [= -> ->]]].
  destruct (r_CapabilityLookup g) as [lookup|] eqn:El; [|by intros [_ [=]]].
  destruct (RequirementFor GatewayAPI) as [requirement|]; [|by intros [_ [=]]].
  intros (h1 & observation & h2 & -> & Hd & Hr)%returns_bind. apply Forall_app in Hh as [Hh1 Hh2].
  pose proof (steady_silent _ _ _ (steady_detect _ _ (Hl _ eq_refl)) Hh1 Hd) as Hq1.
  destruct (ob_State observation); [| |by destruct Hr as [_ [=]]]; destruct Hr as [-> [= -> ->]]; rewrite app_nil_r.
  - done.
  - destruct (remove_condition_shows conditionExposureReady w). done.
Qed.

Lemma validateExposure_idle R g w :
  HTTPRouteEnabled (Some w) = false → shows w (Absent conditionExposureReady) →
  safe R idle (validateExposure g w) (λ out, out = (w, inr no_exposure)).
Proof. intros He Hw. unfold validateExposure. simpl in Hw. by rewrite He, Hw. Qed.

(** ** Status patches *)

Context `{SemanticDeepEqual AIWorkloadStatus, !SemanticDeepEqualLaws AIWorkloadStatus}.
Context `{!SemanticDeepEqualExact AIWorkloadStatus}.

Lemma patchStatus_idle R before after :
  w_Status before = w_Status after → safe R idle (patchStatus before after) (λ out, out = (after, inr false)).
Proof. intros Hs. unfold patchStatus. by rewrite Hs, DeepEqual_refl. Qed.

Lemma patchStatus_kept before after h w' x :
  Forall kept_contract h → returns (patchStatus before after) h (w', x) →
  same_workload after w' ∧ w_Status w' = w_Status after ∧ stored_status (w_Status before) h = w_Status after.
Proof.
  intros Hh. unfold patchStatus. destruct (DeepEqual _ _) eqn:Eq.
  - intros [-> [= -> _]]. apply DeepEqual_eq in Eq. done.
  - intros (y & h' & -> & Hr)%returns_call. apply Forall_cons in Hh as [[[Hok _] (u & -> & Hu)] _].
    destruct Hr as [-> [= -> _]]. destruct (Hok _ eq_refl) as [Hs _]. done.
Qed.

(** ** The children the status is made from *)

Context `{OwnerHelpers}.

(** The reads of children. *)
Definition child_read (e : event) : bool :=
  match e with
  | EGetServiceAccount _ _ | EGetDeployment _ _ | EGetService _ _ | EGetNetworkPolicy _ _
  | EGetHorizontalPodAutoscaler _ _ | EGetPodDisruptionBudget _ _ => true
  | EGetUnstructured _ gvk _ _ => bool_decide (gvk = HTTPRouteGVK)
  | _ => false
  end.

Definition served_by (s : objects) (c : call event answer) : Prop :=
  match c with Call e x => ∃ s', served s s' e x end.

(** The cluster [s] answers, and no read of a child fails. *)
Definition answers_from (s : objects) (c : call event answer) : Prop :=
  served_by s c ∧
  match c with Call e x => child_read e = true → ∀ err, answer_error e x = Some err → IsNotFound err = true end.

Definition reads_from (s : objects) (R : call event answer → Prop) : Prop := ∀ c, R c → answers_from s c.

Lemma AutoscalingEnabled_spec_eq w w' : w_Spec w' = w_Spec w → AutoscalingEnabled (Some w') = AutoscalingEnabled (Some w).
Proof. unfold AutoscalingEnabled. by intros ->. Qed.

Lemma AvailabilityEnabled_spec_eq w w' : w_Spec w' = w_Spec w → AvailabilityEnabled (Some w') = AvailabilityEnabled (Some w).
Proof. unfold AvailabilityEnabled. by intros ->. Qed.

Lemma AvailabilityReplicaFloor_spec_eq w w' : w_Spec w' = w_Spec w → AvailabilityReplicaFloor w' = AvailabilityReplicaFloor w.
Proof. unfold AvailabilityReplicaFloor. intros Hs. by rewrite (AutoscalingEnabled_spec_eq w w' Hs), Hs. Qed.

(** An observer reads a child and judges the answer: an error, or a condition to set. *)
Definition judged (typ : string) (v : error + ConditionStatus * string * string) w : program (AIWorkload * option error) :=
  match v with
  | inl err => Ret (w, Some err)
  | inr (status, reason, message) => w ← set_condition typ status reason message w; Ret (w, None)
  end.

Definition reads_and_judges (observer : AIWorkload → program (AIWorkload * option error)) w (e : event)
    (typ : string) (judge : answer e → error + ConditionStatus * string * string) : Prop :=
  ∃ f, observer w = Vis e f ∧ ∀ x, f x = judged typ (judge x) w.

Lemma judged_passed typ (e : event) (judge : answer e → error + ConditionStatus * string * string) observer w w' h steady :
  (∀ w2, same_workload w w2 → reads_and_judges observer w2 e typ judge) → is_status_write e = false → idle e →
  returns (observer w) h (w', None) →
  (∀ x t, Call e x ∈ h → judge x = inr t → ∀ R y, steady R → R (Call e y) → judge y = inr t) →
  ∃ v, verdict_type v = typ ∧ gate_passed observer w w' None v h steady ∧ ∃ cs, w' = set_Conditions cs w.
Proof.
  intros Hobs He Hidle Hr Hsame. destruct (Hobs w (same_workload_refl w)) as (f & Hf & Hj).
  rewrite Hf in Hr. destruct Hr as (x & h' & -> & Hr). rewrite Hj in Hr.
  destruct (judge x) as [err|[[status reason] message]] eqn:Ex; [by destruct Hr|].
  apply returns_bind in Hr as (h1 & w1 & h2 & -> & Hr & [-> [= ->]]). rewrite app_nil_r in *.
  pose proof (set_condition_shows (λ _, True) (λ _, True) typ status reason message w I) as Hset.
  destruct (safe_returns _ _ _ _ Hset Hr) as (_ & _ & Hcs); [by apply Forall_true|].
  apply set_condition_returns in Hr as (Ho & Hw & Hq).
  exists (Says typ status reason message). split; [done|]. split; [|done].
  split; [done|]. split; [done|]. split; [by constructor|]. intros R w2 Hw2 Hs2 HR.
  destruct (Hobs w2 Hw2) as (f2 & -> & Hj2). split; [done|]. intros y Hy. rewrite Hj2.
  rewrite (Hsame x _ ltac:(by left) Ex R y HR Hy). cbn [judged].
  eapply safe_seq; [by apply set_condition_idle|]. by intros ? ->.
Qed.

Definition judge_HPA (got : reply HorizontalPodAutoscaler) : error + ConditionStatus * string * string :=
  match got with
  | inl err =>
      if IsNotFound err then inr (ConditionFalse, "HPAReconciling",
        "The owned HorizontalPodAutoscaler is awaiting API observation.")
      else inl err
  | inr hpa =>
      if existsb (λ c, bool_decide (hc_Type c = ScalingActive) && bool_decide (hc_Status c = ConditionFalse))
           (hpa_Conditions hpa) then inr (ConditionFalse, "MetricUnavailable",
        "The HorizontalPodAutoscaler cannot obtain one or more configured metrics; inspect its status and the platform metric adapter.")
      else if match findHPACondition (hpa_Conditions hpa) ScalingActive with
              | Some active => bool_decide (hc_Status active = ConditionTrue)
              | None => false
              end then inr (ConditionTrue, "HPAActive",
        "The owned HorizontalPodAutoscaler is actively evaluating configured metrics.")
      else inr (ConditionFalse, "HPAReconciling",
        "The owned HorizontalPodAutoscaler is awaiting metric controller status.")
  end.

Definition judge_PDB (floor : Z) (got : reply PodDisruptionBudget) : error + ConditionStatus * string * string :=
  match got with
  | inl err =>
      if IsNotFound err then inr (ConditionFalse, "PDBReconciling",
        "The owned PodDisruptionBudget is awaiting API observation.")
      else inl err
  | inr pdb =>
      if (floor =? 1)%Z then inr (ConditionFalse, "SingleReplicaDisruptionBlocked",
        "A single-replica workload cannot remain available during voluntary disruption; its PodDisruptionBudget blocks eviction until capacity is increased.")
      else inr (ConditionTrue, "PDBActive",
        "The owned PodDisruptionBudget is active for voluntary disruption protection.")
  end.

(** The two answers of a judged read agree. *)
Lemma judge_same {A} (f : A → Object) (s : objects) k (x y : reply A) (judge : reply A → error + ConditionStatus * string * string) t :
  (∀ a b, f a = f b → a = b) → (∀ e e', IsNotFound e = true → IsNotFound e' = true → judge (inl e) = judge (inl e')) →
  (∀ e, IsNotFound e = false → judge (inl e) = inl e) →
  judge x = inr t → read_from s k (reply_map f x) → read_from s k (reply_map f y) →
  (∀ err, y = inl err → IsNotFound err = true) → judge y = inr t.
Proof.
  intros Hf Hnf Herr Ht Hx Hy Hey. destruct x as [ex|x].
  - destruct (IsNotFound ex) eqn:En; [|by rewrite (Herr ex En) in Ht]. destruct y as [ey|y]; simpl in *.
    + by rewrite (Hnf ey ex (Hey ey eq_refl) En).
    + by rewrite (Hx En) in Hy.
  - destruct y as [ey|y]; simpl in *; [by rewrite (Hy (Hey ey eq_refl)) in Hx|].
    rewrite Hx in Hy. injection Hy as ->%Hf. done.
Qed.

Lemma observeAutoscaling_passed s w h w' :
  returns (observeAutoscaling w) h (w', None) → Forall (served_by s) h →
  ∃ v, verdict_type v = conditionAutoscalingReady ∧
    gate_passed observeAutoscaling w w' None v h (reads_from s) ∧ ∃ cs, w' = set_Conditions cs w.
Proof.
  destruct (AutoscalingEnabled (Some w)) eqn:Ea.
  - intros Hr Hh. eapply (judged_passed _ (EGetHorizontalPodAutoscaler (w_Namespace w) (ChildName (w_Name w))) judge_HPA);
      [|done|done|exact Hr|].
    + intros w2 (Hsp & Hns & Hn & _). unfold reads_and_judges, observeAutoscaling.
      rewrite (AutoscalingEnabled_spec_eq w w2 Hsp), Ea, Hns, Hn. eexists. split; [reflexivity|].
      intros [err|hpa]; cbn; [by destruct (IsNotFound err)|].
      destruct (existsb _ _); [done|]. destruct (findHPACondition _ _) as [c|]; [by destruct (bool_decide _)|done].
    + intros x t Hx Ht R y HR Hy. rewrite Forall_forall in Hh. destruct (Hh _ Hx) as (s1 & _ & Hrx).
      destruct (HR _ Hy) as [(s2 & _ & Hry) Herr]. eapply (judge_same _ _ _ x y judge_HPA); [| | |done|done|done|].
      * by intros a b [= ->].
      * intros e e' He He'. simpl. by rewrite He, He'.
      * intros ? Hn. simpl. by rewrite Hn.
      * intros err ->. by apply Herr.
  - unfold observeAutoscaling at 1. rewrite Ea. intros [-> [= ->]] _. exists (Absent conditionAutoscalingReady). split; [done|].
    destruct (remove_condition_shows conditionAutoscalingReady w) as [Ho Hs]. split; [|by eexists].
    split_and!; [done..|]. intros R w2 (Hsp & _) Hw2 _. unfold observeAutoscaling.
    rewrite (AutoscalingEnabled_spec_eq w w2 Hsp), Ea. simpl. by rewrite remove_condition_idle.
Qed.

Lemma observeAvailability_passed s w h w' :
  returns (observeAvailability w) h (w', None) → Forall (served_by s) h →
  ∃ v, verdict_type v = conditionAvailabilityReady ∧
    gate_passed observeAvailability w w' None v h (reads_from s) ∧ ∃ cs, w' = set_Conditions cs w.
Proof.
  destruct (AvailabilityEnabled (Some w)) eqn:Ea.
  - destruct (AvailabilityReplicaFloor_Ok w) as [floor Ef].
    intros Hr Hh. eapply (judged_passed _ (EGetPodDisruptionBudget (w_Namespace w) (ChildName (w_Name w))) (judge_PDB floor));
      [|done|done|exact Hr|].
    + intros w2 (Hsp & Hns & Hn & _). unfold reads_and_judges, observeAvailability.
      rewrite (AvailabilityEnabled_spec_eq w w2 Hsp), Ea, Hns, Hn. eexists. split; [reflexivity|].
      intros [err|pdb]; simpl; [by destruct (IsNotFound err)|].
      rewrite (AvailabilityReplicaFloor_spec_eq w w2 Hsp), Ef. simpl. by case_match.
    + intros x t Hx Ht R y HR Hy. rewrite Forall_forall in Hh. destruct (Hh _ Hx) as (s1 & _ & Hrx).
      destruct (HR _ Hy) as [(s2 & _ & Hry) Herr]. eapply (judge_same _ _ _ x y (judge_PDB floor)); [| | |done|done|done|].
      * by intros a b [= ->].
      * intros e e' He He'. simpl. by rewrite He, He'.
      * intros ? Hn. simpl. by rewrite Hn.
      * intros err ->. by apply Herr.
  - unfold observeAvailability at 1. rewrite Ea. intros [-> [= ->]] _. exists (Absent conditionAvailabilityReady). split; [done|].
    destruct (remove_condition_shows conditionAvailabilityReady w) as [Ho Hs]. split; [|by eexists].
    split_and!; [done..|]. intros R w2 (Hsp & _) Hw2 _. unfold observeAvailability.
    rewrite (AvailabilityEnabled_spec_eq w w2 Hsp), Ea. simpl. by rewrite remove_condition_idle.
Qed.

Definition assessment_verdicts (a : statusAssessment) : list verdict := [
  Says conditionReady (sa_ready a) (sa_reason a) (sa_message a);
  Says conditionProgressing (sa_progressing a) (sa_reason a) (sa_message a);
  Says conditionDegraded (sa_degraded a) (sa_reason a) (sa_message a)].

Lemma set_condition_fields typ status reason message w h w' :
  returns (set_condition typ status reason message w) h w' → ∃ cs, w' = set_Conditions cs w.
Proof. intros (t & h' & _ & _ & ->). by eexists. Qed.

Lemma setAssessmentConditions_returns a w h w' :
  returns (setAssessmentConditions w a) h w' →
  only (verdict_type <$> assessment_verdicts a) w w' ∧ Forall (shows w') (assessment_verdicts a) ∧
  Forall (λ c, is_status_write (call_event c) = false) h ∧ ∃ cs, w' = set_Conditions cs w.
Proof.
  unfold setAssessmentConditions.
  intros (h1 & w1 & h2 & -> & Hr1 & (h3 & w2 & h4 & -> & Hr2 & Hr3)%returns_bind)%returns_bind.
  pose proof (set_condition_fields _ _ _ _ _ _ _ Hr1) as [cs1 Ew1].
  pose proof (set_condition_fields _ _ _ _ _ _ _ Hr2) as [cs2 Ew2].
  pose proof (set_condition_fields _ _ _ _ _ _ _ Hr3) as [cs3 Ew3].
  apply set_condition_returns in Hr1 as (Ho1 & Hs1 & Hq1), Hr2 as (Ho2 & Hs2 & Hq2), Hr3 as (Ho3 & Hs3 & Hq3).
  split; [exact (only_trans _ _ _ _ _ Ho1 (only_trans _ _ _ _ _ Ho2 Ho3))|]. split_and!; [|by rewrite !Forall_app|].
  - repeat constructor; [|by eapply shows_only; [exact Ho3|set_solver|]|done].
    eapply shows_only; [exact Ho3|set_solver|]. by eapply shows_only; [exact Ho2|set_solver|].
  - exists cs3. by subst.
Qed.

Lemma setAssessmentConditions_idle R a w :
  Forall (shows w) (assessment_verdicts a) → safe R idle (setAssessmentConditions w a) (λ w', w' = w).
Proof.
  unfold assessment_verdicts. intros [Hv1 [Hv2 [Hv3 _]%Forall_cons]%Forall_cons]%Forall_cons. unfold setAssessmentConditions.
  eapply safe_seq; [by apply set_condition_idle|]. intros ? ->.
  eapply safe_seq; [by apply set_condition_idle|]. intros ? ->. by apply set_condition_idle.
Qed.

(** The types [observeAndReportStatus] sets. *)
Definition report_types : list string := [
  conditionAutoscalingReady; conditionAvailabilityReady; conditionReady; conditionProgressing; conditionDegraded].

Lemma only_sub T T' w w' : only T w w' → (∀ typ, typ ∈ T → typ ∈ T') → only T' w w'.
Proof. intros [Hs Ho] Ht. split; [done|]. intros typ Hn. apply Ho. auto. Qed.

Lemma observed_status_only w d : only [] w (observed_status w d).
Proof. done. Qed.

(** The fields the report assigns are assigned what they hold. *)
Lemma observed_status_idle w w2 d cs :
  same_workload w w2 → w_Status w2 = with_Conditions cs (w_Status (observed_status w d)) → observed_status w2 d = w2.
Proof.
  intros (Hsp & Hns & Hn & _ & Hg & _). destruct w2 as [m sp st]. simpl. intros ->. unfold observed_status. simpl.
  unfold set_Status. simpl. f_equal. unfold with_Conditions, desiredReplicas, ServiceEndpoint, w_Conditions, ServiceEnabled, ServicePort.
  simpl in *. rewrite <-Hsp, <-Hg, <-Hns, <-Hn. done.
Qed.

(** The observers and the assessment, one after the other: their verdicts stay. *)
Lemma report_chain w wa wb wd va vb d a :
  verdict_type va = conditionAutoscalingReady → verdict_type vb = conditionAvailabilityReady →
  only [verdict_type va] w wa → shows wa va → only [verdict_type vb] wa wb → shows wb vb →
  only (verdict_type <$> assessment_verdicts a) (observed_status wb d) wd →
  only report_types w wd ∧ shows wd va ∧ shows wd vb.
Proof.
  intros Ea Eb Hoa Hsa Hob Hsb Hod.
  assert (only ([] ++ (verdict_type <$> assessment_verdicts a)) wb wd) as Hod'
    by (eapply only_trans; [apply (observed_status_only wb d)|done]).
  split; [|split].
  - eapply only_sub; [exact (only_trans _ _ _ _ _ Hoa (only_trans _ _ _ _ _ Hob Hod'))|]. rewrite Ea, Eb. set_solver.
  - eapply shows_only; [exact Hod'|rewrite Ea; set_solver|]. eapply shows_only; [exact Hob|rewrite Ea, Eb; set_solver|done].
  - eapply shows_only; [exact Hod'|rewrite Eb; set_solver|done].
Qed.

Lemma record_event_silent (b : bool) about eventtype reason action note h x :
  returns (if b then Eventf about eventtype reason action note else Ret ()) h x →
  Forall (λ c, is_status_write (call_event c) = false) h.
Proof. destruct b; [intros (y & h' & -> & -> & _); by repeat constructor|by intros [-> _]]. Qed.

Lemma same_workload_sym w w' : same_workload w w' → same_workload w' w.
Proof. unfold same_workload. naive_solver. Qed.

Lemma observe_passed s rec w h w' :
  returns (observeAndReportStatus rec w) h (w', None) → Forall (served_by s) h → Forall kept_contract h →
  only report_types w w' ∧ stored_status (w_Status w) h = w_Status w' ∧
  ∀ R w2, reads_from s R → same_workload w w2 → w_Status w2 = w_Status w' →
    safe R idle (observeAndReportStatus rec w2) (λ out, out = (w2, None)).
Proof.
  unfold observeAndReportStatus at 1. intros ([err|d] & h1 & -> & Hr)%returns_call Hs Hk; [by destruct Hr|].
  apply returns_bind in Hr as (h2 & [wa [err|]] & h3 & -> & Ha & Hr); [by destruct Hr|].
  apply returns_bind in Hr as (h4 & [wb [err|]] & h5 & -> & Hb & Hr); [by destruct Hr|].
  apply returns_bind in Hr as (h6 & wd & h7 & -> & Hd & Hr).
  apply returns_bind in Hr as (h8 & [we [err|changed]] & h9 & -> & Hp & Hr); [by destruct Hr|].
  apply returns_bind in Hr as (h10 & [] & h11 & -> & Hev%record_event_silent & [-> [= ->]]).
  rewrite app_nil_r in *. apply Forall_cons in Hs as [(s1 & _ & Hdep) Hs], Hk as [_ Hk].
  rewrite !Forall_app in Hs, Hk. destruct Hs as (Hs2 & Hs4 & _), Hk as (_ & _ & _ & Hk8 & _).
  destruct (observeAutoscaling_passed s w h2 wa Ha Hs2) as (va & Ea & (Hoa & Hsa & Hqa & Hia) & _).
  destruct (observeAvailability_passed s wa h4 wb Hb Hs4) as (vb & Eb & (Hob & Hsb & Hqb & Hib) & _).
  destruct (setAssessmentConditions_returns _ _ _ _ Hd) as (Hod & Hsd & Hqd & cs & Ewd).
  destruct (patchStatus_kept w wd h8 we _ Hk8 Hp) as (Hsame & Hst & Hkept).
  destruct (report_chain _ _ _ _ _ _ _ _ Ea Eb Hoa Hsa Hob Hsb Hod) as (Ho & Hsa' & Hsb').
  split; [by eapply only_status|]. split.
  { change (stored_status (w_Status w) (h2 ++ h4 ++ h6 ++ h8 ++ h10) = w_Status we).
    rewrite !stored_status_app, (stored_status_silent _ h2), (stored_status_silent _ h4), (stored_status_silent _ h6), Hkept,
      stored_status_silent by done. done. }
  intros R w2 HR Hw2 Hst2. rewrite Hst in Hst2.
  assert (same_workload wd w2) as Hwd by (eapply same_workload_trans; [apply same_workload_sym, Ho|done]).
  assert (same_workload wb w2) as Hwb.
  { eapply same_workload_trans; [|exact Hwd]. by subst wd. }
  pose proof Hw2 as (Hsp & Hns & Hn & _). pose proof Hwb as (Hspb & _).
  unfold observeAndReportStatus. rewrite Hns, Hn. split; [done|]. intros y Hy.
  destruct (HR _ Hy) as [(s2 & _ & Hy2) Herr]. specialize (Herr eq_refl).
  destruct y as [ey|d2]; simpl in Hdep, Hy2; [by rewrite (Hy2 (Herr ey eq_refl)) in Hdep|].
  rewrite Hdep in Hy2. injection Hy2 as <-. cbn.
  eapply safe_seq; [apply (Hia R w2 Hw2); [by apply (shows_status wd)|done]|]. intros ? ->.
  eapply safe_seq.
  { apply (Hib R w2); [|by apply (shows_status wd)|done]. eapply same_workload_trans; [apply same_workload_sym, Hoa|done]. }
  intros ? ->. assert (observed_status w2 d = w2) as Hidle by (eapply observed_status_idle; [exact Hwb|by rewrite Hst2, Ewd]).
  rewrite Hidle.
  assert (assessDeployment w2 d = assessDeployment (observed_status wb d) d) as ->.
  { unfold assessDeployment, desiredReplicas. simpl. by rewrite Hspb. }
  eapply safe_seq; [apply setAssessmentConditions_idle|].
  { eapply Forall_impl; [exact Hsd|]. intros v. by apply shows_status. }
  intros ? ->. eapply safe_seq; [by apply patchStatus_idle|]. by intros ? ->.
Qed.

(** ** The gates together *)

Definition gate_types : list string := [conditionTenantReady; conditionExternalSecretsReady; conditionExposureReady].

(** What the gates left behind: verdicts later reconciliations meet again. *)
Definition gates_left (r : AIWorkloadReconciler) w w' h external : Prop :=
  ∃ vt ve, verdict_type vt = conditionTenantReady ∧ verdict_type ve = conditionExternalSecretsReady ∧
    shows w' vt ∧ shows w' ve ∧
    ∀ R w2, as_in h R → same_workload w w2 → shows w2 vt → shows w2 ve → shows w2 (Absent conditionExposureReady) →
      safe R idle (run_gates r w2) (λ out, out = (w2, inr (external, no_exposure))).

(** A gate and its patch. *)
Lemma patched_after T w w1 w2 h1 h2 x :
  only T w w1 → Forall (λ c, is_status_write (call_event c) = false) h1 → Forall kept_contract h2 →
  returns (patchStatus w w1) h2 (w2, x) →
  only T w w2 ∧ stored_status (w_Status w) (h1 ++ h2) = w_Status w2 ∧ same_workload w1 w2 ∧ w_Status w2 = w_Status w1.
Proof.
  intros Ho Hq Hk Hp. destruct (patchStatus_kept _ _ _ _ _ Hk Hp) as (Hs & Hst & Hkept).
  split; [by eapply only_status|]. split; [|done]. by rewrite stored_status_app, (stored_status_silent _ h1), Hkept.
Qed.

Lemma kept_contracts h : Forall kept_contract h → Forall R1 h.
Proof. intros Hh. eapply Forall_impl; [exact Hh|]. by intros c []. Qed.

Lemma run_gates_leaves r w h w' external st :
  (∀ lookup, r_CapabilityLookup (r_gates r) = Some lookup → lookup_ok any_text lookup) → Forall kept_contract h →
  HTTPRouteEnabled (Some w) = false → returns (run_gates r w) h (w', inr (external, st)) →
  only gate_types w w' ∧ stored_status (w_Status w) h = w_Status w' ∧ xs_active st = false ∧
  (xs_manageRoute st = false → shows w' (Absent conditionExposureReady)) ∧ gates_left r w w' h external.
Proof.
  intros Hl Hk He. unfold run_gates at 1.
  intros (h1 & [w1 [err|]] & k1 & -> & Ht & Hr)%returns_bind; [by destruct Hr as [_ [=]]|].
  apply returns_bind in Hr as (h2 & [w2 [err|b1]] & k2 & -> & Hp1 & Hr); [by destruct Hr as [_ [=]]|].
  apply returns_bind in Hr as (h3 & [w3 [err|ext]] & k3 & -> & Hx & Hr); [by destruct Hr as [_ [=]]|].
  apply returns_bind in Hr as (h4 & [w4 [err|b2]] & k4 & -> & Hp2 & Hr); [by destruct Hr as [_ [=]]|].
  apply returns_bind in Hr as (h5 & [w5 [err|exposure]] & k5 & -> & Hv & Hr); [by destruct Hr as [_ [=]]|].
  apply returns_bind in Hr as (h6 & [w6 [err|b3]] & k6 & -> & Hp3 & [-> [= -> -> ->]]); rewrite app_nil_r in *.
  rewrite !Forall_app in Hk. destruct Hk as (Hk1 & Hk2 & Hk3 & Hk4 & Hk5 & Hk6).
  destruct (validateTenant_passed _ _ _ _ Ht) as (vt & Et & Hot & Hst & Hqt & Hit).
  destruct (patched_after _ _ _ _ _ _ _ Hot Hqt Hk2 Hp1) as (Ho2 & Hst2 & Hs2 & Hw2).
  destruct (validateExternalSecrets_passed _ _ _ _ _ Hl (kept_contracts _ Hk3) Hx) as (ve & Ee & Hoe & Hse & Hqe & Hie).
  destruct (patched_after _ _ _ _ _ _ _ Hoe Hqe Hk4 Hp2) as (Ho4 & Hst4 & Hs4 & Hw4).
  assert (only gate_types w w4) as Ho24.
  { eapply only_sub; [exact (only_trans _ _ _ _ _ Ho2 Ho4)|]. rewrite Et, Ee. set_solver. }
  assert (HTTPRouteEnabled (Some w4) = false) as He4 by (by rewrite (HTTPRouteEnabled_same w w4) by apply Ho24).
  destruct (validateExposure_passed _ _ _ _ _ Hl (kept_contracts _ Hk5) He4 Hv) as (Hov & Hqv & Hact & Habs).
  destruct (patched_after _ _ _ _ _ _ _ Hov Hqv Hk6 Hp3) as (Ho6 & Hst6 & Hs6 & Hw6).
  split; [eapply only_sub; [exact (only_trans _ _ _ _ _ Ho24 Ho6)|set_solver]|]. split.
  { replace (h1 ++ h2 ++ h3 ++ h4 ++ h5 ++ h6) with ((h1 ++ h2) ++ (h3 ++ h4) ++ (h5 ++ h6)) by (by rewrite <-!app_assoc).
    by rewrite !(stored_status_app _ (_ ++ _)), Hst2, Hst4, Hst6. }
  split; [done|]. split; [by intros Hm; apply (shows_status w5), Habs|].
  exists vt, ve. split; [done|]. split; [done|]. split.
  { eapply shows_only; [exact Ho6|rewrite Et; set_solver|]. eapply shows_only; [exact Ho4|rewrite Et, Ee; set_solver|].
    by apply (shows_status w1). }
  split; [eapply shows_only; [exact Ho6|rewrite Ee; set_solver|]; by apply (shows_status w3)|].
  intros R u Ha Hu Hut Hue Hux. unfold run_gates.
  assert (as_in h1 R ∧ as_in h3 R) as [Ha1 Ha3] by (split; (eapply as_in_sub; [|exact Ha]); set_solver).
  eapply safe_seq; [by apply (Hit R u)|]. intros ? ->. eapply safe_seq; [by apply patchStatus_idle|]. intros ? ->.
  eapply safe_seq; [apply (Hie R u); [|done..]; eapply same_workload_trans; [apply same_workload_sym, Ho2|done]|].
  intros ? ->. eapply safe_seq; [by apply patchStatus_idle|]. intros ? ->.
  eapply safe_seq; [apply validateExposure_idle; [by rewrite (HTTPRouteEnabled_same w u)|done]|]. intros ? ->.
  eapply safe_seq; [by apply patchStatus_idle|]. by intros ? ->.
Qed.

End Gates.
