(* ===== verification/Settling.v ===== *)
(** * A reconciliation settles

    After a pass of [Reconcile] that went through, a further one that finds the cluster as the first
    left it makes no write at all. *)
From S2P Require Import Prelude Errors GoStd Kube Api Naming Intent Autoscaling Deploy ServiceIntent Availability Route.
From S2P Require Import Builder Effects Capability Engine Cluster Conditions Status Failures Gates Controller Contract.
From S2P Require Import Safety Gating EngineTheorems ReconcileTheorems Ordering Convergence Quiescence.
From S2P Require Import KubeReference Sample ClusterReference.

(** ** The plan depends on the workload's identity and spec *)

(** The workload with other metadata the plan does not look at, and another status. *)
Definition restamped (m : ObjectMeta) (st : AIWorkloadStatus) (w : AIWorkload) : AIWorkload := {|
  w_meta := {|
    om_Name := om_Name (w_meta w); om_Namespace := om_Namespace (w_meta w); om_UID := om_UID (w_meta w);
    om_ResourceVersion := om_ResourceVersion m; om_Generation := om_Generation (w_meta w);
    om_DeletionTimestamp := om_DeletionTimestamp (w_meta w); om_Labels := om_Labels m;
    om_Annotations := om_Annotations m; om_OwnerReferences := om_OwnerReferences m;
    om_Finalizers := om_Finalizers m; om_other := om_other m |};
  w_Spec := w_Spec w; w_Status := st |}.

Lemma same_workload_restamped w w' : same_workload w w' → w' = restamped (w_meta w') (w_Status w') w.
Proof.
  destruct w as [[] sp st], w' as [[] sp' st'].
  unfold same_workload, w_Namespace, w_Name, w_UID, w_Generation, w_DeletionTimestamp. simpl.
  intros (-> & -> & -> & -> & -> & ->). done.
Qed.

Section Plan.
Context `{Quantities, UnstructuredHelpers}.
Implicit Types (p w : AIWorkload).

Lemma append_restamped m st w names :
  append_SecretRefs names (restamped m st w) = restamped m st (append_SecretRefs names w).
Proof. reflexivity. Qed.

Lemma Build_restamped m st p : Build (Some (restamped m st p)) = Build (Some p).
Proof. read_fields. cbn [restamped w_Spec w_meta om_Name om_Namespace om_UID]. reflexivity. Qed.

Lemma HTTPRouteIntent_restamped m st p : HTTPRouteIntent (Some (restamped m st p)) = HTTPRouteIntent (Some p).
Proof. read_fields. cbn [restamped w_Spec w_meta om_Name om_Namespace om_UID]. reflexivity. Qed.

Lemma validate_intents_restamped m st w plan seen :
  validate_intents (restamped m st w) plan seen = validate_intents w plan seen.
Proof. revert seen. induction plan as [|i plan IH]; intros seen; simpl; [done|]. destruct (ptr_meta _); simpl; by rewrite ?IH. Qed.

Lemma ValidatePlan_restamped m st w plan : ValidatePlan (restamped m st w) plan = ValidatePlan w plan.
Proof. unfold ValidatePlan. by rewrite validate_intents_restamped. Qed.

Lemma build_plan_same w w' external exposure :
  same_workload w w' → build_plan Build w' external exposure = build_plan Build w external exposure.
Proof.
  intros ->%same_workload_restamped. unfold build_plan.
  rewrite append_restamped, Build_restamped, HTTPRouteIntent_restamped.
  destruct (Build _) as [plan|e|]; simpl; [|done..].
  destruct (if xs_manageRoute exposure then _ else _) as [plan'|e|]; simpl; [|done..].
  by rewrite ValidatePlan_restamped.
Qed.
End Plan.

(** ** What depends on the workload's identity only *)

Section Same.
Context `{ApiErrors, OwnerHelpersLaws, SemanticDeepEqual Object}.
Implicit Types (w : AIWorkload) (i : Intent) (s : objects).

Lemma valid_owner_same w w' : same_workload w w' → valid_owner w → valid_owner w'.
Proof. intros (_ & Hns & Hn & Hu & _). unfold valid_owner. by rewrite Hns, Hn, Hu. Qed.

Lemma valid_intent_same w w' i : same_workload w w' → valid_intent w i → valid_intent w' i.
Proof. intros (_ & Hns & Hn & _). unfold valid_intent. by rewrite Hns, Hn. Qed.

Lemma set_controller_same w w' o : same_workload w w' → set_controller w' o = set_controller w o.
Proof.
  intros (_ & Hns & Hn & Hu & _). unfold set_controller.
  by rewrite (SetControllerReference_owner _ _ (w_meta w) (w_meta w')) by done.
Qed.

Lemma child_converged_same w w' s i : same_workload w w' → child_converged w s i → child_converged w' s i.
Proof.
  intros Hw (object & Ei & Hc). exists object. split; [done|]. destruct (s !! object_key object) as [c|]; [|done].
  destruct (i_Absent i); [done|]. destruct Hc as (Ho & Hd & f & m & after & Hf & Hm & Hk & Hs & Hq).
  split; [by rewrite (owns_same w w')|]. split; [done|]. exists f, m, after. by rewrite (set_controller_same w w').
Qed.

End Same.

(** ** The plan of a pass without an exposure *)

Section SteadyPlan.
Context `{QuantitiesLaws, UnstructuredHelpersLaws}.

Lemma childOrder_le o : (childOrder o ≤ 6)%Z.
Proof. destruct o as [| [] | []]; simpl; try lia. by case_bool_decide. Qed.

Lemma decorate_snoc plan i revision :
  is_deployment (i_Object i) = false →
  decorateExternalSecretRevision (plan ++ [i]) revision = decorateExternalSecretRevision plan revision ++ [i].
Proof.
  intros Hi. unfold decorateExternalSecretRevision. case_bool_decide; [done|].
  induction plan as [|j plan IH]; simpl; [by rewrite Hi|]. destruct (is_deployment (i_Object j)); simpl; [done|]. by rewrite IH.
Qed.

(** A plan that also removes the route is the plan without it, and the removal. *)
Lemma build_plan_without_route build w external exposure plan :
  build_plan build w external exposure = Ok plan →
  ∃ plan0, build_plan build w external no_exposure = Ok plan0 ∧ ∀ i, i ∈ plan0 → i ∈ plan.
Proof.
  intros (children & routes & ordered & Hc & Hr & Hv & ->)%build_plan_inv. unfold build_plan. rewrite Hc. simpl.
  destruct (xs_manageRoute exposure).
  - destruct Hr as (route & Hr & ->). apply HTTPRouteIntent_wf in Hr as (_ & _ & Ho).
    apply ValidatePlan_Ok in Hv as (Hown & [Hv Hi]%Forall_app & Hnd & ->).
    rewrite fmap_app in Hnd. apply NoDup_app in Hnd as (Hnd & _).
    rewrite (proj2 (ValidatePlan_Ok w children _)) by done. simpl. eexists. split; [done|].
    rewrite (SliceStable_snoc (childOrder ∘ i_Object)), decorate_snoc by
      (by rewrite Ho || (apply Forall_true; intros i; simpl; rewrite Ho; apply childOrder_le)).
    set_solver.
  - subst routes. rewrite app_nil_r in Hv. rewrite Hv. simpl. by eexists.
Qed.

End SteadyPlan.

(** ** The stages after the gates *)

Section Stages.
Context `{QuantitiesLaws, ConditionsLaws, ApiErrors, UnstructuredHelpersLaws, OwnerHelpersLaws}.
Context `{SemanticDeepEqual AIWorkloadStatus, !SemanticDeepEqualLaws AIWorkloadStatus, !SemanticDeepEqualExact AIWorkloadStatus}.
Context `{SemanticDeepEqual Object, !SemanticDeepEqualLaws Object}.
Implicit Types (r : AIWorkloadReconciler) (w : AIWorkload) (i : Intent) (s : objects) (h : history).

Let R1 := api_contract any_text.

(** Calls that write no child are answered by one cluster. *)
Lemma serves_answers s h s' :
  Forall (λ c, is_child_write (call_event c) = false) h → serves s h s' → Forall (served_by s) h.
Proof.
  revert s. induction h as [|[e x] h IH]; intros s; simpl; [done|]. intros [He Hh]%Forall_cons (s1 & Hx & Hs).
  pose proof (served_silent _ _ _ _ He Hx) as ->. constructor; [by exists s|]. by eapply IH.
Qed.

(** The engine patches no status. *)
Lemma Apply_patches_no_status w i :
  safe_intent i → safe (λ _, True) (λ e, is_status_write e = false) (Apply w i) (λ _, True).
Proof.
  intros Hi. apply (wp_safe _ _ []). eapply wp_impl; [by apply Apply_calls, safe_intent_total|done|].
  intros h e []; try done. by destruct object.
Qed.

Lemma apply_plan_patches_no_status r w plan :
  Forall safe_intent plan → safe (λ _, True) (λ e, is_status_write e = false) (apply_plan r w plan) (λ _, True).
Proof.
  induction plan as [|i plan IH]; simpl; [done|]. intros [Hi Hp]%Forall_cons.
  eapply safe_seq; [by apply Apply_patches_no_status|]. intros [err|outcome] _;
    (eapply (safe_seq _ _ (λ _, True)); [by destruct (r_Telemetry r)|]); auto.
Qed.

(** Over a cluster as the plan wants it, with nothing on its way out, the engine reads. *)
Lemma Apply_unchanged w i s R :
  valid_owner w → valid_intent w i → Time_IsZero (w_DeletionTimestamp w) = true → child_converged w s i →
  (∀ c, s !! intent_key w i = Some c → Time_IsZero (om_DeletionTimestamp (obj_meta c)) = true) → reads_from s R →
  safe R idle (Apply w i) (λ out, out = inr Unchanged).
Proof.
  intros Ho Hi Hlive Hc Hterm HR. pose proof Hi as (object & Ei & Hord & _). rewrite Ei in Hord.
  rewrite (Apply_reads w i object) by done. split; [by destruct object|]. intros x Hx.
  destruct (HR _ Hx) as [(s1 & [_ Hread]%served_get) Herr]; [|done].
  destruct (after_read_idle w i object s _ Hc Ei Hread) as (out & -> & Hout). simpl. apply Hout.
  - intros err Hx'. apply Herr; [|by apply get_reply_error].
    destruct object; try done. simpl in Hord |- *. by case_bool_decide.
  - intros Ha. destruct Hc as (object' & Ei' & Hc). rewrite Ei in Ei'. injection Ei' as <-.
    rewrite (valid_intent_key _ _ _ Hi Ei) in *. destruct (s !! intent_key w i) as [c|]; [|done].
    rewrite Ha in Hc. by rewrite Hterm in Hc.
Qed.

Lemma apply_plan_unchanged r w plan s R :
  valid_owner w → Time_IsZero (w_DeletionTimestamp w) = true → Forall (valid_intent w) plan →
  Forall (child_converged w s) plan →
  (∀ z c, s !! (z, w_Namespace w, ChildName (w_Name w)) = Some c → Time_IsZero (om_DeletionTimestamp (obj_meta c)) = true) →
  reads_from s R → safe R idle (apply_plan r w plan) (λ out, out = None).
Proof.
  intros Ho Hlive Hv Hc Hterm HR. induction plan as [|i plan IH]; simpl; [done|].
  apply Forall_cons in Hv as [Hi Hv], Hc as [Hci Hc].
  eapply safe_seq; [apply (Apply_unchanged w i s); try done; apply Hterm|]. intros ? ->.
  eapply (safe_seq _ _ (λ _, True)); [by destruct (r_Telemetry r)|]. auto.
Qed.

(** Nothing of the workload is on its way out. *)
Definition none_terminating w s : Prop :=
  ∀ z c, s !! (z, w_Namespace w, ChildName (w_Name w)) = Some c → Time_IsZero (om_DeletionTimestamp (obj_meta c)) = true.

Lemma children_passed r w external exposure h s s' :
  settling_workload w → Time_IsZero (w_DeletionTimestamp w) = true → keyed s → Forall R1 h →
  returns (reconcile_children r Build w external exposure) h None → serves s h s' → none_terminating w s' →
  Forall (λ c, is_status_write (call_event c) = false) h ∧
  ∀ R w2, reads_from s' R → as_in h R → same_workload w w2 →
    safe R idle (reconcile_children r Build w2 external no_exposure) (λ out, out = None).
Proof.
  intros Hw Hlive Hkey Hh Hr Hs Hterm. unfold reconcile_children in Hr.
  destruct (build_plan Build w external exposure) as [plan|err|] eqn:Ep; simpl in Hr; [|by destruct Hr|by destruct Hr as ([] & _)].
  apply returns_bind in Hr as (h1 & [err|] & h2 & -> & Ha & Hr); [by destruct Hr|].
  apply serves_app in Hs as (s1 & Hs1 & Hs2). apply Forall_app in Hh as [Hh1 Hh2].
  unfold validateSecretReferences in Hr.
  pose proof (steady_secrets (w_Namespace w) (sp_SecretRefs (w_Spec w))) as Hsec.
  assert (s1 = s') as ->.
  { symmetry. eapply serves_silent; [|done].
    exact (safe_history _ _ _ _ _ _ (validate_secrets_silent R1 (w_Namespace w) (sp_SecretRefs (w_Spec w))) Hr Hh2). }
  pose proof (build_plan_settling _ _ _ _ Ep Hw) as Hset. pose proof (build_plan_sorted _ _ _ _ _ Ep) as Hsort.
  pose proof (build_plan_intents _ _ _ _ _ _ Ep) as (Ho & Hv & Hsafe).
  destruct (loop_converges r w plan h1 s s') as [Hc _]; try done; [by eapply sorted_orders|].
  destruct (build_plan_without_route _ _ _ _ _ Ep) as (plan0 & Ep0 & Hsub).
  split.
  - apply Forall_app. split.
    + apply (safe_history _ _ _ _ _ _ (apply_plan_patches_no_status r w plan Hsafe) Ha). by apply Forall_true.
    + exact (steady_silent _ _ _ Hsec Hh2 Hr).
  - intros R w2 HR Has Hsame. pose proof Hsame as (Hsp & Hns & Hn & _ & _ & Hdt).
    unfold reconcile_children. rewrite (build_plan_same w w2), Ep0 by done. simpl.
    eapply safe_seq.
    { apply (apply_plan_unchanged r w2 plan0 s'); [by eapply valid_owner_same|by rewrite Hdt| | | |done].
      - apply Forall_forall. intros i Hi%Hsub. eapply valid_intent_same; [done|]. by eapply Forall_forall in Hv.
      - apply Forall_forall. intros i Hi%Hsub. eapply child_converged_same; [done|]. by eapply Forall_forall in Hc.
      - rewrite Hns, Hn. exact Hterm. }
    intros ? ->. unfold validateSecretReferences. rewrite Hsp, Hns.
    apply (replay_steady _ _ _ Hsec Hh2 Hr). eapply as_in_sub; [|exact Has]. set_solver.
Qed.

(** A failure is reported with an error or a delay. *)
Lemma report_requeues b t w err h : ¬ returns (reportFailure b t w err) h (no_requeue, None).
Proof.
  unfold reportFailure.
  intros (h1 & w1 & k1 & _ & _ & (h2 & w2 & k2 & _ & _ & (h3 & w3 & k3 & _ & _ & (h4 & w4 & k4 & _ & _ & Hr)%returns_bind
    )%returns_bind)%returns_bind)%returns_bind.
  apply returns_bind in Hr as (h5 & [w5 [err'|changed]] & k5 & _ & _ & Hr); [by destruct Hr as [_ [=]]|].
  apply returns_bind in Hr as (h6 & [] & k6 & _ & _ & (h7 & [] & k7 & _ & _ & Hr)%returns_bind).
  destruct (f_permanent _); by destruct Hr as [_ [=]].
Qed.

(** The report of a pass without a route. *)
Lemma report_passed r w exposure h s s' :
  xs_active exposure = false → (xs_manageRoute exposure = false → shows w (Absent conditionExposureReady)) →
  Forall kept_contract h → returns (report_status r w exposure) h (no_requeue, None) → serves s h s' →
  ∃ w', only (conditionExposureReady :: report_types) w w' ∧ shows w' (Absent conditionExposureReady) ∧
    stored_status (w_Status w) h = w_Status w' ∧ s' = s ∧
    ∀ R w2, reads_from s R → same_workload w w2 → w_Status w2 = w_Status w' →
      safe R idle (report_status r w2 no_exposure) (λ out, out = (no_requeue, None)).
Proof.
  intros Hact Habs Hk Hr Hs.
  assert (Forall (λ c, is_child_write (call_event c) = false) h) as Hq.
  { exact (safe_history _ _ _ _ _ _ (report_status_silent r w exposure) Hr (kept_contracts _ Hk)). }
  pose proof (serves_answers _ _ _ Hq Hs) as Hserved. pose proof (serves_silent _ _ _ Hq Hs) as ->.
  unfold report_status in Hr.
  apply returns_bind in Hr as (h1 & [w1 [err|delay]] & k1 & -> & Ho & Hr); [by apply report_requeues in Hr|].
  apply returns_bind in Hr as (h2 & [w2 [err|changed]] & k2 & -> & Hp & Hr); [by apply report_requeues in Hr|].
  apply returns_bind in Hr as (h3 & [w3 [err|]] & k3 & -> & Hobs & Hr); [by apply report_requeues in Hr|].
  destruct Hr as [-> [= <-]]. rewrite app_nil_r in *.
  rewrite !Forall_app in Hk. destruct Hk as (_ & Hk2 & Hk3). rewrite !Forall_app in Hserved. destruct Hserved as (_ & _ & Hs3).
  assert (h1 = [] ∧ only [conditionExposureReady] w w1 ∧ shows w1 (Absent conditionExposureReady)) as (-> & Ho1 & Hs1).
  { unfold observeExposure in Ho. rewrite Hact in Ho. destruct (xs_manageRoute exposure); destruct Ho as [-> [= ->]].
    - split; [done|]. apply remove_condition_shows.
    - split; [done|]. split; [done|]. by apply Habs. }
  destruct (patched_after _ w w1 w2 [] h2 _ Ho1 ltac:(constructor) Hk2 Hp) as (Ho2 & Hst2 & Hs2 & Hw2).
  destruct (observe_passed s (r_Recorder r) w2 h3 w3 Hobs Hs3 Hk3) as (Ho3 & Hst3 & Hidle).
  exists w3. split; [by eapply (only_trans [_])|]. split.
  { eapply shows_only; [exact Ho3|simpl; set_solver|]. by apply (shows_status w1). }
  split; [rewrite app_nil_l in Hst2; by rewrite app_nil_l, stored_status_app, Hst2|]. split; [done|].
  intros R u HR Hu Hut. unfold report_status.
  eapply (safe_seq _ _ (λ out, out = (u, inr 0%Z))); [done|]. intros ? ->.
  eapply safe_seq; [by apply patchStatus_idle|]. intros ? ->.
  eapply safe_seq; [apply (Hidle R u HR); [|done]; eapply same_workload_trans; [apply same_workload_sym, Ho2|done]|].
  by intros ? ->.
Qed.

End Stages.

(** ** A whole pass *)

Section Settles.
Context `{QuantitiesLaws, ConditionsLaws, ApiErrors, UnstructuredHelpersLaws, OwnerHelpersLaws}.
Context `{SemanticDeepEqual AIWorkloadStatus, !SemanticDeepEqualLaws AIWorkloadStatus, !SemanticDeepEqualExact AIWorkloadStatus}.
Context `{SemanticDeepEqual Object, !SemanticDeepEqualLaws Object}.
Implicit Types (r : AIWorkloadReconciler) (w : AIWorkload) (s : objects) (h : history).

Lemma settling_workload_same w w' : same_workload w w' → settling_workload w → settling_workload w'.
Proof. intros (Hs & _) [Ha He]. split; [|by rewrite (HTTPRouteEnabled_spec_eq w)]. rewrite Hs, (AutoscalingEnabled_spec_eq w w' Hs). done. Qed.

(** The answers after the pass [h]: the stored workload [w], the cluster [s], and everything else
    as the pass found it. *)
Definition as_left (ns name : string) h w s (c : call event answer) : Prop :=
  answers_from s c ∧
  match c with
  | Call e y =>
      (steady_read e = true → ∀ x, Call e x ∈ h → y = x) ∧
      match e return answer e → Prop with
      | EGetWorkload ns' name' => λ y, ns' = ns → name' = name → y = inr w
      | _ => λ _, True
      end y
  end.

Lemma as_left_reads ns name h w s : reads_from s (as_left ns name h w s) ∧ as_in h (as_left ns name h w s).
Proof. split; [by intros c []|]. intros e x y He Hx [_ [Hy _]]. by apply Hy. Qed.

(** The workload a call read. *)
Definition workload_read (c : call event answer) : option (reply AIWorkload) :=
  match c with
  | Call e x =>
      match e return answer e → option (reply AIWorkload) with
      | EGetWorkload _ _ => Some
      | _ => λ _, None
      end x
  end.

Lemma returns_read {A} ns name (f : reply AIWorkload → program A) x h a :
  returns (get_workload ns name ≫= f) (Call (EGetWorkload ns name) x :: h) a → returns (f x) h a.
Proof.
  intros (y & h' & Hc & Hr)%returns_call. pose proof (f_equal tail Hc) as Ht. simpl in Ht. subst h'.
  apply (f_equal (λ l, head l ≫= workload_read)) in Hc. simpl in Hc. by injection Hc as <-.
Qed.

(** [Reconcile] once it has read a workload that is not being deleted. *)
Definition after_workload r w : program (Result * option error) :=
  '(workload, gates) ← run_gates r w;
  match gates with
  | inl err => reportFailure (r_Recorder r) (r_Telemetry r) workload err
  | inr (external, exposure) =>
      err ← reconcile_children r Build workload external exposure;
      match err with
      | Some err =>
          if errors_Is err ErrChildDeleting then Ret ({| RequeueAfter := 2 * Second |}, None)
          else reportFailure (r_Recorder r) (r_Telemetry r) workload err
      | None => report_status r workload exposure
      end
  end.

Lemma run_gates_silent r w :
  (∀ lookup, r_CapabilityLookup (r_gates r) = Some lookup → lookup_ok any_text lookup) →
  safe (api_contract any_text) (λ e, is_child_write e = false) (run_gates r w) (λ _, True).
Proof.
  intros Hl. apply (wp_safe _ _ []). eapply wp_impl; [eapply wp_mono; [apply (run_gates_passed r Hl w [])|done]|done|done].
Qed.

Lemma after_workload_settles r w w2 h s s' R :
  (∀ lookup, r_CapabilityLookup (r_gates r) = Some lookup → lookup_ok any_text lookup) →
  Time_IsZero (w_DeletionTimestamp w) = true → settling_workload w → keyed s →
  returns (after_workload r w) h (no_requeue, None) → Forall kept_contract h → serves s h s' → none_terminating w s' →
  reads_from s' R → as_in h R → same_workload w w2 → w_Status w2 = stored_status (w_Status w) h →
  safe R idle (after_workload r w2) (λ out, out = (no_requeue, None)).
Proof.
  intros Hl Hlive Hw Hkey Hr Hk Hs Hterm HR Has Hsame Hst. unfold after_workload in Hr.
  apply returns_bind in Hr as (h1 & [w1 [err|[external exposure]]] & k1 & -> & Hg & Hr); [by apply report_requeues in Hr|].
  apply returns_bind in Hr as (h2 & [err|] & h3 & -> & Hc & Hr).
  { destruct (errors_Is err ErrChildDeleting); [by destruct Hr as [_ [=]]|by apply report_requeues in Hr]. }
  apply serves_app in Hs as (s1 & Hs1 & (s2 & Hs2 & Hs3)%serves_app). rewrite !Forall_app in Hk. destruct Hk as (Hk1 & Hk2 & Hk3).
  assert (s1 = s) as -> by
    exact (serves_silent _ _ _ (safe_history _ _ _ _ _ _ (run_gates_silent r w Hl) Hg (kept_contracts _ Hk1)) Hs1).
  destruct (run_gates_leaves r w h1 w1 external exposure Hl Hk1 (proj2 Hw) Hg) as (Ho1 & Hst1 & Hact & Habs & vt & ve & Et & Ee & Hvt & Hve & Hagain).
  pose proof (proj1 Ho1) as Hsame1. pose proof Hsame1 as (Hsp1 & Hns1 & Hn1 & _ & _ & Hdt1).
  destruct (report_passed r w1 exposure h3 s2 s' Hact Habs Hk3 Hr Hs3) as (w' & Ho3 & Hax & Hst3 & -> & Hreport).
  destruct (children_passed r w1 external exposure h2 s s2) as [Hq2 Hchildren]; try done.
  { by apply (settling_workload_same w w1). }
  { by rewrite Hdt1. }
  { by apply kept_contracts. }
  { unfold none_terminating. by rewrite Hns1, Hn1. }
  assert (w_Status w2 = w_Status w') as Hst2.
  { rewrite Hst, !stored_status_app, Hst1, (stored_status_silent _ h2) by done. exact Hst3. }
  assert (same_workload w1 w2) as Hsame12 by (eapply same_workload_trans; [apply same_workload_sym|]; done).
  assert (same_workload w' w2) as Hsame' by (eapply same_workload_trans; [apply same_workload_sym, Ho3|done]).
  assert (∀ v, shows w' v → shows w2 v) as Hshow by (intros v; by apply shows_status).
  unfold after_workload. eapply safe_seq.
  { apply Hagain; [eapply as_in_sub; [|exact Has]; set_solver|done| | |by apply Hshow]; apply Hshow;
      (eapply shows_only; [exact Ho3|rewrite ?Et, ?Ee; unfold report_types; set_solver|done]). }
  intros ? ->. eapply safe_seq; [apply (Hchildren R w2); [done| |done]; eapply as_in_sub; [|exact Has]; set_solver|].
  intros ? ->. by apply Hreport.
Qed.

(** C3. Reconciliation settles.  Take a pass that ended with neither an error nor a requeue, for a
    workload without route and stabilization window.  A further pass that reads the workload with
    the status the first one stored, finds the children as the first left them, none of them being
    deleted and no read of them failing, and everything else as before, ends the same way and does
    nothing: it writes no child, patches no status, and emits no event. *)
Theorem Reconcile_settles r ns name w w2 h s s' :
  r_Builder r = Some Build →
  (∀ lookup, r_CapabilityLookup (r_gates r) = Some lookup → lookup_ok any_text lookup) →
  returns (Reconcile r ns name) (Call (EGetWorkload ns name) (inr w) :: h) (no_requeue, None) →
  Forall kept_contract (Call (EGetWorkload ns name) (inr w) :: h) → keyed s → serves s h s' →
  settling_workload w → none_terminating w s' →
  same_workload w w2 → w_Status w2 = stored_status (w_Status w) h →
  (∀ h2 e, issues (Reconcile r ns name) h2 e → Forall (as_left ns name h w2 s') h2 → idle e) ∧
  (∀ h2 out, returns (Reconcile r ns name) h2 out → Forall (as_left ns name h w2 s') h2 → out = (no_requeue, None)).
Proof.
  intros Hb Hl Hr [_ Hk]%Forall_cons Hkey Hs Hw Hterm Hsame Hst.
  assert (safe (as_left ns name h w2 s') idle (Reconcile r ns name) (λ out, out = (no_requeue, None))) as Hsafe;
    [|split; [intros h2 e Hi Hh2; exact (safe_issues _ _ _ _ Hsafe Hi Hh2)|intros h2 out Ho Hh2; exact (safe_returns _ _ _ _ Hsafe Ho Hh2)]].
  destruct (as_left_reads ns name h w2 s') as [HR Has].
  unfold Reconcile in *. case_bool_decide; [by destruct Hr as [_ [=]]|].
  destruct (watchesNamespace r ns); simpl negb in *; [|by destruct Hr].
  rewrite Hb in *. apply returns_read in Hr.
  split; [done|]. intros y [_ [_ Hy]]. rewrite (Hy eq_refl eq_refl). cbn [prog_bind mbind bind].
  pose proof Hsame as (_ & _ & _ & _ & _ & Hdt). rewrite Hdt.
  destruct (Time_IsZero (w_DeletionTimestamp w)) eqn:Hlive; [|done].
  by apply (after_workload_settles r w w2 h s s').
Qed.

End Settles.

(** ** A whole environment, and the witness *)

Module World.
Import Ref Sample.

(** The children in the executable cluster, and everything else in the sample API server. *)
Definition state : Type := server * ClusterRef.state.

Definition of_server (e : event) : bool :=
  match e with
  | EGetWorkload _ _ | EGetOther _ _ | EGetConfigMap _ _ _ | EGetSecretMetadata _ _ | EListWorkloads _ _
  | EServerResources _ | EPatchStatus _ _ | EPanic => true
  | EGetUnstructured _ gvk _ _ => negb (bool_decide (gvk = HTTPRouteGVK))
  | _ => false
  end.

Definition handle (st : state) (e : event) : option (state * answer e) :=
  if of_server e then '(s, x) ← Sample.handler st.1 e; Some ((s, st.2), x)
  else '(c, x) ← ClusterRef.handle st.2 e; Some ((st.1, c), x).

Definition children (st : state) : objects := st.2.2.

Lemma read_contract {A} (sel : Object → option A) wrap k s x :
  keyed s → (∀ o a, sel o = Some a → o = wrap a) → ClusterRef.read sel k s = Some x →
  (∀ a, x = inr a → om_Name (obj_meta (wrap a)) = k.2) ∧
  (∀ err, match x with inl e => Some e | inr _ => None end = Some err → plain_error err).
Proof.
  intros Hk Hsel. unfold ClusterRef.read. destruct (s !! k) as [o|] eqn:Es.
  - destruct (sel o) as [a|] eqn:Eo; simpl; intros [= <-]. split; [|done]. intros ? [= <-].
    rewrite <-(Hsel o a Eo). by rewrite <-(Hk _ _ Es).
  - intros [= <-]. split; [done|]. by intros ? [= <-].
Qed.

Ltac child_read_contract wrap :=
  let H := fresh in intros H; apply fmap_Some in H as (? & H & [= -> ->]);
  eapply (read_contract _ wrap) in H; [exact H || (destruct H; by split; [split; [eauto|]|])|eassumption|intros o ? ?; destruct o; by simplify_eq].

Lemma children_contract st e st' x : keyed st.2 → of_server e = false → ClusterRef.handle st e = Some (st', x) → kept_contract (Call e x).
Proof.
  intros Hk He Hx. split; [|by destruct e]. revert Hx. destruct e; try done; simpl; unfold ClusterRef.answer_with.
  - child_read_contract OServiceAccount.
  - child_read_contract ODeployment.
  - child_read_contract OService.
  - child_read_contract ONetworkPolicy.
  - child_read_contract OHorizontalPodAutoscaler.
  - child_read_contract OPodDisruptionBudget.
  - intros H. apply fmap_Some in H as (y & H & [= -> ->]). case_bool_decide as Eg.
    + assert (∀ o, y = inr o → un_GVK o = gvk) as Hg.
      { intros o ->. subst gvk. unfold ClusterRef.read in H. destruct (st.2 !! _) as [o'|] eqn:Eo; [|done].
        pose proof (Hk _ _ Eo) as Hko. destruct o'; try done. injection H as ->. simpl in Hko.
        unfold object_key in Hko. simpl in Hko. by case_bool_decide. }
      eapply (read_contract _ OUnstructured) in H as [Hn Her]; [|eassumption|intros o ? ?; destruct o; by simplify_eq].
      split; [|exact Her]. intros o Ho. split; [exact (Hn o Ho)|by apply Hg].
    + injection H as <-. split; [done|]. by intros ? [= <-].
  - destruct (st.2 !! _); intros [= <- <-]; (split; [done|]); by intros ? [= <-].
  - destruct (_ && _); intros [= <- <-]; (split; [done|]); by intros ? [= <-].
  - destruct (st.2 !! _); [destruct (_ && _)|]; intros [= <- <-]; (split; [done|]); by intros ? [= <-].
Qed.

Lemma server_contract s e s' x : of_server e = true → Sample.handler s e = Some (s', x) → kept_contract (Call e x).
Proof.
  intros He Hx. assert (e ≠ EPanic) as Hp by (by intros ->). destruct (cluster_contract s e Hp) as (s1 & y & Hy & Hc).
  rewrite Hx in Hy. simplify_eq. split; [done|]. destruct e; try done. simpl in *. simplify_eq. by eexists.
Qed.

Lemma server_silent e : of_server e = true → is_child_write e = false.
Proof. by destruct e. Qed.

Lemma handle_contract st e st' x :
  keyed (children st) → handle st e = Some (st', x) →
  keyed (children st') ∧ kept_contract (Call e x) ∧ served (children st) (children st') e x.
Proof.
  intros Hk. unfold handle. destruct (of_server e) eqn:He; intros Hx.
  - apply bind_Some in Hx as ([s y] & Hy & [= <- <-]). split; [done|]. split; [by eapply server_contract|].
    unfold children. simpl. destruct e; try done. simpl in He |- *. split; [done|]. intros ->. by rewrite bool_decide_true in He.
  - apply bind_Some in Hx as ([c y] & Hy & [= <- <-]). pose proof (ClusterRef.handle_served _ _ _ _ Hy) as Hs.
    split; [by eapply served_keyed|]. split; [by eapply children_contract|done].
Qed.

(** A run is a history as the theorem wants it. *)
Lemma run_history {A} (t : program A) st st' a :
  keyed (children st) → run handle st t = Some (st', a) →
  Forall kept_contract (log handle st t) ∧ serves (children st) (log handle st t) (children st').
Proof.
  revert st. induction t as [b|e k IH]; intros st Hk; simpl; [by intros [= -> _]|].
  destruct (handle st e) as [[st1 x]|] eqn:Eh; [|done]. intros Hr.
  destruct (handle_contract _ _ _ _ Hk Eh) as (Hk1 & Hc & Hs). destruct (IH x st1 Hk1 Hr) as [HF HS].
  split; [by constructor|]. by exists (children st1).
Qed.

(** The first pass over an empty cluster. *)
Definition start : state := (cluster workload, (0%N, ∅)).
Definition pass : program (Result * option error) := Reconcile reconciler ns "sample".
Definition after : state := match run handle start pass with Some (st, _) => st | None => start end.

(** The calls that are not [idle], as a test. *)
Definition is_idle (e : event) : bool :=
  match e with
  | ECreate _ | EPatch _ _ | EDelete _ _ _ | EPatchStatus _ _ | EEventf _ _ _ _ _ | ERecordFailure _ | EPanic => false
  | _ => true
  end.

Example second_pass :
  forallb (λ c, is_idle (call_event c)) (log handle start pass) = false ∧
  forallb (λ c, is_idle (call_event c)) (log handle after pass) = true ∧
  (5 <? length (log handle after pass))%nat = true.
Proof. vm_compute. done. Qed.

Lemma ran : run handle start pass = Some (after, (no_requeue, None)).
Proof.
  assert (match run handle start pass with Some (_, (res, None)) => (RequeueAfter res =? 0)%Z | _ => false end = true) as Hr
    by (vm_compute; reflexivity).
  unfold after. destruct (run handle start pass) as [[st [[d] [err|]]]|]; try done. apply Z.eqb_eq in Hr. simpl in Hr. by subst.
Qed.

(** The history of the pass begins with its read. *)
Lemma first_read : ∃ h, log handle start pass = Call (EGetWorkload ns "sample") (inr workload) :: h.
Proof.
  assert (∃ f, pass = Vis (EGetWorkload ns "sample") f) as [f Hf] by (eexists; reflexivity).
  rewrite Hf. simpl. by eexists.
Qed.

Lemma none_left : none_terminating workload (children after).
Proof.
  assert (forallb (λ kv, Time_IsZero (om_DeletionTimestamp (obj_meta kv.2))) (map_to_list (children after)) = true) as Hall
    by (vm_compute; reflexivity).
  rewrite forallb_forall in Hall. intros z c Hc%elem_of_map_to_list. by apply (Hall _ (proj1 (list_elem_of_In _ _) Hc)).
Qed.

End World.

Section Witness.
Import Ref Sample World.

Lemma Reconcile_settles_witness :
  ∃ h, log handle start pass = Call (EGetWorkload ns "sample") (inr workload) :: h ∧
    ∀ h2 e, issues pass h2 e → Forall (as_left ns "sample" h (srv_workload after.1) (children after)) h2 → idle e.
Proof.
  destruct first_read as [h Hh]. exists h. split; [exact Hh|].
  assert (keyed (children start)) as Hk by (intros k o Ho; discriminate Ho).
  destruct (run_history pass start after _ Hk ran) as [HF HS]. assert (returns pass (log handle start pass) (no_requeue, None)) as Hr by (eapply run_returns, ran).
  assert (w_Status (srv_workload after.1) = stored_status (w_Status workload) (tail (log handle start pass))) as Hst
    by (vm_compute; reflexivity).
  rewrite Hh in HF, HS, Hr, Hst. destruct HS as (s1 & Hs1 & HS). simpl in Hs1. subst s1.
  apply (Reconcile_settles reconciler ns "sample" workload (srv_workload after.1) h (children start) (children after)).
  - reflexivity.
  - intros lookup Hl. injection Hl as <-. apply HasResource_ok.
  - exact Hr.
  - exact HF.
  - exact Hk.
  - exact HS.
  - exact workload_settling.
  - exact none_left.
  - vm_compute. split_and!; reflexivity.
  - exact Hst.
Defined.

End Witness.
