(* ===== verification/Repeats.v ===== *)
(** * A failure that repeats is reported once

    A report of the failure the stored status already shows patches nothing and emits no event: the
    retries of a reconciliation that keeps failing are silent, up to the failure counter. *)
From S2P Require Import Prelude Errors GoStd Kube Api Naming Intent Autoscaling ServiceIntent Availability Effects.
From S2P Require Import Engine Conditions Status Failures Gates Controller Contract ReconcileTheorems Quiescence KubeReference Sample.

(** The calls of a repeated report: the clock, and the failure counter under the same reason. *)
Definition repeated_call (cause_reason : string) (e : event) : Prop :=
  match e with
  | ENow => True
  | ERecordFailure reason => reason = cause_reason
  | _ => False
  end.

Section Repeats.
Context `{ConditionsLaws, ApiErrors}.
Context `{SemanticDeepEqual AIWorkloadStatus, !SemanticDeepEqualLaws AIWorkloadStatus, !SemanticDeepEqualExact AIWorkloadStatus}.
Implicit Types (w : AIWorkload) (f : failure) (h : history).

Let silent h : Prop := Forall (λ c, is_status_write (call_event c) = false) h.

(** What the loop over the three types says. *)
Definition failure_verdict f typ : verdict := Says typ (failure_status (f_permanent f) typ) (f_reason f) (f_message f).

(** A step of the report: the conditions [vs] it sets, of their own types only. *)
Definition sets (vs : list verdict) w w' h : Prop :=
  only (verdict_type <$> vs) w w' ∧ Forall (shows w') vs ∧ silent h ∧ ∃ cs, w' = set_Conditions cs w.

Lemma sets_nil w : sets [] w w [].
Proof. split_and!; try done; [constructor|]. exists (w_Conditions w). symmetry. apply set_same_Conditions. Qed.

Lemma set_condition_sets typ status reason message w h w' :
  returns (set_condition typ status reason message w) h w' → sets [Says typ status reason message] w w' h.
Proof.
  intros Hr. pose proof (set_condition_fields _ _ _ _ _ _ _ Hr) as Hcs. apply set_condition_returns in Hr as (Ho & Hs & Hq).
  split_and!; try done. by constructor.
Qed.

(** Steps that set different types compose. *)
Lemma sets_seq vs us w1 w2 w3 h1 h2 :
  sets vs w1 w2 h1 → sets us w2 w3 h2 → (∀ v u, v ∈ vs → u ∈ us → verdict_type v ≠ verdict_type u) →
  sets (vs ++ us) w1 w3 (h1 ++ h2).
Proof.
  intros (Ho1 & Hs1 & Hq1 & cs1 & ->) (Ho2 & Hs2 & Hq2 & cs2 & ->) Hd. split_and!.
  - rewrite fmap_app. by eapply only_trans.
  - apply Forall_app. split; [|done]. apply Forall_forall. intros v Hv. rewrite Forall_forall in Hs1.
    eapply shows_only; [exact Ho2| |by apply Hs1]. intros (u & Hu & Hin)%list_elem_of_fmap. by apply (Hd v u).
  - by apply Forall_app.
  - by exists cs2.
Qed.

Lemma set_failure_conditions_sets types f w h w' :
  NoDup types → returns (set_failure_conditions types f w) h w' → sets (failure_verdict f <$> types) w w' h.
Proof.
  revert w h. induction types as [|typ types IH]; intros w h; cbn [set_failure_conditions]; [intros _ [-> ->]; apply sets_nil|].
  intros [Hn Hnd]%NoDup_cons (h1 & w1 & h2 & -> & Hr1%set_condition_sets & Hr2%IH)%returns_bind; [|done].
  refine (sets_seq [_] _ _ _ _ _ _ Hr1 Hr2 _). intros v u ->%list_elem_of_singleton (t & -> & Ht)%list_elem_of_fmap. simpl. by intros ->.
Qed.

(** The verdict of a gate's condition, when the gate refused. *)
Definition gate_verdicts (found : option (string * string)) typ f : list verdict :=
  match found with
  | Some _ => [Says typ ConditionFalse (f_reason f) (f_message f)]
  | None => []
  end.

Lemma set_gate_condition_sets found typ f w h w' :
  returns (set_gate_condition found typ f w) h w' → sets (gate_verdicts found typ f) w w' h.
Proof. destruct found; simpl; [apply set_condition_sets|]. intros [-> ->]. apply sets_nil. Qed.

Lemma set_failure_conditions_idle R G types f w :
  G ENow → Forall (shows w) (failure_verdict f <$> types) → safe R G (set_failure_conditions types f w) (λ w', w' = w).
Proof.
  intros HG. induction types as [|typ types IH]; cbn [set_failure_conditions]; [done|]. rewrite fmap_cons. intros [Ht Hs]%Forall_cons.
  eapply safe_seq; [by apply set_condition_idle|]. intros ? ->. auto.
Qed.

Lemma set_gate_condition_idle R G found typ f w :
  G ENow → Forall (shows w) (gate_verdicts found typ f) → safe R G (set_gate_condition found typ f w) (λ w', w' = w).
Proof. intros HG. destruct found; simpl; [|done]. intros [Hs _]%Forall_cons. by apply set_condition_idle. Qed.

(** All conditions of a report, in its order. *)
Definition report_verdicts cause f : list verdict :=
  (failure_verdict f <$> [conditionReady; conditionProgressing; conditionDegraded]) ++
  gate_verdicts (errors_As_Tenant cause) conditionTenantReady f ++
  gate_verdicts (errors_As_ExternalSecret cause) conditionExternalSecretsReady f ++
  gate_verdicts (errors_As_Exposure cause) conditionExposureReady f.

(** The conditions of a report, as one step. *)
Definition set_report cause f w : program AIWorkload :=
  w ← set_failure_conditions [conditionReady; conditionProgressing; conditionDegraded] f w;
  w ← set_gate_condition (errors_As_Tenant cause) conditionTenantReady f w;
  w ← set_gate_condition (errors_As_ExternalSecret cause) conditionExternalSecretsReady f w;
  set_gate_condition (errors_As_Exposure cause) conditionExposureReady f w.

Lemma set_report_sets cause f w h w' :
  returns (set_report cause f w) h w' → sets (report_verdicts cause f) w w' h.
Proof.
  intros (h1 & w1 & k1 & -> & Hr1 & (h2 & w2 & k2 & -> & Hr2%set_gate_condition_sets & (h3 & w3 & h4 & -> & Hr3%set_gate_condition_sets &
    Hr4%set_gate_condition_sets)%returns_bind)%returns_bind)%returns_bind.
  apply set_failure_conditions_sets in Hr1; [|by apply (bool_decide_unpack _)].
  refine (sets_seq _ _ _ _ _ _ _ Hr1 (sets_seq _ _ _ _ _ _ _ Hr2 (sets_seq _ _ _ _ _ _ _ Hr3 Hr4 _) _) _);
    intros v u Hv Hu; destruct (errors_As_Tenant cause), (errors_As_ExternalSecret cause), (errors_As_Exposure cause);
    simpl in Hv, Hu; set_unfold; naive_solver.
Qed.

(** A report in steps: the conditions, the patch, and calls that patch nothing. *)
Lemma reportFailure_steps recorder telemetry w cause :
  let f := classify cause in
  let p := if IsNotFound cause then clear_ReadyReplicas w else w in
  ∀ h out, returns (reportFailure recorder telemetry w cause) h out →
  ∃ h1 p1 h2 p2 patched h3, h = h1 ++ h2 ++ h3 ∧ returns (set_report cause f p) h1 p1 ∧
    returns (patchStatus w (failed_status p1)) h2 (p2, patched) ∧
    Forall (λ c, is_status_write (call_event c) = false) h3 ∧
    out = match patched with
          | inl err => (no_requeue, retryError (Some err))
          | inr _ => if f_permanent f then ({| RequeueAfter := Minute |}, None) else (no_requeue, retryError (Some cause))
          end.
Proof.
  intros f p h out. unfold reportFailure.
  intros (h1 & w1 & k1 & -> & Hr1 & (h2 & w2 & k2 & -> & Hr2 & (h3 & w3 & k3 & -> & Hr3 & (h4 & w4 & k4 & -> & Hr4 & Hr)%returns_bind
    )%returns_bind)%returns_bind)%returns_bind.
  apply returns_bind in Hr as (h5 & [w5 patched] & k5 & -> & Hp & Hr).
  exists (h1 ++ h2 ++ h3 ++ h4), w4, h5, w5, patched, k5. split; [by rewrite <-!app_assoc|]. split.
  { apply returns_bind. eexists _, _, _. split; [done|]. split; [exact Hr1|]. apply returns_bind. eexists _, _, _. split; [done|].
    split; [exact Hr2|]. apply returns_bind. by eexists _, _, _. }
  split; [done|]. destruct patched as [err|changed]; [by destruct Hr as [-> ->]|].
  apply returns_bind in Hr as (h6 & [] & k6 & -> & He%record_event_silent & (h7 & [] & h8 & -> & Hm & Hr)%returns_bind).
  assert (h8 = []) as -> by (destruct (f_permanent _); by destruct Hr). split.
  - rewrite app_nil_r. apply Forall_app. split; [done|]. destruct telemetry; [|by destruct Hm as [-> _]].
    destruct Hm as (x & h' & -> & -> & _). by repeat constructor.
  - fold f in Hr. destruct (f_permanent f); by destruct Hr.
Qed.

(** The assignments around the conditions, on the status they left. *)
Lemma failed_status_idle w w2 :
  same_workload w w2 → w_Status w2 = w_Status (failed_status w) → failed_status w2 = w2.
Proof.
  intros (Hsp & _ & _ & _ & Hg & _) Hs. transitivity (set_Status (w_Status w2) w2); [|by destruct w2].
  assert (desiredReplicas w2 = desiredReplicas w) as Hd by (unfold desiredReplicas; by rewrite Hsp).
  assert (ServiceEnabled (Some w2) = ServiceEnabled (Some w)) as He by (unfold ServiceEnabled; by rewrite Hsp).
  unfold failed_status at 1. unfold w_Conditions. rewrite Hg, Hd, He, Hs. simpl. by destruct (ServiceEnabled (Some w)).
Qed.

Lemma clear_ReadyReplicas_idle w : wst_ReadyReplicas (w_Status w) = 0%Z → clear_ReadyReplicas w = w.
Proof. destruct w as [m sp []]. simpl. by intros ->. Qed.

Lemma patchStatus_same w : patchStatus w w = Ret (w, inr false).
Proof. unfold patchStatus. by rewrite DeepEqual_refl. Qed.

(** C26. A failure that repeats is reported once.  Report a failure, and then the same failure again
    for the workload with the status the first report stored: the second report patches nothing and
    emits no event, it only counts the failure, and it ends as the first did. *)
Theorem reportFailure_repeats recorder telemetry w w2 cause h out :
  returns (reportFailure recorder telemetry w cause) h out → Forall kept_contract h →
  same_workload w w2 → w_Status w2 = stored_status (w_Status w) h →
  (∀ h2 e, issues (reportFailure recorder telemetry w2 cause) h2 e → repeated_call (f_reason (classify cause)) e) ∧
  (∀ h2 out2, returns (reportFailure recorder telemetry w2 cause) h2 out2 → out2 = out).
Proof.
  intros (h1 & p1 & h2 & p2 & patched & h3 & -> & Hr & Hp & Hq & ->)%reportFailure_steps Hk Hw Hst.
  rewrite !Forall_app in Hk. destruct Hk as (_ & Hk2 & _). set (f := classify cause) in *.
  set (p := if IsNotFound cause then _ else w) in *.
  assert (same_workload w p) as Hwp by (subst p; by case_match).
  assert (IsNotFound cause = true → wst_ReadyReplicas (w_Status p) = 0%Z) as Hzero by (subst p; by intros ->). clearbody p.
  apply set_report_sets in Hr as ([Hsame _] & Hs & Hq1 & cs & Ep).
  destruct (patchStatus_kept _ _ _ _ _ Hk2 Hp) as (_ & _ & Hkept). 
  rewrite !stored_status_app, (stored_status_silent _ h1), Hkept, stored_status_silent in Hst by done.
  assert (same_workload p1 w2) as Hw2.
  { eapply same_workload_trans; [|exact Hw]. apply same_workload_sym. by eapply same_workload_trans. }
  assert (∃ b, patched = inr b) as [b ->].
  { revert Hp. unfold patchStatus. destruct (DeepEqual _ _); [intros [_ [= _ ->]]; by eexists|].
    intros (x & h' & -> & Hr)%returns_call. apply Forall_cons in Hk2 as [[_ (u & -> & _)] _]. destruct Hr as [_ [= _ ->]]. by eexists. }
  set (out := if f_permanent f then _ else _).
  assert (safe (λ _, True) (repeated_call (f_reason f)) (reportFailure recorder telemetry w2 cause) (λ o, o = out)) as Hsafe.
  2:{ split; [intros h' e Hi; exact (safe_issues _ _ _ _ Hsafe Hi (Forall_true _ _ (λ _, I)))|].
      intros h' o Ho. exact (safe_returns _ _ _ _ Hsafe Ho (Forall_true _ _ (λ _, I))). }
  unfold reportFailure. fold f.
  assert ((if IsNotFound cause then clear_ReadyReplicas w2 else w2) = w2) as ->.
  { destruct (IsNotFound cause); [|done]. apply clear_ReadyReplicas_idle. rewrite Hst. subst p1. by apply Hzero. }
  assert (Forall (shows w2) (report_verdicts cause f)) as Hshow.
  { eapply Forall_impl; [exact Hs|]. intros v Hv. apply (shows_status (failed_status p1)); [done|done|].
    by apply (shows_only [] p1); [|set_solver|]. }
  unfold report_verdicts in Hshow. rewrite !Forall_app in Hshow. destruct Hshow as (Hf & Ht & Hx & He).
  eapply safe_seq; [by apply set_failure_conditions_idle|]. intros ? ->.
  do 3 (eapply safe_seq; [by apply set_gate_condition_idle|]; intros ? ->).
  rewrite (failed_status_idle p1 w2), patchStatus_same by done. simpl.
  eapply (safe_seq _ _ (λ _, True)); [by destruct telemetry|]. intros [] _. subst out. by destruct (f_permanent f).
Qed.

End Repeats.

Section Witness.
Import Ref Sample.

(** The first report of a refused tenant, and the workload as it leaves it. *)
Definition refused : error := TenantConfigurationError "TenantNotConfigured"
  "This namespace has no GitOps-managed AWCP tenant profile.".
Definition report_run : program (Result * option error) := reportFailure true true full_workload refused.
Definition reported : server := match run handler (cluster full_workload) report_run with Some (s, _) => s | None => cluster full_workload end.

Lemma report_kept : Forall kept_contract (calls (cluster full_workload) report_run).
Proof.
  assert (∀ s, True → ∀ e s' x, handler s e = Some (s', x) → True ∧ kept_contract (Call e x)) as Hh.
  { intros s _ e s' x Hx. split; [done|]. assert (e ≠ EPanic) as He by (by intros ->).
    destruct (cluster_contract s e He) as (s1 & y & Hy & Hc). rewrite Hx in Hy. simplify_eq. split; [done|].
    destruct e; try done. simpl in *. simplify_eq. by eexists. }
  eapply (log_Forall handler (λ _, True)); [|done]. intros s e s' x _. by apply Hh.
Qed.

Lemma reportFailure_repeats_witness :
  ∃ out, run handler (cluster full_workload) report_run = Some (reported, out) ∧
    ∀ h2 e, issues (reportFailure true true (srv_workload reported) refused) h2 e → repeated_call "TenantNotConfigured" e.
Proof.
  assert (match run handler (cluster full_workload) report_run with Some _ => true | None => false end = true) as Hrun
    by (vm_compute; reflexivity).
  assert (∃ out, run handler (cluster full_workload) report_run = Some (reported, out)) as [out Hr].
  { unfold reported. destruct (run _ _ _) as [[s out]|]; [by exists out|done]. }
  exists out. split; [exact Hr|].
  destruct (reportFailure_repeats true true full_workload (srv_workload reported) refused (calls (cluster full_workload) report_run) out)
    as [Hsilent _].
  - eapply run_returns, Hr.
  - exact report_kept.
  - vm_compute. split_and!; reflexivity.
  - vm_compute. reflexivity.
  - exact Hsilent.
Defined.

End Witness.
