(* ===== verification/PlanTheorems.v ===== *)
(** * Theorems about the plan and its children *)
From S2P Require Import Prelude Errors GoStd Sha256 Kube Api Naming Intent Autoscaling Deploy ServiceIntent.
From S2P Require Import Availability Route Builder Engine KubeReference Sample.

(** ** Names *)

(** C35. The child name of a workload whose name is a DNS subdomain is an RFC 1035 label of at most 62
    bytes, so that it names every child, the Service included. *)
Theorem ChildName_is_dns_label name :
  all_bytes is_subdomain_byte name = true →
  is_dns1035_label (ChildName name) = true ∧ (String.length (ChildName name) ≤ 62)%nat.
Proof.
  intros Hn. pose proof (ChildName_length_le name) as Hlen. split; [|done].
  pose proof (ChildName_bytes name Hn) as Hb. unfold is_dns1035_label.
  assert (∃ s, ChildName name = String "a" s) as [s Hs] by (unfold ChildName; cbn; eauto).
  assert (ends_alnum (ChildName name) = true) as He.
  { unfold ChildName. rewrite !ends_alnum_append.
    - apply ends_alnum_all.
      + intros Hh%(f_equal String.length). rewrite length_hex, length_take, length_Sum256 in Hh. done.
      + eapply all_bytes_impl; [apply hex_byte_is_alnum|apply all_hex_hex].
    - intros Hh%(f_equal String.length). rewrite length_hex, length_take, length_Sum256 in Hh. done.
    - by rewrite append_cons.
    - destruct (TrimRight _ _); [by rewrite append_nil_l, append_cons|by rewrite append_cons]. }
  rewrite Hs in *. rewrite Hb, He. simpl in *. apply Nat.leb_le. lia.
Qed.

(** The readable part of a child name. *)
Definition name_prefix (name : string) : string :=
  TrimRight (ReplaceAll (if (40 <? String.length name)%nat then take_bytes 40 name else name) "." "-") "-".

(** Two workloads share a child name only when their names have the same readable prefix and the
    first eight bytes of their SHA-256 digests collide. *)
Theorem ChildName_collision name name' :
  ChildName name = ChildName name' ↔
  name_prefix name = name_prefix name' ∧ take 8 (Sum256 (bytes name)) = take 8 (Sum256 (bytes name')).
Proof.
  unfold ChildName, name_prefix. cbv zeta. split; [|by intros [-> ->]].
  intros H. apply append_inj_l in H as [_ H]; [|done].
  apply append_inj_r in H as [Hp H];
    [|by rewrite !length_append, !length_hex, !length_take, !length_Sum256].
  apply append_inj_l in H as [_ Hh]; [|done]. split; [done|].
  apply hex_inj in Hh; [done|apply Forall_take, Sum256_range..].
Qed.

(** ** Managed metadata *)

(** A managed object carries the selector labels, the three fixed labels, the owner's name, and
    the environment and tenant labels exactly when the specification sets them; every other label
    and annotation, and the rest of the metadata, is left alone. *)
Theorem managedMetadata_spec m p :
  let m' := managedMetadata m p in
  let labels := map_of (om_Labels m') in
  SelectorLabels p ⊆ labels ∧
  labels !! "app.kubernetes.io/name" = Some "ai-workload" ∧
  labels !! "app.kubernetes.io/part-of" = Some "ai-workload-control-plane" ∧
  labels !! "app.kubernetes.io/managed-by" = Some "awcp-controller" ∧
  (∀ v, labels !! EnvironmentLabel = Some v ↔ v = sp_Environment (w_Spec p) ∧ v ≠ "") ∧
  (∀ v, labels !! TenantLabel = Some v ↔ v = sp_Tenant (w_Spec p) ∧ v ≠ "") ∧
  (∀ k, managed_label p k = None → labels !! k = map_of (om_Labels m) !! k) ∧
  map_of (om_Annotations m') !! WorkloadNameAnnotation = Some (w_Name p) ∧
  (∀ k, k ≠ WorkloadNameAnnotation → map_of (om_Annotations m') !! k = map_of (om_Annotations m) !! k) ∧
  same_identity m' m.
Proof.
  cbv zeta. assert (map_of (om_Labels (managedMetadata m p)) = managedLabels p (map_of (om_Labels m))) as -> by done.
  assert (map_of (om_Annotations (managedMetadata m p)) =
    <[WorkloadNameAnnotation := w_Name p]> (map_of (om_Annotations m))) as -> by done.
  split; [apply SelectorLabels_managed|]. rewrite !managedLabels_lookup.
  do 3 (split; [done|]).
  split; [intros v; simpl; case_bool_decide; naive_solver|].
  split; [intros v; simpl; case_bool_decide; naive_solver|].
  split; [intros k Hk; by rewrite managedLabels_lookup, Hk|].
  split; [apply lookup_insert_eq|]. split; [|done]. intros k Hk. by rewrite lookup_insert_ne.
Qed.

(** ** Resources *)

Section Resources.
Context `{QuantitiesLaws}.

(** A quantity the API accepts for a compute resource. *)
Definition valid_amount (k : string) (v : ResourceQuantity) (q : Quantity) : Prop :=
  (k = "cpu" ∨ k = "memory") ∧ ParseQuantity v = Some q ∧ (0 ≤ Quantity_Sign q)%Z.

Definition all_valid (m : ResourceQuantities) : Prop := ∀ k v, m !! k = Some v → ∃ q, valid_amount k v q.

Lemma parse_Ok input parsed :
  parse input = Ok parsed ↔ all_valid input ∧ parsed = omap ParseQuantity input.
Proof.
  rewrite parse_spec. destruct (forallb valid_entry (map_to_list input)) eqn:E.
  - split; [|intros [_ ->]; done]. intros [= <-]. split; [|done]. intros k v Hk.
    rewrite forallb_forall in E. specialize (E (k, v)).
    rewrite <-list_elem_of_In, elem_of_map_to_list in E. specialize (E Hk). unfold valid_entry in E. simpl in E.
    apply andb_true_iff in E as [Hn Hq]. destruct (ParseQuantity v) as [q|] eqn:Ep; [|done].
    exists q. apply Z.leb_le in Hq. rewrite orb_true_iff, !bool_decide_eq_true in Hn. by split.
  - split; [done|]. intros [Hv _]. exfalso. revert E. apply not_false_iff_true, forallb_forall.
    intros [k v] Hin%list_elem_of_In%elem_of_map_to_list. destruct (Hv _ _ Hin) as (q & Hk & Hp & Hs).
    unfold valid_entry. simpl. rewrite Hp. apply andb_true_iff. split; [|by apply Z.leb_le].
    by rewrite orb_true_iff, !bool_decide_eq_true.
Qed.

Lemma resourceLists_Ok spec rq lm :
  resourceLists (Some spec) = Ok (rq, lm) ↔
  all_valid (rr_Requests spec) ∧ all_valid (rr_Limits spec) ∧
  (∀ k q l, (omap ParseQuantity (rr_Requests spec) : gmap string Quantity) !! k = Some q →
    (omap ParseQuantity (rr_Limits spec) : gmap string Quantity) !! k = Some l → (Quantity_Cmp q l ≤ 0)%Z) ∧
  lm = Some (omap ParseQuantity (rr_Limits spec)) ∧
  rq = Some (omap ParseQuantity (rr_Requests spec) ∪ omap ParseQuantity (rr_Limits spec)).
Proof.
  simpl. split.
  - intros Hr. inv_Ok Hr. simplify_eq.
    repeat match goal with E : parse _ = Ok _ |- _ => apply parse_Ok in E as [? ->] end.
    match goal with E : default_requests _ _ = Ok _ |- _ => rename E into Ed end.
    rewrite default_requests_spec in Ed by apply NoDup_fst_map_to_list.
    destruct (forallb _ _) eqn:E; [|done]. injection Ed as <-. rewrite list_to_map_to_list.
    split; [done|]. split; [done|]. split; [|done]. intros k q l Hq Hl.
    rewrite forallb_forall in E. specialize (E (k, l)).
    rewrite <-list_elem_of_In, elem_of_map_to_list in E. specialize (E Hl). simpl in E.
    rewrite Hq in E. by apply Z.leb_le.
  - intros (Hr & Hl & Hc & -> & ->).
    rewrite (proj2 (parse_Ok _ _) (conj Hr eq_refl)). unfold mbind, res_bind.
    rewrite (proj2 (parse_Ok _ _) (conj Hl eq_refl)).
    rewrite default_requests_spec by apply NoDup_fst_map_to_list.
    match goal with |- context [forallb ?f ?l] => assert (forallb f l = true) as -> end.
    { apply forallb_forall. intros [k l] Hin%list_elem_of_In%elem_of_map_to_list. simpl.
      destruct (omap ParseQuantity (rr_Requests spec) !! k) as [q|] eqn:Eq; [|done].
      apply Z.leb_le. by eapply Hc. }
    by rewrite list_to_map_to_list.
Qed.

(** [resourceLists] accepts a specification exactly when every request and limit is a valid
    amount of a compute resource and no request exceeds its limit.  The limits are then as
    specified, and the requests are the specified ones, each missing one taking its limit's amount:
    no resulting request exceeds its limit, and every limit has a request. *)
Theorem resourceLists_spec spec :
  let requests : gmap string Quantity := omap ParseQuantity (rr_Requests spec) in
  let limits : gmap string Quantity := omap ParseQuantity (rr_Limits spec) in
  ((∃ lists, resourceLists (Some spec) = Ok lists) ↔
    all_valid (rr_Requests spec) ∧ all_valid (rr_Limits spec) ∧
    ∀ k q l, requests !! k = Some q → limits !! k = Some l → (Quantity_Cmp q l ≤ 0)%Z) ∧
  (∀ rq lm, resourceLists (Some spec) = Ok (rq, lm) →
    lm = Some limits ∧ (∀ k, map_of rq !! k = if requests !! k is Some q then Some q else limits !! k) ∧
    ∀ k l, limits !! k = Some l → ∃ q, map_of rq !! k = Some q ∧ (Quantity_Cmp q l ≤ 0)%Z).
Proof.
  cbv zeta. split; [split|].
  - intros [[rq lm] Hr]. apply resourceLists_Ok in Hr. tauto.
  - intros (Hr & Hl & Hc). eexists. apply resourceLists_Ok. eauto.
  - intros rq lm (Hr & Hl & Hc & -> & ->)%resourceLists_Ok. simpl. split; [done|]. split.
    + intros k. rewrite lookup_union. by destruct (omap _ (rr_Requests spec) !! k), (omap _ (rr_Limits spec) !! k).
    + intros k l Hk. destruct (omap ParseQuantity (rr_Requests spec) !! k) as [q|] eqn:Eq.
      * exists q. rewrite lookup_union_Some_l' with (v := q) by done. eauto.
      * exists l. rewrite lookup_union_None_l by done. split; [done|]. by rewrite Quantity_Cmp_refl.
Qed.

(** The amounts written into the managed container replace its cpu and memory only: a resource
    of another name keeps its amount, and what the specification no longer sets is removed. *)
Theorem replaceCompute_spec current desired k :
  (∀ q, map_of desired !! k = Some q → map_of (replaceCompute current desired) !! k = Some q) ∧
  (map_of desired !! k = None →
    map_of (replaceCompute current desired) !! k =
    if decide (k = "cpu" ∨ k = "memory") then None else map_of current !! k) ∧
  (replaceCompute current desired = None ↔ map_of (replaceCompute current desired) = ∅).
Proof.
  split_and!.
  - intros q Hq. rewrite map_of_replaceCompute. by apply lookup_union_Some_l'.
  - intros Hn. rewrite map_of_replaceCompute, lookup_union_None_l by done.
    rewrite !lookup_delete. repeat case_decide; naive_solver.
  - rewrite map_of_replaceCompute. unfold replaceCompute. case_bool_decide as E; split; try done.
Qed.

End Resources.

(** ** Deployment *)

Lemma mutatePorts_foreign port ports i cp :
  ports !! i = Some cp → cp_Name cp ≠ HTTPPortName → mutatePorts port ports !! i = Some cp.
Proof.
  intros Hi Hn. unfold mutatePorts. destruct (first_index _ ports) as [j|] eqn:Ej.
  - rewrite list_lookup_insert_ne; [done|]. intros ->.
    destruct (first_index_Some _ _ _ Ej) as (y & Hy & Hname%bool_decide_eq_true & _). congruence.
  - by rewrite lookup_app_l by (by eapply lookup_lt_Some).
Qed.

Lemma mutatePorts_http port ports :
  first_match (λ cp, bool_decide (cp_Name cp = HTTPPortName)) (mutatePorts port ports) =
  Some {| cp_Name := HTTPPortName; cp_ContainerPort := port; cp_Protocol := "TCP"; cp_other := [] |}.
Proof.
  unfold mutatePorts. set (new := {| cp_Name := _ |}). destruct (first_index _ ports) as [j|] eqn:Ej.
  - destruct (first_index_Some _ _ _ Ej) as (y & Hy & Hname & _).
    destruct (first_index_Some _ _ _ (first_index_insert_same _ _ j new Ej eq_refl)) as (z & Hz & _ & Hm).
    rewrite list_lookup_insert_eq in Hz by (by eapply lookup_lt_Some). by simplify_eq.
  - induction ports as [|cp ports IH]; simpl in *; [done|].
    destruct (bool_decide _); [done|]. apply IH. by destruct (first_index _ ports).
Qed.

Lemma ChildName_nonempty name : ChildName name ≠ "".
Proof. unfold ChildName. rewrite append_cons. discriminate. Qed.

Section Deployment.
Context `{Quantities}.

(** The selector of the workload's Deployment. *)
Definition desired_selector (p : AIWorkload) : LabelSelector :=
  {| ls_MatchLabels := SelectorLabels p; ls_MatchExpressions := [] |}.

Lemma selector_compatible_spec d p :
  w_UID p ≠ "" →
  selector_compatible d (SelectorLabels p) = true ↔ dp_Selector d = Some (desired_selector p).
Proof.
  intros Hu. split; [|intros Hd; by eapply selector_compatible_desired].
  unfold selector_compatible. destruct (dp_Selector d) as [[labels exprs]|]; simpl; [|done].
  rewrite !andb_true_iff, !bool_decide_eq_true, length_zero_iff_nil, forallb_forall.
  intros [[-> Hsize] Hall]. assert (SelectorLabels p = labels) as Hl; [|unfold desired_selector; by rewrite Hl].
  apply map_subseteq_size_eq; [|by rewrite Hsize].
  apply map_subseteq_spec. intros k v Hk. specialize (Hall (k, v)).
  rewrite <-list_elem_of_In, elem_of_map_to_list, bool_decide_eq_true in Hall. specialize (Hall Hk).
  unfold map_read in Hall. simpl in Hall. destruct (labels !! k) as [v'|] eqn:El; simpl in Hall; [congruence|].
  subst v. unfold SelectorLabels in Hk.
  apply lookup_insert_Some in Hk as [[_ Hn]|[_ [_ Hv]%lookup_singleton_Some]].
  - destruct (ChildName_nonempty _ Hn).
  - destruct (Hu Hv).
Qed.

(** The Deployment's selector is immutable: a Deployment that exists is mutated only when its
    selector is exactly the workload's, and is refused with [ErrImmutableSelector] otherwise; the
    mutation always leaves that selector. *)
Theorem mutateDeployment_selector d p rq lm :
  w_UID p ≠ "" →
  ((is_fresh (dp_meta d) = true ∨ dp_Selector d = Some (desired_selector p)) →
    ∃ d', mutateDeployment d p rq lm = Ok d' ∧ dp_Selector d' = Some (desired_selector p)) ∧
  (is_fresh (dp_meta d) = false → dp_Selector d ≠ Some (desired_selector p) →
    mutateDeployment d p rq lm = Err (Sentinel ErrImmutableSelector)).
Proof.
  intros Hu. unfold mutateDeployment. split.
  - intros Hd. assert (negb (is_fresh (dp_meta d)) && negb (selector_compatible d (SelectorLabels p)) = false) as ->.
    { rewrite andb_false_iff, !negb_false_iff, selector_compatible_spec by done. done. }
    destruct (desired_spec_replicas d p) as [n|e|] eqn:E; [by eexists| |].
    + exfalso. revert E. unfold desired_spec_replicas. repeat case_match; try done.
      by destruct (sp_Autoscaling (w_Spec p)).
    + by apply desired_spec_replicas_no_panic in E.
  - intros -> Hs. destruct (selector_compatible _ _) eqn:E; [|done].
    by apply selector_compatible_spec in E.
Qed.

(** C32. While a HorizontalPodAutoscaler manages the workload, the controller never changes the replica
    count of a Deployment that exists, and starts a new one at the autoscaler's minimum; without
    one, the count is the specification's, or one. *)
Theorem mutateDeployment_replicas d p rq lm d' :
  mutateDeployment d p rq lm = Ok d' →
  (AutoscalingEnabled (Some p) = false → dp_Replicas d' = Some (default 1%Z (sp_Replicas (w_Spec p)))) ∧
  (∀ a, AutoscalingEnabled (Some p) = true → sp_Autoscaling (w_Spec p) = Some a →
    dp_Replicas d' = if is_fresh (dp_meta d) then Some (default 1%Z (as_MinReplicas a)) else dp_Replicas d).
Proof.
  intros (_ & Hr & _)%mutateDeployment_inv. unfold desired_spec_replicas in Hr. split.
  - intros Ha. rewrite Ha in Hr. by injection Hr.
  - intros a Ha Hs. rewrite Ha, Hs in Hr. simpl in Hr.
    destruct (is_fresh _); by injection Hr.
Qed.

(** What the managed container must be. *)
Definition hardened_container (p : AIWorkload) (c : Container) : Prop :=
  co_Image c = sp_Image (w_Spec p) ∧
  co_EnvFrom c = envFromSecret <$> sp_SecretRefs (w_Spec p) ∧
  first_match (λ cp, bool_decide (cp_Name cp = HTTPPortName)) (co_Ports c) =
    Some {| cp_Name := HTTPPortName; cp_ContainerPort := cs_Port (sp_Container (w_Spec p));
            cp_Protocol := "TCP"; cp_other := [] |} ∧
  ∃ sc, co_SecurityContext c = Some sc ∧ sc_RunAsNonRoot sc = Some true ∧ sc_Privileged sc = Some false ∧
    sc_AllowPrivilegeEscalation sc = Some false ∧
    sc_Capabilities sc = Some {| cap_Add := []; cap_Drop := ["ALL"] |} ∧
    sc_SeccompProfile sc = Some RuntimeDefault.

(** C21. Whatever the Deployment held, its pods run under the workload's own ServiceAccount without an
    API token, as non-root with the runtime's seccomp profile, and the container that is named
    [workload] runs the specified image unprivileged, without capabilities, with the specified
    port and exactly the referenced Secrets, none of them optional. *)
Theorem mutateDeployment_hardened d p rq lm d' :
  mutateDeployment d p rq lm = Ok d' →
  let pod := pt_Spec (dp_Template d') in
  ps_ServiceAccountName pod = ChildName (w_Name p) ∧ ps_AutomountServiceAccountToken pod = Some false ∧
  (∃ psc, ps_SecurityContext pod = Some psc ∧ psc_RunAsNonRoot psc = Some true ∧
    psc_SeccompProfile psc = Some RuntimeDefault) ∧
  ∃ c, first_match (λ c, bool_decide (co_Name c = ContainerName)) (ps_Containers pod) = Some c ∧
    hardened_container p c.
Proof.
  intros (_ & _ & _ & _ & _ & -> & _)%mutateDeployment_inv. simpl.
  split; [done|]. split; [done|]. split; [by eexists|].
  destruct (mutateContainers_managed (ps_Containers (pt_Spec (dp_Template d))) p rq lm) as (app & _ & Hc).
  eexists. split; [exact Hc|]. split; [done|]. split; [done|]. split; [apply mutatePorts_http|].
  eexists. split; [reflexivity|]. by repeat split.
Qed.

(** C33. What the controller does not manage it leaves alone: the other containers keep their place and
    content, as do the other ports of the managed container; the labels and annotations it does
    not own, the template's included, and the Deployment's status and remaining fields stay. *)
Theorem mutateDeployment_keeps_foreign d p rq lm d' :
  mutateDeployment d p rq lm = Ok d' →
  (∀ i c, ps_Containers (pt_Spec (dp_Template d)) !! i = Some c → co_Name c ≠ ContainerName →
    ps_Containers (pt_Spec (dp_Template d')) !! i = Some c) ∧
  (∀ i c, first_index (λ c, bool_decide (co_Name c = ContainerName)) (ps_Containers (pt_Spec (dp_Template d))) = Some i →
    ps_Containers (pt_Spec (dp_Template d)) !! i = Some c →
    ∃ c', ps_Containers (pt_Spec (dp_Template d')) !! i = Some c' ∧ co_other c' = co_other c ∧
      (∀ j port, co_Ports c !! j = Some port → cp_Name port ≠ HTTPPortName → co_Ports c' !! j = Some port)) ∧
  (∀ k, managed_label p k = None →
    map_of (om_Labels (dp_meta d')) !! k = map_of (om_Labels (dp_meta d)) !! k ∧
    map_of (om_Labels (pt_meta (dp_Template d'))) !! k = map_of (om_Labels (pt_meta (dp_Template d))) !! k) ∧
  (∀ k, k ≠ WorkloadNameAnnotation →
    map_of (om_Annotations (dp_meta d')) !! k = map_of (om_Annotations (dp_meta d)) !! k ∧
    map_of (om_Annotations (pt_meta (dp_Template d'))) !! k = map_of (om_Annotations (pt_meta (dp_Template d))) !! k) ∧
  ps_other (pt_Spec (dp_Template d')) = ps_other (pt_Spec (dp_Template d)) ∧
  dp_other d' = dp_other d ∧ dp_Status d' = dp_Status d.
Proof.
  intros (_ & _ & -> & _ & -> & -> & -> & ->)%mutateDeployment_inv. simpl.
  split; [intros i c; apply mutateContainers_foreign|]. split.
  { intros i c Hi Hc. unfold mutateContainers. rewrite Hi. erewrite list_lookup_alter_eq, Hc. simpl.
    eexists. split; [reflexivity|]. split; [done|]. intros j port. apply mutatePorts_foreign. }
  split; [intros k Hk; by rewrite !managedLabels_lookup, Hk|].
  split; [intros k Hk; by rewrite !lookup_insert_ne|done].
Qed.

End Deployment.

(** ** Service *)

(** A Service is mutated exactly when it is, or may become, an allocated ClusterIP Service: another
    type or a headless one is refused with [ErrImmutableServiceAllocation].  The mutation keeps
    every allocated address and family, and leaves one port that targets the container's. *)
Theorem mutateService_allocation s p :
  let allowed := (sv_Type s = "" ∨ sv_Type s = "ClusterIP") ∧ sv_ClusterIP s ≠ "None" in
  (allowed → ∃ s', mutateService s p = Ok s' ∧ sv_Type s' = "ClusterIP" ∧
    sv_ClusterIP s' = sv_ClusterIP s ∧ sv_ClusterIPs s' = sv_ClusterIPs s ∧
    sv_IPFamilies s' = sv_IPFamilies s ∧ sv_IPFamilyPolicy s' = sv_IPFamilyPolicy s ∧
    HasAllocatedClusterNetwork s' = HasAllocatedClusterNetwork s ∧
    sv_Ports s' = [{| svp_Name := HTTPPortName; svp_Protocol := "TCP"; svp_Port := ServicePort (Some p);
      svp_TargetPort := FromString HTTPPortName; svp_other := [] |}]) ∧
  (¬ allowed → mutateService s p = Err (Sentinel ErrImmutableServiceAllocation)).
Proof.
  cbv zeta. unfold mutateService. split.
  - intros [Ht Hc]. rewrite (bool_decide_false (sv_ClusterIP s = "None")) by done.
    destruct Ht as [-> | ->]; simpl; eexists; by split_and!.
  - intros Hn. destruct (decide (sv_Type s = "" ∨ sv_Type s = "ClusterIP")) as [Ht|Ht].
    + destruct (decide (sv_ClusterIP s = "None")) as [Hc|]; [|by destruct Hn].
      rewrite (bool_decide_true (sv_ClusterIP s = "None")) by done. by destruct (_ && _).
    + by rewrite !(bool_decide_false (sv_Type s = _)) by auto.
Qed.

(** ** Disruption budget *)

(** The budgets a workload may ask for: exactly one bound, satisfiable at the smallest number of
    replicas the workload may have, and never allowing all of them to be disrupted. *)
Definition valid_budget (p : AIWorkload) : Prop :=
  ∃ a floor, sp_Availability (w_Spec p) = Some a ∧ AvailabilityReplicaFloor p = Ok floor ∧ (1 ≤ floor)%Z ∧
    ((∃ m, av_MinAvailable a = Some m ∧ av_MaxUnavailable a = None ∧ (1 ≤ m ≤ floor)%Z) ∨
     (∃ m, av_MinAvailable a = None ∧ av_MaxUnavailable a = Some m ∧ (0 ≤ m < floor)%Z)).

Lemma validateAvailability_spec p : validateAvailability (Some p) = Ok tt ↔ valid_budget p.
Proof.
  split; [apply validateAvailability_Ok|].
  intros (a & floor & Ha & Hf & H1 & Hb). simpl. rewrite Ha, Hf.
  destruct Hb as [(m & -> & -> & ?)|(m & -> & -> & ?)]; simpl.
  - rewrite (proj2 (Z.ltb_ge floor 1)), (proj2 (Z.ltb_ge m 1)), (proj2 (Z.ltb_ge floor m)) by lia. done.
  - rewrite (proj2 (Z.ltb_ge floor 1)), (proj2 (Z.ltb_ge m 0)), (proj2 (Z.leb_gt floor m)) by lia. done.
Qed.

Lemma validateAvailability_cases p :
  validateAvailability (Some p) = Ok tt ∨ validateAvailability (Some p) = invalid.
Proof.
  simpl. destruct (sp_Availability (w_Spec p)); [|by right]. case_bool_decide; [by right|].
  destruct (AvailabilityReplicaFloor_Ok p) as [f ->]. simpl. case_match; auto.
Qed.

(** A disruption budget is written exactly for a valid specification, and refused with
    [ErrInvalidConfiguration] otherwise; it has exactly the specified bound, so that an eviction
    never takes the last of the replicas the workload is guaranteed. *)
Theorem mutatePDB_spec pdb p :
  (valid_budget p → ∃ pdb' a, mutatePDB pdb p = Ok pdb' ∧ sp_Availability (w_Spec p) = Some a ∧
    pdb_MinAvailable pdb' = FromInt32 <$> av_MinAvailable a ∧
    pdb_MaxUnavailable pdb' = FromInt32 <$> av_MaxUnavailable a ∧
    pdb_Selector pdb' = Some (desired_selector p)) ∧
  (¬ valid_budget p → mutatePDB pdb p = invalid) ∧
  (∀ pdb' floor, mutatePDB pdb p = Ok pdb' → AvailabilityReplicaFloor p = Ok floor →
    ∃ kept, (1 ≤ kept ≤ floor)%Z ∧
      (pdb_MinAvailable pdb' = Some (FromInt32 kept) ∧ pdb_MaxUnavailable pdb' = None ∨
       pdb_MinAvailable pdb' = None ∧ pdb_MaxUnavailable pdb' = Some (FromInt32 (floor - kept)))).
Proof.
  split_and!.
  - intros Hv. unfold mutatePDB. rewrite (proj2 (validateAvailability_spec p) Hv).
    destruct Hv as (a & floor & Ha & _ & _ & Hb). rewrite Ha. unfold mbind, res_bind. cbn [deref].
    destruct Hb as [(m & Hm & Hu & _)|(m & Hm & Hu & _)]; rewrite Hm, ?Hu; simpl;
      eexists _, a; (split; [reflexivity|]); simpl; rewrite Hm, Hu; by split_and!.
  - intros Hn. unfold mutatePDB. destruct (validateAvailability_cases p) as [Hv | ->]; [|done].
    by apply validateAvailability_spec in Hv.
  - intros pdb' floor Hm Hf. unfold mutatePDB in Hm. apply res_bind_Ok in Hm as ([] & Hv & Hm).
    apply validateAvailability_spec in Hv as (a & floor' & Ha & Hf' & _ & Hb).
    rewrite Hf in Hf'. injection Hf' as <-. rewrite Ha in Hm. unfold mbind, res_bind in Hm. cbn [deref] in Hm.
    destruct Hb as [(m & Hm' & Hu & ?)|(m & Hm' & Hu & ?)]; rewrite Hm', ?Hu in Hm; simpl in Hm;
      injection Hm as <-; [exists m; auto|]. exists (floor - m)%Z. split; [lia|]. right.
    simpl. by replace (floor - (floor - m))%Z with m by lia.
Qed.

(** ** Autoscaling *)

Section Autoscaling.
Context `{Quantities}.

(** The metric the autoscaler gets for a specified one. *)
Inductive metric_for : AutoscalingMetricSpec → MetricSpec → Prop :=
  | metric_cpu spec u :
      am_Type spec = AutoscalingCPU → am_TargetUtilization spec = Some u →
      metric_for spec (ResourceMetric "cpu" {| mt_Type := "Utilization"; mt_Value := None;
        mt_AverageValue := None; mt_AverageUtilization := Some u |})
  | metric_memory spec u :
      am_Type spec = AutoscalingMemory → am_TargetUtilization spec = Some u →
      metric_for spec (ResourceMetric "memory" {| mt_Type := "Utilization"; mt_Value := None;
        mt_AverageValue := None; mt_AverageUtilization := Some u |})
  | metric_pods spec v q :
      am_Type spec = AutoscalingPods → am_MetricName spec ≠ "" → am_TargetValue spec = Some v →
      ParseQuantity v = Some q → (0 ≤ Quantity_Sign q)%Z →
      metric_for spec (PodsMetric {| mi_Name := am_MetricName spec; mi_other := [] |}
        {| mt_Type := "AverageValue"; mt_Value := None; mt_AverageValue := Some q; mt_AverageUtilization := None |})
  | metric_external spec v q :
      am_Type spec = AutoscalingExternal → am_MetricName spec ≠ "" → am_TargetValue spec = Some v →
      ParseQuantity v = Some q → (0 ≤ Quantity_Sign q)%Z →
      metric_for spec (ExternalMetric {| mi_Name := am_MetricName spec; mi_other := [] |}
        {| mt_Type := "Value"; mt_Value := Some q; mt_AverageValue := None; mt_AverageUtilization := None |}).

Lemma hpaMetric_spec spec m : hpaMetric spec = Ok m ↔ metric_for spec m.
Proof.
  split.
  - unfold hpaMetric. destruct (am_Type spec) eqn:Et; try done.
    1,2: destruct (am_TargetUtilization spec) eqn:Eu; [|done]; intros [= <-]; by constructor.
    all: case_bool_decide; [done|]; destruct (am_TargetValue spec) as [v|] eqn:Ev; [|done];
      destruct (ParseQuantity v) as [q|] eqn:Eq; [|done]; destruct (Z.ltb_spec (Quantity_Sign q) 0); [done|];
      intros [= <-]; by econstructor.
  - unfold hpaMetric. intros [? u -> ->|? u -> ->|? v q -> Hn -> Hq Hs|? v q -> Hn -> Hq Hs]; try done;
      rewrite bool_decide_false, Hq, (proj2 (Z.ltb_ge _ 0)) by done; done.
Qed.

Lemma hpaMetrics_spec specs ms : hpaMetrics specs = Ok ms ↔ Forall2 metric_for specs ms.
Proof.
  revert ms. induction specs as [|spec specs IH]; intros ms; simpl.
  - split; [by intros [= <-]|by intros ->%Forall2_nil_inv_l].
  - split.
    + intros Hm. inv_Ok Hm. simplify_eq. constructor; [by apply hpaMetric_spec|by apply IH].
    + intros (m & ms' & Hm & Hms & ->)%Forall2_cons_inv_l.
      apply hpaMetric_spec in Hm as ->. apply IH in Hms. unfold mbind, res_bind. by rewrite Hms.
Qed.

(** The autoscaler targets the workload's Deployment with the specified replica range,
    stabilization window and, one for one and in order, the specified metrics; a metric without
    its target, with an unknown type, or with a negative or unparsable value is refused with
    [ErrInvalidConfiguration]. *)
Theorem mutateHPA_spec hpa p a min max :
  sp_Autoscaling (w_Spec p) = Some a → as_MinReplicas a = Some min → as_MaxReplicas a = Some max →
  (∀ ms, Forall2 metric_for (as_Metrics a) ms →
    ∃ hpa', mutateHPA hpa p = Ok hpa' ∧ hpa_Metrics hpa' = ms ∧
      hpa_MinReplicas hpa' = Some min ∧ hpa_MaxReplicas hpa' = max ∧
      hpa_ScaleTargetRef hpa' =
        {| cv_APIVersion := "apps/v1"; cv_Kind := "Deployment"; cv_Name := ChildName (w_Name p) |} ∧
      (hpa_Behavior hpa' ≫= hb_ScaleDown) ≫= sr_StabilizationWindowSeconds = as_ScaleDownStabilizationSeconds a ∧
      hpa_Behavior hpa' ≫= hb_ScaleUp = None) ∧
  ((∀ ms, ¬ Forall2 metric_for (as_Metrics a) ms) → mutateHPA hpa p = invalid).
Proof.
  intros Ha Hmin Hmax. unfold mutateHPA, mbind, res_bind. rewrite Ha. cbn [deref]. split.
  - intros ms Hms%hpaMetrics_spec. rewrite Hms, Hmin, Hmax. simpl. eexists. split; [reflexivity|]. simpl.
    by destruct (as_ScaleDownStabilizationSeconds a).
  - intros Hn. assert (hpaMetrics (as_Metrics a) = invalid) as ->; [|done].
    pose proof (hpaMetrics_no_panic (as_Metrics a)) as Hnp.
    destruct (hpaMetrics (as_Metrics a)) as [ms|e|] eqn:E; [by apply hpaMetrics_spec, Hn in E| |done].
    clear -E. revert e E. induction (as_Metrics a) as [|spec specs IH]; intros e; simpl; [done|].
    assert (∀ e', hpaMetric spec = Err e' → hpaMetric spec = invalid) as Hone.
    { intros e'. unfold hpaMetric. by repeat case_match; intros [= <-]. }
    destruct (hpaMetric spec) as [m|e'|]; simpl; [| |done].
    + destruct (hpaMetrics specs) as [ms|e''|]; simpl; try done. intros [= <-].
      specialize (IH e'' eq_refl). done.
    + intros [= <-]. specialize (Hone e' eq_refl). by injection Hone as ->.
Qed.

End Autoscaling.

(** ** The plan *)

Section Plan.
Context `{QuantitiesLaws}.

(** The specifications [Build] accepts. *)
Definition valid_resources (p : AIWorkload) : Prop :=
  match sp_Resources (w_Spec p) with
  | None => True
  | Some spec =>
      all_valid (rr_Requests spec) ∧ all_valid (rr_Limits spec) ∧
      ∀ k q l, (omap ParseQuantity (rr_Requests spec) : gmap string Quantity) !! k = Some q →
        (omap ParseQuantity (rr_Limits spec) : gmap string Quantity) !! k = Some l → (Quantity_Cmp q l ≤ 0)%Z
  end.

Definition valid_service (p : AIWorkload) : Prop :=
  ServiceEnabled (Some p) = true → (1 ≤ ServicePort (Some p) ≤ 65535)%Z.

Definition valid_autoscaling (p : AIWorkload) : Prop :=
  ∀ a, AutoscalingEnabled (Some p) = true → sp_Autoscaling (w_Spec p) = Some a →
    as_MinReplicas a ≠ None ∧ as_MaxReplicas a ≠ None ∧ as_Metrics a ≠ [].

Definition valid_availability (p : AIWorkload) : Prop :=
  AvailabilityEnabled (Some p) = true → valid_budget p.

Definition buildable (p : AIWorkload) : Prop :=
  valid_resources p ∧ valid_service p ∧ valid_autoscaling p ∧ valid_availability p.

(** A stage of [Build] that accepts exactly [valid], and otherwise fails with the one sentinel. *)
Definition decides {A} (m : res A) (valid : Prop) : Prop :=
  (∃ a, m = Ok a) ∧ valid ∨ m = invalid ∧ ¬ valid.

Lemma decides_bind {A B} (m : res A) (f : A → res B) P Q :
  decides m P → (∀ a, decides (f a) Q) → decides (m ≫= f) (P ∧ Q).
Proof.
  intros [[[a ->] HP]|[-> HP]] Hf; [|right; split; [done|naive_solver]].
  unfold mbind, res_bind. destruct (Hf a) as [[He HQ]|[-> HQ]]; [left|right]; naive_solver.
Qed.

Lemma decides_Ok {A} (a : A) : decides (Ok a) True.
Proof. left. split; [by exists a|done]. Qed.

Lemma resourceLists_decides p : decides (resourceLists (sp_Resources (w_Spec p))) (valid_resources p).
Proof.
  unfold valid_resources. destruct (sp_Resources (w_Spec p)) as [spec|]; [|left; split; [by eexists|done]].
  destruct (resourceLists (Some spec)) as [[rq lm]|e|] eqn:E.
  - left. split; [by eexists|]. apply resourceLists_Ok in E. tauto.
  - right. split.
    + revert E. simpl. rewrite !parse_spec. repeat case_match; simpl; try by intros [= <-].
      rewrite default_requests_spec by apply NoDup_fst_map_to_list. case_match; simpl; [done|by intros [= <-]].
    + intros (Hr & Hl & Hc).
      pose proof (proj2 (resourceLists_Ok spec _ _) (conj Hr (conj Hl (conj Hc (conj eq_refl eq_refl))))) as He.
      by rewrite He in E.
  - by apply resourceLists_no_panic in E.
Qed.

Lemma serviceIntent_decides p : decides (serviceIntent p) (valid_service p).
Proof.
  unfold serviceIntent, valid_service, decides.
  destruct (ServiceEnabled (Some p)); simpl; [|left; split; [by eexists|done]].
  destruct (_ || _) eqn:E; rewrite ?orb_true_iff, ?orb_false_iff, ?Z.ltb_lt, ?Z.ltb_ge in E.
  - right. split; [done|]. intros Hv. specialize (Hv eq_refl). lia.
  - left. split; [by eexists|]. lia.
Qed.

Lemma autoscalingIntent_decides p : decides (autoscalingIntent p) (valid_autoscaling p).
Proof.
  unfold autoscalingIntent, valid_autoscaling.
  destruct (AutoscalingEnabled (Some p)) eqn:Ea; simpl; [|left; split; [by eexists|done]].
  apply AutoscalingEnabled_spec in Ea as (a & -> & _). cbn.
  destruct (_ || _) eqn:E.
  - right. split; [done|]. intros Hv. destruct (Hv a eq_refl eq_refl) as (H1 & H2 & H3).
    rewrite !orb_true_iff, !bool_decide_eq_true, length_zero_iff_nil in E. naive_solver.
  - left. split; [by eexists|]. rewrite !orb_false_iff, !bool_decide_eq_false in E.
    intros ? _ [= <-]. destruct E as [[??] E]. split_and!; [done|done|]. by intros Hm%(f_equal length).
Qed.

Lemma availabilityIntent_decides p : decides (availabilityIntent p) (valid_availability p).
Proof.
  unfold availabilityIntent, valid_availability, decides.
  destruct (AvailabilityEnabled (Some p)); simpl negb; cbv iota; [|left; split; [by eexists|done]].
  destruct (validateAvailability_cases p) as [Hv|Hv]; rewrite Hv; simpl.
  - left. split; [by eexists|]. intros _. by apply validateAvailability_spec.
  - right. split; [done|]. intros Hb. specialize (Hb eq_refl). apply validateAvailability_spec in Hb. by rewrite Hb in Hv.
Qed.

Lemma Build_decides p : decides (Build (Some p)) (buildable p).
Proof.
  apply decides_bind; [apply resourceLists_decides|]. intros lists.
  apply decides_bind; [apply serviceIntent_decides|]. intros service.
  apply decides_bind; [apply autoscalingIntent_decides|]. intros autoscaling.
  destruct (availabilityIntent_decides p) as [[[a ->] Hv]|[-> Hv]]; [left; split; [by eexists|done]|by right].
Qed.

(** What [ValidatePlan] asks of an intent the builder made. *)
Lemma wellformed_valid p i object :
  wellformed_intent p i → i_Object i = Pointer object → (0 ≤ childOrder (i_Object i))%Z →
  (i_Absent i = true → (2 ≤ childOrder (i_Object i))%Z) → valid_intent p i.
Proof.
  intros [Hm Hi] Ho Hge Ha2. exists object. rewrite Ho in *. simpl in Hm. injection Hm as Hm. rewrite Hm.
  split_and!; try done. intros Habs. destruct (i_Mutate i); [done|congruence].
Qed.

(** The intents of a plan are six, in dependency order, and [ValidatePlan] accepts each. *)
Lemma Build_valid p plan :
  Build (Some p) = Ok plan →
  Forall (valid_intent p) plan ∧ (childOrder ∘ i_Object <$> plan) = [0; 1; 2; 3; 4; 5]%Z ∧
  (i_Absent <$> plan) = [false; false; negb (ServiceEnabled (Some p)); negb (NetworkEnabled (Some p));
    negb (AutoscalingEnabled (Some p)); negb (AvailabilityEnabled (Some p))].
Proof.
  intros Hp. pose proof (Build_wf _ _ Hp) as Hwf.
  apply Build_inv in Hp as (rq & lm & s & a & b & _ & Hs & Ha & Hv & ->).
  apply serviceIntent_wf in Hs as (_ & Hsa & Hso). apply autoscalingIntent_wf in Ha as (_ & Haa & Hao).
  apply availabilityIntent_wf in Hv as (_ & Hba & Hbo). destruct (networkPolicyIntent_wf p) as (_ & Hna & Hno).
  split; [|split; [simpl; by rewrite Hso, Hno, Hao, Hbo|simpl; by rewrite Hsa, Hna, Haa, Hba]].
  repeat apply Forall_cons in Hwf as [? Hwf].
  repeat apply Forall_cons_2; [..|apply Forall_nil_2];
    (eapply wellformed_valid; [eassumption|first [exact Hso|exact Hno|exact Hao|exact Hbo|reflexivity]| |];
     rewrite ?Hso, ?Hno, ?Hao, ?Hbo; simpl; first [lia|discriminate]).
Qed.

Context `{UnstructuredHelpersLaws}.

(** The route intent is valid too, and comes last. *)
Lemma HTTPRouteIntent_valid p i : HTTPRouteIntent (Some p) = Ok i → valid_intent p i ∧ childOrder (i_Object i) = 6%Z.
Proof.
  intros (Hwf & _ & Ho)%HTTPRouteIntent_wf. assert (childOrder (i_Object i) = 6%Z) as Hc by by rewrite Ho.
  split; [|done]. eapply wellformed_valid; [done|exact Ho|lia|lia].
Qed.

(** A plan whose intents are valid and in strict order is accepted as it is. *)
Lemma ordered_plan_accepted p plan orders :
  valid_owner p → Forall (valid_intent p) plan → (childOrder ∘ i_Object <$> plan) = orders →
  NoDup orders → Sorted Z.le orders → ValidatePlan p plan = Ok plan.
Proof.
  intros Ho Hv <- Hnd Hs. apply ValidatePlan_Ok. split; [done|]. split; [done|]. split; [done|].
  symmetry. by apply (SliceStable_id_keys (childOrder ∘ i_Object)).
Qed.

(** C17. [Build] makes a plan exactly for the valid specifications and refuses every other with
    [ErrInvalidConfiguration].  The plan has the six core children in dependency order, with the
    optional ones absent exactly when the specification disables them.  [ValidatePlan] accepts it as
    it is, and also with the route intent after it, exactly for a workload that has a UID, a
    namespace and a name. *)
Theorem Build_spec p :
  (buildable p → ∃ plan, Build (Some p) = Ok plan ∧
    (childOrder ∘ i_Object <$> plan) = [0; 1; 2; 3; 4; 5]%Z ∧
    (i_Absent <$> plan) = [false; false; negb (ServiceEnabled (Some p)); negb (NetworkEnabled (Some p));
      negb (AutoscalingEnabled (Some p)); negb (AvailabilityEnabled (Some p))] ∧
    (valid_owner p → ValidatePlan p plan = Ok plan ∧
      ∀ route, HTTPRouteIntent (Some p) = Ok route → ValidatePlan p (plan ++ [route]) = Ok (plan ++ [route])) ∧
    (¬ valid_owner p → ∀ others, ValidatePlan p (plan ++ others) = invalid)) ∧
  (¬ buildable p → Build (Some p) = invalid).
Proof.
  pose proof (Build_decides p) as Hd.
  split; [|intros Hn; by destruct Hd as [[_ ?]|[? _]]].
  intros Hb. destruct Hd as [[[plan Hp] _]|[_ ?]]; [|done]. exists plan. split; [done|].
  destruct (Build_valid p plan Hp) as (Hv & Hord & Ha). split; [done|]. split; [done|]. split.
  - intros Ho. split; [|intros route [Hr Hr6]%HTTPRouteIntent_valid].
    + apply (ordered_plan_accepted p plan [0; 1; 2; 3; 4; 5]%Z); try done; [by apply (bool_decide_unpack _)|repeat constructor; lia].
    + apply (ordered_plan_accepted p _ [0; 1; 2; 3; 4; 5; 6]%Z); [done| | |by apply (bool_decide_unpack _)|repeat constructor; lia].
      * apply Forall_app. by repeat constructor.
      * rewrite fmap_app, Hord. simpl. by rewrite Hr6.
  - intros Hn others. destruct (ValidatePlan_cases p (plan ++ others)) as [E|E]; [|done]. by apply ValidatePlan_Ok in E as [? _].
Qed.

End Plan.

(** ** The route, and how the children fit together *)

Section Wiring.
Context `{Quantities, UnstructuredHelpersLaws}.

(** C34. A route intent is made exactly when the workload asks for a route, its Service is enabled and
    the route is fully described.  The mutation then rewrites [spec] and the managed labels and
    annotation; every other label, annotation and field of the route, its identity included, is kept.
    It refuses any object that is not an HTTPRoute. *)
Theorem HTTPRoute_spec p e r :
  sp_Exposure (w_Spec p) = Some e → ex_Mode e = ExposureHTTPRoute →
  ((ServiceEnabled (Some p) = true ∧ ex_Gateway e ≠ "" ∧ ex_SectionName e ≠ "" ∧ ex_Hostname e ≠ "" ∧ ex_Path e ≠ "") →
    ∃ i, HTTPRouteIntent (Some p) = Ok i ∧ i_Absent i = false ∧ i_Mutate i = Some (HTTPRouteMutation p)) ∧
  (ServiceEnabled (Some p) = false ∨ ex_Gateway e = "" ∨ ex_SectionName e = "" ∨ ex_Hostname e = "" ∨ ex_Path e = "" →
    HTTPRouteIntent (Some p) = invalid) ∧
  (un_GVK r = HTTPRouteGVK → ∃ r', HTTPRouteMutation p (OUnstructured r) = Ok (OUnstructured r') ∧
    any_get (un_Object r') "spec" = route_spec p e ∧
    (∀ k, k ≠ "spec" → any_get (un_Object r') k = any_get (un_Object r) k) ∧
    un_GVK r' = un_GVK r ∧ same_identity (un_meta r') (un_meta r) ∧
    (∀ k, map_of (om_Labels (un_meta r')) !! k =
      match managed_label p k with Some v => v | None => map_of (om_Labels (un_meta r)) !! k end) ∧
    (∀ k, map_of (om_Annotations (un_meta r')) !! k =
      if decide (k = WorkloadNameAnnotation) then Some (w_Name p) else map_of (om_Annotations (un_meta r)) !! k)) ∧
  (un_GVK r ≠ HTTPRouteGVK → HTTPRouteMutation p (OUnstructured r) = invalid).
Proof.
  intros He Hm. assert (HTTPRouteEnabled (Some p) = true) as Hen by (apply HTTPRouteEnabled_spec; eauto).
  unfold HTTPRouteIntent. rewrite Hen, He. split_and!.
  - intros (-> & Hg & Hs & Hh & Hp). simpl. rewrite !bool_decide_false by done. simpl. eauto.
  - destruct (ServiceEnabled (Some p)); simpl; [|done]. unfold mbind, res_bind.
    intros [?|[Hx|[Hx|[Hx|Hx]]]]; [done|..]; rewrite Hx; rewrite ?(bool_decide_true ("" = "")) by done;
      by rewrite ?orb_true_r.
  - intros Hg. simpl. rewrite bool_decide_true by done. unfold mutateHTTPRoute. rewrite He. simpl.
    eexists. split; [reflexivity|]. simpl. rewrite SetNestedField_top. simpl. split; [apply any_get_set|].
    split; [intros k Hk; by apply any_get_set_ne|]. split; [done|]. split; [done|].
    split; intros k; simpl; [apply managedLabels_lookup|].
    case_decide as Ek; [rewrite Ek; apply lookup_insert_eq|by apply lookup_insert_ne].
  - intros Hg. simpl. by rewrite bool_decide_false.
Qed.

(** C22. The children of one workload fit together, whichever of them it has.  The Deployment selects
    with labels its pods' template carries, and its managed container has the HTTP port with the
    specified number.  A Service, a NetworkPolicy and a disruption budget of the workload, where there
    are such, select with the same labels, and the first two name that port; an autoscaler scales the
    Deployment of the child name; a route's backend is the Service of that name, at its port.  Every
    intent of the plan has that name. *)
Theorem children_agree p rq lm d d' :
  mutateDeployment d p rq lm = Ok d' →
  ∃ c cp,
    dp_Selector d' = Some (desired_selector p) ∧
    SelectorLabels p ⊆ map_of (om_Labels (pt_meta (dp_Template d'))) ∧
    first_match (λ c, bool_decide (co_Name c = ContainerName)) (ps_Containers (pt_Spec (dp_Template d'))) = Some c ∧
    first_match (λ q, bool_decide (cp_Name q = cp_Name cp)) (co_Ports c) = Some cp ∧
    cp_ContainerPort cp = cs_Port (sp_Container (w_Spec p)) ∧
    (∀ s s', mutateService s p = Ok s' → sv_Selector s' = SelectorLabels p ∧
      ∃ port, sv_Ports s' = [port] ∧ svp_TargetPort port = FromString (cp_Name cp) ∧ svp_Port port = ServicePort (Some p)) ∧
    (∀ n n', mutateNetworkPolicy n p = Ok n' → Some (nps_PodSelector (np_Spec n')) = dp_Selector d' ∧
      (npp_Port <$> (nps_Ingress (np_Spec n') ≫= npr_Ports)) = [Some (FromString (cp_Name cp))]) ∧
    (∀ b b', mutatePDB b p = Ok b' → pdb_Selector b' = dp_Selector d') ∧
    (∀ h h', mutateHPA h p = Ok h' → hpa_ScaleTargetRef h' =
      {| cv_APIVersion := "apps/v1"; cv_Kind := "Deployment"; cv_Name := ChildName (w_Name p) |}) ∧
    (∀ r r', mutateHTTPRoute r p = Ok r' → ∃ e, sp_Exposure (w_Spec p) = Some e ∧
      any_get (un_Object r') "spec" = AMap [
        ("parentRefs", ASlice [AMap [("name", AString (ex_Gateway e)); ("sectionName", AString (ex_SectionName e))]]);
        ("hostnames", ASlice [AString (ex_Hostname e)]);
        ("rules", ASlice [AMap [
          ("matches", ASlice [AMap [("path", AMap [("type", AString "PathPrefix"); ("value", AString (ex_Path e))])]]);
          ("backendRefs", ASlice [AMap [
            ("name", AString (ChildName (w_Name p))); ("port", AInt (ServicePort (Some p)))]])]])]) ∧
    (∀ plan, Build (Some p) = Ok plan →
      Forall (λ i, ptr_meta (i_Object i) = Some (new_meta (ChildName (w_Name p)) (w_Namespace p))) plan).
Proof.
  intros (_ & _ & _ & Hsel & Htm & Htp & _)%mutateDeployment_inv.
  destruct (mutateContainers_managed (ps_Containers (pt_Spec (dp_Template d))) p rq lm) as (app & _ & Hc).
  eexists _, {| cp_Name := HTTPPortName; cp_ContainerPort := cs_Port (sp_Container (w_Spec p)); cp_Protocol := "TCP"; cp_other := [] |}.
  split; [exact Hsel|]. split; [rewrite Htm; apply SelectorLabels_managed|].
  split; [rewrite Htp; exact Hc|]. split; [exact (mutatePorts_http (cs_Port (sp_Container (w_Spec p))) (co_Ports app))|].
  split; [done|]. split_and!.
  - intros s s' Hs. unfold mutateService in Hs. repeat (case_match; [done|]). simplify_eq/=. eauto.
  - intros n n' [= <-]. by rewrite Hsel.
  - intros b b' Hb. unfold mutatePDB in Hb. inv_Ok Hb. rewrite Hsel. by simplify_eq/=.
  - intros h h' Hh. unfold mutateHPA in Hh. inv_Ok Hh. by simplify_eq/=.
  - intros r r' (e & He & _ & _ & Hobj)%mutateHTTPRoute_inv. exists e. split; [done|]. rewrite Hobj. apply any_get_set.
  - intros plan Hp. eapply Forall_impl; [by apply (Build_wf p)|]. by intros i [Hm _].
Qed.

End Wiring.

(** ** Witnesses *)

Section Witnesses.
Import Ref Sample.

Lemma ChildName_is_dns_label_witness : is_dns1035_label (ChildName "team.app-1") = true.
Proof. destruct (ChildName_is_dns_label "team.app-1") as [H _]; [vm_compute; reflexivity|exact H]. Defined.

Definition sample_resources : ResourceRequirements :=
  {| rr_Requests := {["cpu" := "100m"]}; rr_Limits := <["cpu" := "1"]> {["memory" := "64"]} |}.

Lemma resourceLists_spec_witness :
  ∃ rq lm, resourceLists (Some sample_resources) = Ok (rq, lm) ∧
    map_of rq !! "memory" = Some (MkQuantity "64") ∧ map_of rq !! "cpu" = Some (MkQuantity "100m").
Proof.
  assert (∃ rq lm, resourceLists (Some sample_resources) = Ok (rq, lm)) as (rq & lm & E)
    by (vm_compute; eexists _, _; reflexivity).
  destruct (resourceLists_spec sample_resources) as [_ Hr]. destruct (Hr rq lm E) as (_ & Hk & _).
  exists rq, lm. split; [exact E|]. rewrite !Hk. split; vm_compute; reflexivity.
Defined.

Definition new_deployment : Deployment := new_Deployment (new_meta (ChildName "sample") ns).

Lemma mutateDeployment_selector_witness :
  ∃ d', mutateDeployment new_deployment workload None None = Ok d' ∧
    dp_Selector d' = Some (desired_selector workload).
Proof.
  destruct (mutateDeployment_selector new_deployment workload None None) as [H _]; [discriminate|].
  apply H. left. reflexivity.
Defined.

Definition mutated : Deployment :=
  match mutateDeployment new_deployment full_workload None None with Ok d => d | _ => new_deployment end.

Lemma mutateDeployment_replicas_witness : dp_Replicas mutated = Some 3%Z.
Proof.
  destruct (mutateDeployment_replicas new_deployment full_workload None None mutated) as [_ H]; [reflexivity|].
  rewrite (H _ eq_refl eq_refl). reflexivity.
Defined.

Lemma mutateDeployment_hardened_witness :
  ps_AutomountServiceAccountToken (pt_Spec (dp_Template mutated)) = Some false.
Proof.
  destruct (mutateDeployment_hardened new_deployment full_workload None None mutated) as (_ & H & _); [reflexivity|exact H].
Defined.

(** A sidecar an administrator injected. *)
Definition with_sidecar : Deployment := {|
  dp_meta := dp_meta new_deployment; dp_Replicas := None; dp_Selector := None;
  dp_Template := {| pt_meta := new_meta "" ""; pt_Spec := {| ps_ServiceAccountName := "";
    ps_DeprecatedServiceAccount := ""; ps_AutomountServiceAccountToken := None; ps_SecurityContext := None;
    ps_Containers := [new_Container "sidecar"]; ps_other := [] |} |};
  dp_Strategy := dp_Strategy new_deployment; dp_MinReadySeconds := 0; dp_Paused := false;
  dp_ProgressDeadlineSeconds := None; dp_other := []; dp_Status := dp_Status new_deployment |}.

Definition with_sidecar' : Deployment :=
  match mutateDeployment with_sidecar workload None None with Ok d => d | _ => with_sidecar end.

Lemma mutateDeployment_keeps_foreign_witness :
  ps_Containers (pt_Spec (dp_Template with_sidecar')) !! 0%nat = Some (new_Container "sidecar").
Proof.
  destruct (mutateDeployment_keeps_foreign with_sidecar workload None None with_sidecar') as [H _]; [reflexivity|].
  apply H; [reflexivity|discriminate].
Defined.

Definition service : Service := new_Service (new_meta (ChildName "sample") ns).
Definition policy : NetworkPolicy := new_NetworkPolicy (new_meta (ChildName "sample") ns).
Definition budget : PodDisruptionBudget := new_PodDisruptionBudget (new_meta (ChildName "sample") ns).
Definition hpa : HorizontalPodAutoscaler := new_HorizontalPodAutoscaler (new_meta (ChildName "sample") ns).
Definition route : Unstructured :=
  {| un_GVK := HTTPRouteGVK; un_meta := new_meta (ChildName "sample") ns; un_Object := [] |}.

(** A workload with none of the optional children but its Service and NetworkPolicy. *)
Lemma children_agree_witness :
  ∃ d' s' n', mutateDeployment new_deployment workload None None = Ok d' ∧
    mutateService service workload = Ok s' ∧ mutateNetworkPolicy policy workload = Ok n' ∧
    sv_Selector s' = SelectorLabels workload ∧ Some (nps_PodSelector (np_Spec n')) = dp_Selector d'.
Proof.
  do 3 eexists. split; [reflexivity|]. split; [reflexivity|]. split; [reflexivity|].
  destruct (children_agree workload None None new_deployment _ eq_refl)
    as (c & cp & _ & _ & _ & _ & _ & Hs & Hn & _).
  split; [exact (proj1 (Hs service _ eq_refl))|exact (proj1 (Hn policy _ eq_refl))].
Defined.

Definition full_autoscaling : AutoscalingSpec := {|
  as_Enabled := Some true; as_MinReplicas := Some 3%Z; as_MaxReplicas := Some 6%Z;
  as_Metrics := [{| am_Type := AutoscalingCPU; am_TargetUtilization := Some 70%Z; am_MetricName := "";
                    am_TargetValue := None |}];
  as_ScaleDownStabilizationSeconds := None |}.

Lemma mutateHPA_spec_witness :
  ∃ hpa', mutateHPA hpa full_workload = Ok hpa' ∧ hpa_MaxReplicas hpa' = 6%Z.
Proof.
  destruct (mutateHPA_spec hpa full_workload full_autoscaling 3 6 eq_refl eq_refl eq_refl) as [H _].
  destruct (H [ResourceMetric "cpu" {| mt_Type := "Utilization"; mt_Value := None; mt_AverageValue := None;
    mt_AverageUtilization := Some 70%Z |}]) as (hpa' & Hm & _ & _ & Hmax & _).
  - constructor; [|constructor]. apply metric_cpu; reflexivity.
  - exists hpa'. split; assumption.
Defined.

Definition full_exposure : ExposureSpec := {| ex_Mode := ExposureHTTPRoute; ex_Gateway := "edge";
  ex_SectionName := "http"; ex_Hostname := "app.example"; ex_Path := "/" |}.

Lemma HTTPRoute_spec_witness :
  ∃ i, HTTPRouteIntent (Some full_workload) = Ok i ∧ i_Absent i = false.
Proof.
  destruct (HTTPRoute_spec full_workload full_exposure route eq_refl eq_refl) as [H _].
  destruct H as (i & Hi & Ha & _).
  - repeat split; discriminate.
  - exists i. split; assumption.
Defined.

Lemma mutatePDB_spec_witness : ∃ pdb', mutatePDB budget full_workload = Ok pdb'.
Proof.
  destruct (mutatePDB_spec budget full_workload) as [H _]. destruct H as (pdb' & a & Hm & _).
  - eexists _, 3%Z. split; [reflexivity|]. split; [reflexivity|]. split; [lia|]. left. exists 2%Z.
    split; [reflexivity|]. split; [reflexivity|lia].
  - exists pdb'. exact Hm.
Defined.

Lemma Build_spec_witness : ∃ plan, Build (Some full_workload) = Ok plan ∧
  (i_Absent <$> plan) = [false; false; false; true; false; false].
Proof.
  destruct (Build_spec full_workload) as [H _]. destruct H as (plan & Hp & _ & Ha & _).
  - split; [exact I|]. split; [intros _; vm_compute; split; discriminate|]. split.
    + intros a _ [= <-]. split; [discriminate|]. split; discriminate.
    + intros _. eexists _, 3%Z. split; [reflexivity|]. split; [reflexivity|]. split; [lia|]. left. exists 2%Z.
      split; [reflexivity|]. split; [reflexivity|lia].
  - exists plan. split; [exact Hp|exact Ha].
Defined.

Lemma mutateService_allocation_witness : ∃ s', mutateService service workload = Ok s'.
Proof.
  destruct (mutateService_allocation service workload) as [H _]. destruct H as (s' & Hs & _).
  - split; [left; reflexivity|discriminate].
  - exists s'. exact Hs.
Defined.

End Witnesses.
