(* ===== verification/Regex.v ===== *)
(** * Regular expressions of the schema's patterns

    The patterns of the validation markers, as the derivatives of regular expressions over the
    code points of a string, and the language they stand for. *)
From S2P Require Import Prelude.

(** ** Code points *)

(** The payload of a continuation byte. *)
Definition continuation (a : ascii) : N := (N_of_ascii a - 128)%N.

(** The code points of a valid UTF-8 string, which the strings of a JSON document are. *)
Fixpoint code_points (s : string) : list N :=
  match s with
  | EmptyString => []
  | String a s1 =>
      let n := N_of_ascii a in
      if (n <? 128)%N then n :: code_points s1
      else match s1 with
      | EmptyString => []
      | String b s2 =>
          if (n <? 224)%N then ((n - 192) * 64 + continuation b)%N :: code_points s2
          else match s2 with
          | EmptyString => []
          | String c s3 =>
              if (n <? 240)%N then ((n - 224) * 4096 + continuation b * 64 + continuation c)%N :: code_points s3
              else match s3 with
              | EmptyString => []
              | String d s4 =>
                  ((n - 240) * 262144 + continuation b * 4096 + continuation c * 64 + continuation d)%N :: code_points s4
              end
          end
      end
  end.

(** The length [MinLength] and [MaxLength] count. *)
Definition runes (s : string) : nat := length (code_points s).

Lemma runes_le_bytes s : (runes s ≤ String.length s)%nat.
Proof.
  unfold runes. revert s. fix IH 1. intros s. destruct s as [|a s1]; [done|]. cbn [code_points].
  destruct (_ <? 128)%N; [simpl; specialize (IH s1); lia|]. destruct s1 as [|b s2]; [simpl; lia|].
  destruct (_ <? 224)%N; [simpl; specialize (IH s2); lia|]. destruct s2 as [|c s3]; [simpl; lia|].
  destruct (_ <? 240)%N; [simpl; specialize (IH s3); lia|]. destruct s3 as [|d s4]; [simpl; lia|].
  simpl. specialize (IH s4). lia.
Qed.

(** ** Expressions *)

Inductive regex :=
  | Empty
  | Epsilon
  | Class (f : N → bool)
  | Cat (r s : regex)
  | Alt (r s : regex)
  | Star (r : regex).

Definition Opt (r : regex) : regex := Alt r Epsilon.
Definition Plus (r : regex) : regex := Cat r (Star r).

(** The words an expression stands for. *)
Inductive word : regex → list N → Prop :=
  | word_epsilon : word Epsilon []
  | word_class f c : f c = true → word (Class f) [c]
  | word_cat r s u v : word r u → word s v → word (Cat r s) (u ++ v)
  | word_alt_l r s u : word r u → word (Alt r s) u
  | word_alt_r r s u : word s u → word (Alt r s) u
  | word_star_nil r : word (Star r) []
  | word_star_cons r u v : word r u → word (Star r) v → word (Star r) (u ++ v).

Fixpoint nullable (r : regex) : bool :=
  match r with
  | Empty | Class _ => false
  | Epsilon | Star _ => true
  | Cat r s => nullable r && nullable s
  | Alt r s => nullable r || nullable s
  end.

(** What is left of the words that begin with [c]. *)
Fixpoint derivative (c : N) (r : regex) : regex :=
  match r with
  | Empty | Epsilon => Empty
  | Class f => if f c then Epsilon else Empty
  | Cat r s => if nullable r then Alt (Cat (derivative c r) s) (derivative c s) else Cat (derivative c r) s
  | Alt r s => Alt (derivative c r) (derivative c s)
  | Star r => Cat (derivative c r) (Star r)
  end.

Fixpoint matches (r : regex) (u : list N) : bool :=
  match u with
  | [] => nullable r
  | c :: u' => matches (derivative c r) u'
  end.

Lemma nullable_spec r : nullable r = true ↔ word r [].
Proof.
  split.
  - induction r; simpl; rewrite ?andb_true_iff, ?orb_true_iff; try done; try by constructor.
    + intros [H1 H2]. apply (word_cat r1 r2 [] []); auto.
    + intros [?|?]; [apply word_alt_l|apply word_alt_r]; auto.
  - remember [] as u eqn:Hu. induction 1; simpl; try done; subst; try discriminate.
    + apply app_eq_nil in Hu as [-> ->]. by rewrite IHword1, IHword2.
    + by rewrite IHword.
    + by rewrite IHword, orb_true_r.
Qed.

Lemma word_empty u : ¬ word Empty u.
Proof. inversion 1. Qed.

Lemma word_star_inv r c u : word (Star r) (c :: u) → ∃ v w, u = v ++ w ∧ word r (c :: v) ∧ word (Star r) w.
Proof.
  remember (Star r) as s eqn:Hs. remember (c :: u) as x eqn:Hx. intros Hw. revert Hx Hs.
  induction Hw as [| | | | | |r' v w Hv IHv Hw IHw]; intros Hx [=]; subst; try done.
  destruct v as [|c' v]; simpl in Hx; [by apply IHw|]. injection Hx as -> <-. eauto.
Qed.

Lemma derivative_spec c r u : word (derivative c r) u ↔ word r (c :: u).
Proof.
  revert u. induction r as [| |f|r IHr s IHs|r IHr s IHs|r IHr]; intros u; simpl.
  - split; inversion 1.
  - split; inversion 1.
  - destruct (f c) eqn:Ef; split; inversion 1; subst; try congruence; by constructor.
  - assert (word (Cat (derivative c r) s) u ↔ ∃ v w, u = v ++ w ∧ word r (c :: v) ∧ word s w) as Hcat.
    { split; [inversion 1; subst; naive_solver|]. intros (v & w & -> & Hv & Hw). constructor; [by apply IHr|done]. }
    assert (word (Cat r s) (c :: u) ↔ (∃ v w, u = v ++ w ∧ word r (c :: v) ∧ word s w) ∨ (word r [] ∧ word s (c :: u))) as Hcons.
    { split.
      - remember (c :: u) as x eqn:Hx. intros Hw. revert Hx. inversion Hw as [| |? ? v w Hv Hw'| | | |]. subst.
        intros Hx. destruct v as [|c' v]; simpl in Hx; [by right; subst|]. injection Hx as -> <-. left. eauto.
      - intros [(v & w & -> & Hv & Hw)|[Hr Hs]]; [exact (word_cat _ _ _ _ Hv Hw)|exact (word_cat _ _ [] _ Hr Hs)]. }
    rewrite Hcons, <-Hcat, <-nullable_spec, <-IHs. destruct (nullable r).
    + split; [inversion 1; subst; auto|]. intros [?|[_ ?]]; [by apply word_alt_l|by apply word_alt_r].
    + split; [by left|]. by intros [?|[? _]].
  - split.
    + inversion 1; subst; [apply word_alt_l|apply word_alt_r]; naive_solver.
    + inversion 1; subst; [apply word_alt_l|apply word_alt_r]; naive_solver.
  - split.
    + inversion 1; subst. rewrite app_comm_cons. constructor; [by apply IHr|done].
    + intros (v & w & -> & Hv & Hw)%word_star_inv. constructor; [by apply IHr|done].
Qed.

(** The derivatives decide the language. *)
Lemma matches_spec r u : matches r u = true ↔ word r u.
Proof.
  revert r. induction u as [|c u IH]; intros r; simpl; [apply nullable_spec|]. by rewrite IH, derivative_spec.
Qed.
