(* ===== verification/Schema.v ===== *)
(** * The schema of the custom resource (api/v1alpha1/aiworkload_types.go)

    The validation markers and CEL rules of the Go types, from which the CustomResourceDefinition
    is generated, as predicates on the values the controller reads, and the defaults the API
    server fills in before.  An optional string has a minimal length, so it is empty exactly when
    it is absent: [has(self.f)] is the test for a non-empty one. *)
From S2P Require Import Prelude Kube Api Regex.

(** ** Patterns *)

Definition char (a : ascii) : regex := Class (λ c, bool_decide (c = N_of_ascii a)).
Definition in_range (lo hi : ascii) (c : N) : bool := (N_of_ascii lo <=? c)%N && (c <=? N_of_ascii hi)%N.
Definition one_of (s : string) (c : N) : bool := existsb (λ a, bool_decide (c = N_of_ascii a)) (String.list_ascii_of_string s).

Definition lower_digit (c : N) : bool := in_range "a" "z" c || in_range "0" "9" c.
Definition letter (c : N) : bool := in_range "a" "z" c || in_range "A" "Z" c.
Definition letter_digit (c : N) : bool := letter c || in_range "0" "9" c.

(** [^[a-z0-9]([-a-z0-9]*[a-z0-9])?$] *)
Definition label_pattern : regex :=
  Cat (Class lower_digit) (Opt (Cat (Star (Class (λ c, one_of "-" c || lower_digit c))) (Class lower_digit))).

(** [^[a-z0-9]([-a-z0-9]*[a-z0-9])?(\.[a-z0-9]([-a-z0-9]*[a-z0-9])?)*$] *)
Definition subdomain_pattern : regex := Cat label_pattern (Star (Cat (char ".") label_pattern)).

(** [^[a-zA-Z][a-zA-Z0-9_.-]*$] *)
Definition metric_pattern : regex := Cat (Class letter) (Star (Class (λ c, letter_digit c || one_of "_.-" c))).

(** [^/] *)
Definition path_pattern : regex := Cat (char "/") (Star (Class (λ _, true))).

(** [[:space:]], [\p{Z}] and [\x{0085}] *)
Definition is_space (c : N) : bool := (9 <=? c)%N && (c <=? 13)%N || bool_decide (c = 32%N).
Definition is_separator (c : N) : bool :=
  bool_decide (c ∈ [0x20; 0xA0; 0x1680; 0x2028; 0x2029; 0x202F; 0x205F; 0x3000]%N) || (0x2000 <=? c)%N && (c <=? 0x200A)%N.

(** [^[^[:space:]\p{Z}\x{0085}]+$] *)
Definition image_pattern : regex :=
  Plus (Class (λ c, negb (is_space c || is_separator c || bool_decide (c = 0x85%N)))).

(** [^[A-Za-z]([A-Za-z0-9_,:]*[A-Za-z0-9_])?$] *)
Definition reason_pattern : regex :=
  Cat (Class letter) (Opt (Cat (Star (Class (λ c, letter_digit c || one_of "_,:" c)))
                               (Class (λ c, letter_digit c || one_of "_" c)))).

(** An optional subdomain and a slash, and a qualified name: letters and digits, with hyphens,
    underscores and dots in between. *)
Definition condition_type_pattern : regex :=
  Cat (Opt (Cat subdomain_pattern (char "/")))
      (Cat (Opt (Cat (Class letter_digit) (Star (Class (λ c, one_of "-_." c || letter_digit c))))) (Class letter_digit)).

(** [MinLength], [MaxLength] and [Pattern] *)
Definition text (min max : nat) (pattern : regex) (s : string) : bool :=
  (min <=? runes s)%nat && (runes s <=? max)%nat && matches pattern (code_points s).

Definition bounds (min max : Z) (n : Z) : bool := (min <=? n)%Z && (n <=? max)%Z.

(** A marker on an optional field applies to a present one. *)
Definition if_present {A} (valid : A → bool) (o : option A) : bool :=
  match o with
  | Some a => valid a
  | None => true
  end.

Definition if_given (valid : string → bool) (s : string) : bool := bool_decide (s = "") || valid s.

(** [has(self.f)] *)
Definition has {A} (o : option A) : bool := match o with Some _ => true | None => false end.
Definition given (s : string) : bool := negb (bool_decide (s = "")).

(** [self.all(x, self.filter(y, y == x).size() == 1)] *)
Definition distinct (l : list string) : bool :=
  forallb (λ x, (length (filter (λ y, y = x) l) =? 1)%nat) l.

Lemma distinct_NoDup l : distinct l = true ↔ NoDup l.
Proof.
  unfold distinct. rewrite forallb_forall. setoid_rewrite Nat.eqb_eq. setoid_rewrite <-list_elem_of_In.
  induction l as [|x l IH]; [split; [constructor|set_solver]|].
  rewrite NoDup_cons, <-IH. split.
  - intros Hl. assert (x ∉ l) as Hx.
    { intros Hin. specialize (Hl x ltac:(set_solver)). rewrite filter_cons_True in Hl by done. simpl in Hl.
      assert (x ∈ filter (λ y, y = x) l) as Hf by (by apply list_elem_of_filter).
      destruct (filter (λ y, y = x) l); [set_solver|done]. }
    split; [done|]. intros y Hy. specialize (Hl y ltac:(set_solver)).
    rewrite filter_cons_False in Hl by (intros ->; done). done.
  - intros [Hx Hl] y [->|Hy]%elem_of_cons.
    + rewrite filter_cons_True by done. simpl. f_equal. apply length_zero_iff_nil.
      destruct (filter (λ y, y = x) l) as [|z k] eqn:E; [done|].
      assert (z ∈ filter (λ y, y = x) l) as [-> ?]%list_elem_of_filter by (rewrite E; set_solver). done.
    + rewrite filter_cons_False by (intros ->; done). by apply Hl.
Qed.

(** ** The markers of each type *)

Section Schema.
Context `{Quantities}.

Definition valid_ContainerSpec (c : ContainerSpec) : bool := bounds 1 65535 (cs_Port c).

(** The CEL library's [isQuantity] and [quantity] are [resource.ParseQuantity]. *)
Definition valid_ResourceQuantity (q : ResourceQuantity) : bool :=
  (1 <=? runes q)%nat && (runes q <=? 64)%nat &&
  match ParseQuantity q with
  | Some v => (0 <=? Quantity_Sign v)%Z
  | None => false
  end.

Definition valid_ResourceQuantities (m : ResourceQuantities) : bool :=
  (size m <=? 2)%nat &&
  forallb (λ kv, valid_ResourceQuantity kv.2 && (bool_decide (kv.1 = "cpu") || bool_decide (kv.1 = "memory"))) (map_to_list m).

(** The rule on requests and limits; an absent map is an empty one. *)
Definition request_within_limit (limits : ResourceQuantities) (request : string * ResourceQuantity) : bool :=
  match limits !! request.1 with
  | None => true
  | Some limit =>
      match ParseQuantity request.2, ParseQuantity limit with
      | Some r, Some l => (Quantity_Cmp r l <=? 0)%Z
      | _, _ => true
      end
  end.

Definition valid_ResourceRequirements (r : ResourceRequirements) : bool :=
  valid_ResourceQuantities (rr_Requests r) && valid_ResourceQuantities (rr_Limits r) &&
  forallb (request_within_limit (rr_Limits r)) (map_to_list (rr_Requests r)).

Definition valid_HTTPProbeSpec (p : HTTPProbeSpec) : bool := text 1 2048 path_pattern (hp_Path p).

Definition valid_HealthSpec (h : HealthSpec) : bool :=
  if_present valid_HTTPProbeSpec (hs_Readiness h) && if_present valid_HTTPProbeSpec (hs_Liveness h).

Definition valid_ServiceSpec (s : ServiceSpec) : bool := if_present (bounds 1 65535) (ss_Port s).

Definition is_resource_metric (t : AutoscalingMetricType) : bool :=
  match t with
  | AutoscalingCPU | AutoscalingMemory => true
  | _ => false
  end.

Definition valid_AutoscalingMetricType (t : AutoscalingMetricType) : bool :=
  match t with
  | AutoscalingOtherType _ => false
  | _ => true
  end.

Definition valid_AutoscalingMetricSpec (m : AutoscalingMetricSpec) : bool :=
  valid_AutoscalingMetricType (am_Type m) && if_present (bounds 1 100) (am_TargetUtilization m) &&
  if_given (text 1 253 metric_pattern) (am_MetricName m) && if_present valid_ResourceQuantity (am_TargetValue m) &&
  (if is_resource_metric (am_Type m)
   then has (am_TargetUtilization m) && negb (given (am_MetricName m)) && negb (has (am_TargetValue m))
   else given (am_MetricName m) && has (am_TargetValue m) && negb (has (am_TargetUtilization m))).

Definition valid_AutoscalingSpec (a : AutoscalingSpec) : bool :=
  if_present (bounds 1 20) (as_MinReplicas a) && if_present (bounds 1 20) (as_MaxReplicas a) &&
  (length (as_Metrics a) <=? 4)%nat && forallb valid_AutoscalingMetricSpec (as_Metrics a) &&
  if_present (bounds 0 3600) (as_ScaleDownStabilizationSeconds a) &&
  (negb (has (as_Enabled a)) || negb (default false (as_Enabled a)) ||
   has (as_MinReplicas a) && has (as_MaxReplicas a) && (0 <? length (as_Metrics a))%nat) &&
  match as_MinReplicas a, as_MaxReplicas a with
  | Some min, Some max => (min <=? max)%Z
  | _, _ => true
  end.

Definition valid_AvailabilitySpec (a : AvailabilitySpec) : bool :=
  if_present (bounds 1 20) (av_MinAvailable a) && if_present (bounds 0 19) (av_MaxUnavailable a) &&
  (negb (has (av_Enabled a)) || negb (default false (av_Enabled a)) ||
   negb (Bool.eqb (has (av_MinAvailable a)) (has (av_MaxUnavailable a)))).

Definition valid_ExposureSpec (e : ExposureSpec) : bool :=
  if_given (text 1 253 subdomain_pattern) (ex_Gateway e) && if_given (text 1 253 label_pattern) (ex_SectionName e) &&
  if_given (text 1 253 subdomain_pattern) (ex_Hostname e) && if_given (text 1 2048 path_pattern) (ex_Path e) &&
  match ex_Mode e with
  | ExposureHTTPRoute => given (ex_Gateway e) && given (ex_SectionName e) && given (ex_Hostname e) && given (ex_Path e)
  | ExposureClusterLocal =>
      negb (given (ex_Gateway e)) && negb (given (ex_SectionName e)) && negb (given (ex_Hostname e)) && negb (given (ex_Path e))
  | ExposureOtherMode _ => false
  end.

Definition valid_SecretReference (s : SecretReference) : bool := text 1 253 subdomain_pattern s.

Definition valid_ExternalSecretReference (e : ExternalSecretReference) : bool :=
  valid_SecretReference (er_ExternalSecret e) && valid_SecretReference (er_TargetSecret e).

Definition valid_AIWorkloadSpec (s : AIWorkloadSpec) : bool :=
  if_given (text 1 63 label_pattern) (sp_Environment s) && if_given (text 1 63 label_pattern) (sp_Tenant s) &&
  if_given (λ p, bool_decide (p = "baseline") || bool_decide (p = "restricted")) (sp_Policy s) &&
  text 1 2048 image_pattern (sp_Image s) && if_present (bounds 0 20) (sp_Replicas s) &&
  if_present valid_AutoscalingSpec (sp_Autoscaling s) && if_present valid_AvailabilitySpec (sp_Availability s) &&
  valid_ContainerSpec (sp_Container s) && if_present valid_ResourceRequirements (sp_Resources s) &&
  if_present valid_HealthSpec (sp_Health s) && if_present valid_ServiceSpec (sp_Service s) &&
  if_present valid_ExposureSpec (sp_Exposure s) &&
  (length (sp_SecretRefs s) <=? 32)%nat && forallb valid_SecretReference (sp_SecretRefs s) && distinct (sp_SecretRefs s) &&
  (length (sp_ExternalSecrets s) <=? 16)%nat && forallb valid_ExternalSecretReference (sp_ExternalSecrets s) &&
  distinct (er_ExternalSecret <$> sp_ExternalSecrets s) && distinct (er_TargetSecret <$> sp_ExternalSecrets s).

(** ** Defaults *)

Definition or_default {A} (o : option A) (a : A) : option A := Some (default a o).

Definition default_AutoscalingSpec (a : AutoscalingSpec) : AutoscalingSpec := {|
  as_Enabled := or_default (as_Enabled a) false; as_MinReplicas := or_default (as_MinReplicas a) 1%Z;
  as_MaxReplicas := as_MaxReplicas a; as_Metrics := as_Metrics a;
  as_ScaleDownStabilizationSeconds := as_ScaleDownStabilizationSeconds a |}.

Definition default_AvailabilitySpec (a : AvailabilitySpec) : AvailabilitySpec := {|
  av_Enabled := or_default (av_Enabled a) false; av_MinAvailable := av_MinAvailable a;
  av_MaxUnavailable := av_MaxUnavailable a |}.

Definition default_ServiceSpec (s : ServiceSpec) : ServiceSpec := {|
  ss_Enabled := or_default (ss_Enabled s) true; ss_Port := or_default (ss_Port s) 80%Z |}.

Definition default_NetworkSpec (n : NetworkSpec) : NetworkSpec := {| ns_Enabled := or_default (ns_Enabled n) true |}.

(** An absent struct with the default [{}] is filled in, and then its fields. *)
Definition default_AIWorkloadSpec (s : AIWorkloadSpec) : AIWorkloadSpec := {|
  sp_Environment := sp_Environment s; sp_Tenant := sp_Tenant s; sp_Policy := sp_Policy s; sp_Image := sp_Image s;
  sp_Replicas := or_default (sp_Replicas s) 1%Z;
  sp_Autoscaling := default_AutoscalingSpec <$> sp_Autoscaling s;
  sp_Availability := default_AvailabilitySpec <$> sp_Availability s;
  sp_Container := sp_Container s; sp_Resources := sp_Resources s; sp_Health := sp_Health s;
  sp_Service := Some (default_ServiceSpec (default {| ss_Enabled := None; ss_Port := None |} (sp_Service s)));
  sp_Exposure := sp_Exposure s; sp_SecretRefs := sp_SecretRefs s; sp_ExternalSecrets := sp_ExternalSecrets s;
  sp_Network := Some (default_NetworkSpec (default {| ns_Enabled := None |} (sp_Network s))) |}.

Definition defaulted (p : AIWorkload) : AIWorkload := {|
  w_meta := w_meta p; w_Spec := default_AIWorkloadSpec (w_Spec p); w_Status := w_Status p |}.

End Schema.

(** ** The status *)

(** The schema of [metav1.Condition] in the generated definition: type, status, reason, message and
    generation.  The transition time is a time in the model, and its format needs no test. *)
Definition valid_Condition (c : Condition) : bool :=
  (runes (c_Type c) <=? 316)%nat && matches condition_type_pattern (code_points (c_Type c)) && known_status (c_Status c) &&
  text 1 1024 reason_pattern (c_Reason c) && (Z.of_nat (runes (c_Message c)) <=? 32768)%Z && (0 <=? c_ObservedGeneration c)%Z.

(** [has(c.observedGeneration)]: the field is omitted when it is zero. *)
Definition has_observedGeneration (c : Condition) : bool := negb (c_ObservedGeneration c =? 0)%Z.

Definition valid_AIWorkloadStatus (s : AIWorkloadStatus) : bool :=
  (0 <=? wst_ObservedGeneration s)%Z && bounds 0 20 (wst_DesiredReplicas s) && (0 <=? wst_ReadyReplicas s)%Z &&
  (runes (wst_Endpoint s) <=? 512)%nat &&
  forallb valid_Condition (wst_Conditions s) && distinct (c_Type <$> wst_Conditions s) &&
  (length (wst_Conditions s) <=? 16)%nat && forallb has_observedGeneration (wst_Conditions s).
