(* ===== verification/Admission.v ===== *)
(** * What the schema promises the controller, and the controller the schema

    A workload the API server admitted is one the builder makes a plan for, except for the one rule
    the schema does not have; the defaults the server fills in are the ones the code assumes; and
    every status the controller sends is one the server accepts. *)
From S2P Require Import Prelude Errors Kube Api Naming Intent Autoscaling Deploy ServiceIntent Availability Route Builder.
From S2P Require Import Effects Engine Conditions Status Failures Gates Controller Contract Safety ReconcileTheorems PlanTheorems GoStd.
From S2P Require Import Regex Schema KubeReference Sample.

(** ** Admission *)

Section Admission.
Context `{QuantitiesLaws, UnstructuredHelpersLaws}.
Implicit Types (p : AIWorkload).

Lemma valid_quantities_all m : valid_ResourceQuantities m = true → all_valid m.
Proof.
  intros [_ Hm]%andb_true_iff k v Hk. rewrite forallb_forall in Hm.
  specialize (Hm (k, v)). rewrite <-list_elem_of_In, elem_of_map_to_list in Hm. specialize (Hm Hk).
  apply andb_true_iff in Hm as [[_ Hq]%andb_true_iff Hn]. simpl in *.
  destruct (ParseQuantity v) as [q|] eqn:Eq; [|done]. exists q. apply Z.leb_le in Hq.
  rewrite orb_true_iff, !bool_decide_eq_true in Hn. done.
Qed.

Lemma valid_resources_admitted p :
  if_present valid_ResourceRequirements (sp_Resources (w_Spec p)) = true → valid_resources p.
Proof.
  unfold valid_resources. destruct (sp_Resources (w_Spec p)) as [r|]; [|done]. simpl.
  intros [[Hr Hl]%andb_true_iff Hw]%andb_true_iff. split; [by apply valid_quantities_all|].
  split; [by apply valid_quantities_all|]. intros k q l Hq Hlm.
  apply lookup_omap_Some in Hq as (v & Hq & Hv), Hlm as (u & Hlm & Hu). rewrite forallb_forall in Hw. specialize (Hw (k, v)).
  rewrite <-list_elem_of_In, elem_of_map_to_list in Hw. specialize (Hw Hv).
  unfold request_within_limit in Hw. simpl in Hw. rewrite Hu, Hq, Hlm in Hw. by apply Z.leb_le.
Qed.

Lemma valid_service_admitted p : if_present valid_ServiceSpec (sp_Service (w_Spec p)) = true → (1 ≤ ServicePort (Some p) ≤ 65535)%Z.
Proof.
  unfold ServicePort. destruct (sp_Service (w_Spec p)) as [s|]; [|lia]. simpl. unfold valid_ServiceSpec.
  destruct (ss_Port s) as [n|]; simpl; [|lia]. intros [?%Z.leb_le ?%Z.leb_le]%andb_true_iff. lia.
Qed.

Lemma valid_autoscaling_admitted p :
  if_present valid_AutoscalingSpec (sp_Autoscaling (w_Spec p)) = true → valid_autoscaling p.
Proof.
  intros Hv a (a' & Ha' & He)%AutoscalingEnabled_spec Ha. rewrite Ha in *. injection Ha' as <-. simpl in Hv.
  unfold valid_AutoscalingSpec in Hv. rewrite He in Hv. simpl in Hv.
  apply andb_true_iff in Hv as [[_ [[Hmin Hmax]%andb_true_iff Hm]%andb_true_iff]%andb_true_iff _].
  destruct (as_MinReplicas a), (as_MaxReplicas a), (as_Metrics a); done.
Qed.

Lemma valid_quantity_parses q : valid_ResourceQuantity q = true → ∃ v, ParseQuantity q = Some v ∧ (0 ≤ Quantity_Sign v)%Z.
Proof. intros [_ Hq]%andb_true_iff. destruct (ParseQuantity q) as [v|]; [|done]. exists v. by apply Z.leb_le in Hq. Qed.

Lemma valid_metric_admitted m : valid_AutoscalingMetricSpec m = true → ∃ t, metric_for m t.
Proof.
  unfold valid_AutoscalingMetricSpec. rewrite !andb_true_iff. intros [[[[Ht _] _] Hq] Hshape].
  destruct (am_Type m) eqn:Et; try done; simpl in Hshape; rewrite !andb_true_iff in Hshape.
  1,2: destruct (am_TargetUtilization m) eqn:Eu; [|naive_solver]; eexists; by constructor.
  all: destruct Hshape as [[Hn Hv] _]; destruct (am_TargetValue m) as [q|] eqn:Eq; [|done];
    apply valid_quantity_parses in Hq as (v & Hv' & Hs); apply negb_true_iff, bool_decide_eq_false in Hn;
    eexists; by econstructor.
Qed.

Lemma valid_metrics_admitted ms : forallb valid_AutoscalingMetricSpec ms = true → ∃ ts, hpaMetrics ms = Ok ts.
Proof.
  intros Hm. assert (∃ ts, Forall2 metric_for ms ts) as [ts Hts]; [|exists ts; by apply hpaMetrics_spec].
  induction ms as [|m ms IH]; simpl in Hm; [by exists []|]. apply andb_true_iff in Hm as [[t Ht]%valid_metric_admitted [ts Hts]%IH].
  exists (t :: ts). by constructor.
Qed.

(** The parts of an admitted specification the plan depends on. *)
Definition plan_parts (s : AIWorkloadSpec) : Prop :=
  if_present valid_AutoscalingSpec (sp_Autoscaling s) = true ∧ if_present valid_ResourceRequirements (sp_Resources s) = true ∧
  if_present valid_ServiceSpec (sp_Service s) = true ∧ if_present valid_ExposureSpec (sp_Exposure s) = true ∧
  if_present (bounds 0 20) (sp_Replicas s) = true.

Lemma admitted_parts s : valid_AIWorkloadSpec s = true → plan_parts s.
Proof. unfold plan_parts, valid_AIWorkloadSpec. rewrite !andb_true_iff. tauto. Qed.

(** An admitted specification is buildable but for its disruption budget. *)
Lemma admitted_buildable p : plan_parts (w_Spec p) → (buildable p ↔ valid_availability p).
Proof.
  intros (Ha & Hr & Hs & _). split; [by intros (_ & _ & _ & ?)|]. intros Hv.
  split; [by apply valid_resources_admitted|]. split; [by intros _; apply valid_service_admitted|].
  split; [by apply valid_autoscaling_admitted|done].
Qed.

(** A mutation that does not fail on the fresh object of its intent. *)
Definition makes (i : Intent) : Prop :=
  ∀ f object, i_Mutate i = Some f → i_Object i = Pointer object → ∃ o, f object = Ok o.

Lemma mutateHPA_admitted p h :
  if_present valid_AutoscalingSpec (sp_Autoscaling (w_Spec p)) = true → AutoscalingEnabled (Some p) = true →
  ∃ h', mutateHPA h p = Ok h'.
Proof.
  intros Hv Hen. pose proof (valid_autoscaling_admitted p Hv) as Hva. pose proof Hen as (a & Ha & _)%AutoscalingEnabled_spec.
  destruct (Hva a Hen Ha) as (Hmin & Hmax & _). unfold mutateHPA. rewrite Ha in *. simpl in Hv |- *.
  unfold valid_AutoscalingSpec in Hv. rewrite !andb_true_iff in Hv. destruct Hv as [[[[_ Hm] _] _] _].
  apply valid_metrics_admitted in Hm as [ts ->]. simpl.
  destruct (as_MinReplicas a), (as_MaxReplicas a); try done. by eexists.
Qed.

(** An object of its kind no mutation of [p] refuses: a Deployment that is new or has the selector
    of [p], and a Service that is not headless and of the type ClusterIP. *)
Definition fits p (c : Object) : Prop :=
  match c with
  | ODeployment d => is_fresh (dp_meta d) = true ∨ selector_compatible d (SelectorLabels p) = true
  | OService v => (sv_Type v = "" ∨ sv_Type v = "ClusterIP") ∧ sv_ClusterIP v ≠ "None"
  | _ => True
  end.

(** The mutation of the intent fails on no such object of the intent's kind. *)
Definition takes p (i : Intent) : Prop :=
  ∀ f c, i_Mutate i = Some f → childOrder (Pointer c) = childOrder (i_Object i) → fits p c → ∃ o, f c = Ok o.

Lemma mutateDeployment_takes p rq lm d :
  fits p (ODeployment d) → ∃ d', mutateDeployment d p rq lm = Ok d'.
Proof.
  unfold mutateDeployment. intros Hf. assert (negb (is_fresh (dp_meta d)) && negb (selector_compatible d (SelectorLabels p)) = false) as ->.
  { destruct Hf as [-> | ->]; [done|]. by rewrite andb_false_r. }
  unfold desired_spec_replicas. destruct (AutoscalingEnabled (Some p)) eqn:E; simpl; [|by eexists].
  apply AutoscalingEnabled_spec in E as (x & -> & _). simpl. destruct (is_fresh _); by eexists.
Qed.

Lemma mutateService_takes p v : fits p (OService v) → ∃ v', mutateService v p = Ok v'.
Proof.
  intros [Ht Hc]. unfold mutateService. rewrite (bool_decide_false (sv_ClusterIP v = "None")) by done.
  destruct Ht as [-> | ->]; by eexists.
Qed.

Lemma mutatePDB_takes p b : validateAvailability (Some p) = Ok tt → ∃ b', mutatePDB b p = Ok b'.
Proof.
  intros Hv. unfold mutatePDB. rewrite Hv. simpl. apply validateAvailability_Ok in Hv as (x & floor & -> & _ & _ & Hm).
  simpl. destruct Hm as [(m & -> & _)|(m & -> & -> & _)]; by eexists.
Qed.

(** An object of the order of a typed kind is of that kind. *)
#[local] Ltac of_kind c := destruct c; simpl in *; try discriminate; try by case_bool_decide.

Lemma admitted_takes p plan :
  plan_parts (w_Spec p) → Build (Some p) = Ok plan → Forall (takes p) plan.
Proof.
  intros (Hauto & _) (rq & lm & s & a & b & _ & Hs & Ha & Hb & ->)%Build_inv.
  repeat apply Forall_cons_2; [..|constructor]; intros f c Hf Hc Hfit.
  - injection Hf as <-. of_kind c. by eexists.
  - injection Hf as <-. of_kind c. destruct (mutateDeployment_takes p rq lm _ Hfit) as [d' ->]. by eexists.
  - revert Hs Hf Hc. unfold serviceIntent. destruct (ServiceEnabled _); simpl; [|by intros [= <-]].
    case_match; [done|]. intros [= <-] [= <-] Hc. of_kind c. destruct (mutateService_takes p _ Hfit) as [v' ->]. by eexists.
  - revert Hf Hc. unfold networkPolicyIntent. case_match; [done|]. intros [= <-] Hc. of_kind c. by eexists.
  - revert Ha Hf Hc. unfold autoscalingIntent. destruct (AutoscalingEnabled _) eqn:E; simpl; [|by intros [= <-]].
    destruct (sp_Autoscaling (w_Spec p)) as [x|] eqn:Ex; simpl; [|done]. case_match; [done|].
    intros [= <-] [= <-] Hc. of_kind c. match goal with |- context [mutateHPA ?h p] =>
      destruct (mutateHPA_admitted p h) as [h' ->]; [by rewrite Ex|done|] end. by eexists.
  - revert Hb Hf Hc. unfold availabilityIntent. destruct (AvailabilityEnabled (Some p)); simpl negb; cbv iota; [|by intros [= <-]].
    intros Hb. inv_Ok Hb. simplify_eq. intros [= <-] Hc.
    assert (∀ o, ∃ o', mutatePDB o p = Ok o') as Ht.
    { intros o. apply mutatePDB_takes. by match goal with E : validateAvailability _ = Ok ?u |- _ => destruct u end. }
    of_kind c. match goal with |- context [mutatePDB ?o p] => destruct (Ht o) as [b' ->] end. by eexists.
Qed.

(** The fresh object of an intent fits. *)
Lemma fresh_fits p plan :
  Build (Some p) = Ok plan → Forall (λ i, ∀ object, i_Object i = Pointer object → fits p object) plan.
Proof.
  intros (rq & lm & s & a & b & _ & (_ & _ & Hs)%serviceIntent_wf & (_ & _ & Ha)%autoscalingIntent_wf &
    (_ & _ & Hb)%availabilityIntent_wf & ->)%Build_inv. destruct (networkPolicyIntent_wf p) as (_ & _ & Hn).
  repeat apply Forall_cons_2; [..|constructor]; intros object; rewrite ?Hs, ?Ha, ?Hb, ?Hn; intros [= <-]; try done.
  - by left.
  - split; [by left|done].
Qed.

Lemma admitted_makes p plan :
  plan_parts (w_Spec p) → Build (Some p) = Ok plan → Forall makes plan.
Proof.
  intros Hp Hb. pose proof (admitted_takes p plan Hp Hb) as Ht. pose proof (fresh_fits p plan Hb) as Hf.
  rewrite !Forall_forall in *. intros i Hi f object Hm Ho. apply (Ht i Hi f object Hm); [by rewrite Ho|by apply (Hf i Hi)].
Qed.

(** The mutation of the intent succeeds on exactly the objects of its kind that fit, be they fresh or
    stored. *)
Definition mutates_fitting p (i : Intent) : Prop :=
  ∀ f c, i_Mutate i = Some f → childOrder (Pointer c) = childOrder (i_Object i) → ((∃ o, f c = Ok o) ↔ fits p c).

(** An object a mutation of the plan accepts fits. *)
Lemma mutated_fits p plan :
  Build (Some p) = Ok plan →
  Forall (λ i, ∀ f c o, i_Mutate i = Some f → childOrder (Pointer c) = childOrder (i_Object i) → f c = Ok o → fits p c) plan.
Proof.
  intros (rq & lm & s & a & b & _ & Hs & (_ & _ & Ha)%autoscalingIntent_wf & (_ & _ & Hb)%availabilityIntent_wf & ->)%Build_inv.
  destruct (networkPolicyIntent_wf p) as (_ & _ & Hn).
  repeat apply Forall_cons_2; [..|constructor]; intros f c o Hf Hc Ho.
  - by of_kind c.
  - injection Hf as <-. of_kind c. destruct (mutateDeployment _ p rq lm) eqn:Em; try done.
    by apply mutateDeployment_inv in Em as [? _].
  - revert Hs Hf Hc. unfold serviceIntent. destruct (ServiceEnabled _); simpl; [|by intros [= <-]].
    case_match; [done|]. intros [= <-] [= <-] Hc. of_kind c. simpl in Ho. destruct (mutateService _ p) eqn:Em; try done.
    by apply mutateService_inv in Em as (? & ? & _).
  - rewrite Hn in Hc. by of_kind c.
  - rewrite Ha in Hc. by of_kind c.
  - rewrite Hb in Hc. by of_kind c.
Qed.

Lemma admitted_mutates p plan :
  plan_parts (w_Spec p) → Build (Some p) = Ok plan → Forall (mutates_fitting p) plan.
Proof.
  intros Hp Hb. pose proof (admitted_takes p plan Hp Hb) as Ht. pose proof (mutated_fits p plan Hb) as Hf.
  rewrite !Forall_forall in *. intros i Hi f c Hm Hc. split; [intros [o Ho]; by eapply Hf|by eapply Ht].
Qed.

Lemma route_mutates p i :
  HTTPRouteIntent (Some p) = Ok i → makes i ∧ mutates_fitting p i.
Proof.
  unfold HTTPRouteIntent. destruct (HTTPRouteEnabled (Some p)) eqn:E; simpl; [|by intros [= <-]].
  destruct (ServiceEnabled (Some p)); simpl; [|done]. apply HTTPRouteEnabled_spec in E as (e & He & _). rewrite He. simpl.
  case_match; [done|]. intros [= <-]. assert (∀ u, ∃ u', mutateHTTPRoute u p = Ok u') as Hu
    by (intros u; unfold mutateHTTPRoute; rewrite He; by eexists).
  split; [intros f object [= <-] [= <-]; simpl; edestruct Hu as [u' ->]; by eexists|].
  intros f c [= <-] Hc. split; [destruct c; done|]. intros _. destruct c as [| | | | | |u|]; simpl in Hc |- *; try discriminate.
  case_bool_decide; [|done]. destruct (Hu u) as [u' ->]. by eexists.
Qed.

Lemma admitted_route p :
  if_present valid_ExposureSpec (sp_Exposure (w_Spec p)) = true →
  ((∃ i, HTTPRouteIntent (Some p) = Ok i) ↔ (HTTPRouteEnabled (Some p) = true → ServiceEnabled (Some p) = true)).
Proof.
  intros Hv. unfold HTTPRouteIntent. destruct (HTTPRouteEnabled (Some p)) eqn:E; simpl; [|split; [done|by eexists]].
  destruct (ServiceEnabled (Some p)); simpl; [|split; [by intros [i [=]]|naive_solver]].
  apply HTTPRouteEnabled_spec in E as (e & He & Hm). rewrite He in *. simpl in Hv |- *. unfold valid_ExposureSpec in Hv.
  rewrite Hm, !andb_true_iff in Hv. unfold given in Hv. rewrite !negb_true_iff, !bool_decide_eq_false in Hv.
  destruct Hv as [_ (((Hg & Hs) & Hh) & Hp)]. rewrite !bool_decide_false by done. simpl. split; [done|by eexists].
Qed.

(** C19. The schema and the builder agree.  For a workload the API server admitted, also with the
    external Secrets the gate resolved, a plan is built exactly unless an enabled disruption budget
    does not fit the replica floor, the one rule the schema does not check.  Every mutation of the
    plan then succeeds on its fresh object, and on an existing object of its kind exactly if that one
    fits: a Deployment with the selector of the workload, a Service neither headless nor of another
    type, and any object of the other kinds.  The route can be made exactly if the Service is there,
    and its mutation succeeds on every HTTPRoute. *)
Theorem admitted_plan p names :
  valid_AIWorkloadSpec (w_Spec p) = true →
  let desired := append_SecretRefs names p in
  ((∃ plan, Build (Some desired) = Ok plan) ↔ valid_availability p) ∧
  (∀ plan, Build (Some desired) = Ok plan → Forall (λ i, makes i ∧ mutates_fitting desired i) plan) ∧
  ((∃ i, HTTPRouteIntent (Some desired) = Ok i) ↔ (HTTPRouteEnabled (Some p) = true → ServiceEnabled (Some p) = true)) ∧
  (∀ i, HTTPRouteIntent (Some desired) = Ok i → makes i ∧ mutates_fitting desired i).
Proof.
  intros Hv%admitted_parts desired. assert (plan_parts (w_Spec desired)) as Hd by exact Hv.
  split; [|split; [|split]].
  - transitivity (buildable desired); [|exact (admitted_buildable desired Hd)].
    destruct (Build_decides desired) as [[Hp Hb]|[-> Hb]]; [done|]. split; [by intros [? [=]]|done].
  - intros plan Hp. by apply Forall_and; split; [apply (admitted_makes desired)|apply (admitted_mutates desired)].
  - exact (admitted_route desired (proj1 (proj2 (proj2 (proj2 Hd))))).
  - intros i. apply route_mutates.
Qed.

End Admission.

(** ** Defaults *)

Section Defaults.
Context `{Quantities, UnstructuredHelpers}.
Implicit Types (p : AIWorkload).

#[local] Ltac fill_in :=
  cbn [defaulted default_AIWorkloadSpec default_AutoscalingSpec default_AvailabilitySpec default_ServiceSpec default_NetworkSpec
    or_default default from_option fmap option_fmap option_map id w_meta w_Spec w_Status as_Enabled as_MinReplicas as_MaxReplicas as_Metrics
    as_ScaleDownStabilizationSeconds av_Enabled av_MinAvailable av_MaxUnavailable ss_Enabled ss_Port ns_Enabled
    sp_Environment sp_Tenant sp_Policy sp_Image sp_Replicas sp_Autoscaling sp_Availability sp_Container sp_Resources sp_Health
    sp_Service sp_Exposure sp_SecretRefs sp_ExternalSecrets sp_Network negb].

Lemma default_AIWorkloadSpec_idemp s : default_AIWorkloadSpec (default_AIWorkloadSpec s) = default_AIWorkloadSpec s.
Proof. destruct s as [? ? ? ? ? [[]|] [[]|] ? ? ? [[]|] ? ? ? [[]|]]; reflexivity. Qed.

(** C20. The defaults the API server fills in are the ones the code assumes for an absent field:
    the plan, the route, the replica counts and the endpoint of a defaulted workload are those of
    the workload as it was sent.  The one exception is an enabled autoscaler without minReplicas:
    the schema fills in 1, where the code refuses the workload as it was sent. *)
Theorem defaults_agree p :
  ((∀ a, AutoscalingEnabled (Some p) = true → sp_Autoscaling (w_Spec p) = Some a → as_MinReplicas a ≠ None) →
  Build (Some (defaulted p)) = Build (Some p) ∧
  HTTPRouteIntent (Some (defaulted p)) = HTTPRouteIntent (Some p) ∧
  desiredReplicas (defaulted p) = desiredReplicas p ∧ AvailabilityReplicaFloor (defaulted p) = AvailabilityReplicaFloor p ∧
  ServiceEndpoint (defaulted p) = ServiceEndpoint p) ∧
  (∀ a, AutoscalingEnabled (Some p) = true → sp_Autoscaling (w_Spec p) = Some a → as_MinReplicas a = None →
    Build (Some p) = invalid ∧
    (sp_Autoscaling (w_Spec (defaulted p)) ≫= as_MinReplicas) = Some 1%Z).
Proof.
  split.
  2:{ intros a He Ha Hmin. split; [|simpl; rewrite Ha; simpl; by rewrite Hmin].
      destruct (Build_decides p) as [[_ (_ & _ & Hv & _)]|[? _]]; [|done]. by destruct (Hv a He Ha) as [? _]. }
  intros Hmin. destruct p as [m [env tenant policy image replicas auto avail con res health svc expo secrets ext net] st].
  assert (auto = None ∨ ∃ en mn mx ms sd, auto = Some (Build_AutoscalingSpec en mn mx ms sd) ∧ (en = Some true → is_Some mn)) as Hauto.
  { destruct auto as [[en mn mx ms sd]|]; [right|by left]. exists en, mn, mx, ms, sd. split; [done|]. intros ->.
    destruct mn; [by eexists|]. by destruct (Hmin _ eq_refl eq_refl). }
  clear Hmin. assert (∀ q, desiredReplicas q = default 1%Z (sp_Replicas (w_Spec q))) as Hrep by done.
  unfold ServiceEndpoint. rewrite !Hrep. clear Hrep.
  destruct avail as [[]|], svc as [[]|], net as [[]|], Hauto as [->|(en & mn & mx & ms & sd & -> & Hen)];
    try (destruct en as [[]|]; [destruct (Hen eq_refl) as [n ->]|..]; clear Hen); read_fields; fill_in; split_and!; reflexivity.
Qed.

End Defaults.

(** ** The status *)

(** The condition types the controller manages. *)
Definition managed_types : list string := [
  conditionReady; conditionProgressing; conditionDegraded; conditionTenantReady; conditionExternalSecretsReady;
  conditionExposureReady; conditionAutoscalingReady; conditionAvailabilityReady].

Lemma managed_types_spec t : is_managed_condition t = true ↔ t ∈ managed_types.
Proof.
  unfold is_managed_condition, managed_types. rewrite !orb_true_iff, !bool_decide_eq_true. set_solver.
Qed.

(** Everything the controller writes into a condition has the shape the schema asks for. *)
Lemma curated_shape reason message :
  is_curated reason message = true →
  text 1 1024 reason_pattern reason = true ∧ (Z.of_nat (runes message) <=? 32768)%Z = true.
Proof.
  unfold is_curated. rewrite existsb_exists. intros ([r m] & Hin & [= -> ->]%bool_decide_eq_true).
  assert (forallb (λ t, text 1 1024 reason_pattern t.1 && (Z.of_nat (runes t.2) <=? 32768)%Z) curated_texts = true) as Hall
    by (vm_compute; reflexivity).
  rewrite forallb_forall in Hall. by apply andb_true_iff, (Hall (reason, message)).
Qed.

Lemma managed_shape t :
  is_managed_condition t = true → (runes t <=? 316)%nat && matches condition_type_pattern (code_points t) = true.
Proof.
  intros Ht%managed_types_spec.
  assert (forallb (λ t, (runes t <=? 316)%nat && matches condition_type_pattern (code_points t)) managed_types = true) as Hall
    by (vm_compute; reflexivity).
  rewrite forallb_forall in Hall. by apply Hall, list_elem_of_In.
Qed.

(** The decimal digits of a number below [10 ^ k]. *)
Lemma pretty_N_go_length k x s : (x < 10 ^ N.of_nat k)%N → (String.length (pretty_N_go x s) ≤ k + String.length s)%nat.
Proof.
  revert x s. induction k as [|k IH]; intros x s Hx.
  { assert (x = 0%N) as -> by (simpl in Hx; lia). by rewrite pretty_N_go_0. }
  destruct (decide (x = 0%N)) as [->|]; [rewrite pretty_N_go_0; lia|].
  rewrite pretty_N_go_step by lia. etrans; [apply IH|simpl; lia].
  rewrite Nat2N.inj_succ, N.pow_succ_r' in Hx. apply N.Div0.div_lt_upper_bound. lia.
Qed.

Lemma port_digits n : (1 ≤ n ≤ 65535)%Z → (String.length (pretty n) ≤ 5)%nat.
Proof.
  intros Hn. unfold pretty, pretty_Z. destruct n as [|n|n]; [lia| |lia]. unfold pretty, pretty_positive, pretty, pretty_N.
  rewrite decide_False by lia. etrans; [apply (pretty_N_go_length 5); simpl; lia|simpl; lia].
Qed.

Section StatusValid.
Context `{ConditionsLaws, ApiErrors, UnstructuredHelpersLaws, OwnerHelpers}.
Context `{SemanticDeepEqual AIWorkloadStatus, SemanticDeepEqual Object, Quantities}.
(** The condition types of other writers. *)
Context (others : list string) (Hothers : (length others ≤ 8)%nat).
Implicit Types (w : AIWorkload).

Definition fine_Condition (c : Condition) : Prop :=
  valid_Condition c = true ∧ has_observedGeneration c = true ∧ c_Type c ∈ managed_types ++ others.

Definition fine_Conditions (cs : list Condition) : Prop := Forall fine_Condition cs ∧ NoDup (c_Type <$> cs).


Lemma fine_observation c d : same_observation d c → fine_Condition c → fine_Condition d.
Proof.
  destruct c, d. intros (? & ? & ? & ? & ?). simpl in *. subst. done.
Qed.

Lemma fine_set t cs c : fine_Condition c → fine_Conditions cs → fine_Conditions (SetStatusCondition t cs c).
Proof.
  intros Hc [Hcs Hnd]. split.
  - apply Forall_forall. intros d [Hd|Hd]%Set_members; [by eapply fine_observation|]. rewrite Forall_forall in Hcs. auto.
  - rewrite Set_types. destruct (FindStatusCondition cs (c_Type c)) eqn:Ef; [done|]. rewrite Find_None in Ef.
    apply NoDup_app. split; [done|]. split; [|apply NoDup_singleton].
    intros ty (d & -> & Hd)%list_elem_of_fmap Hty%list_elem_of_singleton. by apply (Ef d).
Qed.

Lemma fine_remove typ cs : fine_Conditions cs → fine_Conditions (RemoveStatusCondition cs typ).
Proof.
  intros [Hcs Hnd]. pose proof (Remove_sublist cs typ) as Hsub. split.
  - apply Forall_forall. intros d [Hd _]%Remove_members. rewrite Forall_forall in Hcs. auto.
  - eapply sublist_NoDup; [exact Hnd|by apply fmap_sublist].
Qed.

Lemma fine_preserve current result :
  fine_Conditions current → fine_Conditions result → fine_Conditions (preserve_conditions current result).
Proof.
  revert result. induction current as [|c current IH]; intros result; simpl; [done|].
  intros [[Hc Hcs]%Forall_cons [_ Hnd]%NoDup_cons] [Hr Hnr]. destruct (is_managed_condition (c_Type c)); [by apply IH|].
  destruct (FindStatusCondition result (c_Type c)) eqn:Ef; apply IH; try done. split.
  - apply Forall_app. split; [done|]. by constructor.
  - rewrite fmap_app. apply NoDup_app. split; [done|]. split; [|apply NoDup_singleton]. rewrite Find_None in Ef.
    intros ty (d & -> & Hd)%list_elem_of_fmap Hty%list_elem_of_singleton. by apply (Ef d).
Qed.

(** An admitted workload: its specification, its place, and the status it has so far. *)
Definition fine_numbers (s : AIWorkloadStatus) : Prop :=
  (0 ≤ wst_ObservedGeneration s)%Z ∧ (0 ≤ wst_DesiredReplicas s ≤ 20)%Z ∧ (0 ≤ wst_ReadyReplicas s)%Z ∧
  (runes (wst_Endpoint s) ≤ 512)%nat.

Definition fine_place w : Prop :=
  valid_AIWorkloadSpec (w_Spec w) = true ∧ (1 ≤ w_Generation w)%Z ∧ (String.length (w_Namespace w) ≤ 63)%nat.

Definition fine_status (s : AIWorkloadStatus) : Prop := fine_numbers s ∧ fine_Conditions (wst_Conditions s).

(** What the API server is known to answer: admitted workloads, with statuses it accepted and with
    conditions of at most eight other types, and Deployments that count no negative number of ready
    replicas. *)
Definition admitted : knowledge := {|
  good_workload w := fine_place w ∧ fine_status (w_Status w);
  good_deployment d := (0 ≤ ds_ReadyReplicas (dp_Status d))%Z |}.


Lemma desiredReplicas_range w : valid_AIWorkloadSpec (w_Spec w) = true → (0 ≤ desiredReplicas w ≤ 20)%Z.
Proof.
  intros (_ & _ & _ & _ & Hr)%admitted_parts. unfold desiredReplicas. destruct (sp_Replicas (w_Spec w)) as [n|]; simpl in *; [|lia].
  apply andb_true_iff in Hr as [?%Z.leb_le ?%Z.leb_le]. lia.
Qed.

Lemma ServiceEndpoint_length w : fine_place w → (runes (ServiceEndpoint w) ≤ 512)%nat.
Proof.
  intros (Hs & _ & Hns). etrans; [apply runes_le_bytes|]. unfold ServiceEndpoint. destruct (ServiceEnabled (Some w)); cbn [negb]; [|simpl; lia].
  apply admitted_parts in Hs as (_ & _ & Hs & _). pose proof (port_digits _ (valid_service_admitted w Hs)) as Hp.
  pose proof (ChildName_length_le (w_Name w)) as Hn. rewrite !length_append.
  cbn [String.length]. lia.
Qed.

Lemma condition_of_fine w typ status reason message :
  fine_place w → is_managed_condition typ = true → known_status status = true → is_curated reason message = true →
  fine_Condition (condition_of w typ status reason message).
Proof.
  intros (_ & Hg & _) Ht Hs Hc. pose proof (managed_shape typ Ht) as Hts. destruct (curated_shape _ _ Hc) as [Hr Hm].
  unfold fine_Condition, valid_Condition, has_observedGeneration, condition_of. simpl.
  rewrite Hts, Hs, Hr, Hm, negb_true_iff, Z.eqb_neq. apply managed_types_spec in Ht. rewrite andb_true_iff, Z.leb_le.
  split; [split; [done|lia]|]. split; [lia|]. apply (elem_of_app managed_types others). by left.
Qed.

#[export] Instance admitted_preserved : Preserved admitted.
Proof.
  split.
  - intros t typ status reason message w [Hw [Hn Hc]] Ht Hknown Hcur. split; [done|]. split; [done|]. simpl.
    by apply fine_set; [apply condition_of_fine|].
  - intros typ w [Hw [Hn Hc]]. split; [done|]. split; [done|]. by apply fine_remove.
  - intros fresh w [Hf [_ Hcf]] [Hw [Hn Hc]] _. split; [done|]. split; [done|]. by apply fine_preserve.
  - intros d w [Hw [Hn Hc]] Hd. split; [done|]. split; [|done]. pose proof (desiredReplicas_range w (proj1 Hw)).
    destruct Hw as (? & ? & ?). split_and!; simpl; [lia|lia|lia|done|by apply ServiceEndpoint_length].
  - intros w [Hw [(? & ? & ? & ?) Hc]]. done.
  - intros w [Hw [(? & ? & ? & ?) Hc]]. split; [done|]. split; [|done]. pose proof (desiredReplicas_range w (proj1 Hw)).
    destruct Hw as (? & ? & ?). split_and!; simpl; [lia|lia|lia|done|]. destruct (ServiceEnabled (Some w)); [done|unfold runes; simpl; lia].
Qed.


End StatusValid.

(** ** Witnesses *)

Section Witnesses.
Import Ref Sample.

Lemma full_spec_valid : valid_AIWorkloadSpec full_spec = true.
Proof. vm_compute. reflexivity. Qed.

Lemma admitted_plan_witness :
  ∃ plan, Build (Some (append_SecretRefs ["target"] full_workload)) = Ok plan ∧ Forall makes plan.
Proof.
  destruct (admitted_plan full_workload ["target"]) as ([_ Hb] & Hm & _); [exact full_spec_valid|].
  destruct Hb as [plan Hp].
  - intros _. exists {| av_Enabled := Some true; av_MinAvailable := Some 2%Z; av_MaxUnavailable := None |}, 3%Z.
    split; [reflexivity|]. split; [reflexivity|]. split; [lia|]. left. exists 2%Z.
    split; [reflexivity|]. split; [reflexivity|lia].
  - exists plan. split; [exact Hp|]. eapply Forall_impl; [exact (Hm plan Hp)|]. intros i Hi. exact (proj1 Hi).
Defined.

(** A workload that leaves everything to the defaults. *)
Definition bare_workload : AIWorkload := {| w_meta := meta; w_Status := empty_status; w_Spec := {|
  sp_Environment := ""; sp_Tenant := ""; sp_Policy := ""; sp_Image := "registry.example/app:1"; sp_Replicas := None;
  sp_Autoscaling := None; sp_Availability := None; sp_Container := {| cs_Port := 8080 |}; sp_Resources := None;
  sp_Health := None; sp_Service := None; sp_Exposure := None; sp_SecretRefs := []; sp_ExternalSecrets := [];
  sp_Network := None |} |}.

Lemma defaults_agree_witness :
  sp_Replicas (w_Spec (defaulted bare_workload)) = Some 1%Z ∧ Build (Some (defaulted bare_workload)) = Build (Some bare_workload).
Proof.
  split; [reflexivity|]. destruct (defaults_agree bare_workload) as [Hd _]. destruct Hd as [Hb _]; [|exact Hb].
  intros a Ha. discriminate Ha.
Defined.


End Witnesses.
