(* ===== verification/Bringup.v ===== *)
(** * A reconciliation brings a workload up

    Against an API server that answers every call without a failure, a pass over an admitted workload
    ends without an error, and every child is then as the plan wants it. *)
From S2P Require Import Prelude Errors GoStd Kube Api Naming Intent Autoscaling Deploy ServiceIntent Availability Route.
From S2P Require Import Builder Effects Capability Engine Cluster Conditions Status Failures Gates Controller Contract.
From S2P Require Import Safety Gating EngineTheorems ReconcileTheorems Ordering Convergence Quiescence Settling PlanTheorems.
From S2P Require Import Schema Admission KubeReference Sample ClusterReference.

(** ** Answers without a failure *)

Definition is_inr {A B} (x : A + B) : bool := match x with inr _ => true | inl _ => false end.

(** The platform APIs the workload needs. *)
Definition needed_apis (w : AIWorkload) : list APIResource :=
  if bool_decide (length (sp_ExternalSecrets (w_Spec w)) = 0%nat) then []
  else match RequirementFor ExternalSecrets with
  | Some requirement => rq_Resources requirement
  | None => []
  end.

Section Healthy.
Context `{ApiErrors, UnstructuredHelpers}.

(** A read that found the object or that there is none. *)
Definition answered_read {A} (x : reply A) : bool := match x with inl err => IsNotFound err | inr _ => true end.

(** The external Secret selects a store, and is ready with the target each of its references names. *)
Definition resolvable (w : AIWorkload) (name : string) (externalSecret : Unstructured) : bool :=
  is_inr (selected_store externalSecret) &&
  forallb (λ reference, negb (bool_decide (er_ExternalSecret reference = name)) || is_inr (checked_target externalSecret reference))
    (sp_ExternalSecrets (w_Spec w)).

(** What a platform answers that is as the workload [w] needs it: reads succeed, the tenant profile
    is the workload's, what the external Secrets need is there and ready, and writes are accepted. *)
Definition healthy_answer (w : AIWorkload) (e : event) : answer e → bool :=
  match e return answer e → bool with
  | EGetServiceAccount _ _ => answered_read
  | EGetDeployment _ _ => answered_read
  | EGetService _ _ => answered_read
  | EGetNetworkPolicy _ _ => answered_read
  | EGetHorizontalPodAutoscaler _ _ => answered_read
  | EGetPodDisruptionBudget _ _ => answered_read
  | EGetUnstructured _ gvk _ name => λ x,
      if bool_decide (gvk = externalSecretGVK) then match x with inr es => resolvable w name es | inl _ => false end
      else if bool_decide (gvk = secretStoreGVK) then match x with inr store => readyCondition store | inl _ => false end
      else answered_read x
  | EGetConfigMap _ _ _ => λ x,
      match x with
      | inr profile => match check_tenant_profile (sp_Tenant (w_Spec w)) (cm_Data profile) with None => true | Some _ => false end
      | inl _ => false
      end
  | EGetSecretMetadata _ _ => is_inr
  | EServerResources groupVersion => λ x,
      answered_read x &&
      forallb (λ r, negb (bool_decide (ar_GroupVersion r = groupVersion)) ||
        match x with inr names => existsb (λ name, bool_decide (name = ar_Resource r)) names | inl _ => false end)
        (needed_apis w)
  | ECreate _ | EPatch _ _ | EDelete _ _ _ => λ err, match err with None => true | Some _ => false end
  | _ => λ _, true
  end.

Definition healthy (w : AIWorkload) (c : call event answer) : Prop :=
  kept_contract c ∧ match c with Call e x => healthy_answer w e x = true end.

Lemma healthy_get w object x err :
  (0 ≤ childOrder (Pointer object))%Z → healthy w (Call (get_event object) x) → get_reply object x = inl err →
  IsNotFound err = true.
Proof.
  intros Ho [_ Hx] Hr. destruct object as [| | | | | |u|]; simpl in *; [..|lia];
    try (destruct x as [e|y]; simpl in *; [by injection Hr as <-|discriminate Hr]).
  destruct (bool_decide_reflect (un_GVK u = HTTPRouteGVK)) as [Hg|]; [|lia]. rewrite Hg in Hx. destruct x as [e|y]; simpl in *; [by injection Hr as <-|discriminate Hr].
Qed.

End Healthy.

(** ** The engine *)

Section Engine.
Context `{ApiErrors, UnstructuredHelpers, OwnerHelpersLaws, SemanticDeepEqualLaws Object}.
Implicit Types (r : AIWorkloadReconciler) (w : AIWorkload) (i : Intent) (s : objects) (h : history).

(** A child the engine can take over where it finds it: the workload's own, not being deleted, and
    of a shape no mutation refuses. *)
Definition adoptable w (c : Object) : Prop :=
  owns w c = true ∧ Time_IsZero (om_DeletionTimestamp (obj_meta c)) = true ∧ fits w c.

(** An object without a controller, or with the workload as such, gets the controller reference. *)
Lemma set_controller_total w o :
  om_Namespace (obj_meta o) = w_Namespace w → (om_OwnerReferences (obj_meta o) = [] ∨ owns w o = true) →
  is_Some (set_controller w o).
Proof.
  intros Hns Ho. unfold set_controller.
  destruct (SetControllerReference_defined GroupVersion AIWorkloadKind (w_meta w) false
    (om_Namespace (obj_meta o)) (om_OwnerReferences (obj_meta o))) as [refs ->]; [done| |by eexists].
  intros ref Href. destruct Ho as [Ho|Ho].
  - rewrite Ho in Href. apply GetControllerOf_in in Href as [Hin _]. set_solver.
  - unfold owns in Ho. rewrite Href, !andb_true_iff, !bool_decide_eq_true in Ho. naive_solver.
Qed.

Lemma apply_create_total w i object R :
  valid_intent w i → safe_intent i → i_Object i = Pointer object → takes w i → fits w object →
  (∀ o err, R (Call (ECreate o) (Some err)) → False) →
  safe R (λ _, True) (apply_create w i object) (λ out, is_inr out = true).
Proof.
  intros (object' & Ei' & _ & Hns & Hn & Hid & _ & Hm) Hs Ei Ht Hf HR. rewrite Ei in Ei'. injection Ei' as <-.
  unfold apply_create. destruct (i_Absent i); [done|]. destruct (Hm eq_refl) as [f Ef].
  unfold mutate, safe_intent in *. rewrite Ef in *. simpl.
  destruct (Ht f object Ef) as [m Em]; [by rewrite Ei|done|]. rewrite Em. simpl.
  pose proof (mutation_identity _ _ Em) as (Hmn & Hmns & Hmu & Hmr & Hmo & Hmf & Hmd).
  apply has_server_identity_spec in Hid as (Hu & Hr & Ho & Hfin & Hd).
  rewrite (proj2 (fresh_identity_kept_spec _ _ _)) by
    (split; [done|]; split; [congruence|]; apply has_server_identity_spec; split_and!; congruence).
  destruct (set_controller_total w m) as [o ->]; [congruence|left; congruence|]. simpl.
  split; [done|]. intros [err|] Hx; [by destruct (HR o err)|done].
Qed.

Lemma apply_delete_total current R :
  (∀ o uid rv err, R (Call (EDelete o uid rv) (Some err)) → False) →
  safe R (λ _, True) (apply_delete current) (λ out, is_inr out = true).
Proof. intros HR. split; [done|]. intros [err|] Hx; [by destruct (HR _ _ _ _ Hx)|done]. Qed.

Lemma apply_patch_total w i c R :
  valid_intent w i → safe_intent i → i_Absent i = false → takes w i → adoptable w c →
  childOrder (Pointer c) = childOrder (i_Object i) → (∀ before after err, R (Call (EPatch before after) (Some err)) → False) →
  safe R (λ _, True) (apply_patch w i c) (λ out, is_inr out = true).
Proof.
  intros (_ & _ & _ & _ & _ & _ & _ & Hm) Hs Ha Ht (Ho & _ & Hf) Hk HR. destruct (Hm Ha) as [f Ef].
  unfold apply_patch, mutate, safe_intent in *. rewrite Ef in *. simpl.
  destruct (Ht f c Ef) as [m Em]; [done|done|]. rewrite Em. simpl.
  pose proof (mutation_identity _ _ Em) as Hid. rewrite (proj2 (identity_kept_spec _ _)) by naive_solver. simpl.
  destruct Hid as (_ & Hns & _ & _ & Hor & _).
  destruct (set_controller_total w m) as [o ->].
  { rewrite Hns. by apply andb_true_iff in Ho as [Ho%bool_decide_eq_true _]. }
  { right. by rewrite (owns_ext w c m). }
  simpl. destruct (DeepEqual c o); [done|]. split; [done|]. intros [err|] Hx; [by destruct (HR _ _ _ Hx)|done].
Qed.

(** One intent over a cluster whose child of it, if any, is adoptable. *)
Lemma Apply_total w i w0 h out s s' :
  valid_owner w → valid_intent w i → Time_IsZero (w_DeletionTimestamp w) = true → safe_intent i → takes w i →
  (∀ object, i_Object i = Pointer object → fits w object) → keyed s →
  (∀ c, s !! intent_key w i = Some c → adoptable w c) →
  returns (Apply w i) h out → Forall (healthy w0) h → serves s h s' → is_inr out = true.
Proof.
  intros Ho Hi Hlive Hs Ht Hf Hkey Hc Hr Hh Hsv. pose proof Hi as (object & Ei & Hord & _).
  rewrite (Apply_reads w i object) in Hr by done. destruct Hr as (x & h' & -> & Hr). rewrite Ei in Hord.
  apply Forall_cons in Hh as [Hx Hh]. destruct Hsv as (s1 & [_ Hread]%served_get & _); [|done].
  rewrite (valid_intent_key _ _ _ Hi Ei) in Hread.
  assert (safe (healthy w0) (λ _, True) (after_read w i object (get_reply object x)) (λ out, is_inr out = true)) as Hsafe;
    [|by apply (safe_returns _ _ _ _ Hsafe Hr)].
  unfold after_read. destruct (get_reply object x) as [err|c] eqn:Eg; simpl in Hread.
  - rewrite (healthy_get w0 object x err) by done. apply apply_create_total; auto. by intros o e [_ ?].
  - pose proof (Hc _ Hread) as Had. destruct Had as (Hown & Hd & Hfit). rewrite Hown, Hd. simpl.
    destruct (i_Absent i) eqn:Ea; [apply apply_delete_total; by intros ? ? ? ? [_ ?]|].
    apply apply_patch_total; try done; [|by intros ? ? ? [_ ?]]. pose proof (Hkey _ _ Hread) as Hko.
    unfold object_key, intent_key in Hko. congruence.
Qed.

End Engine.

(** ** The plan *)

Section Plan.
Context `{QuantitiesLaws, UnstructuredHelpersLaws}.
Implicit Types (w : AIWorkload) (i : Intent).

(** The intent's mutation fails on no object the engine hands it: neither on its fresh object nor
    on an adoptable child. *)
Definition makeable w i : Prop := takes w i ∧ ∀ object, i_Object i = Pointer object → fits w object.

Lemma decorate_makeable w plan revision :
  Forall (valid_intent w) plan → Forall safe_intent plan → Forall (makeable w) plan →
  Forall (makeable w) (decorateExternalSecretRevision plan revision).
Proof.
  intros Hv Hs Hm. unfold decorateExternalSecretRevision. case_bool_decide; [done|].
  induction plan as [|i plan IH]; simpl; [done|].
  apply Forall_cons in Hv as [Hi Hv], Hs as [Hsi Hs], Hm as [[Ht Hf] Hm].
  destruct (is_deployment (i_Object i)) eqn:E; simpl; apply Forall_cons; auto; [|by split; [split|auto]].
  split; [|done]. split; [|done]. destruct Hi as (object & Ei & _ & _ & _ & _ & Ha & Hsome). rewrite Ei in E, Ha.
  destruct object as [|d| | | | | |]; try done. destruct (i_Absent i); [by specialize (Ha eq_refl)|].
  destruct (Hsome eq_refl) as [f Ef]. unfold safe_intent in Hsi. rewrite Ef in Hsi |- *. intros g c [= <-] Hc Hfit. simpl in Hc.
  destruct (Ht f c Ef Hc Hfit) as [o Eo]. pose proof (mutation_kind _ _ Eo) as Hk. rewrite Ei in Hc.
  destruct c as [|d'| | | | |u|]; simpl in Hc; try done; [|by case_bool_decide]. destruct o as [|d''| | | | | |]; try done.
  unfold decorated_mutation. rewrite Eo. by eexists.
Qed.

(** An admitted workload without a route has a plan. *)
Lemma build_plan_total w external exposure :
  valid_owner w → valid_AIWorkloadSpec (w_Spec w) = true → valid_availability w → HTTPRouteEnabled (Some w) = false →
  ∃ plan, build_plan Build w external exposure = Ok plan ∧ Forall (makeable w) plan.
Proof.
  intros Ho Hv%admitted_parts Ha He. unfold build_plan. set (p := append_SecretRefs _ w).
  assert (plan_parts (w_Spec p)) as Hp by exact Hv.
  destruct (Build_decides p) as [[[children Hc] _]|[_ Hb]]; [|by destruct Hb; apply admitted_buildable].
  destruct (Build_valid p children Hc) as (Hvc & Hord & _).
  assert (∃ routes, (if xs_manageRoute exposure then route ← HTTPRouteIntent (Some p); Ok (children ++ [route]) else Ok children)
    = Ok (children ++ routes) ∧ Forall (valid_intent w) routes ∧ Forall (makeable w) routes ∧ Forall safe_intent routes ∧
      (childOrder ∘ i_Object <$> routes = [6%Z] ∨ routes = [])) as (routes & Hr & Hvr & Hmr & Hsr & Hor).
  { destruct (xs_manageRoute exposure); [|exists []; rewrite app_nil_r; split_and!; auto].
    assert (HTTPRouteEnabled (Some p) = false) as He' by exact He. unfold HTTPRouteIntent. rewrite He'. simpl. eexists [_]. split; [done|].
    split; [|split_and!; [|by repeat constructor|by left]].
    - repeat constructor. eexists. split; [done|]. simpl. split_and!; done.
    - repeat constructor; [done|]. by intros object [= <-]. }
  assert (NoDup (childOrder ∘ i_Object <$> children ++ routes)) as Hnd.
  { rewrite fmap_app, Hord. destruct Hor as [-> | ->]; by apply (bool_decide_unpack _). }
  eexists. split.
  { apply res_bind_Ok. exists children. split; [done|]. apply res_bind_Ok. eexists. split; [exact Hr|].
    apply res_bind_Ok. eexists. split; [|done]. apply ValidatePlan_Ok. split; [done|]. split; [by apply Forall_app|done]. }
  apply decorate_makeable; rewrite SliceStable_perm; apply Forall_app; split; try done.
  - eapply Forall_impl; [by apply (Build_wf p)|]. intros i. apply wellformed_intent_safe.
  - pose proof (admitted_takes p children Hp Hc) as Ht. pose proof (fresh_fits p children Hc) as Hf.
    rewrite Forall_forall in *. intros i Hi. by split; [apply Ht|apply Hf].
Qed.

End Plan.

(** ** The stages of a pass

    None of them fails on healthy answers; [w] is the workload the pass works on, which has the
    specification of the [w0] the platform is healthy for. *)

Section Stages.
Context `{QuantitiesLaws, ConditionsLaws, ApiErrors, UnstructuredHelpersLaws, OwnerHelpersLaws}.
Context `{SemanticDeepEqual AIWorkloadStatus, SemanticDeepEqual Object, !SemanticDeepEqualLaws Object}.
Implicit Types (r : AIWorkloadReconciler) (w : AIWorkload) (i : Intent) (s : objects) (h : history).
Context (w0 : AIWorkload).

Let R := healthy w0.
#[local] Abbreviation total t Q := (safe R (λ _, True) t Q).

(** The specification is still that of [w0], and there was no error. *)
Definition no_error (out : AIWorkload * option error) : Prop := let '(w, err) := out in w_Spec w = w_Spec w0 ∧ err = None.
Definition succeeds {A} (out : AIWorkload * reply A) : Prop := let '(w, x) := out in w_Spec w = w_Spec w0 ∧ is_inr x = true.

Lemma set_condition_total typ status reason message w :
  w_Spec w = w_Spec w0 → total (set_condition typ status reason message w) (λ w', w_Spec w' = w_Spec w0).
Proof. intros Hw. split; [done|]. by intros t _. Qed.

Lemma patchStatus_total before after :
  w_Spec after = w_Spec w0 → total (patchStatus before after) succeeds.
Proof.
  intros Hw. unfold patchStatus. destruct (DeepEqual _ _); [done|]. split; [done|].
  intros x [[[Hok _] (u & -> & _)] _]. destruct (Hok u eq_refl) as [(Hs & _) _]. split; [|done]. simpl. congruence.
Qed.

Lemma validateTenant_total g w : w_Spec w = w_Spec w0 → total (validateTenant g w) no_error.
Proof.
  intros Hw. unfold validateTenant. case_bool_decide; [done|]. split; [done|]. rewrite Hw.
  intros [err|profile] [_ Hx]; simpl in Hx; cbn; [done|]. destruct (check_tenant_profile _ _); [done|].
  eapply safe_seq; [by apply set_condition_total|]. by intros w' Hw'.
Qed.

Lemma validate_secrets_total ns names : total (validate_secrets ns names) (λ out, out = None).
Proof.
  induction names as [|name names IH]; [done|]. split; [done|]. by intros [err|m] [_ Hx].
Qed.

(** Discovery succeeds, and finds what the workload needs. *)
Lemma Detect_total requirement :
  total (Detect HasResource requirement) (λ ob, ob_State ob ≠ Unknown ∧
    (Forall (λ a, a ∈ needed_apis w0) (rq_Resources requirement) → ob_State ob = Available)).
Proof.
  unfold Detect. induction (rq_Resources requirement) as [|a l IH]; simpl; [done|]. split; [done|].
  intros [err|names] [_ [Hx Hn]%andb_true_iff]; simpl in Hx; rewrite forallb_forall in Hn.
  - simpl. rewrite Hx. simpl. split; [done|]. intros [Hr _]%Forall_cons. specialize (Hn a (proj1 (list_elem_of_In _ _) Hr)).
    by rewrite bool_decide_true in Hn.
  - simpl. destruct (existsb _ names) eqn:Ee; simpl; [eapply safe_mono; [exact IH|]|].
    + intros ob [Hu Ho]. split; [done|]. by intros [_ Hl]%Forall_cons; apply Ho.
    + split; [done|]. intros [Hr _]%Forall_cons. specialize (Hn a (proj1 (list_elem_of_In _ _) Hr)).
      rewrite bool_decide_true in Hn by done. simpl in Hn. apply existsb_exists in Hn as (name & Hin & Hname).
      apply not_true_iff_false in Ee. destruct Ee. apply existsb_exists. exists name. by rewrite Hname, orb_true_r.
Qed.

Lemma resolve_reference_total via ns direct reference :
  reference ∈ sp_ExternalSecrets (w_Spec w0) → (er_TargetSecret reference ∉ direct) →
  total (resolve_reference via ns direct reference) (λ out, ∃ y, out = inr y ∧ re_targetSecret y = er_TargetSecret reference).
Proof.
  intros Hin Hd. unfold resolve_reference. rewrite bool_decide_false by done. split; [done|].
  intros [err|es] [_ Hx]; simpl in Hx; [done|]. apply andb_true_iff in Hx as [Hs Ht]. simpl.
  destruct (selected_store es) as [err|store]; simpl in Hs |- *; [done|]. split; [done|].
  intros [err|st] [_ Hx]; simpl in Hx |- *; [done|]. rewrite Hx. simpl. rewrite forallb_forall in Ht.
  specialize (Ht _ (proj1 (list_elem_of_In _ _) Hin)). rewrite bool_decide_true in Ht by done. simpl in Ht.
  destruct (checked_target es reference) as [err|target]; simpl in Ht |- *; [done|]. split; [done|].
  intros [err|m] [_ Hm]; [done|]. by eexists.
Qed.

Lemma resolve_references_total via ns direct references resolved :
  Forall (λ x, x ∈ sp_ExternalSecrets (w_Spec w0) ∧ (er_TargetSecret x ∉ direct)) references →
  total (resolve_references via ns direct references resolved)
    (λ out, ∃ ys, out = inr ys ∧ re_targetSecret <$> ys = (re_targetSecret <$> resolved) ++ (er_TargetSecret <$> references)).
Proof.
  intros Hr. revert resolved. induction Hr as [|x l [Hx Hd] _ IH]; intros resolved; simpl.
  { exists resolved. by rewrite app_nil_r. }
  eapply safe_seq; [by apply resolve_reference_total|]. intros ? (y & -> & Hy).
  eapply safe_mono; [apply IH|]. intros ? (ys & -> & Hys). exists ys. split; [done|].
  by rewrite Hys, fmap_app, <-app_assoc, <-Hy.
Qed.

(** The targets of the external Secrets, resolved in order. *)
Definition resolved_to (x : reply (list resolvedExternalSecret)) : Prop :=
  ∃ external, x = inr external ∧ re_targetSecret <$> external = er_TargetSecret <$> sp_ExternalSecrets (w_Spec w0).

Lemma validateExternalSecrets_total g w :
  r_CapabilityLookup g = Some HasResource → w_Spec w = w_Spec w0 →
  Forall (λ x, er_TargetSecret x ∉ sp_SecretRefs (w_Spec w0)) (sp_ExternalSecrets (w_Spec w0)) →
  total (validateExternalSecrets g w) (λ '(w', x), w_Spec w' = w_Spec w0 ∧ resolved_to x).
Proof.
  intros Hl Hw Hd. unfold validateExternalSecrets. case_bool_decide as Hn.
  { split; [done|]. exists []. split; [done|]. rewrite Hw in Hn. by apply length_zero_iff_nil in Hn as ->. } rewrite Hl. cbn [RequirementFor requirements first_match].
  eapply safe_seq; [apply Detect_total|]. intros ob [_ Ha]. rewrite Ha; [|apply Forall_forall; intros x Hx].
  2: { unfold needed_apis. rewrite bool_decide_false by (by rewrite <-Hw). exact Hx. }
  rewrite Hw. eapply safe_seq; [apply resolve_references_total|].
  { rewrite Forall_forall in *. auto. }
  intros ? (resolved & -> & Ht). eapply safe_seq; [by apply set_condition_total|]. intros w' Hw'. split; [done|]. by exists resolved.
Qed.

Lemma validateExposure_total g w :
  r_CapabilityLookup g = Some HasResource → w_Spec w = w_Spec w0 → HTTPRouteEnabled (Some w) = false →
  total (validateExposure g w) succeeds.
Proof.
  intros Hl Hw He. unfold validateExposure. rewrite He. cbn [negb andb]. destruct (FindStatusCondition _ _); simpl negb; cbv iota; [|done].
  rewrite Hl. cbn [RequirementFor requirements first_match]. eapply safe_seq; [apply Detect_total|].
  intros ob [Hu _]. by destruct (ob_State ob).
Qed.

Lemma run_gates_total r w :
  r_CapabilityLookup (r_gates r) = Some HasResource → w_Spec w = w_Spec w0 → HTTPRouteEnabled (Some w0) = false →
  Forall (λ x, er_TargetSecret x ∉ sp_SecretRefs (w_Spec w0)) (sp_ExternalSecrets (w_Spec w0)) →
  total (run_gates r w) (λ '(w', x), w_Spec w' = w_Spec w0 ∧ resolved_to (reply_map fst x)).
Proof.
  intros Hl Hw He Hd. unfold run_gates.
  eapply safe_seq; [by apply validateTenant_total|]. intros [w1 ?] [Hw1 ->].
  eapply safe_seq; [by apply patchStatus_total|]. intros [w2 [err|b]] [Hw2 ?]; [done|].
  eapply safe_seq; [by apply validateExternalSecrets_total|]. intros [w3 ?] (Hw3 & external & -> & Hx).
  eapply safe_seq; [by apply patchStatus_total|]. intros [w4 [err|b']] [Hw4 ?]; [done|].
  eapply safe_seq; [apply validateExposure_total; [done..|by rewrite (HTTPRouteEnabled_spec_eq w0)]|].
  intros [w5 [err|exposure]] [Hw5 ?]; [done|].
  eapply safe_seq; [by apply patchStatus_total|]. intros [w6 [err|b'']] [Hw6 ?]; [done|].
  split; [done|]. by exists external.
Qed.

(** *** The children *)

Lemma apply_plan_total r w plan h out s s' :
  valid_owner w → Time_IsZero (w_DeletionTimestamp w) = true → Forall (valid_intent w) plan → Forall safe_intent plan →
  Forall (makeable w) plan → Forall settling_intent plan → NoDup (childOrder ∘ i_Object <$> plan) → keyed s →
  Forall (λ i, ∀ c, s !! intent_key w i = Some c → adoptable w c) plan →
  returns (apply_plan r w plan) h out → Forall R h → serves s h s' → out = None.
Proof.
  intros Ho Hlive. revert h s. induction plan as [|i plan IH]; intros h s Hv Hs Hm Hset Hnd Hkey Had Hr Hh Hsv; [by destruct Hr|].
  apply Forall_cons in Hv as [Hi Hv], Hs as [Hsi Hs], Hm as [[Ht Hf] Hm], Hset as [Hseti Hset], Had as [Hadi Had].
  rewrite fmap_cons in Hnd. apply NoDup_cons in Hnd as [Hni Hnd]. simpl in Hr.
  apply returns_bind in Hr as (h1 & o & h2 & -> & Ha & Hr). apply Forall_app in Hh as [Hh1 Hh2].
  apply serves_app in Hsv as (s1 & Hs1 & Hsv).
  pose proof (Apply_total w i w0 h1 o s s1 Ho Hi Hlive Hsi Ht Hf Hkey Hadi Ha Hh1 Hs1) as Hok.
  destruct o as [err|outcome]; [done|]. apply returns_bind in Hr as (h3 & [] & h4 & -> & Hrec%record_silent & Hr).
  apply Forall_app in Hh2 as [_ Hh4]. apply serves_app in Hsv as (s2 & ->%serves_silent & Hsv); [|done].
  destruct (Apply_converges w i h1 outcome s s1) as [_ Hframe]; try done.
  eapply (IH h4 s1); try done; [by eapply serves_keyed|].
  rewrite Forall_forall in *. intros j Hj c. rewrite Hframe; [by apply Had|]. intros Hk. unfold intent_key in Hk.
  apply Hni, list_elem_of_fmap. exists j. split; [|done]. simpl. congruence.
Qed.

(** *** The report *)

Lemma observeAutoscaling_total w : w_Spec w = w_Spec w0 → total (observeAutoscaling w) no_error.
Proof.
  intros Hw. unfold observeAutoscaling. destruct (AutoscalingEnabled (Some w)); simpl; [|done]. split; [done|].
  intros [err|hpa] [_ Hx]; simpl in Hx; cbn; [rewrite Hx; cbv iota|repeat case_match];
    (split; [done|]; by intros t _).
Qed.

Lemma observeAvailability_total w : w_Spec w = w_Spec w0 → total (observeAvailability w) no_error.
Proof.
  intros Hw. unfold observeAvailability. destruct (AvailabilityEnabled (Some w)); simpl; [|done]. split; [done|].
  destruct (AvailabilityReplicaFloor_Ok w) as [floor Ef].
  intros [err|pdb] [_ Hx]; simpl in Hx; cbn; [rewrite Hx; cbv iota|rewrite Ef; cbn; case_match];
    (split; [done|]; by intros t _).
Qed.

Lemma setAssessmentConditions_total a w :
  w_Spec w = w_Spec w0 → total (setAssessmentConditions w a) (λ w', w_Spec w' = w_Spec w0).
Proof.
  intros Hw. unfold setAssessmentConditions. do 2 (eapply safe_seq; [by apply set_condition_total|]; intros ? ?).
  by apply set_condition_total.
Qed.

(** The report of a pass finds the Deployment the engine left. *)
Lemma observeAndReportStatus_total rec w s d :
  w_Spec w = w_Spec w0 → s !! (1%Z, w_Namespace w, ChildName (w_Name w)) = Some (ODeployment d) →
  safe (λ c, R c ∧ served_by s c) (λ _, True) (observeAndReportStatus rec w) no_error.
Proof.
  intros Hw Hd. unfold observeAndReportStatus. split; [done|]. intros x [[_ Hx] (s' & _ & Hread)].
  destruct x as [err|deployment]; simpl in Hx, Hread; [by rewrite Hread in Hd|]. cbn.
  apply (safe_impl (R := R) (G := λ _, True) _ no_error); [|by intros c []|done|done].
  eapply safe_seq; [by apply observeAutoscaling_total|]. intros [w1 ?] [Hw1 ->].
  eapply safe_seq; [by apply observeAvailability_total|]. intros [w2 ?] [Hw2 ->].
  eapply safe_seq; [by apply setAssessmentConditions_total|]. intros w3 Hw3.
  eapply safe_seq; [by apply patchStatus_total|]. intros [w4 [err|changed]] [Hw4 ?]; [done|].
  eapply (safe_seq _ _ (λ _, True)); [by case_match|done].
Qed.

Lemma report_status_total r w exposure s d :
  w_Spec w = w_Spec w0 → xs_active exposure = false →
  s !! (1%Z, w_Namespace w, ChildName (w_Name w)) = Some (ODeployment d) →
  safe (λ c, R c ∧ served_by s c) (λ _, True) (report_status r w exposure) (λ out, out = (no_requeue, None)).
Proof.
  intros Hw Ha Hd. unfold report_status.
  eapply (safe_seq _ _ (λ '(w', x), x = inr 0%Z ∧ same_workload w w')).
  { unfold observeExposure. rewrite Ha. by destruct (xs_manageRoute exposure). }
  intros [w1 ?] [-> Hw1]. pose proof Hw1 as (Hsp1 & Hns1 & Hn1 & _).
  eapply (safe_seq _ _ (λ '(w', x), succeeds (w', x) ∧ same_workload w1 w')).
  { unfold patchStatus. simpl in *. destruct (DeepEqual _ _); [split; [split; [simpl; congruence|done]|done]|]. split; [done|].
    intros x [[[[Hok _] (u & -> & _)] _] _]. destruct (Hok u eq_refl) as [Hs _]. pose proof Hs as (Hsu & _).
    split; [split; [simpl; congruence|done]|done]. }
  intros [w2 [err|b]] [[Hw2 ?] Hs2]; [done|]. pose proof Hs2 as (_ & Hns2 & Hn2 & _).
  eapply safe_seq; [apply (observeAndReportStatus_total (r_Recorder r) w2 s d); [done|simpl in *; congruence]|].
  intros [w3 ?] [_ ->]. done.
Qed.

End Stages.

(** ** A whole pass *)

Section BringsUp.
Context `{QuantitiesLaws, ConditionsLaws, ApiErrors, UnstructuredHelpersLaws, OwnerHelpersLaws}.
Context `{SemanticDeepEqual AIWorkloadStatus, !SemanticDeepEqualLaws AIWorkloadStatus, !SemanticDeepEqualExact AIWorkloadStatus}.
Context `{SemanticDeepEqual Object, !SemanticDeepEqualLaws Object}.
Implicit Types (r : AIWorkloadReconciler) (w : AIWorkload) (i : Intent) (s : objects) (h : history).

Lemma fits_same w w' c : same_workload w w' → fits w c → fits w' c.
Proof. intros Hw. by rewrite (same_workload_restamped w w' Hw). Qed.

Lemma adoptable_same w w' c : same_workload w w' → adoptable w c → adoptable w' c.
Proof. intros Hw (Ho & Hd & Hf). split; [by rewrite (owns_same w w')|]. split; [done|]. by eapply fits_same. Qed.

Lemma makeable_same w w' i : same_workload w w' → makeable w i → makeable w' i.
Proof.
  intros Hw [Ht Hf]. split; [|intros object Ho; eapply fits_same; [done|auto]].
  intros f c Ef Hc Hfit. apply (Ht f c Ef Hc). by apply (fits_same w' w), Hfit; apply same_workload_sym.
Qed.

(** The workloads the pass below is about: admitted, live, with a budget that fits, no route, no
    stabilization window, and no external Secret whose target is mounted directly too. *)
Definition wanted w : Prop :=
  valid_owner w ∧ Time_IsZero (w_DeletionTimestamp w) = true ∧ valid_AIWorkloadSpec (w_Spec w) = true ∧
  valid_availability w ∧ settling_workload w ∧
  Forall (λ x, er_TargetSecret x ∉ sp_SecretRefs (w_Spec w)) (sp_ExternalSecrets (w_Spec w)).

(** Every child the cluster already has for the workload is adoptable. *)
Definition all_adoptable w s : Prop :=
  ∀ z c, s !! (z, w_Namespace w, ChildName (w_Name w)) = Some c → adoptable w c.

Lemma plan_deployment w external exposure plan :
  build_plan Build w external exposure = Ok plan → ∃ i, i ∈ plan ∧ childOrder (i_Object i) = 1%Z.
Proof.
  intros (children & routes & ordered & Hc & _ & Hv & ->)%build_plan_inv.
  apply ValidatePlan_sorted in Hv as [Hperm _]. apply Build_valid in Hc as (_ & Hord & _).
  set (plan := decorateExternalSecretRevision _ _).
  assert (1%Z ∈ childOrder <$> (i_Object <$> plan)) as Hin.
  { unfold plan. rewrite decorate_objects, Hperm, <-list_fmap_compose, fmap_app, Hord. set_solver. }
  rewrite <-list_fmap_compose in Hin. apply list_elem_of_fmap in Hin as (i & Hi & Hin). by exists i.
Qed.

(** A converged plan has its Deployment. *)
Lemma converged_deployment w s external exposure plan :
  build_plan Build w external exposure = Ok plan → keyed s → Forall (child_converged w s) plan →
  ∃ d, s !! (1%Z, w_Namespace w, ChildName (w_Name w)) = Some (ODeployment d).
Proof.
  intros Hp Hkey Hc. destruct (plan_deployment _ _ _ _ Hp) as (i & Hi & Ho).
  apply build_plan_intents in Hp as (_ & Hv & _); [|typeclasses eauto]. rewrite Forall_forall in *.
  specialize (Hv i Hi). destruct (Hc i Hi) as (object & Ei & Hs).
  rewrite (valid_intent_key w i object Hv Ei) in Hs. unfold intent_key in Hs. rewrite Ho in Hs.
  destruct Hv as (_ & _ & _ & _ & _ & _ & Ha & _). destruct (s !! _) as [c|] eqn:Es.
  - apply Hkey in Es. destruct c as [|d| | | | |u|]; unfold object_key in Es; simpl in Es; try discriminate Es; [by exists d|].
    by case_bool_decide.
  - apply Ha in Hs. lia.
Qed.

(** The children of a pass on healthy answers. *)
Lemma children_total r w w0 external exposure h out s s' :
  same_workload w0 w → wanted w0 → keyed s → all_adoptable w0 s →
  returns (reconcile_children r Build w external exposure) h out → Forall (healthy w0) h → serves s h s' →
  out = None ∧ keyed s' ∧ ∃ plan, build_plan Build w external exposure = Ok plan ∧ Forall (child_converged w s') plan.
Proof.
  intros Hw (Ho & Hlive & Hv & Ha & Hset & _) Hkey Had Hr Hh Hs. pose proof Hw as (_ & Hns & Hn & _ & _ & Hdt).
  destruct (build_plan_total w0 external exposure) as (plan & Hp & Hm); try done; [apply Hset|].
  rewrite <-(build_plan_same w0 w) in Hp by done. unfold reconcile_children in Hr. rewrite Hp in Hr. simpl in Hr.
  apply returns_bind in Hr as (h1 & x & h2 & -> & Hplan & Hr). apply Forall_app in Hh as [Hh1 Hh2].
  apply serves_app in Hs as (s1 & Hs1 & Hs2).
  pose proof (build_plan_settling _ _ _ _ Hp (settling_workload_same w0 w Hw Hset)) as Hsettle.
  pose proof (build_plan_sorted _ _ _ _ _ Hp) as Hsort%sorted_orders.
  pose proof (build_plan_intents _ _ _ _ _ _ Hp) as (Hown & Hvi & Hsafe).
  assert (x = None) as ->.
  { apply (apply_plan_total w0 r w plan h1 x s s1); try done; [by rewrite Hdt| |].
    - eapply Forall_impl; [exact Hm|]. intros i. by apply makeable_same.
    - apply Forall_forall. intros i _ c Hc. apply (adoptable_same w0 w c Hw). apply (Had (childOrder (i_Object i))).
      by rewrite <-Hns, <-Hn. }
  destruct (loop_converges r w plan h1 s s1) as [Hc _]; try done; [by rewrite Hdt|].
  assert (s' = s1) as ->.
  { eapply serves_silent; [|done]. refine (safe_history _ _ _ _ _ _ (validate_secrets_silent _ _ _) Hr _).
    eapply Forall_impl; [exact Hh2|]. by intros c [[Hcon _] _]. }
  split; [exact (safe_returns _ _ _ _ (validate_secrets_total w0 _ _) Hr Hh2)|]. split; [by eapply serves_keyed|]. by exists plan.
Qed.

(** C4. Reconciliation brings a workload up.  Take an admitted workload without route and
    stabilization window, whose disruption budget fits, and children that are absent or the
    workload's own.  A pass that meets no failure, the Secrets and the platform the workload refers
    to being there, ends with neither an error nor a requeue, and every child is then as the plan
    wants it, the resolved external Secrets mounted. *)
Theorem Reconcile_brings_up r ns name w h out s s' :
  r_Builder r = Some Build → r_CapabilityLookup (r_gates r) = Some HasResource → watchesNamespace r ns = true →
  wanted w → keyed s → all_adoptable w s →
  returns (Reconcile r ns name) (Call (EGetWorkload ns name) (inr w) :: h) out →
  Forall (healthy w) h → serves s h s' →
  out = (no_requeue, None) ∧
  ∃ external exposure plan, re_targetSecret <$> external = er_TargetSecret <$> sp_ExternalSecrets (w_Spec w) ∧
    build_plan Build w external exposure = Ok plan ∧ Forall (child_converged w s') plan.
Proof.
  intros Hb Hl Hns Hw Hkey Had Hr Hh Hs. unfold Reconcile in Hr.
  rewrite bool_decide_false in Hr by (unfold watchesNamespace in Hns; by destruct (effectiveWatchNamespaces r)).
  rewrite Hns in Hr. simpl negb in Hr. cbv iota in Hr. rewrite Hb in Hr. apply returns_read in Hr.
  pose proof Hw as (_ & Hlive & _ & _ & Hset & Hdirect). rewrite Hlive in Hr. change (returns (after_workload r w) h out) in Hr.
  assert (∀ lookup, r_CapabilityLookup (r_gates r) = Some lookup → lookup_ok any_text lookup) as Hlok.
  { rewrite Hl. intros ? [= <-]. apply HasResource_ok. }
  apply returns_bind in Hr as (h1 & [w1 g] & k1 & -> & Hg & Hr). rewrite !Forall_app in Hh. destruct Hh as [Hh1 Hk1].
  apply serves_app in Hs as (s1 & Hs1 & Hs).
  pose proof (safe_returns _ _ _ _ (run_gates_total w r w Hl eq_refl (proj2 Hset) Hdirect) Hg Hh1) as (_ & external & Eg & Htargets).
  destruct g as [err|[? exposure]]; [done|]. injection Eg as ->.
  assert (Forall kept_contract h1) as Hkept1 by (eapply Forall_impl; [exact Hh1|]; by intros c []).
  assert (s1 = s) as -> by exact (serves_silent _ _ _ (safe_history _ _ _ _ _ _ (run_gates_silent r w Hlok) Hg (kept_contracts _ Hkept1)) Hs1).
  destruct (run_gates_leaves r w h1 w1 external exposure Hlok Hkept1 (proj2 Hset) Hg) as ([Hsame _] & _ & Hact & _).
  apply returns_bind in Hr as (h2 & x & h3 & -> & Hc & Hr). rewrite !Forall_app in Hk1. destruct Hk1 as [Hh2 Hh3].
  apply serves_app in Hs as (s2 & Hs2 & Hs3).
  destruct (children_total r w1 w external exposure h2 x s s2) as (-> & Hkey2 & plan & Hp & Hconv); try done.
  assert (Forall (λ c, is_child_write (call_event c) = false) h3) as Hq3.
  { refine (safe_history _ _ _ _ _ _ (report_status_silent r w1 exposure) Hr _). apply kept_contracts.
    eapply Forall_impl; [exact Hh3|]. by intros c []. }
  pose proof (serves_silent _ _ _ Hq3 Hs3) as ->.
  destruct (converged_deployment w1 s2 external exposure plan Hp Hkey2 Hconv) as [d Hd]. split.
  - refine (safe_returns _ _ _ _ (report_status_total w r w1 exposure s2 d (proj1 Hsame) Hact Hd) Hr _).
    apply Forall_and. split; [done|]. by eapply serves_answers.
  - exists external, exposure, plan. split; [done|]. rewrite <-(build_plan_same w w1) by done. split; [done|].
    eapply Forall_impl; [exact Hconv|]. intros i. apply child_converged_same. by apply same_workload_sym.
Qed.

End BringsUp.

(** ** The witness *)

Section Witness.
Import Ref Sample World.

(** Everything optional but the route. *)
Definition rich_workload : AIWorkload := {|
  w_meta := meta; w_Status := empty_status;
  w_Spec := {|
    sp_Environment := sp_Environment full_spec; sp_Tenant := sp_Tenant full_spec; sp_Policy := sp_Policy full_spec;
    sp_Image := sp_Image full_spec; sp_Replicas := sp_Replicas full_spec; sp_Autoscaling := sp_Autoscaling full_spec;
    sp_Availability := sp_Availability full_spec; sp_Container := sp_Container full_spec;
    sp_Resources := sp_Resources full_spec; sp_Health := sp_Health full_spec; sp_Service := sp_Service full_spec;
    sp_Exposure := None; sp_SecretRefs := sp_SecretRefs full_spec; sp_ExternalSecrets := sp_ExternalSecrets full_spec;
    sp_Network := None |} |}.

Definition rich_start : state := (cluster rich_workload, (0%N, ∅)).
Definition rich_after : state := match run handle rich_start pass with Some (st, _) => st | None => rich_start end.

Lemma rich_ran : ∃ out, run handle rich_start pass = Some (rich_after, out).
Proof.
  assert (match run handle rich_start pass with Some _ => true | None => false end = true) as Hr by (vm_compute; reflexivity).
  unfold rich_after. destruct (run handle rich_start pass) as [[st out]|]; [by exists out|done].
Qed.

Lemma rich_first_read : ∃ h, log handle rich_start pass = Call (EGetWorkload ns "sample") (inr rich_workload) :: h.
Proof.
  assert (∃ f, pass = Vis (EGetWorkload ns "sample") f) as [f Hf] by (eexists; reflexivity). rewrite Hf. simpl. by eexists.
Qed.

Lemma rich_healthy : Forall (healthy rich_workload) (log handle rich_start pass).
Proof.
  destruct rich_ran as [out Hr].
  destruct (run_history pass rich_start rich_after out) as [HF _]; [intros k o Ho; discriminate Ho|exact Hr|].
  assert (forallb (λ c, match c with Call e x => healthy_answer rich_workload e x end) (log handle rich_start pass) = true) as Hall
    by (vm_compute; reflexivity).
  rewrite forallb_forall in Hall. rewrite Forall_forall in *. intros c Hc. split; [by apply HF|].
  specialize (Hall c (proj1 (list_elem_of_In _ _) Hc)). by destruct c.
Qed.

Lemma rich_wanted : wanted rich_workload.
Proof.
  split; [done|]. split; [done|]. split; [vm_compute; reflexivity|]. split.
  { intros _. eexists _, 3%Z. split; [reflexivity|]. split; [reflexivity|]. split; [lia|]. left. exists 2%Z.
    split; [reflexivity|]. split; [reflexivity|lia]. }
  split; [split; [|done]; by intros a _ [= <-]|]. repeat constructor. by apply (bool_decide_unpack _).
Qed.

Lemma Reconcile_brings_up_witness :
  ∃ out external exposure plan, run handle rich_start pass = Some (rich_after, out) ∧ out = (no_requeue, None) ∧
    build_plan Build rich_workload external exposure = Ok plan ∧ Forall (child_converged rich_workload (children rich_after)) plan.
Proof.
  destruct rich_ran as [out Hr]. destruct rich_first_read as [h Hh].
  assert (keyed (children rich_start)) as Hk by (intros k o Ho; discriminate Ho).
  destruct (run_history pass rich_start rich_after out Hk Hr) as [_ HS]. pose proof rich_healthy as HF.
  assert (returns pass (log handle rich_start pass) out) as Hret by (eapply run_returns, Hr).
  rewrite Hh in HF, HS, Hret. destruct HS as (s1 & Hs1 & HS). simpl in Hs1. subst s1.
  destruct (Reconcile_brings_up reconciler ns "sample" rich_workload h out (children rich_start) (children rich_after))
    as (Hout & external & exposure & plan & _ & Hp & Hc).
  - reflexivity.
  - reflexivity.
  - reflexivity.
  - exact rich_wanted.
  - exact Hk.
  - intros z c Hc. discriminate Hc.
  - exact Hret.
  - apply Forall_cons in HF. exact (proj2 HF).
  - exact HS.
  - exists out, external, exposure, plan. split; [exact Hr|]. split; [exact Hout|]. split; [exact Hp|exact Hc].
Defined.

End Witness.
