(* ===== verification/StatusTheorems.v ===== *)
(** * Theorems about conditions, status and failure reports *)
From S2P Require Import Prelude Errors GoStd Kube Api Naming Intent Autoscaling ServiceIntent Availability Effects.
From S2P Require Import Conditions Status Failures Gates Controller KubeReference Sample.

(** ** Assessment *)

(** The rollout of the desired number of replicas is complete and available. *)
Definition rolled_out (d : Deployment) (desired : Z) : Prop :=
  let st := dp_Status d in
  (∃ c, findDeploymentCondition (ds_Conditions st) DeploymentAvailable = Some c ∧ dc_Status c = ConditionTrue) ∧
  (om_Generation (dp_meta d) ≤ ds_ObservedGeneration st)%Z ∧
  ds_UpdatedReplicas st = desired ∧ ds_Replicas st = desired ∧ ds_ReadyReplicas st = desired ∧
  ds_AvailableReplicas st = desired.

(** The Deployment controller gave the rollout up. *)
Definition deadline_exceeded (d : Deployment) : Prop :=
  ∃ c, findDeploymentCondition (ds_Conditions (dp_Status d)) DeploymentProgressing = Some c ∧
    dc_Status c = ConditionFalse ∧ dc_Reason c = "ProgressDeadlineExceeded".

Lemma deploymentReady_spec d desired : deploymentReady d desired = true ↔ rolled_out d desired.
Proof.
  unfold deploymentReady, rolled_out. cbv zeta. destruct (findDeploymentCondition _ _) as [c|]; [|naive_solver].
  rewrite !andb_true_iff, bool_decide_eq_true, Z.leb_le, !Z.eqb_eq. naive_solver.
Qed.

Lemma progress_deadline_exceeded_spec d : progress_deadline_exceeded d = true ↔ deadline_exceeded d.
Proof.
  unfold progress_deadline_exceeded, deadline_exceeded. destruct (findDeploymentCondition _ _) as [c|]; [|naive_solver].
  rewrite andb_true_iff, !bool_decide_eq_true. naive_solver.
Qed.

(** C27. The assessment of a Deployment is one of four states: scaled to zero (no condition is true),
    given up (Degraded), rolled out (Ready), or rolling out (Progressing).  Ready needs the
    observed generation to be current, the Available condition true, and all four replica counts
    equal to the desired one; a rollout that was given up is never Ready. *)
Theorem assessDeployment_spec p d :
  let desired := desiredReplicas p in
  let a := assessDeployment p d in
  let state := (sa_ready a, sa_progressing a, sa_degraded a) in
  (state = (ConditionFalse, ConditionFalse, ConditionFalse) ↔ desired = 0%Z) ∧
  (state = (ConditionFalse, ConditionFalse, ConditionTrue) ↔ desired ≠ 0%Z ∧ deadline_exceeded d) ∧
  (state = (ConditionTrue, ConditionFalse, ConditionFalse) ↔
    desired ≠ 0%Z ∧ ¬ deadline_exceeded d ∧ rolled_out d desired) ∧
  (state = (ConditionFalse, ConditionTrue, ConditionFalse) ↔
    desired ≠ 0%Z ∧ ¬ deadline_exceeded d ∧ ¬ rolled_out d desired).
Proof.
  cbv zeta. unfold assessDeployment.
  rewrite <-deploymentReady_spec, <-progress_deadline_exceeded_spec.
  destruct (Z.eqb_spec (desiredReplicas p) 0) as [->|Hd]; simpl; [naive_solver|].
  destruct (progress_deadline_exceeded d); simpl; [naive_solver|].
  destruct (deploymentReady d _); simpl; [naive_solver|].
  destruct (reports_unavailable d); simpl; naive_solver.
Qed.

(** ** Status patches *)

Section Patches.
Context `{Conditions, ApiErrors, SemanticDeepEqual AIWorkloadStatus}.

(** C23. A status is patched at most twice: not at all when nothing changed; a second time only after
    a conflict, on the object just read again, only when the specification it reports on is still
    the current one, with what was observed and the conditions of others that object has. *)
Theorem patchStatus_discipline before after h e :
  issues (patchStatus before after) h e →
  DeepEqual (w_Status before) (w_Status after) = false ∧
  ((h = [] ∧ e = EPatchStatus before after) ∨
   ∃ err, IsConflict err = true ∧
     let first := Call (EPatchStatus before after) (inl err : answer (EPatchStatus before after)) in
     let again := EGetWorkload (w_Namespace after) (w_Name after) in
     (h = [first] ∧ e = again) ∨
     ∃ fresh, h = [first; Call again (inr fresh : answer again)] ∧
       w_Generation fresh = w_Generation after ∧
       e = EPatchStatus fresh (retry_status fresh after) ∧
       DeepEqual (w_Status fresh) (w_Status (retry_status fresh after)) = false).
Proof.
  unfold patchStatus. destruct (DeepEqual (w_Status before) (w_Status after)) eqn:Ed; [done|].
  simpl. intros [[-> ->]|(x & h1 & -> & Hi)]; [by auto|]. split; [done|]. right.
  destruct x as [err|updated]; [|done]. destruct (IsConflict err) eqn:Ec; [|done]. simpl in Hi.
  exists err. split; [done|]. destruct Hi as [[-> ->]|(y & h2 & -> & Hi)]; [by left|]. right.
  destruct y as [err2|fresh]; [done|]. case_bool_decide as Hg; [|done]. simpl in Hi.
  destruct (DeepEqual (w_Status fresh) _) eqn:Ed2; [done|]. simpl in Hi.
  destruct Hi as [[-> ->]|(z & h3 & -> & Hi)]; [by exists fresh|]. by destruct z.
Qed.

End Patches.

(** ** Conditions of others *)

Section Conditions.
Context `{ConditionsLaws, ApiErrors, SemanticDeepEqual AIWorkloadStatus}.

Lemma preserve_conditions_find current result t :
  FindStatusCondition (preserve_conditions current result) t =
  match FindStatusCondition result t with
  | Some c => Some c
  | None => if is_managed_condition t then None else FindStatusCondition current t
  end.
Proof.
  assert (∀ u, FindStatusCondition [] u = None) as Hnil by (intros u; apply Find_None; set_solver).
  assert (∀ x u, FindStatusCondition [x] u = if decide (c_Type x = u) then Some x else None) as Hone.
  { intros x u. case_decide as Hu.
    - destruct (FindStatusCondition [x] u) as [y|] eqn:E.
      + apply Find_Some in E as [->%list_elem_of_singleton _]. done.
      + rewrite Find_None in E. destruct (E x); set_solver.
    - apply Find_None. intros c ->%list_elem_of_singleton. done. }
  assert (∀ x l u, FindStatusCondition (x :: l) u = if decide (c_Type x = u) then Some x else FindStatusCondition l u) as Hcons.
  { intros x l u. change (x :: l) with ([x] ++ l). rewrite Find_app, Hone. by case_decide. }
  revert result. induction current as [|x current IH]; intros result; simpl.
  { rewrite Hnil. destruct (FindStatusCondition result t); [done|]. by case_match. }
  rewrite Hcons. destruct (is_managed_condition (c_Type x)) eqn:Em.
  - rewrite IH. destruct (FindStatusCondition result t); [done|].
    destruct (is_managed_condition t) eqn:Et; [done|]. case_decide; [congruence|done].
  - destruct (FindStatusCondition result (c_Type x)) as [y|] eqn:Ey; rewrite IH.
    + destruct (FindStatusCondition result t) eqn:Et; [done|]. case_decide; [congruence|done].
    + rewrite Find_app, Hone. destruct (FindStatusCondition result t) eqn:Et; [done|].
      case_decide; [|done]. subst t. by rewrite Em.
Qed.

(** The retry of a conflicting status patch keeps the conditions other writers put on the object:
    a condition type the controller manages is as observed, a type it does not manage is the
    observed one if there is one, and otherwise the one on the object. *)
Theorem preserveUnmanagedConditions_spec desired current t :
  FindStatusCondition (preserveUnmanagedConditions desired current) t =
  if is_managed_condition t then FindStatusCondition desired t
  else match FindStatusCondition desired t with
       | Some c => Some c
       | None => FindStatusCondition current t
       end.
Proof.
  unfold preserveUnmanagedConditions. rewrite preserve_conditions_find.
  destruct (FindStatusCondition desired t), (is_managed_condition t); done.
Qed.

(** The retry writes a condition of another writer back as it was when the reconciliation read it,
    whatever became of it since. *)
Theorem patchStatus_reverts_foreign before after fresh err t c :
  DeepEqual (w_Status before) (w_Status after) = false → IsConflict err = true → w_Generation fresh = w_Generation after →
  DeepEqual (w_Status fresh) (w_Status (retry_status fresh after)) = false →
  is_managed_condition t = false → FindStatusCondition (w_Conditions after) t = Some c →
  issues (patchStatus before after)
    [Call (EPatchStatus before after) (inl err); Call (EGetWorkload (w_Namespace after) (w_Name after)) (inr fresh)]
    (EPatchStatus fresh (retry_status fresh after)) ∧
  FindStatusCondition (w_Conditions (retry_status fresh after)) t = Some c.
Proof.
  intros Hd He Hg Hd' Ht Hc. split.
  - unfold patchStatus. rewrite Hd. simpl. right. eexists _, _. split; [done|]. simpl. rewrite He. simpl.
    right. eexists _, _. split; [done|]. simpl in Hd' |- *. rewrite bool_decide_true by done. simpl. rewrite Hd'. by left.
  - change (FindStatusCondition (preserve_conditions (w_Conditions fresh) (w_Conditions after)) t = Some c).
    by rewrite preserve_conditions_find, Hc.
Qed.

(** The condition [typ] of [w], as an observation of the specification [generation]. *)
Definition reports (w : AIWorkload) (generation : Z) (typ : string) (status : ConditionStatus) (reason message : string) : Prop :=
  ∃ c, FindStatusCondition (w_Conditions w) typ = Some c ∧ c_Status c = status ∧ c_ObservedGeneration c = generation ∧
    c_Reason c = reason ∧ c_Message c = message.

Lemma reports_set now typ status reason message w g :
  w_Generation w = g →
  reports (set_Conditions (SetStatusCondition now (w_Conditions w) (condition_of w typ status reason message)) w)
    g typ status reason message.
Proof.
  intros <-. destruct (Find_Set_same now (w_Conditions w) (condition_of w typ status reason message)) as (d & Hd & _ & ? & ? & ? & ?).
  by exists d.
Qed.

Lemma reports_set_other now typ typ' status reason message g st r m w :
  typ' ≠ typ → reports w g typ' st r m →
  reports (set_Conditions (SetStatusCondition now (w_Conditions w) (condition_of w typ status reason message)) w) g typ' st r m.
Proof. intros Ht (c & Hc & Hr). exists c. split; [|done]. cbn [w_Conditions set_Conditions set_Status with_Conditions w_Status wst_Conditions].
  by rewrite Find_Set_other.
Qed.

(** It depends on the conditions only, and survives the retry of a patch. *)
Lemma reports_ext w w' g typ st r m :
  w_Conditions w' = w_Conditions w → reports w g typ st r m → reports w' g typ st r m.
Proof. unfold reports. by intros ->. Qed.

Lemma reports_retry fresh w g typ st r m :
  is_managed_condition typ = true → reports w g typ st r m → reports (retry_status fresh w) g typ st r m.
Proof.
  intros Ht (c & Hc & Hr). exists c. split; [|done].
  change (FindStatusCondition (preserve_conditions (w_Conditions fresh) (w_Conditions w)) typ = Some c).
  by rewrite preserve_conditions_find, Hc.
Qed.

(** ** What a status patch says *)

Let anything (c : call event answer) : Prop := True.

(** Every status patch satisfies [S]; the calls before it are its context. *)
Definition patches (S : history → AIWorkload → Prop) (h : history) (e : event) : Prop :=
  match e with EPatchStatus _ after => S h after | _ => True end.

Lemma patchStatus_patches S before after h (Q : history → _ → Prop) :
  (∀ h', prefix h h' → S h' after) →
  (∀ h' fresh, prefix h h' → w_Generation fresh = w_Generation after → S h' (retry_status fresh after)) →
  (∀ h' a, prefix h h' → Q h' a) → wp anything (patches S) h (patchStatus before after) Q.
Proof.
  intros HS Hretry HQ. unfold patchStatus. destruct (DeepEqual _ _); [by apply HQ|].
  simpl. split; [by apply HS|]. intros [err|updated] _; [|apply HQ; by apply prefix_app_r].
  destruct (IsConflict err); simpl; [|apply HQ; by apply prefix_app_r].
  split; [done|]. intros [err2|fresh] _; [apply HQ; by repeat apply prefix_app_r|].
  case_bool_decide; simpl; [|apply HQ; by repeat apply prefix_app_r].
  destruct (DeepEqual _ _); simpl; [apply HQ; by repeat apply prefix_app_r|].
  split; [apply Hretry; [by repeat apply prefix_app_r|done]|].
  intros [err3|u] _; apply HQ; by repeat apply prefix_app_r.
Qed.

Lemma set_condition_patches S typ status reason message w h (Q : history → AIWorkload → Prop) :
  (∀ now h', prefix h h' →
    Q h' (set_Conditions (SetStatusCondition now (w_Conditions w) (condition_of w typ status reason message)) w)) →
  wp anything (patches S) h (set_condition typ status reason message w) Q.
Proof. intros HQ. split; [done|]. intros now _. apply HQ. by apply prefix_app_r. Qed.

(** A part that patches no status, and leaves everything but the status alone. *)
Definition same_spec (w w' : AIWorkload) : Prop := w_meta w' = w_meta w ∧ w_Spec w' = w_Spec w.

Lemma set_condition_spec typ status reason message w :
  safe anything (λ e, is_status_write e = false) (set_condition typ status reason message w) (same_spec w).
Proof. split; [done|]. intros now _. by split. Qed.

#[local] Opaque set_condition.

Lemma observeAutoscaling_spec w :
  safe anything (λ e, is_status_write e = false) (observeAutoscaling w) (λ wr, same_spec w wr.1).
Proof.
  unfold observeAutoscaling, setAutoscalingCondition. case_match; [by split|].
  simpl. split; [done|]. intros [err|hpa] _; repeat case_match; try (by split);
    (eapply safe_seq; [apply set_condition_spec|]; by intros w' Hw').
Qed.

Lemma observeAvailability_spec w :
  safe anything (λ e, is_status_write e = false) (observeAvailability w) (λ wr, same_spec w wr.1).
Proof.
  unfold observeAvailability, setAvailabilityCondition. case_match; [by split|].
  simpl. split; [done|]. intros [err|pdb] _.
  - case_match; [|by split]. eapply safe_seq; [apply set_condition_spec|]. by intros w' Hw'.
  - destruct (AvailabilityReplicaFloor_Ok w) as [floor ->]. simpl.
    case_match; (eapply safe_seq; [apply set_condition_spec|]; by intros w' Hw').
Qed.

Lemma quiet_patches {A} S (t : program A) h Q :
  safe anything (λ e, is_status_write e = false) t Q →
  wp anything (patches S) h t (λ h' a, prefix h h' ∧ Q a).
Proof. intros Ht. apply (safe_wp _ _ _ _ Ht). intros h' e _ He. by destruct e. Qed.

(** The status a reconciliation of [w] writes when it has observed the Deployment [d]. *)
Definition observed (w : AIWorkload) (d : Deployment) (after : AIWorkload) : Prop :=
  let a := assessDeployment w d in
  w_Generation after = w_Generation w ∧ wst_ObservedGeneration (w_Status after) = w_Generation w ∧
  wst_DesiredReplicas (w_Status after) = desiredReplicas w ∧
  wst_ReadyReplicas (w_Status after) = ds_ReadyReplicas (dp_Status d) ∧
  wst_Endpoint (w_Status after) = ServiceEndpoint w ∧
  reports after (w_Generation w) conditionReady (sa_ready a) (sa_reason a) (sa_message a) ∧
  reports after (w_Generation w) conditionProgressing (sa_progressing a) (sa_reason a) (sa_message a) ∧
  reports after (w_Generation w) conditionDegraded (sa_degraded a) (sa_reason a) (sa_message a).

Lemma observed_retry w d fresh after :
  w_Generation fresh = w_Generation after → observed w d after → observed w d (retry_status fresh after).
Proof.
  intros Hg (Hga & ? & ? & ? & ? & ? & ? & ?). unfold observed.
  change (w_Generation (retry_status fresh after)) with (w_Generation fresh).
  split; [congruence|]. do 4 (split; [done|]). split_and!; by apply reports_retry.
Qed.

(** Three writes in a row, of different types. *)
Lemma set_conditions_reports S t1 s1 t2 s2 t3 s3 reason message w h (Q : history → AIWorkload → Prop) :
  t1 ≠ t2 → t1 ≠ t3 → t2 ≠ t3 →
  (∀ h' after, prefix h h' → same_spec w after → w_Status after = with_Conditions (w_Conditions after) (w_Status w) →
    reports after (w_Generation w) t1 s1 reason message → reports after (w_Generation w) t2 s2 reason message →
    reports after (w_Generation w) t3 s3 reason message → Q h' after) →
  wp anything (patches S) h
    (w ← set_condition t1 s1 reason message w; w ← set_condition t2 s2 reason message w;
     set_condition t3 s3 reason message w) Q.
Proof.
  intros H12 H13 H23 HQ. split; [done|]. intros n1 _. split; [done|]. intros n2 _. split; [done|]. intros n3 _.
  apply HQ; [by repeat apply prefix_app_r|done|done| | |].
  - apply reports_set_other; [done|]. apply reports_set_other; [done|]. by apply reports_set.
  - apply reports_set_other; [done|]. by apply reports_set.
  - by apply reports_set.
Qed.

(** C24. What a reconciliation reports is what it observed: every status patch it sends after reading the
    Deployment carries the generation it reconciled, the desired and ready replicas, the endpoint,
    and the Ready, Progressing and Degraded conditions of the Deployment's assessment, each
    observed at that generation. *)
Theorem observeAndReportStatus_reports recorder w h before after :
  issues (observeAndReportStatus recorder w) h (EPatchStatus before after) →
  ∃ d, Call (EGetDeployment (w_Namespace w) (ChildName (w_Name w))) (inr d) ∈ h ∧ observed w d after.
Proof.
  intros Hi.
  set (S := λ (h : history) after,
    ∃ d, Call (EGetDeployment (w_Namespace w) (ChildName (w_Name w))) (inr d) ∈ h ∧ observed w d after).
  assert (wp anything (patches S) [] (observeAndReportStatus recorder w) (λ _ _, True)) as Hwp;
    [|exact (wp_issues [] _ _ _ _ Hwp Hi (Forall_true _ _ (λ _, I)))].
  unfold observeAndReportStatus. simpl. split; [done|]. intros [err|d] _; [done|].
  set (h0 := [_]). assert (∀ h', prefix h0 h' →
    Call (EGetDeployment (w_Namespace w) (ChildName (w_Name w))) (inr d) ∈ h') as Hin.
  { intros h' [k ->]. subst h0. set_solver. }
  eapply wp_seq; [apply quiet_patches, observeAutoscaling_spec|]. intros h1 [w1 [err|]] [Hp1 Hw1]; [done|].
  eapply wp_seq; [apply quiet_patches, observeAvailability_spec|]. intros h2 [w2 [err|]] [Hp2 Hw2]; [done|].
  simpl in Hw1, Hw2. assert (same_spec w w2) as [Hm Hs] by (destruct Hw1, Hw2; split; congruence).
  assert (prefix h0 h2) as Hp by (by etrans).
  assert (w_Generation w2 = w_Generation w) as Hg by (unfold w_Generation; by rewrite Hm).
  assert (assessDeployment (observed_status w2 d) d = assessDeployment w d) as Ha.
  { unfold assessDeployment, desiredReplicas. simpl. by rewrite Hs. }
  rewrite Ha. eapply wp_seq.
  { apply set_conditions_reports with (Q := λ h' after, prefix h2 h' ∧ observed w d after); try done.
    intros h' w3 Hp3 [Hm3 Hs3] Hst Hr1 Hr2 Hr3. split; [done|].
    change (w_Generation (observed_status w2 d)) with (w_Generation w2) in *. rewrite Hg in *.
    unfold observed. rewrite Hst. simpl. split_and!; try done.
    - unfold w_Generation in *. rewrite Hm3. simpl. congruence.
    - unfold desiredReplicas. by rewrite Hs.
    - unfold ServiceEndpoint, ServiceEnabled, ServicePort, w_Name, w_Namespace. by rewrite Hs, Hm. }
  intros h3 w3 [Hp3 Ho]. eapply wp_seq.
  { apply (patchStatus_patches _ _ _ _ (λ _ _, True)); [| |done].
    - intros h' Hp'. exists d. split; [|done]. apply Hin. by do 2 (etrans; [eassumption|]).
    - intros h' fresh Hp' Hgf. exists d. split; [|by apply observed_retry].
      apply Hin. by do 2 (etrans; [eassumption|]). }
  intros h4 [w4 [err|changed]] _; [done|]. by destruct (_ && _).
Qed.

(** ** Failure reports *)

(** The gate condition a configuration error turns false. *)
Definition gate_reported (found : option (string * string)) (typ : string) (f : failure) (g : Z) (after : AIWorkload) : Prop :=
  match found with
  | Some _ => reports after g typ ConditionFalse (f_reason f) (f_message f)
  | None => True
  end.

(** The status that reports the failure [cause] of reconciling [w]. *)
Definition failure_reported (w : AIWorkload) (cause : error) (after : AIWorkload) : Prop :=
  let f := classify cause in
  let value := if f_permanent f then ConditionFalse else ConditionUnknown in
  w_Generation after = w_Generation w ∧ wst_ObservedGeneration (w_Status after) = w_Generation w ∧
  (IsNotFound cause = true → wst_ReadyReplicas (w_Status after) = 0%Z) ∧
  reports after (w_Generation w) conditionReady value (f_reason f) (f_message f) ∧
  reports after (w_Generation w) conditionProgressing value (f_reason f) (f_message f) ∧
  reports after (w_Generation w) conditionDegraded ConditionTrue (f_reason f) (f_message f) ∧
  gate_reported (errors_As_Tenant cause) conditionTenantReady f (w_Generation w) after ∧
  gate_reported (errors_As_ExternalSecret cause) conditionExternalSecretsReady f (w_Generation w) after ∧
  gate_reported (errors_As_Exposure cause) conditionExposureReady f (w_Generation w) after.

(** The reports of some types, which a later write of another type keeps. *)
Definition all_reported (g : Z) (l : list (string * ConditionStatus)) (f : failure) (w : AIWorkload) : Prop :=
  Forall (λ '(t, s), reports w g t s (f_reason f) (f_message f)) l.

(** What the assignments of [reportFailure] have done so far to the workload [w0]. *)
Definition reported_so_far (w0 : AIWorkload) (ready : Z) (f : failure) (l : list (string * ConditionStatus)) (w : AIWorkload) : Prop :=
  same_spec w0 w ∧ wst_ReadyReplicas (w_Status w) = ready ∧ all_reported (w_Generation w0) l f w.

Definition gate_list (found : option (string * string)) (typ : string) : list (string * ConditionStatus) :=
  match found with Some _ => [(typ, ConditionFalse)] | None => [] end.

Lemma set_gate_condition_patches S found typ f w0 ready l h (w : AIWorkload) :
  typ ∉ l.*1 → reported_so_far w0 ready f l w →
  wp anything (patches S) h (set_gate_condition found typ f w)
    (λ _ w', reported_so_far w0 ready f (gate_list found typ ++ l) w').
Proof.
  intros Hn (Hs & Hr & Hl). destruct found as [rm|]; simpl; [|done].
  apply set_condition_patches. intros now h' Hp. split; [done|]. split; [done|]. constructor.
  - apply reports_set. destruct Hs as [Hm _]. unfold w_Generation. by rewrite Hm.
  - apply Forall_forall. intros [t st] Ht. unfold all_reported in Hl. rewrite Forall_forall in Hl.
    apply reports_set_other; [|by apply (Hl (t, st))].
    intros ->. apply Hn, list_elem_of_fmap. by exists (typ, st).
Qed.

Lemma failure_reported_all w cause after :
  w_Generation after = w_Generation w → wst_ObservedGeneration (w_Status after) = w_Generation w →
  (IsNotFound cause = true → wst_ReadyReplicas (w_Status after) = 0%Z) →
  let f := classify cause in
  let value := if f_permanent f then ConditionFalse else ConditionUnknown in
  all_reported (w_Generation w)
    (gate_list (errors_As_Exposure cause) conditionExposureReady ++
     gate_list (errors_As_ExternalSecret cause) conditionExternalSecretsReady ++
     gate_list (errors_As_Tenant cause) conditionTenantReady ++
     [(conditionReady, value); (conditionProgressing, value); (conditionDegraded, ConditionTrue)]) f after →
  failure_reported w cause after.
Proof.
  cbv zeta. unfold all_reported. rewrite !Forall_app, !Forall_cons. intros Hg Ho Hr (He & Hx & Ht & Hc1 & Hc2 & Hc3 & _).
  unfold failure_reported, gate_reported. split_and!; try done.
  - destruct (errors_As_Tenant cause); [|done]. by apply Forall_cons in Ht as [? _].
  - destruct (errors_As_ExternalSecret cause); [|done]. by apply Forall_cons in Hx as [? _].
  - destruct (errors_As_Exposure cause); [|done]. by apply Forall_cons in He as [? _].
Qed.

Lemma gate_reported_retry found typ f g fresh after :
  is_managed_condition typ = true → gate_reported found typ f g after →
  gate_reported found typ f g (retry_status fresh after).
Proof. destruct found; simpl; [apply reports_retry|done]. Qed.

Lemma failure_reported_retry w cause fresh after :
  w_Generation fresh = w_Generation after → failure_reported w cause after →
  failure_reported w cause (retry_status fresh after).
Proof.
  intros Hg (Hga & ? & ? & ? & ? & ? & Ht & Hx & He). unfold failure_reported.
  change (w_Generation (retry_status fresh after)) with (w_Generation fresh).
  split; [congruence|]. do 2 (split; [done|]).
  split_and!; first [by apply reports_retry|by apply gate_reported_retry].
Qed.

(** How a failure report ends. *)
Definition report_outcome (cause : error) (out : Result * option error) : Prop :=
  let '(result, err) := out in
  match err with
  | None => f_permanent (classify cause) = true ∧ RequeueAfter result = Minute
  | Some err => RequeueAfter result = 0%Z ∧ ∃ c, err = SafeRetry c (retry_category c)
  end.

Lemma reportFailure_patches recorder telemetry w cause :
  wp anything (patches (λ _ after, failure_reported w cause after)) [] (reportFailure recorder telemetry w cause)
    (λ _ out, report_outcome cause out).
Proof.
  unfold reportFailure. set (f := classify cause). set (w1 := if IsNotFound cause then clear_ReadyReplicas w else w).
  assert (same_spec w w1) as Hw1 by (subst w1; by case_match).
  assert (w_Generation w1 = w_Generation w) as Hg1 by (unfold w_Generation; by rewrite (proj1 Hw1)).
  assert (IsNotFound cause = true → wst_ReadyReplicas (w_Status w1) = 0%Z) as Hr1 by (subst w1; by intros ->).
  clearbody w1. set (value := if f_permanent f then ConditionFalse else ConditionUnknown).
  eapply wp_seq.
  { apply set_conditions_reports with
      (t1 := conditionReady) (s1 := value) (t2 := conditionProgressing) (s2 := value) (t3 := conditionDegraded)
      (s3 := ConditionTrue) (reason := f_reason f) (message := f_message f)
      (Q := λ _ w2, reported_so_far w (wst_ReadyReplicas (w_Status w1)) f
        [(conditionReady, value); (conditionProgressing, value); (conditionDegraded, ConditionTrue)] w2); try done.
    intros h' w2 _ [Hm Hs] Hst R1 R2 R3. rewrite Hg1 in *. split; [|split].
    - destruct Hw1. split; congruence.
    - by rewrite Hst.
    - by repeat apply Forall_cons_2. }
  intros h2 w2 Hw2. eapply wp_seq; [apply set_gate_condition_patches; [|exact Hw2]; simpl; set_solver|].
  intros h3 w3 Hw3. eapply wp_seq.
  { apply set_gate_condition_patches; [|exact Hw3]. destruct (errors_As_Tenant cause); simpl; set_solver. }
  intros h4 w4 Hw4. eapply wp_seq.
  { apply set_gate_condition_patches; [|exact Hw4].
    destruct (errors_As_Tenant cause), (errors_As_ExternalSecret cause); simpl; set_solver. }
  intros h5 w5 ([Hm Hs] & Hrr & Hl).
  assert (failure_reported w cause (failed_status w5)) as Hrep.
  { apply failure_reported_all; [..|exact Hl].
    - unfold w_Generation. simpl. by rewrite Hm.
    - simpl. unfold w_Generation. by rewrite Hm.
    - intros Hn. simpl. rewrite Hrr. by apply Hr1. }
  eapply wp_seq; [apply (patchStatus_patches _ _ _ _ (λ _ _, True));
    [by intros|intros h' fresh _ Hgf; by apply failure_reported_retry|done]|].
  intros h6 [w6 [err|changed]] _; [split; [done|]; by exists err|].
  eapply wp_seq with (Q1 := λ _ _, True); [by destruct (changed && recorder)|]. intros h7 _ _.
  eapply wp_seq with (Q1 := λ _ _, True); [by destruct telemetry|]. intros h8 _ _.
  destruct (f_permanent f) eqn:Ep; [done|]. split; [done|]. by exists cause.
Qed.

(** C25. A failure is always visible and never ready: every status patch of a failure report marks the
    workload Degraded and neither Ready nor Progressing, with the classified reason, at the
    generation that failed, and turns the condition of the gate that refused false.  A permanent
    failure is looked at again after a minute; any other one is returned for a retry. *)
Theorem reportFailure_reports recorder telemetry w cause :
  (∀ h before after, issues (reportFailure recorder telemetry w cause) h (EPatchStatus before after) →
    failure_reported w cause after) ∧
  (∀ h result err, returns (reportFailure recorder telemetry w cause) h (result, err) →
    match err with
    | None => f_permanent (classify cause) = true ∧ RequeueAfter result = Minute
    | Some err => RequeueAfter result = 0%Z ∧ ∃ c, err = SafeRetry c (retry_category c)
    end).
Proof.
  pose proof (reportFailure_patches recorder telemetry w cause) as Hwp. split.
  - intros h before after Hi. exact (wp_issues [] _ _ _ _ Hwp Hi (Forall_true _ _ (λ _, I))).
  - intros h result err Hr. exact (wp_returns [] _ _ _ _ Hwp Hr (Forall_true _ _ (λ _, I))).
Qed.

End Conditions.

(** ** Classification *)

Section Classification.
Context `{ApiErrorsLaws}.

Lemma errors_Is_of_root e s :
  errors_Is e s = match root_cause e with Sentinel s' => bool_decide (s' = s) | _ => false end.
Proof. induction e; simpl; done. Qed.

Lemma errors_As_Tenant_of_root e :
  errors_As_Tenant e = match root_cause e with TenantConfigurationError r m => Some (r, m) | _ => None end.
Proof. induction e; simpl; done. Qed.

Lemma errors_As_ExternalSecret_of_root e :
  errors_As_ExternalSecret e = match root_cause e with ExternalSecretConfigurationError r m => Some (r, m) | _ => None end.
Proof. induction e; simpl; done. Qed.

Lemma errors_As_Exposure_of_root e :
  errors_As_Exposure e = match root_cause e with ExposureConfigurationError r m => Some (r, m) | _ => None end.
Proof. induction e; simpl; done. Qed.

Lemma api_error_is_root t e : api_error_is t e = api_error_is t (root_cause e).
Proof.
  induction e; simpl; try done; [by rewrite api_error_is_wrapped|by rewrite api_error_is_retry].
Qed.

(** C28. The classification of a failure follows its root cause through any wrapping: the controller's
    own sentinels and configuration errors are permanent with their own reason, a child that is
    still being deleted is not, and an API error is permanent only when the API calls the object
    invalid; a quota refusal keeps its permanence and gets its own reason. *)
Theorem classify_spec cause :
  let f := classify cause in
  match root_cause cause with
  | Sentinel ErrOwnershipConflict | Sentinel ErrImmutableSelector | Sentinel ErrImmutableServiceAllocation =>
      f_reason f = "ResourceOwnershipConflict" ∧ f_permanent f = true
  | Sentinel ErrInvalidConfiguration => f_reason f = "InvalidConfiguration" ∧ f_permanent f = true
  | Sentinel ErrSecretNotFound => f_reason f = "SecretNotFound" ∧ f_permanent f = true
  | Sentinel ErrChildDeleting => f_reason f = "ReconcileFailed" ∧ f_permanent f = false
  | TenantConfigurationError reason message | ExternalSecretConfigurationError reason message
  | ExposureConfigurationError reason message =>
      f_reason f = reason ∧ f_message f = message ∧ f_permanent f = true
  | root =>
      f_permanent f = IsInvalid root ∧
      f_reason f = if quota_exceeded cause then "QuotaExceeded"
                   else if IsInvalid root then "InvalidConfiguration" else "ReconcileFailed"
  end.
Proof.
  cbv zeta. unfold classify.
  rewrite !errors_Is_of_root, errors_As_Tenant_of_root, errors_As_ExternalSecret_of_root, errors_As_Exposure_of_root,
    (api_error_is_root Invalid).
  assert (quota_exceeded cause = IsForbidden (root_cause cause) && Contains (ToLower (Error cause)) "exceeded quota")
    as -> by (unfold quota_exceeded; by rewrite (api_error_is_root Forbidden)).
  destruct (root_cause cause) as [[]| | | | | | |];
    rewrite ?api_error_is_sentinel, ?api_error_is_tenant, ?api_error_is_external, ?api_error_is_exposure; simpl;
    try done; destruct (IsInvalid _), (IsForbidden _), (Contains _ _); done.
Qed.

End Classification.

(** ** Witnesses *)

Section Witnesses.
Import Ref Sample.

(** The workload's status before and after it is scaled. *)
Definition observed_once : AIWorkload := set_Status {|
  wst_ObservedGeneration := 3; wst_DesiredReplicas := 2; wst_ReadyReplicas := 0; wst_Endpoint := "";
  wst_Conditions := [] |} workload.

Definition conflict : error := api_error Conflict "the object has been modified".

Definition conflicted : history := [
  Call (EPatchStatus workload observed_once) (inl conflict : answer (EPatchStatus workload observed_once));
  Call (EGetWorkload ns "sample") (inr workload : answer (EGetWorkload ns "sample"))].

Lemma patchStatus_discipline_witness :
  DeepEqual (w_Status workload) (w_Status observed_once) = false.
Proof.
  destruct (patchStatus_discipline workload observed_once conflicted
    (EPatchStatus workload (retry_status workload observed_once))) as [Hd _].
  - right. eexists (inl conflict), _. split; [reflexivity|]. right. eexists (inr workload), _.
    split; [reflexivity|]. left. split; reflexivity.
  - exact Hd.
Defined.

Lemma preserveUnmanagedConditions_spec_witness :
  FindStatusCondition (preserveUnmanagedConditions [] [condition_of workload "Synced" ConditionTrue "By" "another writer"])
    "Synced" = Some (condition_of workload "Synced" ConditionTrue "By" "another writer").
Proof.
  rewrite (preserveUnmanagedConditions_spec [] [condition_of workload "Synced" ConditionTrue "By" "another writer"] "Synced").
  reflexivity.
Defined.

(** A Deployment that has rolled out two replicas. *)
Definition rolled : Deployment := {|
  dp_meta := new_meta (ChildName "sample") ns; dp_Replicas := Some 2%Z; dp_Selector := None;
  dp_Template := new_PodTemplateSpec; dp_Strategy := {| st_Type := ""; st_RollingUpdate := None |};
  dp_MinReadySeconds := 0; dp_Paused := false; dp_ProgressDeadlineSeconds := None; dp_other := [];
  dp_Status := {| ds_ObservedGeneration := 0; ds_Replicas := 2; ds_UpdatedReplicas := 2; ds_ReadyReplicas := 2;
    ds_AvailableReplicas := 2; ds_Conditions := [{| dc_Type := "Available"; dc_Status := ConditionTrue;
      dc_Reason := ""; dc_other := [] |}]; ds_other := [] |} |}.

Definition rolled_cluster : server := {|
  srv_workload := workload; srv_children := [ODeployment rolled]; srv_profile := None; srv_unstructured := [];
  srv_apis := []; srv_secrets := []; srv_writes := 10 |}.

Definition status_run := observeAndReportStatus true workload.
Definition status_calls : history := calls rolled_cluster status_run.

Lemma observeAndReportStatus_reports_witness :
  ∃ before after, nth_event status_calls 4 = EPatchStatus before after ∧
    ∃ d, observed workload d after.
Proof.
  assert (∃ before after, nth_event status_calls 4 = EPatchStatus before after) as (before & after & He)
    by (vm_compute; eexists _, _; reflexivity).
  exists before, after. split; [exact He|].
  destruct (observeAndReportStatus_reports true workload (take 4 status_calls) before after) as (d & _ & Ho).
  - rewrite <-He. apply (issued rolled_cluster status_run). vm_compute. reflexivity.
  - exists d. exact Ho.
Defined.

Lemma reportFailure_reports_witness :
  ∃ before after, issues (reportFailure true true workload (Sentinel ErrOwnershipConflict))
    (take 3 (calls rolled_cluster (reportFailure true true workload (Sentinel ErrOwnershipConflict))))
    (EPatchStatus before after) ∧ failure_reported workload (Sentinel ErrOwnershipConflict) after.
Proof.
  set (t := reportFailure true true workload (Sentinel ErrOwnershipConflict)).
  assert (∃ before after, nth_event (calls rolled_cluster t) 3 = EPatchStatus before after) as (before & after & He)
    by (vm_compute; eexists _, _; reflexivity).
  assert (issues t (take 3 (calls rolled_cluster t)) (EPatchStatus before after)) as Hi.
  { rewrite <-He. apply (issued rolled_cluster t). vm_compute. reflexivity. }
  exists before, after. split; [exact Hi|].
  destruct (reportFailure_reports true true workload (Sentinel ErrOwnershipConflict)) as [Hr _].
  exact (Hr _ _ _ Hi).
Defined.

Lemma classify_spec_witness :
  f_permanent (classify (Errorf "apply" (Sentinel ErrInvalidConfiguration))) = true.
Proof. apply (classify_spec (Errorf "apply" (Sentinel ErrInvalidConfiguration))). Defined.

End Witnesses.
