(* ===== verification/GateTheorems.v ===== *)
(** * Theorems about the gates and the plan they feed *)
From S2P Require Import Prelude Errors GoStd Sha256 Kube Api Naming Intent Deploy ServiceIntent Route Builder Effects Engine.
From S2P Require Import Capability Conditions Status Failures Gates Controller Contract Safety Gating KubeReference Sample.

(** ** External Secrets *)

Section External.
Context `{Conditions, ApiErrors, UnstructuredHelpers}.

(** What one resolved reference records: its target, and the version of the Secret just read. *)
Definition resolved_from (ns : string) (h : history) (x : ExternalSecretReference) (y : resolvedExternalSecret) : Prop :=
  re_targetSecret y = er_TargetSecret x ∧
  ∃ m, Call (EGetSecretMetadata ns (er_TargetSecret x)) (inr m) ∈ h ∧ re_resourceVersion y = om_ResourceVersion m.

Lemma resolve_reference_returns via ns direct x h y :
  returns (resolve_reference via ns direct x) h (inr y) → resolved_from ns h x y.
Proof.
  unfold resolve_reference. case_bool_decide; [by intros [-> ?]|]. simpl.
  intros (r1 & h1 & -> & Hr). destruct r1 as [err|es]; [destruct (IsNotFound err); by destruct Hr|].
  destruct (selected_store es) as [err|store]; [by destruct Hr|]. simpl in Hr.
  destruct Hr as (r2 & h2 & -> & Hr). destruct r2 as [err|st]; [destruct (IsNotFound err); by destruct Hr|].
  destruct (readyCondition st); simpl in Hr; [|by destruct Hr].
  destruct (checked_target es x) as [err|target] eqn:Et; [by destruct Hr|]. simpl in Hr.
  apply checked_target_inv in Et as [-> _]. destruct Hr as (r3 & h3 & -> & Hr).
  destruct r3 as [err|m]; [destruct (IsNotFound err); by destruct Hr|]. destruct Hr as [-> [= ->]].
  split; [done|]. exists m. split; [|done]. do 2 apply elem_of_cons, or_intror. by apply elem_of_cons; left.
Qed.

Lemma resolved_from_app ns h1 h h2 x y : resolved_from ns h x y → resolved_from ns (h1 ++ h ++ h2) x y.
Proof. intros (Ht & m & Hm & Hv). split; [done|]. exists m. split; [set_solver|done]. Qed.

Lemma resolve_references_returns via ns direct xs before h ys :
  returns (resolve_references via ns direct xs before) h (inr ys) →
  ∃ new, ys = before ++ new ∧ Forall2 (resolved_from ns h) xs new.
Proof.
  revert before h. induction xs as [|x xs IH]; intros before h; simpl.
  { intros [-> [= ->]]. exists []. by rewrite app_nil_r. }
  intros (h1 & [err|y] & h2 & -> & Hx & Hr)%returns_bind; [by destruct Hr|].
  apply resolve_reference_returns in Hx. apply IH in Hr as (new & -> & Hnew).
  exists (y :: new). rewrite <-app_assoc. split; [done|]. constructor.
  - by apply (resolved_from_app ns [] h1 h2).
  - eapply Forall2_impl; [exact Hnew|]. intros x' y' Hxy.
    rewrite <-(app_nil_r h2). by apply (resolved_from_app ns h1 h2 []).
Qed.

Lemma validateExternalSecrets_returns g w h w' resolved :
  returns (validateExternalSecrets g w) h (w', inr resolved) →
  Forall2 (resolved_from (w_Namespace w) h) (sp_ExternalSecrets (w_Spec w)) resolved.
Proof.
  unfold validateExternalSecrets. case_bool_decide as Hn.
  { intros [-> [= -> ->]]. apply length_zero_iff_nil in Hn as ->. constructor. }
  destruct (r_CapabilityLookup g) as [lookup|]; [|by intros [-> ?]]. cbn [RequirementFor].
  intros (h1 & [rq st err] & h2 & -> & _ & Hr)%returns_bind. destruct st; simpl in Hr; try by destruct Hr.
  apply returns_bind in Hr as (h3 & [err'|ys] & h4 & -> & Hx & Hr); [by destruct Hr|].
  apply resolve_references_returns in Hx as (new & -> & Hnew).
  destruct Hr as (t & h5 & -> & [-> [= _ ->]]). simpl.
  eapply Forall2_impl; [exact Hnew|]. intros x y Hxy. by apply resolved_from_app.
Qed.

(** C29. The external Secrets gate hands on one record per reference, in the order of the
    specification: the declared target, with the resource version the target Secret had when the
    gate read it. *)
Theorem validateExternalSecrets_resolves g w h w' resolved :
  returns (validateExternalSecrets g w) h (w', inr resolved) →
  Forall2 (resolved_from (w_Namespace w) h) (sp_ExternalSecrets (w_Spec w)) resolved ∧
  re_targetSecret <$> resolved = er_TargetSecret <$> sp_ExternalSecrets (w_Spec w).
Proof.
  intros Hr%validateExternalSecrets_returns. split; [done|].
  induction Hr as [|x y xs ys [Ht _] _ IH]; [done|]. rewrite !fmap_cons. by f_equal.
Qed.

(** Direct references are all read before the status is reported. *)
Lemma validate_secrets_returns ns names h :
  returns (validate_secrets ns names) h None → Forall (λ n, ∃ m, Call (EGetSecretMetadata ns n) (inr m) ∈ h) names.
Proof.
  revert h. induction names as [|n names IH]; intros h; simpl; [constructor|].
  intros (x & h' & -> & Hr). destruct x as [err|m]; [destruct (IsNotFound err); by destruct Hr|].
  constructor; [exists m; by left|]. eapply Forall_impl; [by apply IH|]. intros n' [m' Hm]. exists m'. by right.
Qed.

End External.

Section Gates.
Context `{ConditionsLaws, ApiErrors, UnstructuredHelpersLaws, OwnerHelpers}.
Context `{SemanticDeepEqual AIWorkloadStatus, SemanticDeepEqual Object}.

(** The gates as a whole hand on what the external Secrets gate resolved. *)
Lemma run_gates_resolved r w h w' external exposure :
  returns (run_gates r w) h (w', inr (external, exposure)) → Forall (api_contract any_text) h →
  Forall2 (resolved_from (w_Namespace w) h) (sp_ExternalSecrets (w_Spec w)) external.
Proof.
  intros Hr Hh. assert (follows any_text w w) as Hw by (by split). unfold run_gates in Hr.
  apply returns_bind in Hr as (h1 & [w1 [err|]] & k1 & -> & Ht & Hr); [by destruct Hr as [_ [=]]|].
  apply Forall_app in Hh as [Hh1 Hk1].
  pose proof (safe_returns _ _ _ _ (validateTenant_safe any_text w (r_gates r) w Hw) Ht Hh1) as [Hw1 _].
  apply returns_bind in Hr as (h2 & [w2 [err|b]] & k2 & -> & Hp & Hr); [by destruct Hr as [_ [=]]|].
  apply Forall_app in Hk1 as [Hh2 Hk2].
  pose proof (safe_returns _ _ _ _ (patchStatus_safe any_text w w w1 Hw1) Hp Hh2) as [Hw2 _].
  apply returns_bind in Hr as (h3 & [w3 [err|ys]] & k3 & -> & He & Hr); [by destruct Hr as [_ [=]]|].
  assert (ys = external) as ->.
  { apply returns_bind in Hr as (h4 & [w4 [err|b4]] & k4 & -> & _ & Hr); [by destruct Hr as [_ [=]]|].
    apply returns_bind in Hr as (h5 & [w5 [err|st]] & k5 & -> & _ & Hr); [by destruct Hr as [_ [=]]|].
    apply returns_bind in Hr as (h6 & [w6 [err|b6]] & k6 & -> & _ & Hr); [by destruct Hr as [_ [=]]|].
    by destruct Hr as [_ [= _ -> _]]. }
  apply validateExternalSecrets_returns in He. destruct Hw2 as [(Hsp & Hns & _) _]. rewrite Hsp, Hns in He.
  eapply Forall2_impl; [exact He|]. intros x y Hxy. rewrite app_assoc. by apply resolved_from_app.
Qed.

End Gates.

(** ** The revision of the external Secrets *)

(** No byte of the string is NUL, as in every name and resource version. *)
Definition nul_free (s : string) : Prop := (0%N ∉ bytes s).

Definition nul_free_reference (x : resolvedExternalSecret) : Prop :=
  nul_free (re_targetSecret x) ∧ nul_free (re_resourceVersion x).

Lemma split_nul (s t : list N) u v :
  (0%N ∉ s) → (0%N ∉ t) → s ++ 0%N :: u = t ++ 0%N :: v → s = t ∧ u = v.
Proof.
  revert t. induction s as [|a s IH]; intros [|b t] Hs Ht; simpl; [by intros [= ->]|set_solver|set_solver|].
  intros [= -> He]. destruct (IH t) as [-> ->]; [set_solver|set_solver|done|done].
Qed.

#[local] Instance N_of_ascii_inj : Inj eq eq N_of_ascii.
Proof. intros a b Hab. by rewrite <-(ascii_N_embedding a), <-(ascii_N_embedding b), Hab. Qed.

Lemma bytes_inj s t : bytes s = bytes t → s = t.
Proof.
  unfold bytes. intros He. rewrite <-(String.string_of_list_ascii_of_string s), <-(String.string_of_list_ascii_of_string t).
  f_equal. by apply (inj (fmap N_of_ascii)) in He.
Qed.

Lemma revision_payload_inj xs ys :
  Forall nul_free_reference xs → Forall nul_free_reference ys → revision_payload xs = revision_payload ys → xs = ys.
Proof.
  intros Hx. revert ys. induction Hx as [|[t v] xs [Ht Hv] _ IH]; intros ys Hy; simpl.
  { destruct ys as [|[t v] ys]; [done|]. unfold revision_payload. simpl. intros He.
    symmetry in He. apply app_nil in He as [He _]. by apply app_nil in He as [_ ?]. }
  destruct ys as [|[t' v'] ys].
  { unfold revision_payload. simpl. intros He. apply app_nil in He as [He _]. by apply app_nil in He as [_ ?]. }
  apply Forall_cons in Hy as [[Ht' Hv'] Hy]. unfold revision_payload. simpl. rewrite <-!app_assoc. simpl.
  intros He. apply split_nul in He as [He1 He]; [|done..]. rewrite <-!app_assoc in He. simpl in He.
  apply split_nul in He as [He2 He]; [|done..].
  apply bytes_inj in He1, He2. simpl in *. subst. f_equal. by apply IH.
Qed.

(** C30. The revision of the external Secrets is empty exactly without references, and otherwise it
    identifies the targets and versions it was made from: two lists of references with the same
    revision are equal, or their payloads are different texts with one SHA-256 digest. *)
Theorem externalSecretRevision_spec xs ys :
  Forall nul_free_reference xs → Forall nul_free_reference ys →
  (externalSecretRevision xs = "" ↔ xs = []) ∧
  (externalSecretRevision xs = externalSecretRevision ys →
    xs = ys ∨ revision_payload xs ≠ revision_payload ys ∧
      Sum256 (revision_payload xs) = Sum256 (revision_payload ys)).
Proof.
  intros Hx Hy.
  assert (∀ zs, zs ≠ [] → externalSecretRevision zs = hex (Sum256 (revision_payload zs))) as Hne by (by intros []).
  assert (∀ l, hex (Sum256 l) ≠ "") as Hhex.
  { intros l He%(f_equal String.length). rewrite length_hex, length_Sum256 in He. done. }
  split.
  - destruct xs as [|x xs]; [done|]. rewrite Hne by done. split; [intros He; destruct (Hhex _ He)|done].
  - destruct (decide (revision_payload xs = revision_payload ys)) as [He|He].
    { left. by apply revision_payload_inj. }
    destruct xs as [|x xs], ys as [|y ys]; [by left|..].
    + rewrite (Hne (y :: ys)) by done. intros Hr. symmetry in Hr. destruct (Hhex _ Hr).
    + rewrite (Hne (x :: xs)) by done. intros Hr. destruct (Hhex _ Hr).
    + rewrite !Hne by done. intros Hr%hex_inj; [|apply Sum256_range..]. by right.
Qed.

(** ** The Secrets a plan mounts *)

Section Secrets.
Context `{Quantities, UnstructuredHelpersLaws}.

Lemma decorate_plan_deployment plan revision i :
  NoDup (childOrder ∘ i_Object <$> plan) → i ∈ decorate_plan plan revision → is_deployment (i_Object i) = true →
  ∃ j, j ∈ plan ∧ i_Object j = i_Object i ∧ i_Mutate i = Some (decorated_mutation (i_Mutate j) revision).
Proof.
  assert (∀ o, is_deployment o = true → childOrder o = 1%Z) as Hone by (by intros [|[]|[]]).
  induction plan as [|k plan IH]; simpl; [set_solver|]. intros [Hk Hnd]%NoDup_cons Hi Hd.
  destruct (is_deployment (i_Object k)) eqn:Ek; simpl in Hi.
  - apply elem_of_cons in Hi as [->|Hi]; [exists k; split; [by left|done]|].
    destruct Hk. simpl. rewrite (Hone _ Ek), <-(Hone _ Hd). by apply (list_elem_of_fmap_2 (childOrder ∘ i_Object)).
  - apply elem_of_cons in Hi as [->|Hi]; [congruence|].
    destruct (IH Hnd Hi Hd) as (j & Hj & ? & ?). exists j. split; [by right|done].
Qed.

(** The only intent of the production plan for a Deployment. *)
Lemma Build_deployment p plan i :
  Build (Some p) = Ok plan → i ∈ plan → is_deployment (i_Object i) = true →
  ∃ rq lm, i = deploymentIntent p rq lm.
Proof.
  intros (rq & lm & s & a & b & _ & Hs & Ha & Hb & ->)%Build_inv Hi Hd.
  apply serviceIntent_wf in Hs as (_ & _ & Hs). apply autoscalingIntent_wf in Ha as (_ & _ & Ha).
  apply availabilityIntent_wf in Hb as (_ & _ & Hb). destruct (networkPolicyIntent_wf p) as (_ & _ & Hn).
  exists rq, lm. rewrite !elem_of_cons, elem_of_nil in Hi.
  destruct Hi as [->|[->|[->|[->|[->|[->|[]]]]]]]; rewrite ?Hs, ?Hn, ?Ha, ?Hb in Hd; done.
Qed.

Lemma route_not_deployment p i : HTTPRouteIntent (Some p) = Ok i → is_deployment (i_Object i) = false.
Proof. intros (_ & _ & ->)%HTTPRouteIntent_wf. done. Qed.

Lemma build_plan_deployment w external exposure plan i f :
  build_plan Build w external exposure = Ok plan → i ∈ plan → is_deployment (i_Object i) = true → i_Mutate i = Some f →
  ∃ rq lm,
    let g := on_Deployment (λ d, mutateDeployment d (append_SecretRefs (re_targetSecret <$> external) w) rq lm) in
    f = if bool_decide (externalSecretRevision external = "") then g
        else decorated_mutation (Some g) (externalSecretRevision external).
Proof.
  intros (children & routes & ordered & Hc & Hr & Hv & ->)%build_plan_inv Hi Hd Hf.
  assert (∀ j, j ∈ ordered → is_deployment (i_Object j) = true →
    ∃ rq lm, j = deploymentIntent (append_SecretRefs (re_targetSecret <$> external) w) rq lm) as Hdep.
  { intros j Hj Hjd. destruct (ValidatePlan_sorted _ _ _ Hv) as [Hp _]. rewrite Hp, elem_of_app in Hj.
    destruct Hj as [Hj|Hj]; [by eapply Build_deployment|].
    destruct (xs_manageRoute exposure); [|subst; set_solver]. destruct Hr as (route & Hr & ->).
    apply list_elem_of_singleton in Hj as ->. apply route_not_deployment in Hr. congruence. }
  unfold decorateExternalSecretRevision in Hi. case_bool_decide.
  - destruct (Hdep i Hi Hd) as (rq & lm & ->). exists rq, lm. by injection Hf as <-.
  - apply decorate_plan_deployment in Hi as (j & Hj & Ho & Hm); [| |done].
    + rewrite <-Ho in Hd. destruct (Hdep j Hj Hd) as (rq & lm & ->). exists rq, lm. rewrite Hm in Hf.
      by injection Hf as <-.
    + destruct (ValidatePlan_sorted _ _ _ Hv) as [Hp _]. rewrite Hp.
      by apply ValidatePlan_Ok in Hv as (_ & _ & ? & _).
Qed.

(** C31. The pods of a reconciled Deployment get the direct Secret references and then the targets of
    the external ones, none of them optional; and when there are external references, the pod template
    carries their revision, so that a new version of a target rolls the pods. *)
Theorem build_plan_secrets w external exposure plan i f d o :
  build_plan Build w external exposure = Ok plan → i ∈ plan → is_deployment (i_Object i) = true →
  i_Mutate i = Some f → f (ODeployment d) = Ok o →
  ∃ d' c, o = ODeployment d' ∧
    first_match (λ c, bool_decide (co_Name c = ContainerName)) (ps_Containers (pt_Spec (dp_Template d'))) = Some c ∧
    co_EnvFrom c = envFromSecret <$> (sp_SecretRefs (w_Spec w) ++ (re_targetSecret <$> external)) ∧
    efs_SecretRef <$> co_EnvFrom c =
      (λ name, Some {| ses_Name := name; ses_Optional := Some false |}) <$>
        (sp_SecretRefs (w_Spec w) ++ (re_targetSecret <$> external)) ∧
    map_of (om_Annotations (pt_meta (dp_Template d'))) !! externalSecretRevisionKey =
      if bool_decide (external = [])
      then map_of (om_Annotations (pt_meta (dp_Template d))) !! externalSecretRevisionKey
      else Some (externalSecretRevision external).
Proof.
  intros Hp Hi Hd Hf Ho. destruct (build_plan_deployment _ _ _ _ _ _ Hp Hi Hd Hf) as (rq & lm & ->).
  clear Hp Hi Hd Hf. set (p := append_SecretRefs (re_targetSecret <$> external) w) in *.
  assert (∀ d', mutateDeployment d p rq lm = Ok d' →
    (∃ c, first_match (λ c, bool_decide (co_Name c = ContainerName)) (ps_Containers (pt_Spec (dp_Template d'))) = Some c ∧
      co_EnvFrom c = envFromSecret <$> (sp_SecretRefs (w_Spec w) ++ (re_targetSecret <$> external))) ∧
    map_of (om_Annotations (pt_meta (dp_Template d'))) !! externalSecretRevisionKey =
      map_of (om_Annotations (pt_meta (dp_Template d))) !! externalSecretRevisionKey) as Hmut.
  { intros d' (_ & _ & _ & _ & Hm & Hpod & _)%mutateDeployment_inv. rewrite Hm, Hpod. simpl. split.
    - destruct (mutateContainers_managed (ps_Containers (pt_Spec (dp_Template d))) p rq lm) as (app & _ & Hc).
      eexists. split; [exact Hc|done].
    - by rewrite lookup_insert_ne. }
  destruct external as [|x external].
  - simpl in Ho. destruct (mutateDeployment d p rq lm) as [d'| |] eqn:Em; try done. injection Ho as <-.
    destruct (Hmut d' eq_refl) as [(c & Hc & He) Ha]. exists d', c. split_and!; try done. by rewrite He, <-list_fmap_compose.
  - rewrite bool_decide_false in Ho.
    2:{ intros He%(f_equal String.length). unfold externalSecretRevision in He.
        rewrite length_hex, length_Sum256 in He. done. }
    apply decorated_mutation_inv in Ho as (d' & Hd' & ->). simpl in Hd'.
    destruct (mutateDeployment d p rq lm) as [d''| |] eqn:Em; try done. injection Hd' as <-.
    destruct (Hmut d'' eq_refl) as [(c & Hc & He) _]. exists (annotate_revision (externalSecretRevision (x :: external)) d''), c.
    split; [done|]. split; [exact Hc|]. split; [exact He|].
    split; [by rewrite He, <-list_fmap_compose|]. rewrite bool_decide_false by done.
    apply lookup_insert_eq.
Qed.

End Secrets.

(** ** The observation of the route *)

Section RouteStatus.
Context `{UnstructuredHelpers}.

(** The parent of the route status that belongs to the Gateway and listener. *)
Definition is_parent (gateway sectionName : string) (value : any) : bool :=
  match any_map value with
  | Some parent =>
      match any_map (any_get parent "parentRef") with
      | Some ref => any_is_string (any_get ref "name") gateway && any_is_string (any_get ref "sectionName") sectionName
      | None => false
      end
  | None => false
  end.

(** The last status a list of conditions gives a type. *)
Definition status_of (typ : string) (value : any) : option string :=
  match any_map value with
  | Some condition => if any_is_string (any_get condition "type") typ then any_string (any_get condition "status") else None
  | None => None
  end.

Definition last_status (typ : string) (conditions : list any) : ConditionStatus :=
  default ConditionUnknown (condition_status <$> last (omap (status_of typ) conditions)).

Lemma any_is_string_inj v s t : any_is_string v s = true → any_is_string v t = true → s = t.
Proof. destruct v; simpl; try done. rewrite !bool_decide_eq_true. congruence. Qed.

Lemma default_last {A B} (f : A → B) (d : B) l x :
  default (f x) (f <$> last l) = default d (f <$> last (x :: l)).
Proof. rewrite last_cons. by destruct (last l). Qed.

Lemma route_conditions_spec conditions accepted resolved :
  route_conditions conditions accepted resolved =
  (default accepted (condition_status <$> last (omap (status_of "Accepted") conditions)),
   default resolved (condition_status <$> last (omap (status_of "ResolvedRefs") conditions))).
Proof.
  revert accepted resolved. induction conditions as [|v conditions IH]; intros accepted resolved; [done|].
  assert (∀ typ, omap (status_of typ) (v :: conditions) =
    match status_of typ v with Some s => s :: omap (status_of typ) conditions | None => omap (status_of typ) conditions end)
    as Hcons by done.
  rewrite !Hcons. clear Hcons. simpl. destruct (any_map v) as [m|] eqn:Ev.
  2:{ assert (∀ typ, status_of typ v = None) as Hst by (intros; unfold status_of; by rewrite Ev).
      rewrite !Hst. apply IH. }
  assert (∀ typ, status_of typ v =
    if any_is_string (any_get m "type") typ then any_string (any_get m "status") else None) as Hst
    by (intros; unfold status_of; by rewrite Ev).
  rewrite !Hst. destruct (any_string (any_get m "status")) as [s|].
  - destruct (any_is_string (any_get m "type") "Accepted") eqn:Ea.
    + destruct (any_is_string (any_get m "type") "ResolvedRefs") eqn:Er;
        [by pose proof (any_is_string_inj _ _ _ Ea Er)|].
      rewrite IH. by rewrite (default_last condition_status accepted).
    + destruct (any_is_string (any_get m "type") "ResolvedRefs") eqn:Er; [|apply IH].
      rewrite IH. by rewrite (default_last condition_status resolved).
  - destruct (any_is_string _ "Accepted"), (any_is_string _ "ResolvedRefs"); apply IH.
Qed.

Lemma route_parents_spec parents gateway sectionName :
  route_parents parents gateway sectionName =
  match first_match (is_parent gateway sectionName) parents with
  | None => (ConditionUnknown, ConditionUnknown, false)
  | Some value =>
      match any_map value ≫= (λ parent, any_slice (any_get parent "conditions")) with
      | None => (ConditionUnknown, ConditionUnknown, true)
      | Some conditions => (last_status "Accepted" conditions, last_status "ResolvedRefs" conditions, true)
      end
  end.
Proof.
  induction parents as [|v parents IH]; simpl; [done|].
  destruct (is_parent gateway sectionName v) eqn:Ep; unfold is_parent in Ep.
  - destruct (any_map v) as [m|]; [|done]. destruct (any_map (any_get m "parentRef")) as [ref|]; [|done].
    rewrite <-negb_andb, Ep. simpl. destruct (any_slice (any_get m "conditions")); [|done].
    by rewrite route_conditions_spec.
  - destruct (any_map v) as [m|]; [|done]. destruct (any_map (any_get m "parentRef")) as [ref|]; [|done].
    by rewrite <-negb_andb, Ep.
Qed.

(** The exposure is ready exactly when the route's status has an entry for the workload's Gateway and
    listener whose last Accepted and ResolvedRefs conditions are both true; while an answer is
    outstanding the route is looked at again after fifteen seconds, and otherwise after a minute. *)
Theorem exposure_ready_spec route gateway sectionName :
  let '(status, reason, message, delay) := exposure_observation (httpRouteConditions route gateway sectionName) in
  (status = ConditionTrue ↔
    ∃ parents value parent conditions,
      NestedSlice (un_Object route) ["status"; "parents"] = Some (parents, true) ∧
      first_match (is_parent gateway sectionName) parents = Some value ∧ any_map value = Some parent ∧
      any_slice (any_get parent "conditions") = Some conditions ∧
      last_status "Accepted" conditions = ConditionTrue ∧ last_status "ResolvedRefs" conditions = ConditionTrue) ∧
  (status = ConditionTrue ∨ status = ConditionFalse) ∧
  delay = (if bool_decide (reason = "HTTPRoutePending") then 15 * Second else Minute)%Z ∧
  (status = ConditionTrue → reason = "HTTPRouteReady").
Proof.
  assert (∀ a r : ConditionStatus, ∀ b : bool,
    let '(status, reason, message, delay) := exposure_observation (a, r, b) in
    (status = ConditionTrue ↔ b = true ∧ a = ConditionTrue ∧ r = ConditionTrue) ∧
    (status = ConditionTrue ∨ status = ConditionFalse) ∧
    delay = (if bool_decide (reason = "HTTPRoutePending") then 15 * Second else Minute)%Z ∧
    (status = ConditionTrue → reason = "HTTPRouteReady")) as Hobs.
  { intros a r b. unfold exposure_observation. destruct b; simpl; [|naive_solver].
    repeat (case_bool_decide; simpl); naive_solver. }
  assert (∃ a r b, httpRouteConditions route gateway sectionName = (a, r, b) ∧
    (b = true ∧ a = ConditionTrue ∧ r = ConditionTrue ↔
      ∃ parents value parent conditions,
      NestedSlice (un_Object route) ["status"; "parents"] = Some (parents, true) ∧
      first_match (is_parent gateway sectionName) parents = Some value ∧ any_map value = Some parent ∧
      any_slice (any_get parent "conditions") = Some conditions ∧
      last_status "Accepted" conditions = ConditionTrue ∧ last_status "ResolvedRefs" conditions = ConditionTrue))
    as (a & r & b & -> & Hiff).
  { unfold httpRouteConditions. destruct (NestedSlice _ _) as [[parents []]|]; [|do 3 eexists; (split; [done|]); naive_solver..].
    rewrite route_parents_spec. destruct (first_match _ parents) as [value|] eqn:Em;
      [|do 3 eexists; (split; [done|]); naive_solver].
    destruct (any_map value) as [parent|] eqn:Ev; simpl; [|do 3 eexists; (split; [done|]); naive_solver].
    destruct (any_slice (any_get parent "conditions")) as [conditions|] eqn:Ec;
      [|do 3 eexists; (split; [done|]); naive_solver].
    do 3 eexists. split; [done|]. naive_solver. }
  specialize (Hobs a r b). destruct (exposure_observation (a, r, b)) as [[[status reason] message] delay].
  by rewrite Hiff in Hobs.
Qed.

End RouteStatus.

(** ** Witnesses *)

Section Witnesses.
Import Ref Sample.

Definition gates : gate_config := {| r_TenantReader := Some TenantReader;
  r_ExternalSecretsReader := Some ExternalSecretsReader; r_GatewayReader := Some GatewayReader;
  r_CapabilityLookup := Some HasResource |}.

Definition external_run := validateExternalSecrets gates full_workload.
Definition external_calls : history := calls (cluster full_workload) external_run.

Lemma validateExternalSecrets_resolves_witness :
  ∃ w' resolved, returns external_run external_calls (w', inr resolved) ∧ re_targetSecret <$> resolved = ["target"].
Proof.
  assert (∃ s' w' resolved, run handler (cluster full_workload) external_run = Some (s', (w', inr resolved)))
    as (s' & w' & resolved & Hr) by (vm_compute; eexists _, _, _; reflexivity).
  apply run_returns in Hr. exists w', resolved. split; [exact Hr|].
  destruct (validateExternalSecrets_resolves gates full_workload external_calls w' resolved Hr) as [_ Ht].
  rewrite Ht. reflexivity.
Defined.

Definition one_reference : list resolvedExternalSecret :=
  [{| re_targetSecret := "target"; re_resourceVersion := "7" |}].

Lemma one_reference_nul_free : Forall nul_free_reference one_reference.
Proof.
  constructor; [|constructor].
  split; intros H%list_elem_of_In; vm_compute in H; repeat (destruct H as [H|H]; [discriminate H|]); exact H.
Qed.

Lemma externalSecretRevision_spec_witness : externalSecretRevision one_reference ≠ "".
Proof.
  destruct (externalSecretRevision_spec one_reference [] one_reference_nul_free (Forall_nil_2 _)) as [He _].
  intros Hr. apply He in Hr. discriminate Hr.
Defined.

Definition no_route : exposureState := {| xs_manageRoute := false; xs_active := false |}.

Lemma default_Some {A} (o : option A) d : bool_decide (is_Some o) = true → o = Some (default d o).
Proof. destruct o; [done|]. by rewrite bool_decide_false by apply is_Some_None. Qed.

Definition rolled_plan : list Intent := result_of (build_plan Build workload one_reference no_route) [].
Definition second_intent : Intent := default (serviceAccountIntent workload) (rolled_plan !! 1%nat).
Definition second_mutation : Object → res Object := default (λ _, Panic) (i_Mutate second_intent).
Definition plain_deployment : Deployment := new_Deployment (new_meta (ChildName "sample") ns).
Definition rolled_object : Object := result_of (second_mutation (ODeployment plain_deployment)) (OOther (new_meta "" "")).

Lemma build_plan_secrets_witness :
  ∃ d', rolled_object = ODeployment d' ∧
    map_of (om_Annotations (pt_meta (dp_Template d'))) !! externalSecretRevisionKey =
      Some (externalSecretRevision one_reference).
Proof.
  destruct (build_plan_secrets workload one_reference no_route rolled_plan second_intent second_mutation
    plain_deployment rolled_object) as (d' & c & Ho & _ & _ & _ & Ha).
  - apply result_of_Ok. vm_compute. reflexivity.
  - apply (list_elem_of_lookup_2 _ 1%nat). apply default_Some. vm_compute. reflexivity.
  - vm_compute. reflexivity.
  - apply default_Some. vm_compute. reflexivity.
  - apply result_of_Ok. vm_compute. reflexivity.
  - exists d'. split; [exact Ho|]. rewrite Ha. reflexivity.
Defined.

End Witnesses.
