(* ===== verification/OperatorTheorems.v ===== *)
(** * Theorems about discovery, watches, metrics and startup *)
From stdpp Require Import relations.
From S2P Require Import Prelude Errors GoStd Kube Api Naming Intent Builder Effects KubeReference Sample.
From S2P Require Import Capability Conditions Status Failures Gates Controller Contract Watches Registration Telemetry Manager.
From S2P Require Import ReconcileTheorems.

(** ** Optional capabilities *)

Section Capability.
Context `{ApiErrors}.

(** The discovery answer in [h] for a resource's group version. *)
Definition discovered (h : history) (resource : APIResource) (x : reply (list string)) : Prop :=
  Call (EServerResources (ar_GroupVersion resource)) (x : answer (EServerResources (ar_GroupVersion resource))) ∈ h.

(** The names hold the resource; any name stands for the wildcard. *)
Definition lists_resource (names : list string) (resource : APIResource) : Prop :=
  ar_Resource resource = "*" ∧ names ≠ [] ∨ ar_Resource resource ∈ names.

Lemma HasResource_returns resource h out :
  returns (HasResource resource) h out →
  match out with
  | inr true => ∃ names, discovered h resource (inr names) ∧ lists_resource names resource
  | inr false => (∃ err, discovered h resource (inl err) ∧ IsNotFound err = true) ∨
      ∃ names, discovered h resource (inr names) ∧ ¬ lists_resource names resource
  | inl err => discovered h resource (inl err) ∧ IsNotFound err = false
  end.
Proof.
  unfold HasResource, discovered. simpl. intros (x & h' & -> & Hr). destruct x as [err|names].
  - destruct (IsNotFound err) eqn:En; destruct Hr as [-> ->].
    + left. exists err. split; [by left|done].
    + split; [by left|done].
  - destruct Hr as [-> ->]. destruct (existsb _ names) eqn:Ex.
    + exists names. split; [by left|]. apply existsb_exists in Ex as (name & Hin%list_elem_of_In & Hn).
      apply orb_true_iff in Hn as [Hn%bool_decide_eq_true|Hn%bool_decide_eq_true].
      * left. split; [done|]. by intros ->; apply not_elem_of_nil in Hin.
      * right. by rewrite <-Hn.
    + right. exists names. split; [by left|]. apply not_true_iff_false in Ex. intros Hl. apply Ex, existsb_exists.
      destruct Hl as [[Hw Hne]|Hin].
      * destruct names as [|name names]; [done|]. exists name. split; [by left|]. by rewrite Hw, bool_decide_true.
      * exists (ar_Resource resource). split; [by apply list_elem_of_In|].
        by rewrite (bool_decide_true (ar_Resource resource = ar_Resource resource)), orb_true_r.
Qed.

#[local] Opaque HasResource.

Lemma discovered_app h1 h h2 resource x : discovered h resource x → discovered (h1 ++ h ++ h2) resource x.
Proof. unfold discovered. set_solver. Qed.

(** C40. A capability is available only when discovery listed every resource its contract names,
    unavailable only when discovery said one of them is missing, and unknown only when discovery
    failed on one, with that error: an API failure is never taken for absence. *)
Theorem Detect_spec requirement h o :
  returns (Detect HasResource requirement) h o →
  match ob_State o with
  | Available => ∀ resource, resource ∈ rq_Resources requirement →
      ∃ names, discovered h resource (inr names) ∧ lists_resource names resource
  | Unavailable => ∃ resource, resource ∈ rq_Resources requirement ∧
      ((∃ err, discovered h resource (inl err) ∧ IsNotFound err = true) ∨
       ∃ names, discovered h resource (inr names) ∧ ¬ lists_resource names resource)
  | Unknown => ∃ resource err, resource ∈ rq_Resources requirement ∧ ob_Err o = Some err ∧
      discovered h resource (inl err) ∧ IsNotFound err = false
  end.
Proof.
  unfold Detect. generalize (rq_Resources requirement). intros resources. revert h.
  induction resources as [|resource resources IH]; intros h; simpl; [intros [-> ->]; simpl; set_solver|].
  intros (h1 & out & h2 & -> & Hl%HasResource_returns & Hr)%returns_bind.
  destruct out as [err|[]]; simpl in Hr.
  - destruct Hr as [-> ->]. simpl. destruct Hl as [Hd Hn]. exists resource, err.
    split; [by left|]. split; [done|]. split; [by apply (discovered_app [] h1 [])|done].
  - specialize (IH h2 Hr). destruct (ob_State o).
    + intros x [->|Hx]%elem_of_cons.
      * destruct Hl as (names & Hd & Hin). exists names. split; [by apply (discovered_app [])|done].
      * destruct (IH x Hx) as (names & Hd & Hin). exists names. split; [|done].
        rewrite <-(app_nil_r h2). by apply discovered_app.
    + destruct IH as (x & Hx & Hcase). exists x. split; [by right|]. rewrite <-(app_nil_r h2).
      destruct Hcase as [(err & Hd & Hn)|(names & Hd & Hn)]; [left; exists err|right; exists names];
        (split; [by apply discovered_app|done]).
    + destruct IH as (x & err & Hx & He & Hd & Hn). exists x, err. split; [by right|]. split; [done|].
      split; [|done]. rewrite <-(app_nil_r h2). by apply discovered_app.
  - destruct Hr as [-> ->]. simpl. exists resource. split; [by left|]. rewrite <-(app_nil_l (h1 ++ [])).
    destruct Hl as [(err & Hd & Hn)|(names & Hd & Hn)]; [left; exists err|right; exists names];
      (split; [by apply discovered_app|done]).
Qed.

End Capability.

(** ** Watches *)

(** The workload mounts the Secret, directly or as the target of an external one. *)
Definition references_secret (p : AIWorkload) (name : string) : Prop :=
  name ≠ "" ∧ (name ∈ sp_SecretRefs (w_Spec p) ∨ name ∈ er_TargetSecret <$> sp_ExternalSecrets (w_Spec p)).

Lemma secretIndex_spec p : NoDup (secretIndex (Some p)) ∧ ∀ k, k ∈ secretIndex (Some p) ↔ references_secret p k.
Proof.
  unfold secretIndex, references_secret.
  pose proof (index_names_spec (sp_SecretRefs (w_Spec p)) [] ∅) as H1.
  destruct (index_names _ [] ∅) as [keys seen]. destruct H1 as (Hs & Hnd & He & Hk & _);
    [set_solver|constructor|set_solver|].
  pose proof (index_names_spec (er_TargetSecret <$> sp_ExternalSecrets (w_Spec p)) keys seen Hs Hnd He) as H2.
  destruct (index_names _ keys seen) as [keys' seen']. destruct H2 as (_ & Hnd' & _ & Hk' & _).
  split; [done|]. intros k. simpl. rewrite Hk', Hk, elem_of_nil. naive_solver.
Qed.

(** The API server answers an indexed list with the objects of the namespace the index function
    files under the value. *)
Definition indexed_list (c : call event answer) : Prop :=
  match c with
  | Call (EListWorkloads ns field) x => ∀ items, (x : reply (list AIWorkload)) = inr items →
      ∀ p, p ∈ items → w_Namespace p = ns ∧
        (∀ k, field = Some (SecretReferenceIndex, k) → k ∈ secretIndex (Some p))
  | _ => True
  end.

Definition listed_items (c : call event answer) : option (list AIWorkload) :=
  match c with
  | Call (EListWorkloads _ _) x => match (x : reply (list AIWorkload)) with inr items => Some items | inl _ => None end
  | _ => None
  end.

(** A Secret event requeues exactly the workloads the index holds for it, all of them of the
    Secret's own namespace and mounting it, and only when that namespace is watched; the index
    lists each mounted Secret of a workload once. *)
Theorem RequestsForSecret_spec r o h requests :
  Forall indexed_list h → returns (RequestsForSecret r o) h requests →
  let listed items :=
    Call (EListWorkloads (om_Namespace o) (Some (SecretReferenceIndex, om_Name o))) (inr items : reply (list AIWorkload)) ∈ h in
  (watchesNamespace r (om_Namespace o) = false → h = [] ∧ requests = []) ∧
  (∀ items p, listed items → p ∈ items → (w_Namespace p, w_Name p) ∈ requests) ∧
  (∀ ns name, (ns, name) ∈ requests →
    ns = om_Namespace o ∧ watchesNamespace r ns = true ∧
    ∃ items p, listed items ∧ p ∈ items ∧ w_Namespace p = ns ∧ w_Name p = name ∧
      references_secret p (om_Name o) ∧ NoDup (secretIndex (Some p))).
Proof.
  intros Hh. unfold RequestsForSecret.
  destruct (watchesNamespace r (om_Namespace o)) eqn:Ew; simpl; [|intros [-> ->]; set_solver].
  intros (x & h' & -> & Hr). split; [done|]. apply Forall_cons in Hh as [Hx _].
  destruct x as [err|items]; destruct Hr as [-> ->].
  { split; [|set_solver]. by intros items p ?%list_elem_of_singleton%(f_equal listed_items). }
  split.
  { intros items' p Hc%list_elem_of_singleton%(f_equal listed_items) Hp. injection Hc as ->. apply list_elem_of_fmap. by exists p. }
  intros ns name Hin. apply list_elem_of_fmap in Hin as (p & [= -> ->] & Hp).
  destruct (Hx items eq_refl p Hp) as [Hns Hk]. split; [done|]. split; [by rewrite Hns|].
  exists items, p. split; [by left|]. split; [done|]. split; [done|]. split; [done|].
  destruct (secretIndex_spec p) as [Hnd Hi]. split; [|done]. by apply Hi, Hk.
Qed.

(** ** Metrics *)

Section Telemetry.
Context `{Conditions}.

(** The list calls of a refresh over [namespaces] and their answers. *)
Definition listing (namespaces : list string) (answers : list (list AIWorkload)) : history :=
  zip_with (λ ns items, Call (EListWorkloads ns None) (inr items : answer (EListWorkloads ns None))) namespaces answers.

Lemma count_namespaces_returns namespaces active ready degraded h out :
  returns (count_namespaces namespaces active ready degraded) h out →
  match out with
  | inl err => True
  | inr counts => ∃ answers, length answers = length namespaces ∧ h = listing namespaces answers ∧
      counts = (active + Z.of_nat (length (concat answers)),
                ready + count_condition "Ready" (concat answers),
                degraded + count_condition "Degraded" (concat answers))%Z
  end.
Proof.
  revert active ready degraded h. induction namespaces as [|ns namespaces IH]; intros active ready degraded h; simpl.
  { intros [-> ->]. exists []. split; [done|]. split; [done|]. unfold count_condition. simpl. by rewrite !Z.add_0_r. }
  intros (x & h' & -> & Hr). destruct x as [err|items]; [by destruct Hr as [_ ->]|].
  apply IH in Hr. destruct out as [err|counts]; [done|]. destruct Hr as (answers & Hl & -> & ->).
  exists (items :: answers). split; [simpl; by rewrite Hl|]. split; [done|].
  unfold count_condition. simpl. rewrite !filter_app, !length_app, !Nat2Z.inj_add. f_equal; [f_equal|]; lia.
Qed.

(** A refresh of the workload gauges is all or nothing: they are set to the totals over all the
    namespaces when every list succeeds, and a failed list leaves them as they were; the counters
    are never touched. *)
Theorem RefreshNamespaces_spec m namespaces h m' err :
  returns (RefreshNamespaces m namespaces) h (m', err) →
  match err with
  | Some _ => m' = m
  | None => ∃ answers, length answers = length namespaces ∧ h = listing namespaces answers ∧
      m_active m' = Z.of_nat (length (concat answers)) ∧
      m_ready m' = count_condition "Ready" (concat answers) ∧
      m_degraded m' = count_condition "Degraded" (concat answers) ∧
      m_resources m' = m_resources m ∧ m_failures m' = m_failures m
  end.
Proof.
  unfold RefreshNamespaces. intros (h1 & out & h2 & -> & Hc%count_namespaces_returns & Hr)%returns_bind.
  destruct out as [e|[[active ready] degraded]]; destruct Hr as [-> [= -> ->]]; [done|].
  destruct Hc as (answers & Hl & -> & [= -> -> ->]). exists answers. rewrite app_nil_r. by split_and!.
Qed.

End Telemetry.

(** ** Options *)

Section Options.
Context `{Validation, ApiErrors, Quantities, OwnerHelpers}.

(** The options a manager starts with. *)
Definition valid_options (o : Options) : Prop :=
  (op_WatchNamespace o = "" ∨ op_WatchNamespaces o = []) ∧
  Forall (λ ns, IsDNS1123Label ns = true) (EffectiveWatchNamespaces o) ∧ NoDup (EffectiveWatchNamespaces o) ∧
  IsDNS1123Label (op_ManagerNamespace o) = true ∧
  let '(lease, renew, retry) := effectiveLeaderElectionTiming o in (0 < retry < renew ∧ renew < lease)%Z.

Lemma validate_namespaces_spec values seen :
  validate_namespaces values seen = None ↔
  Forall (λ ns, IsDNS1123Label ns = true) values ∧ NoDup values ∧ ∀ v, v ∈ values → v ∉ seen.
Proof.
  revert seen. induction values as [|v values IH]; intros seen; simpl.
  { split; [|done]. intros _. split; [done|]. split; [constructor|set_solver]. }
  rewrite Forall_cons, NoDup_cons. destruct (IsDNS1123Label v); simpl; [|naive_solver].
  case_bool_decide as Hv; [set_solver|]. rewrite IH. set_solver.
Qed.

Lemma Validate_spec o : Validate o = None ↔ valid_options o.
Proof.
  unfold Validate, valid_options.
  destruct (negb _ && negb _) eqn:E.
  { apply andb_true_iff in E as [E1%negb_true_iff%bool_decide_eq_false E2%negb_true_iff%bool_decide_eq_false].
    split; [done|]. intros [[?|Hn] _]; [done|]. by rewrite Hn in E2. }
  assert (op_WatchNamespace o = "" ∨ op_WatchNamespaces o = []) as Hone.
  { apply andb_false_iff in E as [E%negb_false_iff%bool_decide_eq_true|E%negb_false_iff%bool_decide_eq_true];
      [by left|right; by apply length_zero_iff_nil]. }
  clear E. pose proof (validate_namespaces_spec (EffectiveWatchNamespaces o) ∅) as Hv.
  destruct (validate_namespaces _ ∅) as [err|].
  { split; [done|]. intros (_ & Hd & Hn & _). apply Hv. split; [done|]. split; [done|set_solver]. }
  destruct (proj1 Hv eq_refl) as (Hd & Hn & _). destruct (IsDNS1123Label (op_ManagerNamespace o)); simpl; [|naive_solver].
  destruct (effectiveLeaderElectionTiming o) as [[lease renew] retry].
  destruct (_ || _) eqn:E; rewrite ?orb_true_iff, ?orb_false_iff, ?Z.leb_le, ?Z.leb_gt in E.
  - split; [done|]. intros (_ & _ & _ & _ & ?). lia.
  - split; [|done]. intros _. split_and!; try done; lia.
Qed.

Lemma effective_of r namespaces :
  r_WatchNamespaces r = namespaces → namespaces ≠ [] → effectiveWatchNamespaces r = namespaces.
Proof. unfold effectiveWatchNamespaces. intros -> Hn. by destruct namespaces. Qed.

(** Every library call of [New] succeeds. *)
Definition no_failure (calls : manager_calls) : Prop :=
  mc_clientgoscheme calls = None ∧ mc_AddToScheme calls = None ∧ mc_NewManager calls = None ∧
  mc_NewDiscoveryClient calls = None ∧ rc_IndexField (mc_registration calls) = None ∧
  rc_Complete (mc_registration calls) = None ∧ mc_AddReady calls = None ∧ mc_AddRefresher calls = None ∧
  mc_AddHealthzCheck calls = None ∧ mc_AddReadyzCheck calls = None.

Context {Registry : Type} (Register : Registry → string → Registry * option error).

Lemma checked_Ok err : checked err = Ok () ↔ err = None.
Proof. by destruct err. Qed.

(** Once the metrics are there, [Default] hands them out again. *)
Lemma Default_stored registry s registry' s' m :
  Default Register registry s = (registry', s', Ok m) →
  s' = Some m ∧ ∀ reg, Default Register reg s' = (reg, s', Ok m).
Proof.
  unfold Default. destruct s as [m'|]; [by intros [= <- <- ->]|].
  by destruct (New_metrics Register registry) as [reg' [e|m']]; intros [= <- <- <-].
Qed.

Lemma Default_no_error registry s registry' s' e : Default Register registry s ≠ (registry', s', Err e).
Proof. unfold Default. destruct s; [done|]. by destruct (New_metrics Register registry) as [reg' [|]]. Qed.

Lemma setup_manager_Ok calls o metrics : no_failure calls → ∃ s, setup_manager calls o metrics = Ok s.
Proof.
  intros (_ & _ & _ & _ & Hi & Hc & Hr & Hf & Hz & Hy). unfold setup_manager, SetupWithManager.
  destruct (effectiveLeaderElectionTiming o) as [[lease renew] retry].
  rewrite Hi, Hc, Hr, Hf, Hz, Hy. cbn. by eexists.
Qed.

Lemma setup_manager_no_panic calls o metrics : setup_manager calls o metrics ≠ Panic.
Proof.
  unfold setup_manager, SetupWithManager. destruct (effectiveLeaderElectionTiming o) as [[lease renew] retry].
  by destruct (rc_IndexField _), (rc_Complete _), (mc_AddReady calls), (mc_AddRefresher calls),
    (mc_AddHealthzCheck calls), (mc_AddReadyzCheck calls).
Qed.

Lemma setup_manager_metrics calls o metrics s :
  setup_manager calls o metrics = Ok s → ms_RefresherMetrics s = metrics.
Proof.
  unfold setup_manager. destruct (effectiveLeaderElectionTiming o) as [[lease renew] retry].
  intros Hs. inv_Ok Hs. by simplify_eq.
Qed.

(** What [New] sets up agrees with the options and with itself. *)
Definition consistent_setup (o : Options) (s : ManagerSetup) : Prop :=
  let r := ms_Reconciler s in
  (∀ ns, watchesNamespace r ns = true ↔ ns ∈ ms_DefaultNamespaces s) ∧
  effectiveWatchNamespaces r = EffectiveWatchNamespaces o ∧ effectiveWatchNamespaces r ≠ [] ∧
  g_Namespaces (ms_Refresher s) = effectiveWatchNamespaces r ∧
  (∀ K, well_built K r) ∧ r_Recorder r = true ∧
  (ms_BindAddress s ≠ "0" ↔ ms_SecureServing s = true) ∧
  (0 < ms_RetryPeriod s < ms_RenewDeadline s ∧ ms_RenewDeadline s < ms_LeaseDuration s)%Z.

Lemma setup_manager_consistent calls o metrics s :
  valid_options o → (∀ build, op_Builder o = Some build → PlanBuilder build) →
  setup_manager calls o metrics = Ok s → consistent_setup o s.
Proof.
  intros (_ & _ & _ & _ & Ht) Hb. unfold setup_manager.
  destruct (effectiveLeaderElectionTiming o) as [[lease renew] retry]. intros Hs.
  destruct (SetupWithManager _ _) as [[r' reg]| |] eqn:Es; [|done..].
  apply SetupWithManager_Ok in Es as (_ & _ & -> & _). cbn in Hs. inv_Ok Hs. simplify_eq.
  assert (EffectiveWatchNamespaces o ≠ []) as Hne.
  { unfold EffectiveWatchNamespaces. by destruct (op_WatchNamespaces o). }
  set (r := with_setup_defaults (new_reconciler o)).
  assert (effectiveWatchNamespaces r = EffectiveWatchNamespaces o) as He by (by apply effective_of).
  unfold consistent_setup. cbn [ms_Reconciler ms_DefaultNamespaces ms_Refresher g_Namespaces ms_BindAddress
    ms_SecureServing ms_RetryPeriod ms_RenewDeadline ms_LeaseDuration fst]. fold r. rewrite He.
  split_and!; try done; try lia.
  - intros ns. unfold watchesNamespace. rewrite He, existsb_exists, elem_of_list_to_set, list_elem_of_In.
    split; [by intros (y & Hy & ->%bool_decide_eq_true)|]. intros Hx. exists ns. by rewrite bool_decide_true.
  - intros K. split.
    + intros lookup [= <-]. apply HasResource_ok.
    + intros build [= <-]. destruct (op_Builder o); simpl; [by apply Hb|typeclasses eauto].
  - rewrite negb_true_iff, bool_decide_eq_false. done.
Qed.

(** [New] with options that pass: the libraries' errors, or the metrics' panic, or a setup. *)
Lemma New_Ok calls registry telemetry o registry' telemetry' out :
  New Register calls registry telemetry o = (registry', telemetry', out) →
  (∀ build, op_Builder o = Some build → PlanBuilder build) →
  ∀ s, out = Ok s → valid_options o ∧ consistent_setup o s ∧ telemetry' = Some (ms_RefresherMetrics s).
Proof.
  intros Hnew Hb s ->. unfold New in Hnew. pose proof (Validate_spec o) as Hv.
  destruct (Validate o) as [err|]; [done|]. assert (valid_options o) as Ho by (by apply Hv). split; [done|].
  destruct (_ ≫= _) as [[]|err|]; [|by simplify_eq..].
  destruct (Default Register registry telemetry) as [[reg1 tel1] first] eqn:E1.
  destruct first as [m|e|]; [|by destruct (Default_no_error _ _ _ _ _ E1)|].
  - apply Default_stored in E1 as [-> E2]. rewrite E2 in Hnew. injection Hnew as <- <- Hs. cbn in Hs.
    split; [exact (setup_manager_consistent _ _ _ _ Ho Hb Hs)|]. by rewrite (setup_manager_metrics _ _ _ _ Hs).
  - destruct (Default Register reg1 tel1) as [[reg2 tel2] second]. by simplify_eq.
Qed.

Lemma New_runs calls registry telemetry o registry' telemetry' out :
  New Register calls registry telemetry o = (registry', telemetry', out) → valid_options o → no_failure calls →
  (∃ s, out = Ok s) ∨ out = Panic ∧ (Default Register registry telemetry).2 = Panic.
Proof.
  intros Hnew Ho%Validate_spec Hn. pose proof Hn as (Hs & Ha & Hm & Hk & _).
  unfold New in Hnew. rewrite Ho, Hs, Ha, Hm, Hk in Hnew. cbn in Hnew.
  destruct (Default Register registry telemetry) as [[reg1 tel1] first] eqn:E1.
  destruct first as [m|e|]; [left|by destruct (Default_no_error _ _ _ _ _ E1)|right].
  - apply Default_stored in E1 as [-> E2]. rewrite E2 in Hnew. cbn in Hnew. simplify_eq. by apply setup_manager_Ok.
  - destruct (Default Register reg1 tel1) as [[reg2 tel2] second]. by simplify_eq.
Qed.

Lemma New_panics calls registry telemetry o registry' telemetry' :
  New Register calls registry telemetry o = (registry', telemetry', Panic) →
  (Default Register registry telemetry).2 = Panic.
Proof.
  unfold New. destruct (_ ≫= _) as [[]|err|] eqn:Eb; [|done|].
  - destruct (Default Register registry telemetry) as [[reg1 tel1] first] eqn:E1.
    destruct first as [m|e|]; [|by destruct (Default_no_error _ _ _ _ _ E1)|done].
    apply Default_stored in E1 as [-> E2]. rewrite E2. intros [= _ _ Hs]. cbn in Hs.
    by destruct (setup_manager_no_panic calls o m).
  - destruct (Validate o), (mc_clientgoscheme calls), (mc_AddToScheme calls), (mc_NewManager calls),
      (mc_NewDiscoveryClient calls); discriminate Eb.
Qed.

(** The manager starts only with valid options: one way of naming the namespaces, each a DNS
    label and none twice, a manager namespace, and 0 < retry < renew < lease after the defaults;
    invalid options change nothing.  It starts when the libraries and the metrics do.  What it starts
    agrees with itself: the cache, the reconciler and the gauges cover the same namespaces, at least
    one; the reconciler's parts keep their promises; metrics are served with TLS whenever they are
    served; and the gauges are those of the stored metrics. *)
Theorem New_spec calls registry telemetry o registry' telemetry' out :
  New Register calls registry telemetry o = (registry', telemetry', out) →
  (∀ build, op_Builder o = Some build → PlanBuilder build) →
  (Validate o = None ↔ valid_options o) ∧
  (∀ err, Validate o = Some err → registry' = registry ∧ telemetry' = telemetry ∧ out = Err err) ∧
  (valid_options o → no_failure calls → (Default Register registry telemetry).2 ≠ Panic → ∃ s, out = Ok s) ∧
  (∀ s, out = Ok s → valid_options o ∧ consistent_setup o s ∧ telemetry' = Some (ms_RefresherMetrics s)).
Proof.
  intros Hnew Hb. split; [apply Validate_spec|]. split; [|split].
  - intros err Hv. unfold New in Hnew. rewrite Hv in Hnew. simpl in Hnew. by simplify_eq.
  - intros Ho Hn Hd. by destruct (New_runs _ _ _ _ _ _ _ Hnew Ho Hn) as [|[_ ?]].
  - by eapply New_Ok.
Qed.

(** C39. The process ends normally only if its options were valid, the configuration was there, the
    manager was set up consistently with the options, and it stopped without an error.  Every
    failure is logged under the step that failed and exits with code 1, an invalid namespace
    configuration before anything else is done.  It panics only if the metrics cannot be registered. *)
Theorem main_exits calls registry Getenv flags :
  let options := main_options Getenv flags in
  match main Register calls registry Getenv flags with
  | Finished => valid_options options ∧ mn_GetConfig calls = None ∧
      ∃ s, consistent_setup options s ∧ mn_Start calls s = None
  | Exit code message err => code = 1%Z ∧
      (message = "Invalid namespace configuration" ∧ ¬ valid_options options ∧ Validate options = Some err ∨
       valid_options options ∧
         (message = "Could not load Kubernetes configuration" ∧ mn_GetConfig calls = Some err ∨
          message = "Could not create manager" ∧ ¬ no_failure (mn_manager calls) ∨
          message = "Manager stopped with error" ∧ ∃ s, consistent_setup options s ∧ mn_Start calls s = Some err))
  | Panicked => valid_options options ∧ (Default Register registry None).2 = Panic
  end.
Proof.
  intros options. unfold main. fold options. pose proof (Validate_spec options) as Hv.
  assert (∀ build, op_Builder options = Some build → PlanBuilder build) as Hb by done.
  destruct (Validate options) as [err|] eqn:Ev.
  { split; [done|]. left. split; [done|]. split; [|done]. intros Ho. by apply Hv in Ho. }
  assert (valid_options options) as Ho by (by apply Hv).
  destruct (mn_GetConfig calls) as [err|]; [by naive_solver|].
  destruct (New Register (mn_manager calls) registry None options) as [[registry' telemetry'] out] eqn:En.
  pose proof (New_Ok _ _ _ _ _ _ _ En Hb) as Hs. pose proof (New_runs _ _ _ _ _ _ _ En Ho) as Hr. simpl.
  destruct out as [s|err|].
  - destruct (Hs s eq_refl) as (_ & Hc & _). destruct (mn_Start calls s) as [err|] eqn:Es; [|by eauto 10].
    split; [done|]. right. split; [done|]. right. right. eauto.
  - split; [done|]. right. split; [done|]. right. left. split; [done|]. intros Hn. by destruct (Hr Hn) as [[s ?]|[? _]].
  - split; [done|]. by apply (New_panics _ _ _ _ _ _ En).
Qed.

End Options.

(** The names in WATCH_NAMESPACES come back: any list of namespaces without commas, other than
    the one empty name, survives being joined with commas and parsed. *)
Theorem ParseWatchNamespaces_Join ws :
  ws ≠ [] → ws ≠ [""] → Forall (λ w, all_bytes (λ a, negb (bool_decide (a = ","%char))) w = true) ws →
  ParseWatchNamespaces (Join ws ",") = ws.
Proof.
  intros Hne He Hw. unfold ParseWatchNamespaces.
  assert (∀ w, all_bytes (λ a, negb (bool_decide (a = ","%char))) w = true → Split w "," = [w]) as Hone.
  { induction w as [|a w IH]; simpl; [done|]. intros [Ha%negb_true_iff Hw']%andb_true_iff.
    by rewrite Ha, (IH Hw'). }
  assert (∀ w t, all_bytes (λ a, negb (bool_decide (a = ","%char))) w = true →
    Split (w +:+ String "," t) "," = w :: Split t ",") as Hcons.
  { induction w as [|a w IH]; intros t; autorewrite with awcp_string; [done|]. simpl.
    intros [Ha%negb_true_iff Hw']%andb_true_iff. by rewrite Ha, (IH t Hw'). }
  assert (Split (Join ws ",") "," = ws) as Hs.
  { clear He. induction ws as [|w ws IH]; [done|]. apply Forall_cons in Hw as [Hw1 Hw].
    destruct ws as [|w' ws]; [by apply Hone|]. change (Join (w :: w' :: ws) ",") with (w +:+ String "," (Join (w' :: ws) ",")).
    rewrite Hcons by done. f_equal. by apply IH. }
  case_bool_decide as Hj; [|done]. rewrite Hj in Hs. simpl in Hs. by subst.
Qed.

(** ** Readiness *)

Lemma readiness_invariant r :
  rtc readiness_step initial_readiness r → (sr_ready r = true ↔ sr_pc r = Serving).
Proof.
  assert (sr_ready initial_readiness = true ↔ sr_pc initial_readiness = Serving) as Hi by done.
  revert Hi. generalize initial_readiness. intros x Hx Hr. induction Hr as [|x y z Hstep _ IH]; [done|].
  apply IH. inversion Hstep; subst; simpl in *; naive_solver.
Qed.

(** The manager reports ready exactly while it serves: never before its cache has synchronized,
    not after a failed synchronization, and never again once [Start] has returned. *)
Theorem readiness_spec r :
  rtc readiness_step initial_readiness r →
  (check r = None ↔ sr_pc r = Serving) ∧
  (∀ err, sr_pc r = Returned err → ∀ r', rtc readiness_step r r' → check r' ≠ None).
Proof.
  assert (∀ r, check r = None ↔ sr_ready r = true) as Hc by (intros x; unfold check; by destruct (sr_ready x)).
  intros Hr. split; [rewrite Hc; by apply readiness_invariant|].
  intros err Hp r' Hs. assert (sr_pc r' = Returned err) as Hp'.
  { induction Hs as [|x y z Hstep _ IH]; [done|]. inversion Hstep; subst; done. }
  rewrite Hc, readiness_invariant by (by etrans). by rewrite Hp'.
Qed.

(** ** Witnesses *)

Section Witnesses.
Import Ref Sample.

Definition gateway_requirement : Requirement := {|
  rq_Feature := GatewayAPI; rq_Description := "Gateway API Gateway and HTTPRoute APIs";
  rq_Resources := [
    {| ar_GroupVersion := "gateway.networking.k8s.io/v1"; ar_Resource := "gateways" |};
    {| ar_GroupVersion := "gateway.networking.k8s.io/v1"; ar_Resource := "httproutes" |}] |}.

Definition detect_run := Detect HasResource gateway_requirement.

Lemma Detect_spec_witness :
  ∃ names, lists_resource names {| ar_GroupVersion := "gateway.networking.k8s.io/v1"; ar_Resource := "gateways" |}.
Proof.
  assert (∃ s' o, run handler (cluster workload) detect_run = Some (s', o) ∧ ob_State o = Available)
    as (s' & o & Hr & Ho) by (vm_compute; eexists _, _; split; reflexivity).
  apply run_returns in Hr. pose proof (Detect_spec gateway_requirement _ o Hr) as Hd. rewrite Ho in Hd.
  destruct (Hd {| ar_GroupVersion := "gateway.networking.k8s.io/v1"; ar_Resource := "gateways" |}) as (names & _ & Hn).
  - left.
  - exists names. exact Hn.
Defined.

Definition secret_calls : history :=
  [Call (EListWorkloads ns (Some (SecretReferenceIndex, "direct")))
    (inr [workload] : answer (EListWorkloads ns (Some (SecretReferenceIndex, "direct"))))].

Lemma RequestsForSecret_spec_witness :
  returns (RequestsForSecret reconciler (new_meta "direct" ns)) secret_calls [(ns, "sample")] ∧
  references_secret workload "direct".
Proof.
  assert (returns (RequestsForSecret reconciler (new_meta "direct" ns)) secret_calls [(ns, "sample")]) as Hr.
  { eexists (inr [workload]), []. split; [reflexivity|]. split; reflexivity. }
  split; [exact Hr|].
  destruct (RequestsForSecret_spec reconciler (new_meta "direct" ns) secret_calls [(ns, "sample")]) as (_ & _ & H).
  - constructor; [|constructor]. intros items [= <-] p ->%list_elem_of_singleton. split; [reflexivity|].
    intros k [= <-]. apply list_elem_of_In. vm_compute. left. reflexivity.
  - exact Hr.
  - destruct (H ns "sample") as (_ & _ & items & p & Hl & Hp & _ & _ & Href & _); [left|].
    apply list_elem_of_singleton in Hl. apply (f_equal listed_items) in Hl. injection Hl as ->.
    apply list_elem_of_singleton in Hp as ->. exact Href.
Defined.

Definition refresh_run := RefreshNamespaces new_Metrics [ns].

Lemma RefreshNamespaces_spec_witness :
  ∃ m', returns refresh_run (calls (cluster workload) refresh_run) (m', None) ∧ m_failures m' = ∅.
Proof.
  assert (∃ s' m', run handler (cluster workload) refresh_run = Some (s', (m', None))) as (s' & m' & Hr)
    by (vm_compute; eexists _, _; reflexivity).
  apply run_returns in Hr. exists m'. split; [exact Hr|].
  destruct (RefreshNamespaces_spec new_Metrics [ns] _ m' None Hr) as (answers & _ & _ & _ & _ & _ & _ & Hf). exact Hf.
Defined.

Lemma ParseWatchNamespaces_Join_witness : ParseWatchNamespaces "team-a,team-b" = ["team-a"; "team-b"].
Proof.
  apply (ParseWatchNamespaces_Join ["team-a"; "team-b"]); [discriminate|discriminate|].
  constructor; [reflexivity|]. constructor; [reflexivity|]. constructor.
Defined.

(** A test of DNS labels. *)
#[local] Instance validation : Validation := λ s, is_dns1035_label s.

Definition options : Options := {|
  op_WatchNamespace := ""; op_WatchNamespaces := ["team-a"; "team-b"]; op_ManagerNamespace := "awcp-system";
  op_ProbeAddress := ":8081"; op_MetricsBindAddress := ":8443"; op_LeaderElection := true;
  op_LeaseDuration := 0; op_RenewDeadline := 0; op_RetryPeriod := 0; op_ControllerName := ""; op_Builder := None |}.

Definition working : manager_calls := {|
  mc_clientgoscheme := None; mc_AddToScheme := None; mc_NewManager := None; mc_NewDiscoveryClient := None;
  mc_registration := {| rc_IndexField := None; rc_Complete := None |};
  mc_AddReady := None; mc_AddRefresher := None; mc_AddHealthzCheck := None; mc_AddReadyzCheck := None |}.

(** A registry that takes each name once. *)
Definition Register_once (registry : gset string) (name : string) : gset string * option error :=
  if bool_decide (name ∈ registry) then (registry, Some (NewError "duplicate metrics collector registration attempted"))
  else ({[name]} ∪ registry, None).

Lemma working_New : no_failure working.
Proof. repeat split. Qed.

Lemma New_spec_witness :
  ∃ registry' telemetry' s, New Register_once working ∅ None options = (registry', telemetry', Ok s) ∧
    watchesNamespace (ms_Reconciler s) "team-b" = true.
Proof.
  destruct (New Register_once working ∅ None options) as [[registry' telemetry'] out] eqn:En.
  destruct (New_spec Register_once working ∅ None options registry' telemetry' out En) as (Hv & _ & Hok & Hs).
  - intros build Hn. discriminate Hn.
  - assert (Validate options = None) as Ho by (vm_compute; reflexivity). apply Hv in Ho.
    destruct Hok as [s ->]; [exact Ho|exact working_New|vm_compute; discriminate|].
    exists registry', telemetry', s. split; [reflexivity|].
    destruct (Hs s eq_refl) as (_ & (Hw & He & _) & _). unfold watchesNamespace. rewrite He. vm_compute. reflexivity.
Defined.

Definition serving : startupReadiness := {| sr_pc := Serving; sr_ready := true |}.

Lemma readiness_spec_witness : rtc readiness_step initial_readiness serving ∧ check serving = None.
Proof.
  assert (rtc readiness_step initial_readiness serving) as Hr.
  { eapply rtc_l; [apply step_start|]. eapply rtc_l; [apply step_synced|]. apply rtc_refl. }
  split; [exact Hr|]. apply (readiness_spec serving Hr). reflexivity.
Defined.

End Witnesses.
