(* ===== verification/Informer.v ===== *)
(** * Watch events on their way

    An informer keeps a copy of the API server's objects and learns of changes from a watch, which
    delivers the changes of one object in order and without gaps; those of different objects may
    arrive in any order.  The changes on their way lead, object by object, from what the copy has to
    what the server has ([streams]). *)
From S2P Require Import Prelude.

(** A change of the object [ch_key]: what it was, and what it is now; [None] is no object. *)
Record change (K V : Type) := Change { ch_key : K; ch_old : option V; ch_new : option V }.
#[global] Arguments Change {K V} ch_key ch_old ch_new.
#[global] Arguments ch_key {K V} c.
#[global] Arguments ch_old {K V} c.
#[global] Arguments ch_new {K V} c.

Section Stream.
Context {K V : Type} `{EqDecision K}.
Implicit Types (k : K) (c : change K V) (l : list (change K V)) (from to : option V).

Fixpoint stream k from to l : Prop :=
  match l with
  | [] => to = from
  | c :: l' => if decide (ch_key c = k) then ch_old c = from ∧ stream k (ch_new c) to l' else stream k from to l'
  end.

(** A new change of [k] starts at what the server had. *)
Lemma stream_snoc k from to new l : stream k from to l → stream k from new (l ++ [Change k to new]).
Proof.
  revert from. induction l as [|c l IH]; intros from; simpl.
  - intros ->. by rewrite decide_True.
  - case_decide; [|apply IH]. intros [Hc Hs]. split; [done|by apply IH].
Qed.

Lemma stream_snoc_other k from to c l : ch_key c ≠ k → stream k from to l → stream k from to (l ++ [c]).
Proof.
  intros Hc. revert from. induction l as [|c' l IH]; intros from; simpl.
  - intros ->. by rewrite decide_False.
  - case_decide; [|apply IH]. intros [Hc' Hs]. split; [done|by apply IH].
Qed.

(** The first change of an object starts at what the copy has; without it the rest starts at what
    it leads to. *)
Lemma stream_first k from to l1 c l2 :
  Forall (λ c', ch_key c' ≠ ch_key c) l1 → stream k from to (l1 ++ c :: l2) →
  if decide (ch_key c = k) then ch_old c = from ∧ stream k (ch_new c) to (l1 ++ l2) else stream k from to (l1 ++ l2).
Proof.
  intros Hl. revert from. induction l1 as [|c' l1 IH]; intros from; simpl; [by case_decide|].
  apply Forall_cons in Hl as [Hc' Hl]. specialize (IH Hl). destruct (decide (ch_key c' = k)) as [Hk'|]; [|apply IH].
  intros [Hf Hs]. specialize (IH _ Hs). by rewrite decide_False in IH |- * by congruence.
Qed.

(** Without a change that starts at what the copy has, the server has the same. *)
Lemma stream_unchanged k from to l :
  stream k from to l → Forall (λ c, ch_key c = k → ch_old c ≠ from) l → to = from.
Proof.
  induction l as [|c l IH]; simpl; [done|]. intros Hs [Hc Hl]%Forall_cons.
  case_decide; [|by apply IH]. destruct Hs as [? _]. by destruct Hc.
Qed.

End Stream.

(** ** Informers *)

(** What the server stores, what the copy has, and the changes on their way. *)
Record informer (K V : Type) `{Countable K} := Informer {
  inf_stored : gmap K V;
  inf_seen : gmap K V;
  inf_pending : list (change K V)
}.
#[global] Arguments Informer {K V _ _} inf_stored inf_seen inf_pending.
#[global] Arguments inf_stored {K V _ _} i.
#[global] Arguments inf_seen {K V _ _} i.
#[global] Arguments inf_pending {K V _ _} i.

Section Informer.
Context {K V : Type} `{Countable K}.
Implicit Types (k : K) (c : change K V) (f : informer K V) (m : gmap K V).

(** The object [k] becomes [new] in the server. *)
Definition changed k (new : option V) f : informer K V :=
  Informer (partial_alter (λ _, new) k (inf_stored f)) (inf_seen f) (inf_pending f ++ [Change k (inf_stored f !! k) new]).

(** The copy after the change [c]. *)
Definition copied c m : gmap K V := partial_alter (λ _, ch_new c) (ch_key c) m.

(** The watch delivers a change that no earlier one of the same object precedes. *)
Inductive delivers c : informer K V → informer K V → Prop :=
  | delivers_first m seen l1 l2 :
      Forall (λ c', ch_key c' ≠ ch_key c) l1 →
      delivers c (Informer m seen (l1 ++ c :: l2)) (Informer m (copied c seen) (l1 ++ l2)).

(** A fresh list of everything. *)
Definition synced m : informer K V := Informer m m [].

Definition streams f : Prop := ∀ k, stream k (inf_seen f !! k) (inf_stored f !! k) (inf_pending f).

Lemma streams_synced m : streams (synced m).
Proof. done. Qed.

Lemma streams_changed k new f : streams f → streams (changed k new f).
Proof.
  intros Hf k'. simpl. destruct (decide (k = k')) as [<-|Hk].
  - rewrite lookup_partial_alter_eq. apply stream_snoc, Hf.
  - rewrite lookup_partial_alter_ne by done. by apply stream_snoc_other.
Qed.

Lemma streams_delivers c f f' : delivers c f f' → streams f → ch_old c = inf_seen f !! ch_key c ∧ streams f'.
Proof.
  destruct 1 as [m seen l1 l2 Hl]. intros Hf. simpl. split.
  - pose proof (stream_first _ _ _ _ _ _ Hl (Hf (ch_key c))) as Hs. rewrite decide_True in Hs by done. apply Hs.
  - intros k. simpl. pose proof (stream_first _ _ _ _ _ _ Hl (Hf k)) as Hs. unfold copied. case_decide as Hk.
    + subst k. rewrite lookup_partial_alter_eq. apply Hs.
    + by rewrite lookup_partial_alter_ne.
Qed.

(** The parts of a delivery a proof about the pending changes needs. *)
Lemma delivers_pending c f f' (P : change K V → Prop) :
  delivers c f f' → Forall P (inf_pending f) ↔ P c ∧ Forall P (inf_pending f').
Proof. destruct 1. simpl. rewrite !Forall_app, Forall_cons. tauto. Qed.

Lemma delivers_seen c f f' : delivers c f f' → inf_stored f' = inf_stored f ∧ inf_seen f' = copied c (inf_seen f).
Proof. by destruct 1. Qed.

(** Nothing is on its way: the copy is the server's. *)
Lemma streams_settled f : streams f → inf_pending f = [] → inf_stored f = inf_seen f.
Proof. intros Hf Hp. apply map_eq. intros k. specialize (Hf k). by rewrite Hp in Hf. Qed.

Lemma streams_unchanged f k :
  streams f → Forall (λ c, ch_key c = k → ch_old c ≠ inf_seen f !! k) (inf_pending f) → inf_stored f !! k = inf_seen f !! k.
Proof. intros Hf. by apply stream_unchanged. Qed.

(** A predicate of keys and objects that holds of everything stored, seen and on its way. *)
Definition everywhere (P : K → V → Prop) f : Prop :=
  map_Forall P (inf_stored f) ∧ map_Forall P (inf_seen f) ∧
  Forall (λ c, ∀ o, ch_new c = Some o → P (ch_key c) o) (inf_pending f).

Lemma everywhere_synced P m : map_Forall P m → everywhere P (synced m).
Proof. done. Qed.

Lemma map_Forall_alter (P : K → V → Prop) k new m :
  map_Forall P m → (∀ o, new = Some o → P k o) → map_Forall P (partial_alter (λ _, new) k m).
Proof.
  intros Hm Hnew k' o. destruct (decide (k' = k)) as [->|]; [|rewrite lookup_partial_alter_ne by done; apply Hm].
  rewrite lookup_partial_alter_eq. apply Hnew.
Qed.

Lemma everywhere_changed P k new f : (∀ o, new = Some o → P k o) → everywhere P f → everywhere P (changed k new f).
Proof.
  intros Hnew (Hs & He & Hp). split; [by apply map_Forall_alter|]. split; [done|].
  apply Forall_app. split; [done|]. by constructor.
Qed.

Lemma everywhere_delivers P c f f' : delivers c f f' → everywhere P f → everywhere P f'.
Proof.
  intros Hd (Hs & He & Hp). destruct (delivers_seen _ _ _ Hd) as [Hsto Hseen]. apply (delivers_pending _ _ _ _ Hd) in Hp as [Hc Hp].
  unfold everywhere. rewrite Hsto, Hseen. split; [done|]. split; [|done]. by apply map_Forall_alter.
Qed.

End Informer.
