(* ===== verification/ControlLoop.v ===== *)
(** * The control loop

    The operator as a whole: the API server, the informers' copies the reads go through, the watch
    events on their way, the work queue, and a reconciliation that may be running, interleaved call
    by call with everything other clients do and with restarts of the manager.

    The operator's side is the code's: [SetupWithManager]'s watches, predicate, mappings and index
    decide which events request a reconciliation, and [Reconcile] is what runs.  What
    controller-runtime and the API server contribute is documented behaviour of theirs: one
    reconciliation of a workload at a time, a request that arrives meanwhile is kept, a result with
    an error or a delay comes back, reads of watched kinds are served by the informers, the watch
    delivers the changes of one object in order, and a change of a specification counts a
    generation.  The status the controller patches is another client's change here: one that leaves
    the specification. *)
From stdpp Require Import relations.
From S2P Require Import Prelude Errors GoStd Kube Api Naming Intent Route Builder Effects Capability Engine Cluster Conditions.
From S2P Require Import Status Failures Gates Controller Watches Registration Contract Safety Gating EngineTheorems.
From S2P Require Import ReconcileTheorems Convergence Watching Quiescence Settling Bringup GateTheorems OperatorTheorems Informer KubeReference Sample ClusterReference.

(** The events the informers make of a change. *)
Definition child_events (c : change key Object) : list watch_event :=
  ChildChanged <$> option_list (ch_old c) ++ option_list (ch_new c).

Definition workload_events (c : change () AIWorkload) : list watch_event :=
  match ch_old c, ch_new c with
  | None, Some new => [PrimaryCreated (w_meta new)]
  | Some old, Some new => [PrimaryUpdated (w_meta old) (w_meta new)]
  | Some old, None => [PrimaryDeleted (w_meta old)]
  | None, None => []
  end.

Definition secret_events (c : change string ObjectMeta) : list watch_event :=
  SecretChanged <$> option_list (ch_old c) ++ option_list (ch_new c).

(** The state of the loop of one workload: the children, the workload and the Secrets of its
    namespace with their informers; whether a request is queued and whether one is scheduled; and
    the reconciliation that runs, with its calls so far. *)
Record system := System {
  sy_children : informer key Object;
  sy_workload : informer () AIWorkload;
  sy_secrets : informer string ObjectMeta;
  sy_queued : bool;
  sy_due : bool;
  sy_running : option (history * program (Result * option error))
}.

(** What the reads see. *)
Definition known (w : informer () AIWorkload) : option AIWorkload := inf_seen w !! ().

(** [t] is what is left of [t0] after the calls of [h]. *)
Fixpoint after {A} (t0 : program A) (h : history) (t : program A) : Prop :=
  match h with
  | [] => t = t0
  | Call e x :: h' => ∃ k, t0 = Vis e k ∧ after (k x) h' t
  end.

(** Reads of the kinds the controller watches go through the informers. *)
Definition cached_read (e : event) : bool :=
  match e with
  | EGetServiceAccount _ _ | EGetDeployment _ _ | EGetService _ _ | EGetNetworkPolicy _ _
  | EGetHorizontalPodAutoscaler _ _ | EGetPodDisruptionBudget _ _ => true
  | _ => false
  end.

(** What controller-runtime schedules for a result. *)
Definition comes_back (out : Result * option error) : bool :=
  match out.2 with
  | Some _ => true
  | None => negb (RequeueAfter out.1 =? 0)%Z
  end.

Section System.
Context `{ConditionsLaws, ApiErrors, UnstructuredHelpersLaws, OwnerHelpersLaws, OwnerRequests, !OwnerRequestsLaws}.
Context `{SemanticDeepEqual AIWorkloadStatus, SemanticDeepEqual Object}.
Context (reg : registration) (r : AIWorkloadReconciler) (ns name : string).
Implicit Types (w : AIWorkload) (i : Intent) (s : objects) (h : history) (o : Object).

(** A list of workloads by a field: the one of the informer's copy, if it is in the namespace and
    the registered index has the value for it. *)
Definition indexed (p : option AIWorkload) (namespace : string) (field : option (string * string)) : list AIWorkload :=
  match p, field with
  | Some w, Some (index, value) =>
      if bool_decide (w_Namespace w = namespace) && bool_decide (index = (reg_Index reg).1) &&
         bool_decide (value ∈ (reg_Index reg).2 (Some w)) then [w] else []
  | _, _ => []
  end.

Definition lister (p : option AIWorkload) (_ : ()) (e : event) : option (() * answer e) :=
  match e return option (() * answer e) with
  | EListWorkloads namespace field => Some (tt, inr (indexed p namespace field))
  | _ => None
  end.

(** The requests a watch event makes while the copy of the workload is [p]. *)
Definition requested (p : option AIWorkload) (e : watch_event) : list (string * string) :=
  match run (lister p) tt (requests reg e) with
  | Some (_, l) => l
  | None => []
  end.

Definition wakes (p : option AIWorkload) (events : list watch_event) : bool :=
  existsb (λ e, bool_decide ((ns, name) ∈ requested p e)) events.

(** The names under which things are stored. *)
Definition named w : Prop := w_Namespace w = ns ∧ w_Name w = name.
Definition secret_named (n : string) (m : ObjectMeta) : Prop := om_Name m = n ∧ om_Namespace m = ns ∧ n ≠ "".
Definition child_named (k : key) o : Prop := object_key o = k.

(** A change of the workload by another client: one of the specification, the deletion mark or the
    identity shows in the metadata, because the API server counts generations. *)
Definition workload_change (p p' : option AIWorkload) : Prop :=
  ∀ w w', p = Some w → p' = Some w' → relevant_change (w_meta w) (w_meta w') ∨ same_workload w w'.

(** The answer of the informers' copies to a read, and of anyone to another call. *)
Definition read_by (c : objects) (p : option AIWorkload) (m : gmap string ObjectMeta) (e : event) : answer e → Prop :=
  match e return answer e → Prop with
  | EGetWorkload namespace n => λ x, namespace = ns → n = name →
      match x with
      | inr w => p = Some w
      | inl err => IsNotFound err = true → p = None
      end
  | EGetSecretMetadata namespace n => λ x, namespace = ns →
      match x with
      | inr meta => m !! n = Some meta
      | inl err => IsNotFound err = true → m !! n = None
      end
  | e => λ x, cached_read e = true → served c c e x
  end.

(** A write of the API server, and what it puts on the watch: a patch that changes nothing puts
    nothing. *)
Definition writes (f f' : informer key Object) (e : event) (x : answer e) : Prop :=
  match written_object e with
  | None => f' = f
  | Some o => served (inf_stored f) (inf_stored f') e x ∧
      (f' = f ∨ f' = changed (object_key o) (inf_stored f' !! object_key o) f)
  end.

Inductive step : system → system → Prop :=
  (* other clients *)
  | step_child c p m q d run k new :
      (∀ o, new = Some o → child_named k o) →
      step (System c p m q d run) (System (changed k new c) p m q d run)
  | step_workload c p m q d run new :
      (∀ w', new = Some w' → named w') → workload_change (inf_stored p !! ()) new →
      step (System c p m q d run) (System c (changed () new p) m q d run)
  | step_secret c p m q d run n new :
      (∀ meta, new = Some meta → secret_named n meta) →
      step (System c p m q d run) (System c p (changed n new m) q d run)
  (* the informers *)
  | step_child_seen c c' p m q d run e :
      delivers e c c' →
      step (System c p m q d run) (System c' p m (q || wakes (known p) (child_events e)) d run)
  | step_workload_seen c p p' m q d run e :
      delivers e p p' →
      step (System c p m q d run) (System c p' m (q || wakes (known p') (workload_events e)) d run)
  | step_secret_seen c p m m' q d run e :
      delivers e m m' →
      step (System c p m q d run) (System c p m' (q || wakes (known p) (secret_events e)) d run)
  (* the queue *)
  | step_request c p m q d run :
      step (System c p m q d run) (System c p m true d run)
  | step_due c p m q run :
      step (System c p m q true run) (System c p m true false run)
  (* the reconciliation *)
  | step_start c p m d :
      step (System c p m true d None) (System c p m false d (Some ([], Reconcile r ns name)))
  | step_call c c' p m q d h e f x :
      api_contract any_text (Call e x) → read_by (inf_seen c) (known p) (inf_seen m) e x → writes c c' e x →
      step (System c p m q d (Some (h, Vis e f))) (System c' p m q d (Some (h ++ [Call e x], f x)))
  | step_finish c p m q d h out :
      step (System c p m q d (Some (h, Ret out))) (System c p m q (d || comes_back out) None)
  (* the manager *)
  | step_restart c p m q d run :
      step (System c p m q d run)
           (System (synced (inf_stored c)) (synced (inf_stored p)) (synced (inf_stored m)) true false None).

(** The manager as it starts, its informers filled. *)
Definition started (c : objects) (p : gmap () AIWorkload) (m : gmap string ObjectMeta) : system :=
  System (synced c) (synced p) (synced m) true false None.

(** Nothing is on its way, queued, scheduled or running. *)
Definition at_rest (y : system) : Prop :=
  inf_pending (sy_children y) = [] ∧ inf_pending (sy_workload y) = [] ∧ inf_pending (sy_secrets y) = [] ∧
  sy_queued y = false ∧ sy_due y = false ∧ sy_running y = None.

(** ** What is wanted at rest *)

(** The engine has nothing left to do on the child: its mutation and controller reference leave it
    semantically equal, or make of it an object the API server keeps as the one it has. *)
Definition tended_child w i o : Prop :=
  owns w o = true ∧ Time_IsZero (om_DeletionTimestamp (obj_meta o)) = true ∧
  ∃ f m after, i_Mutate i = Some f ∧ f o = Ok m ∧ set_controller w m = Some after ∧
    (DeepEqual o after = true ∨ stored after o).

(** The child of a present intent is there and needs nothing; an absent one is not the workload's. *)
Definition tended (s : objects) w i : Prop :=
  (childOrder (i_Object i) < 6)%Z →
  if i_Absent i then ∀ o, s !! intent_key w i = Some o → owns w o = false
  else ∃ o, s !! intent_key w i = Some o ∧ tended_child w i o.

Context `{QuantitiesLaws}.

(** The record of a reference: its target, at the version it has in [m]. *)
Definition current_version (m : gmap string ObjectMeta) (x : ExternalSecretReference) (y : resolvedExternalSecret) : Prop :=
  re_targetSecret y = er_TargetSecret x ∧ om_ResourceVersion <$> m !! er_TargetSecret x = Some (re_resourceVersion y).

(** All children are as the plan wants them that the builder makes of the specification and of the
    external Secrets' targets at their versions; and the Secrets the workload names are there. *)
Definition all_tended (s : objects) (m : gmap string ObjectMeta) w : Prop :=
  (∃ external exposure plan,
    Forall2 (current_version m) (sp_ExternalSecrets (w_Spec w)) external ∧
    build_plan Build w external exposure = Ok plan ∧ Forall (tended s w) plan) ∧
  Forall (λ n, is_Some (m !! n)) (sp_SecretRefs (w_Spec w)).

(** ** Requests *)

Hypothesis Hreg : ∃ calls r0, SetupWithManager calls r0 = Ok (r, reg).
Hypothesis Hwatched : watchesNamespace r ns = true.

(** A child of the workload, of a kind the controller watches. *)
Definition mine o : Prop := (0 ≤ childOrder (Pointer o) < 6)%Z ∧ ∃ w, named w ∧ owns w o = true.

(** The Secrets the specification names. *)
Definition mentions w (n : string) : Prop :=
  n ∈ sp_SecretRefs (w_Spec w) ∨ n ∈ er_TargetSecret <$> sp_ExternalSecrets (w_Spec w).

(** A change of the workload that requests nothing leaves its specification and identity. *)
Definition same_known (p p' : option AIWorkload) : Prop :=
  match p, p' with
  | Some w, Some w' => same_workload w w'
  | None, None => True
  | _, _ => False
  end.

Lemma requested_wakes p events e : e ∈ events → (ns, name) ∈ requested p e → wakes p events = true.
Proof.
  intros He Hin. apply existsb_exists. exists e. split; [by apply list_elem_of_In|]. by apply bool_decide_true.
Qed.

Lemma mine_wakes p k old new o : mine o → old = Some o ∨ new = Some o → wakes p (child_events (Change k old new)) = true.
Proof.
  intros [Ho (w & [<- <-] & Hw)] Hc. destruct Hreg as (calls & r0 & Hs).
  apply (requested_wakes _ _ (ChildChanged o)).
  - unfold child_events. simpl. apply list_elem_of_fmap_2. destruct Hc as [->| ->]; simpl; set_solver.
  - unfold requested. rewrite (owned_request calls r0 r reg w o) by done. simpl. set_solver.
Qed.

Lemma unrequested_same p0 p p' :
  workload_change p p' → (∀ w, p = Some w → named w) → (∀ w, p' = Some w → named w) →
  wakes p0 (workload_events (Change () p p')) = false → same_known p p'.
Proof.
  intros Hrel Hp Hnew Hw. destruct Hreg as (calls & r0 & Hs). apply SetupWithManager_Ok in Hs as (_ & _ & _ & _ & Hfor & _).
  apply not_true_iff_false in Hw.
  destruct p as [w|], p' as [w'|]; simpl; [|destruct Hw..|done].
  - destruct (Hrel w w' eq_refl eq_refl) as [Hc|]; [|done]. destruct Hw.
    apply (requested_wakes _ _ (PrimaryUpdated (w_meta w) (w_meta w'))); [set_solver|]. unfold requested. simpl.
    apply primaryPredicate_spec in Hc. rewrite Hfor, Hc. destruct (Hnew w' eq_refl) as [<- <-]. simpl. set_solver.
  - apply (requested_wakes _ _ (PrimaryDeleted (w_meta w))); [set_solver|].
    destruct (Hp w eq_refl) as [<- <-]. unfold requested. simpl. set_solver.
  - apply (requested_wakes _ _ (PrimaryCreated (w_meta w'))); [set_solver|].
    destruct (Hnew w' eq_refl) as [<- <-]. unfold requested. simpl. set_solver.
Qed.

(** What a Secret's event requests, with the index the controller registers. *)
Lemma requested_secret p meta :
  om_Namespace meta = ns →
  requested p (SecretChanged meta) =
  (λ w, (w_Namespace w, w_Name w)) <$> indexed p ns (Some (SecretReferenceIndex, om_Name meta)).
Proof.
  intros Hns. destruct Hreg as (calls & r0 & Hs). apply SetupWithManager_Ok in Hs as (_ & _ & _ & _ & _ & _ & Hsec & _).
  unfold requested. simpl. rewrite Hsec. unfold RequestsForSecret. by rewrite Hns, Hwatched.
Qed.

Lemma indexed_secret w n : named w → n ≠ "" → mentions w n → indexed (Some w) ns (Some (SecretReferenceIndex, n)) = [w].
Proof.
  intros [Hns _] Hn Hm. destruct Hreg as (calls & r0 & Hs). apply SetupWithManager_Ok in Hs as (_ & _ & _ & Hidx & _).
  unfold indexed. rewrite Hidx. simpl. by rewrite !bool_decide_true by (done || by apply (proj2 (secretIndex_spec w))).
Qed.

Lemma secret_wakes w n old new meta :
  named w → mentions w n → secret_named n meta → old = Some meta ∨ new = Some meta →
  wakes (Some w) (secret_events (Change n old new)) = true.
Proof.
  intros Hw Hm (Hn & Hns & Hne) Hc. apply (requested_wakes _ _ (SecretChanged meta)).
  - unfold secret_events. simpl. apply list_elem_of_fmap_2. destruct Hc as [->| ->]; simpl; set_solver.
  - rewrite requested_secret, Hn by done. rewrite indexed_secret by done. destruct Hw as [<- <-]. set_solver.
Qed.

(** What an event requests does not change while the workload keeps its specification. *)
Lemma indexed_same p p' field : same_known p p' →
  (λ w, (w_Namespace w, w_Name w)) <$> indexed p ns field = (λ w, (w_Namespace w, w_Name w)) <$> indexed p' ns field.
Proof.
  destruct Hreg as (calls & r0 & Hs). apply SetupWithManager_Ok in Hs as (_ & _ & _ & Hidx & _).
  destruct p as [w|], p' as [w'|]; try done. intros (Hsp & Hns & Hn & _). unfold indexed. rewrite Hidx. destruct field as [[index value]|]; [|done].
  simpl. unfold secretIndex. rewrite Hsp, Hns. destruct (_ && _); [|done]. simpl. by rewrite Hns, Hn.
Qed.

Lemma static_wakes p p' events : (∀ m, SecretChanged m ∉ events) → wakes p events = wakes p' events.
Proof.
  intros He. unfold wakes. induction events as [|e events IH]; [done|]. simpl.
  rewrite IH by (intros m Hm; apply (He m); by right). do 2 f_equal. unfold requested.
  destruct e; simpl; [done..| |]; [by destruct (typed_kind o)|]. destruct (He m). by left.
Qed.

Lemma child_wakes_same p p' e : wakes p (child_events e) = wakes p' (child_events e).
Proof. apply static_wakes. intros m Hm. apply list_elem_of_fmap in Hm as (o & [=] & _). Qed.

Lemma workload_wakes_same p p' e : wakes p (workload_events e) = wakes p' (workload_events e).
Proof. apply static_wakes. destruct e as [k [old|] [new|]]; unfold workload_events; simpl; intros m Hm; set_solver. Qed.

Lemma secret_wakes_same p p' n old new :
  same_known p p' → (∀ meta, old = Some meta ∨ new = Some meta → om_Namespace meta = ns) →
  wakes p (secret_events (Change n old new)) = wakes p' (secret_events (Change n old new)).
Proof.
  intros Hp Hm. unfold wakes, secret_events. simpl.
  assert (∀ meta, old = Some meta ∨ new = Some meta → requested p (SecretChanged meta) = requested p' (SecretChanged meta)) as Hr.
  { intros meta Hmeta. rewrite !requested_secret by auto. by apply indexed_same. }
  destruct old as [a|], new as [b|]; simpl; rewrite ?Hr by auto; done.
Qed.

(** ** What the calls of a reconciliation say of the copies

    As long as no request is queued or on its way, every call of the running reconciliation still
    holds of the copies: what it read of its own children and of its Secrets is there, and what it
    wrote changed nothing. *)

Definition child_read (e : event) : answer e → option (key * reply Object) :=
  match e return answer e → option (key * reply Object) with
  | EGetServiceAccount n m => λ x, Some ((0%Z, n, m), reply_map OServiceAccount x)
  | EGetDeployment n m => λ x, Some ((1%Z, n, m), reply_map ODeployment x)
  | EGetService n m => λ x, Some ((2%Z, n, m), reply_map OService x)
  | EGetNetworkPolicy n m => λ x, Some ((3%Z, n, m), reply_map ONetworkPolicy x)
  | EGetHorizontalPodAutoscaler n m => λ x, Some ((4%Z, n, m), reply_map OHorizontalPodAutoscaler x)
  | EGetPodDisruptionBudget n m => λ x, Some ((5%Z, n, m), reply_map OPodDisruptionBudget x)
  | _ => λ _, None
  end.

Lemma child_read_get object x :
  (0 ≤ childOrder (Pointer object) < 6)%Z → child_read (get_event object) x = Some (object_key object, get_reply object x).
Proof. unfold object_key. destruct object; simpl; try done; try lia. case_bool_decide; lia. Qed.

(** A typed read answers with an object of its kind. *)
Lemma get_reply_kind object x o :
  (0 ≤ childOrder (Pointer object) < 6)%Z → get_reply object x = inr o → childOrder (Pointer o) = childOrder (Pointer object).
Proof. destruct object, x; simpl; try done; try (case_bool_decide; lia); by intros _ [= <-]. Qed.

Lemma child_read_served c e x kk got :
  child_read e x = Some (kk, got) → cached_read e = true ∧ (served c c e x → read_from c kk got).
Proof. destruct e; simpl; try done; intros [= <- <-]; (split; [done|]); by intros [_ ?]. Qed.

Definition sees (c : objects) (kk : key) (got : reply Object) : Prop :=
  match got with
  | inr o => mine o → c !! kk = Some o
  | inl err => IsNotFound err = true → ∀ o, c !! kk = Some o → ¬ mine o
  end.

Definition agrees (c : objects) (p : option AIWorkload) (m : gmap string ObjectMeta) (call : call event answer) : Prop :=
  match call with
  | Call e x =>
      (∀ k got, child_read e x = Some (k, got) → sees c k got) ∧
      match e return answer e → Prop with
      | EGetWorkload namespace n => λ x, namespace = ns → n = name →
          match x with
          | inr w => ∃ w', p = Some w' ∧ same_workload w w'
          | inl err => IsNotFound err = true → p = None
          end
      | EGetSecretMetadata namespace n => λ x, namespace = ns →
          ∀ meta w, x = inr meta → p = Some w → mentions w n → m !! n = Some meta
      | ECreate o => λ x, x = None → ¬ mine o
      | EPatch before after => λ x, x = None → mine before → stored after before
      | EDelete o _ _ => λ x, (∀ err, x = Some err → IsNotFound err = true) → ¬ mine o
      | _ => λ _, True
      end x
  end.

Lemma sees_copied p0 c e k got :
  wakes p0 (child_events e) = false → ch_old e = c !! ch_key e → sees c k got → sees (copied e c) k got.
Proof.
  destruct e as [ek old new]. unfold copied. simpl. intros Hw -> Hs.
  assert (∀ o, c !! ek = Some o ∨ new = Some o → ¬ mine o) as Hn by (intros o Ho Hm; by rewrite (mine_wakes _ _ _ _ o Hm Ho) in Hw).
  destruct (decide (ek = k)) as [<-|Hk].
  - destruct got as [err|o]; simpl in *.
    + rewrite lookup_partial_alter_eq. naive_solver.
    + intros Hm. exfalso. eapply Hn; [left; by apply Hs|done].
  - destruct got; simpl in *; by rewrite lookup_partial_alter_ne.
Qed.

Lemma agrees_child p0 c p m e call :
  wakes p0 (child_events e) = false → ch_old e = c !! ch_key e → agrees c p m call → agrees (copied e c) p m call.
Proof. destruct call as [ev x]. intros Hw Ho [Hr Hc]. split; [|done]. intros k got Hk. eapply sees_copied; [done..|by apply Hr]. Qed.

Lemma agrees_known c p p' m call : same_known p p' → agrees c p m call → agrees c p' m call.
Proof.
  destruct call as [e x]. intros Hp [Hr Hc]. split; [done|]. destruct e; try done.
  - intros Hn Hm. specialize (Hc Hn Hm). destruct x as [err|w].
    + intros He. rewrite (Hc He) in Hp. by destruct p'.
    + destruct Hc as (w' & -> & Hs). destruct p' as [w''|]; [|done]. exists w''. split; [done|]. by eapply same_workload_trans.
  - intros Hn meta w' -> ->. destruct p as [w|]; [|done]. destruct Hp as [Hsp _]. unfold mentions. rewrite Hsp.
    by apply (Hc Hn meta w).
Qed.

Lemma agrees_secret c p m e call :
  (∀ w, p = Some w → named w) → map_Forall secret_named m →
  wakes p (secret_events e) = false → ch_old e = m !! ch_key e → agrees c p m call → agrees c p (copied e m) call.
Proof.
  destruct call as [ev x], e as [n old new]. unfold copied. simpl. intros Hp Hm Hw Hold [Hr Hc]. split; [done|].
  destruct ev; try done. intros Hn meta w -> Hpw Hmen. specialize (Hc Hn meta w eq_refl Hpw Hmen). subst p.
  destruct (decide (n = name0)) as [->|]; [|by rewrite lookup_partial_alter_ne].
  rewrite (secret_wakes w name0 old new meta) in Hw; [done|by apply Hp|done|by apply Hm|]. left. congruence.
Qed.

(** ** A new call *)

Definition quiet_children (p : option AIWorkload) (f : informer key Object) : Prop :=
  Forall (λ e, wakes p (child_events e) = false) (inf_pending f).

Lemma quiet_mine p f k new o : quiet_children p (changed k new f) → inf_stored f !! k = Some o ∨ new = Some o → ¬ mine o.
Proof. intros [_ [Hw _]%Forall_cons]%Forall_app Ho Hm. by rewrite (mine_wakes p k _ new o Hm Ho) in Hw. Qed.

(** The API server has the children of the copy. *)
Lemma quiet_stored p f k o :
  streams f → quiet_children p f → inf_seen f !! k = Some o → mine o → inf_stored f !! k = Some o.
Proof.
  intros Hs Hq Hc Hm. rewrite (streams_unchanged f k Hs); [done|].
  eapply Forall_impl; [exact Hq|]. intros [k' old new] Hw _ Ho. simpl in Ho. subst old.
  by rewrite (mine_wakes p k' _ new o Hm (or_introl Hc)) in Hw.
Qed.

Lemma stored_mine o o' : stored o o' → mine o → mine o'.
Proof.
  intros Hst [Ho (w & Hn & Hw)]. pose proof Hst as (Ha & _ & _ & _ & Hns & _ & _ & Hr & _).
  split; [by rewrite (accepted_order _ _ Ha)|]. exists w. split; [done|]. by rewrite <-Hw; apply owns_ext.
Qed.

(** An object of the workload that the reconciliation read is still stored. *)
Lemma read_stored p0 f p m h o :
  quiet_children p0 f → keyed (inf_seen f) → streams f → Forall (agrees (inf_seen f) p m) h → was_read h o → mine o →
  inf_stored f !! object_key o = Some o.
Proof.
  intros Hq Hkey Hstream Hh (object & y & Hin & Hy) Hm. rewrite Forall_forall in Hh. destruct (Hh _ Hin) as [Hr _].
  destruct (decide (0 ≤ childOrder (Pointer object) < 6)%Z) as [Hord|Hord].
  - specialize (Hr _ _ (child_read_get object y Hord)). rewrite Hy in Hr. specialize (Hr Hm).
    rewrite <-(Hkey _ _ Hr) in Hr. by eapply quiet_stored.
  - destruct Hord, Hm as [Hm _]. destruct object, y; simpl in *; simplify_eq; simpl in *; repeat case_bool_decide; lia.
Qed.

Lemma write_agrees f f' p m h e x o :
  written_object e = Some o → writes f f' e x → quiet_children p f → quiet_children p f' →
  keyed (inf_seen f) → streams f → Forall (agrees (inf_seen f) p m) h → own_write ns name h e →
  agrees (inf_seen f) p m (Call e x).
Proof.
  intros Ew Hw Hq Hq' Hkey Hstream Hh Hown. split; [by destruct e|]. unfold writes in Hw. rewrite Ew in Hw.
  destruct Hw as [Hserved Hlog]. destruct e; try done; simpl in Ew; injection Ew as ->.
  - intros -> Hm. destruct Hserved as (o' & Hfree & Hst & Hs'). destruct Hlog as [->|Hf'].
    + by rewrite Hs', lookup_insert_eq in Hfree.
    + rewrite Hf', Hs' in Hq'. eapply (quiet_mine _ _ _ _ o'); [exact Hq'| |by eapply stored_mine]. right. by rewrite lookup_insert_eq.
  - intros -> Hm. destruct Hserved as (o' & Hold & _ & Hst & Hs'). destruct Hlog as [->|Hf'].
    + rewrite Hs', lookup_insert_eq in Hold. by injection Hold as ->.
    + exfalso. rewrite Hf' in Hq'. eapply (quiet_mine _ _ _ _ o); [exact Hq'| |done]. by left.
  - intros Hx Hm. destruct (Hown eq_refl) as (w & _ & [_ Hlive] & Hread & _).
    pose proof (read_stored p f p m h o Hq Hkey Hstream Hh Hread Hm) as Hold.
    destruct x as [err|]; simpl in Hserved.
    + destruct Hserved as [_ Hnf]. by rewrite (Hnf (Hx err eq_refl)) in Hold.
    + destruct Hserved as (current & Hcur & _ & _ & Hs'). rewrite Hold in Hcur. injection Hcur as <-.
      destruct Hlog as [->|Hf']; [|rewrite Hf' in Hq'; eapply (quiet_mine _ _ _ _ o); [exact Hq'| |done]; by left].
      destruct Hs' as [Hs'|(o' & [_ Hmark] & Hs')]; rewrite Hs' in Hold.
      * by rewrite lookup_delete_eq in Hold.
      * rewrite lookup_insert_eq in Hold. injection Hold as ->. by rewrite Hmark in Hlive.
Qed.

Lemma call_agrees f f' p m h e x :
  read_by (inf_seen f) p m e x → writes f f' e x → quiet_children p f → quiet_children p f' →
  keyed (inf_seen f) → streams f → Forall (agrees (inf_seen f) p m) h → own_write ns name h e →
  agrees (inf_seen f) p m (Call e x).
Proof.
  intros Hr Hw Hq Hq' Hkey Hstream Hh Hown. destruct (written_object e) as [o|] eqn:Ew; [by eapply write_agrees|].
  split.
  - intros k got Hk. destruct (child_read_served (inf_seen f) _ _ _ _ Hk) as [Hcr Hgot].
    assert (read_from (inf_seen f) k got) as Hread by (apply Hgot; destruct e; try done; by apply Hr).
    destruct got as [err|o]; simpl in *; [|done]. intros Hn o Ho. by rewrite (Hread Hn) in Ho.
  - destruct e; try done; simpl in Hr.
    + intros Hn Hm. specialize (Hr Hn Hm). destruct x as [err|w]; [done|]. by exists w.
    + intros Hn meta w -> _ _. by apply Hr.
Qed.

(** ** What a reconciliation that asks for nothing has found *)

Lemma mine_owned w o : named w → (0 ≤ childOrder (Pointer o) < 6)%Z → owns w o = true → mine o.
Proof. intros Hn Ho Hw. split; [done|]. by exists w. Qed.

(** What one [Apply] that ended without an error says of its child, the copy being as it was read. *)
Section Child.
Context (c : objects) (p : option AIWorkload) (m : gmap string ObjectMeta) (w : AIWorkload) (i : Intent) (object : Object).
Hypothesis Hkey : keyed c.
Hypothesis Hn : named w.
Hypothesis Hi : valid_intent w i.
Hypothesis Hsafe : safe_intent i.
Hypothesis Ei : i_Object i = Pointer object.
Hypothesis Hord : (0 ≤ childOrder (Pointer object) < 6)%Z.

Lemma mine_at o : c !! intent_key w i = Some o → owns w o = true → mine o.
Proof.
  intros Ho. apply mine_owned; [done|]. apply Hkey in Ho. unfold object_key, intent_key in Ho. rewrite Ei in Ho.
  apply (f_equal (λ k, k.1.1)) in Ho. change (childOrder (Pointer o) = childOrder (Pointer object)) in Ho. by rewrite Ho.
Qed.

Lemma create_tended h outcome :
  (∀ o, c !! intent_key w i = Some o → ¬ mine o) →
  returns (apply_create w i object) h (inr outcome) → Forall (agrees c p m) h → tended c w i.
Proof.
  intros Hfree Hr Hh _. unfold apply_create in Hr. destruct (i_Absent i) eqn:Eabs.
  { intros o Ho. apply not_true_iff_false. intros Hw. by apply (Hfree o Ho), mine_at. }
  exfalso. pose proof Hi as (object' & Ei' & _ & Hns & _ & _ & _ & Hm). rewrite Ei in Ei'. injection Ei' as <-.
  destruct (Hm Eabs) as [f Hf]. unfold mutate, safe_intent in *. rewrite Hf in *. simpl in Hr.
  destruct (f object) as [mo|e|] eqn:Ef; simpl in Hr; [|by destruct Hr|by destruct Hr as ([] & _)].
  destruct (fresh_identity_kept _ _ _) eqn:Ek; simpl in Hr; [|by destruct Hr].
  destruct (set_controller w mo) as [o|] eqn:Es; simpl in Hr; [|by destruct Hr].
  destruct Hr as ([err'|] & h2 & -> & [-> Hr]); [done|]. apply Forall_cons in Hh as [[_ Hc] _].
  apply fresh_identity_kept_spec in Ek as (_ & Hkns & _). apply (Hc eq_refl). apply (mine_owned w); [done| |].
  - apply set_controller_inv in Es as (refs & _ & ->).
    by rewrite with_meta_order, (same_kind_order object mo) by (by apply mutation_kind).
  - eapply set_controller_owns; [|exact Es]. congruence.
Qed.

Lemma delete_gone current h outcome :
  mine current → returns (apply_delete current) h (inr outcome) → Forall (agrees c p m) h → False.
Proof.
  intros Hm (x & h' & -> & Hr) [[_ Hc] _]%Forall_cons. apply Hc; [|done]. intros err ->. simpl in Hr.
  destruct (IsNotFound err); [done|by destruct Hr].
Qed.

Lemma patch_tended current h outcome :
  i_Absent i = false → c !! intent_key w i = Some current → owns w current = true →
  Time_IsZero (om_DeletionTimestamp (obj_meta current)) = true →
  returns (apply_patch w i current) h (inr outcome) → Forall (agrees c p m) h → tended c w i.
Proof.
  intros Ha Hcur Ho Hd Hr Hh _. rewrite Ha. exists current. split; [done|]. split; [done|]. split; [done|].
  destruct Hi as (_ & _ & _ & _ & _ & _ & _ & Hm). destruct (Hm Ha) as [f Hf].
  unfold apply_patch, mutate in Hr. rewrite Hf in Hr. simpl in Hr.
  destruct (f current) as [mo|e|] eqn:Ef; simpl in Hr; [|by destruct Hr|by destruct Hr as ([] & _)].
  destruct (identity_kept _ _); simpl in Hr; [|by destruct Hr].
  destruct (set_controller w mo) as [o|] eqn:Es; simpl in Hr; [|by destruct Hr].
  exists f, mo, o. split; [done|]. split; [done|]. split; [done|].
  destruct (DeepEqual current o); [by left|]. right. simpl in Hr.
  destruct Hr as ([err'|] & h2 & -> & [-> Hr]); [done|]. apply Forall_cons in Hh as [[_ Hc] _].
  apply Hc; [done|]. by apply mine_at.
Qed.

Lemma Apply_tended h outcome :
  valid_owner w → Time_IsZero (w_DeletionTimestamp w) = true →
  returns (Apply w i) h (inr outcome) → Forall (agrees c p m) h → tended c w i.
Proof.
  intros Hown Hlive Hr Hh. rewrite (Apply_reads w i object) in Hr by done. destruct Hr as (x & h' & -> & Hr).
  apply Forall_cons in Hh as [[Hs _] Hh]. specialize (Hs _ _ (child_read_get object x Hord)).
  rewrite (valid_intent_key w i object Hi Ei) in Hs. destruct (get_reply object x) as [err|current] eqn:Ex; simpl in Hr, Hs.
  - destruct (IsNotFound err); [|by destruct Hr]. eapply create_tended; [|done|done]. by apply Hs.
  - destruct (owns w current) eqn:Eo; simpl in Hr; [|by destruct Hr].
    destruct (Time_IsZero (om_DeletionTimestamp (obj_meta current))) eqn:Ed; simpl in Hr; [|by destruct Hr].
    assert (mine current) as Hm by (apply (mine_owned w); [done| |done]; by rewrite (get_reply_kind object x)).
    destruct (i_Absent i) eqn:Ea; [by exfalso; eapply delete_gone|apply (patch_tended current h' outcome); by auto].
Qed.

End Child.

Lemma plan_tended c p m w plan h :
  keyed c → named w → valid_owner w → Time_IsZero (w_DeletionTimestamp w) = true →
  Forall (valid_intent w) plan → Forall safe_intent plan →
  returns (apply_plan r w plan) h None → Forall (agrees c p m) h → Forall (tended c w) plan.
Proof.
  intros Hkey Hn Ho Hlive. revert h. induction plan as [|i plan IH]; intros h Hv Hs Hr Hh; [constructor|].
  apply Forall_cons in Hv as [Hi Hv]. apply Forall_cons in Hs as [Hsi Hs].
  apply apply_plan_cons in Hr as (h1 & outcome & h2 & h3 & -> & Ha & _ & Hr).
  rewrite !Forall_app in Hh. destruct Hh as (Hh1 & _ & Hh3).
  constructor; [|by eapply IH]. pose proof Hi as (object & Ei & Hpos & _). intros Hlt. rewrite Ei in Hpos, Hlt.
  eapply Apply_tended; [done..| |done|done|done|done|by rewrite Ei]. done.
Qed.

Lemma tended_same c w w' i : same_workload w w' → tended c w i → tended c w' i.
Proof.
  intros Hw Hi Hlt. specialize (Hi Hlt). pose proof Hw as (_ & Hns & Hnm & _).
  assert (intent_key w' i = intent_key w i) as -> by (unfold intent_key; by rewrite Hns, Hnm).
  destruct (i_Absent i).
  - intros o Ho. rewrite (owns_same w w') by done. by apply Hi.
  - destruct Hi as (o & Ho & Hown & Hd & f & m & a & Hf & Hm & Hs & Heq). exists o. split; [done|].
    split; [by rewrite (owns_same w w')|]. split; [done|]. exists f, m, a. by rewrite (set_controller_same w w').
Qed.

Lemma all_tended_same c m w w' : same_workload w w' → all_tended c m w → all_tended c m w'.
Proof.
  intros Hw [(external & exposure & plan & He & Hp & Ht) Hd]. pose proof Hw as [Hsp _]. unfold all_tended. rewrite Hsp.
  split; [|done]. exists external, exposure, plan. split; [done|].
  rewrite (build_plan_same w w') by done. split; [done|]. eapply Forall_impl; [exact Ht|]. intros i. by apply tended_same.
Qed.

Hypothesis Hbuilder : r_Builder r = Some Build.
Hypothesis Hlookup : ∀ lookup, r_CapabilityLookup (r_gates r) = Some lookup → lookup_ok any_text lookup.

Lemma Reconcile_starts :
  ∃ f, Reconcile r ns name = Vis (EGetWorkload ns name) f ∧
    (∀ err, f (inl err) = Ret (no_requeue, retryError (if IsNotFound err then None else Some err))) ∧
    (∀ w, f (inr w) = if negb (Time_IsZero (w_DeletionTimestamp w)) then Ret (no_requeue, None) else after_workload r w).
Proof.
  unfold Reconcile. rewrite bool_decide_false by (unfold watchesNamespace in Hwatched; by destruct (effectiveWatchNamespaces r)).
  rewrite Hwatched, Hbuilder. simpl. eexists. split; [reflexivity|]. done.
Qed.

(** A Secret that was read has the version it was read at. *)
Lemma resolved_current c m w h x y :
  Forall (agrees c (Some w) m) h → mentions w (er_TargetSecret x) → resolved_from ns h x y → current_version m x y.
Proof.
  intros Hh Hm (Ht & meta & Hin & Hv). split; [done|]. rewrite Forall_forall in Hh. destruct (Hh _ Hin) as [_ Hc].
  rewrite (Hc eq_refl meta w eq_refl eq_refl Hm). simpl. by rewrite Hv.
Qed.

Lemma all_resolved_current c m w h external :
  Forall (agrees c (Some w) m) h → Forall2 (resolved_from ns h) (sp_ExternalSecrets (w_Spec w)) external →
  Forall2 (current_version m) (sp_ExternalSecrets (w_Spec w)) external.
Proof.
  intros Hh He. apply Forall2_same_length_lookup_2.
  - by eapply Forall2_length.
  - intros n x y Hx Hy. eapply resolved_current; [exact Hh| |by eapply Forall2_lookup_lr].
    right. by apply list_elem_of_fmap_2, (list_elem_of_lookup_2 _ n).
Qed.

Lemma direct_present c m w h :
  Forall (agrees c (Some w) m) h → returns (validate_secrets ns (sp_SecretRefs (w_Spec w))) h None →
  Forall (λ n, is_Some (m !! n)) (sp_SecretRefs (w_Spec w)).
Proof.
  intros Hh Hr. apply validate_secrets_returns in Hr. rewrite !Forall_forall in *. intros n Hn.
  destruct (Hr n Hn) as [meta Hin]. destruct (Hh _ Hin) as [_ Hc]. exists meta. by apply (Hc eq_refl meta w); [..|left].
Qed.

(** The stage of the children, when it ends without an error. *)
Lemma children_tended c m w w1 external exposure h :
  keyed c → named w → Time_IsZero (w_DeletionTimestamp w) = true → same_workload w1 w →
  Forall2 (current_version m) (sp_ExternalSecrets (w_Spec w)) external →
  returns (reconcile_children r Build w1 external exposure) h None → Forall (agrees c (Some w) m) h → all_tended c m w.
Proof.
  intros Hkey Hn Hlive Hw He Hr Ha. apply (all_tended_same c m w1 w Hw).
  pose proof Hw as (Hsp & Hns & Hnm & _ & _ & Hdt). unfold reconcile_children in Hr.
  destruct (build_plan Build w1 external exposure) as [plan|err|] eqn:Ep; simpl in Hr; [|by destruct Hr|by destruct Hr as ([] & _)].
  apply returns_bind in Hr as (h4 & [err|] & h5 & -> & Hap & Hsec); [by destruct Hsec|].
  apply Forall_app in Ha as [Ha4 Ha5]. unfold all_tended. rewrite <-Hsp. destruct Hn as [Hn1 Hn2]. split.
  - exists external, exposure, plan. split; [done|]. split; [done|].
    apply build_plan_intents in Ep as (Ho & Hv & Hs); [|typeclasses eauto].
    eapply (plan_tended c (Some w)); try done; [|by rewrite <-Hdt]. split; congruence.
  - eapply direct_present; [exact Ha5|]. unfold validateSecretReferences in Hsec. by rewrite <-Hsp, <-Hns, Hn1 in Hsec.
Qed.

(** A reconciliation of a live workload that will not come back has found every child tended. *)
Lemma Reconcile_tended c m h out w :
  keyed c → named w → Time_IsZero (w_DeletionTimestamp w) = true →
  returns (Reconcile r ns name) h out → comes_back out = false →
  Forall (api_contract any_text) h → Forall (agrees c (Some w) m) h → all_tended c m w.
Proof.
  intros Hkey Hn Hlive Hr Hout Hc Ha. destruct Reconcile_starts as (f & Hf & Herr & Hok). rewrite Hf in Hr.
  destruct Hr as (x & h' & -> & Hr). apply Forall_cons in Hc as [_ Hc]. apply Forall_cons in Ha as [[_ Hx] Ha].
  specialize (Hx eq_refl eq_refl). simpl in Hx. destruct x as [err|w0].
  { rewrite Herr in Hr. destruct Hr as [_ ->]. destruct (IsNotFound err); [by specialize (Hx eq_refl)|done]. }
  destruct Hx as (w' & [= <-] & Hw). pose proof Hw as (_ & Hns & Hnm & _ & _ & Hdt).
  rewrite Hok, <-Hdt, Hlive in Hr. simpl in Hr.
  assert (out = (no_requeue, None)) as ->.
  { destruct out as [[d] [err|]]; [done|]. unfold comes_back in Hout. simpl in Hout. apply negb_false_iff, Z.eqb_eq in Hout. by subst d. }
  unfold after_workload in Hr.
  apply returns_bind in Hr as (h1 & [w1 [err|[external exposure]]] & k1 & -> & Hg & Hr); [by apply report_requeues in Hr|].
  apply returns_bind in Hr as (h2 & [err|] & h3 & -> & Hch & Hr).
  { destruct (errors_Is err ErrChildDeleting); [by destruct Hr as [_ [=]]|by apply report_requeues in Hr]. }
  rewrite !Forall_app in Hc, Ha. destruct Hc as (Hc1 & Hc2 & _), Ha as (Ha1 & Ha2 & _).
  assert (follows any_text w0 w0) as Hfol by (by split).
  pose proof (safe_returns _ _ _ _ (run_gates_safe any_text r Hlookup w0 w0 Hfol) Hg Hc1) as [[Hw1 _] _].
  assert (same_workload w1 w) as Hw1w by (eapply same_workload_trans; [by apply same_workload_sym|done]).
  pose proof (run_gates_resolved r w0 h1 w1 external exposure Hg Hc1) as Hext.
  pose proof Hw as (Hsp & _). destruct Hn as [Hns0 Hnm0]. rewrite <-Hns, Hns0, <-Hsp in Hext.
  apply (children_tended c m w w1 external exposure h2); try done. by apply (all_resolved_current c m w h1).
Qed.

(** ** The invariant *)

(** No request is queued, and nothing on its way makes one. *)
Definition quiet (y : system) : Prop :=
  sy_queued y = false ∧ quiet_children (known (sy_workload y)) (sy_children y) ∧
  Forall (λ e, wakes (known (sy_workload y)) (workload_events e) = false) (inf_pending (sy_workload y)) ∧
  Forall (λ e, wakes (known (sy_workload y)) (secret_events e) = false) (inf_pending (sy_secrets y)).

Definition all_agree (y : system) h : Prop :=
  Forall (agrees (inf_seen (sy_children y)) (known (sy_workload y)) (inf_seen (sy_secrets y))) h.

(** The copies hold what a pass that asked for nothing has found. *)
Definition found_tended (y : system) : Prop :=
  ∀ w, known (sy_workload y) = Some w → Time_IsZero (w_DeletionTimestamp w) = true →
    all_tended (inf_seen (sy_children y)) (inf_seen (sy_secrets y)) w.

Record inv (y : system) : Prop := {
  inv_children : streams (sy_children y) ∧ everywhere child_named (sy_children y);
  inv_workload : streams (sy_workload y) ∧ everywhere (λ _, named) (sy_workload y) ∧
    Forall (λ e, workload_change (ch_old e) (ch_new e)) (inf_pending (sy_workload y));
  inv_secrets : streams (sy_secrets y) ∧ everywhere secret_named (sy_secrets y) ∧
    Forall (λ e, ∀ m, ch_old e = Some m → om_Namespace m = ns) (inf_pending (sy_secrets y));
  inv_running h t : sy_running y = Some (h, t) →
    after (Reconcile r ns name) h t ∧ Forall (api_contract any_text) h ∧ (quiet y → all_agree y h);
  inv_rest : quiet y → sy_due y = false → sy_running y = None → found_tended y
}.

Lemma after_issues {A} (t0 : program A) h e f : after t0 h (Vis e f) → issues t0 h e.
Proof. revert t0. induction h as [|[e' x] h IH]; simpl; intros t0; [intros <-; by left|]. intros (k & -> & Hk). right. eauto. Qed.

Lemma after_returns {A} (t0 : program A) h a : after t0 h (Ret a) → returns t0 h a.
Proof. revert t0. induction h as [|[e' x] h IH]; simpl; intros t0; [by intros <-|]. intros (k & -> & Hk). simpl. eauto. Qed.

Lemma after_call {A} (t0 : program A) h e f x : after t0 h (Vis e f) → after t0 (h ++ [Call e x]) (f x).
Proof. revert t0. induction h as [|[e' y] h IH]; simpl; intros t0; [intros <-; eauto|]. intros (k & -> & Hk). eauto. Qed.

(** The steps that keep a quiet system's copies, or change them in what requests nothing. *)
Lemma inv_kept y y' :
  inv y → sy_running y' = sy_running y → sy_due y' = sy_due y → (quiet y' → quiet y) →
  streams (sy_children y') ∧ everywhere child_named (sy_children y') →
  (streams (sy_workload y') ∧ everywhere (λ _, named) (sy_workload y') ∧
    Forall (λ e, workload_change (ch_old e) (ch_new e)) (inf_pending (sy_workload y'))) →
  (streams (sy_secrets y') ∧ everywhere secret_named (sy_secrets y') ∧
    Forall (λ e, ∀ m, ch_old e = Some m → om_Namespace m = ns) (inf_pending (sy_secrets y'))) →
  (quiet y' → ∀ h, all_agree y h → all_agree y' h) → (quiet y' → found_tended y → found_tended y') → inv y'.
Proof.
  intros [_ _ _ Hrun Hrest] Er Ed Hq Hc Hw Hs Ha Hf. split; try done.
  - intros h t E. rewrite Er in E. destruct (Hrun h t E) as (? & ? & Hag). split; [done|]. split; [done|]. intros Hy. by apply Ha, Hag, Hq.
  - rewrite Ed, Er. auto.
Qed.

Lemma inv_started c p m : keyed c → map_Forall (λ _, named) p → map_Forall secret_named m → inv (started c p m).
Proof. intros Hc Hp Hm. split; try done. by intros [? _]. Qed.

(** *** Other clients *)

Lemma inv_child_changed c p m q d run k new :
  (∀ o, new = Some o → child_named k o) → inv (System c p m q d run) → inv (System (changed k new c) p m q d run).
Proof.
  intros Hnew Hi. pose proof Hi as [[Hc Hcn] Hp Hm _ _]. apply (inv_kept _ _ Hi); try done.
  - intros (? & Hq & ?). split; [done|]. by apply Forall_app in Hq as [? _].
  - split; [by apply streams_changed|by apply everywhere_changed].
Qed.

Lemma inv_workload_changed c p m q d run new :
  (∀ w, new = Some w → named w) → workload_change (inf_stored p !! ()) new →
  inv (System c p m q d run) → inv (System c (changed () new p) m q d run).
Proof.
  intros Hnew Hch Hi. pose proof Hi as [Hc (Hp & Hpn & Hpc) Hm _ _]. apply (inv_kept _ _ Hi); try done.
  - intros (? & ? & Hq & ?). split; [done|]. split; [done|]. by apply Forall_app in Hq as [? _].
  - split; [by apply streams_changed|]. split; [by apply everywhere_changed|]. apply Forall_app. split; [done|]. by constructor.
Qed.

Lemma inv_secret_changed c p m q d run n new :
  (∀ meta, new = Some meta → secret_named n meta) → inv (System c p m q d run) → inv (System c p (changed n new m) q d run).
Proof.
  intros Hnew Hi. pose proof Hi as [Hc Hp (Hm & Hmn & Hmo) _ _]. apply (inv_kept _ _ Hi); try done.
  - intros (? & ? & ? & Hq). split; [done|]. split; [done|]. split; [done|]. by apply Forall_app in Hq as [? _].
  - split; [by apply streams_changed|]. split; [by apply everywhere_changed|]. apply Forall_app. split; [done|].
    constructor; [|done]. intros meta Hmeta. by apply (proj1 Hmn) in Hmeta as (_ & ? & _).
Qed.

(** *** The informers *)

Lemma tended_copied p0 c e w i :
  keyed c → named w → valid_intent w i → wakes p0 (child_events e) = false → ch_old e = c !! ch_key e →
  (∀ o, ch_new e = Some o → child_named (ch_key e) o) → tended c w i → tended (copied e c) w i.
Proof.
  intros Hkey Hn Hi Hw Hold Hnew Ht Hlt. specialize (Ht Hlt). pose proof Hi as (object & Ei & Hpos & _).
  rewrite Ei in Hpos, Hlt.
  assert (keyed (copied e c)) as Hkey' by (by apply (map_Forall_alter child_named)).
  destruct e as [ek old new]. unfold copied in *. simpl in *. subst old.
  assert (∀ o, c !! ek = Some o ∨ new = Some o → ¬ mine o) as Hnm by (intros o Ho Hm; by rewrite (mine_wakes _ _ _ _ o Hm Ho) in Hw).
  destruct (decide (ek = intent_key w i)) as [->|Hk]; [|by rewrite lookup_partial_alter_ne].
  rewrite lookup_partial_alter_eq. destruct (i_Absent i).
  - intros o Ho. apply not_true_iff_false. intros Hown. apply (Hnm o); [by right|].
    apply (mine_at _ w i object Hkey'); try done. by rewrite lookup_partial_alter_eq.
  - destruct Ht as (o & Ho & Hown & _). exfalso. apply (Hnm o); [by left|]. by apply (mine_at c w i object).
Qed.

Lemma all_tended_copied p0 c e m w :
  keyed c → named w → wakes p0 (child_events e) = false → ch_old e = c !! ch_key e →
  (∀ o, ch_new e = Some o → child_named (ch_key e) o) → all_tended c m w → all_tended (copied e c) m w.
Proof.
  intros Hkey Hn Hw Hold Hnew [(external & exposure & plan & He & Hp & Ht) Hd]. split; [|done].
  exists external, exposure, plan. split; [done|]. split; [done|].
  apply build_plan_intents in Hp as (_ & Hv & _); [|typeclasses eauto].
  rewrite Forall_forall in *. intros i Hi. eapply tended_copied; eauto.
Qed.

Lemma inv_child_seen c c' p m q d run e :
  delivers e c c' → inv (System c p m q d run) →
  inv (System c' p m (q || wakes (known p) (child_events e)) d run).
Proof.
  intros Hd Hi. pose proof Hi as [[Hc Hcn] Hp Hm _ _]. simpl in *. destruct (streams_delivers _ _ _ Hd Hc) as [Hold Hc'].
  destruct (delivers_seen _ _ _ Hd) as [_ Hseen]. pose proof (proj1 (delivers_pending _ _ _ _ Hd) (proj2 (proj2 Hcn))) as [Hnew _].
  assert (quiet (System c' p m (q || wakes (known p) (child_events e)) d run) →
    quiet (System c p m q d run) ∧ wakes (known p) (child_events e) = false) as Hq.
  { intros ([Hq Hw]%orb_false_iff & Hqc & Hqw & Hqs). split; [|done]. split; [done|]. split; [|done].
    by apply (delivers_pending _ _ _ _ Hd). }
  apply (inv_kept _ _ Hi); try done.
  - by intros [? _]%Hq.
  - split; [done|by eapply everywhere_delivers].
  - intros [_ Hw]%Hq h Ha. unfold all_agree. simpl. rewrite Hseen. eapply Forall_impl; [exact Ha|]. intros call.
    by eapply agrees_child.
  - intros [_ Hw]%Hq Hf w Hkw Hlive. simpl in *. rewrite Hseen. eapply all_tended_copied; [apply Hcn| |exact Hw|done|done|by apply Hf].
    by apply (proj1 (proj2 (proj1 (proj2 Hp))) ()).
Qed.

(** Only the Secrets the workload names matter. *)
Lemma all_tended_kept c m m' w :
  (∀ n meta, mentions w n → m !! n = Some meta → m' !! n = Some meta) → all_tended c m w → all_tended c m' w.
Proof.
  intros Hkeep [(external & exposure & plan & He & Hp & Ht) Hd]. split.
  - exists external, exposure, plan. split; [|done]. apply Forall2_same_length_lookup_2; [by eapply Forall2_length|].
    intros n x y Hx Hy. destruct (Forall2_lookup_lr _ _ _ _ _ _ He Hx Hy) as [Hyt Hv]. split; [done|].
    apply fmap_Some in Hv as (meta & Hmeta & ->). rewrite (Hkeep _ meta); [done| |done].
    right. by apply list_elem_of_fmap_2, (list_elem_of_lookup_2 _ n).
  - rewrite Forall_forall in *. intros n Hn. destruct (Hd n Hn) as [meta Hmeta]. exists meta. apply Hkeep; [by left|done].
Qed.

Lemma inv_secret_seen c p m m' q d run e :
  delivers e m m' → inv (System c p m q d run) →
  inv (System c p m' (q || wakes (known p) (secret_events e)) d run).
Proof.
  intros Hd Hi. pose proof Hi as [Hc Hp (Hm & Hmn & Hmo) _ _]. simpl in *.
  destruct (streams_delivers _ _ _ Hd Hm) as [Hold Hm']. destruct (delivers_seen _ _ _ Hd) as [_ Hseen].
  assert (∀ w, known p = Some w → named w) as Hnamed by apply (proj1 (proj2 (proj1 (proj2 Hp)))).
  assert (quiet (System c p m' (q || wakes (known p) (secret_events e)) d run) →
    quiet (System c p m q d run) ∧ wakes (known p) (secret_events e) = false) as Hq.
  { intros ([Hq Hw]%orb_false_iff & Hqc & Hqw & Hqs). split; [|done]. split; [done|]. split; [done|]. split; [done|].
    by apply (delivers_pending _ _ _ _ Hd). }
  apply (inv_kept _ _ Hi); try done.
  - by intros [? _]%Hq.
  - split; [done|]. split; [by eapply everywhere_delivers|]. by apply (delivers_pending _ _ _ _ Hd) in Hmo as [_ ?].
  - intros [_ Hw]%Hq h Ha. unfold all_agree. simpl. rewrite Hseen. eapply Forall_impl; [exact Ha|]. intros call.
    apply agrees_secret; try done. apply Hmn.
  - intros [_ Hw]%Hq Hf w Hkw Hlive. simpl in *. rewrite Hseen. eapply all_tended_kept; [|by apply Hf].
    intros n meta Hmen Hmeta. destruct e as [n0 old new]. unfold copied. simpl in *.
    destruct (decide (n0 = n)) as [->|]; [|by rewrite lookup_partial_alter_ne]. rewrite Hkw in Hw.
    rewrite (secret_wakes w n old new meta) in Hw; [done|by apply Hnamed|done|by apply Hmn|]. left. congruence.
Qed.

Lemma inv_workload_seen c p p' m q d run e :
  delivers e p p' → inv (System c p m q d run) →
  inv (System c p' m (q || wakes (known p') (workload_events e)) d run).
Proof.
  intros Hd Hi. pose proof Hi as [Hc (Hp & Hpn & Hpc) (Hm & Hmn & Hmo) _ _]. simpl in *.
  destruct (streams_delivers _ _ _ Hd Hp) as [Hold Hp']. destruct (delivers_seen _ _ _ Hd) as [_ Hseen].
  pose proof (everywhere_delivers _ _ _ _ Hd Hpn) as Hpn'. pose proof (proj1 (delivers_pending _ _ _ _ Hd) Hpc) as [Hce Hpc'].
  assert (known p' = ch_new e) as Hnew.
  { unfold known. rewrite Hseen. unfold copied. destruct (ch_key e). by rewrite lookup_partial_alter_eq. }
  assert (ch_old e = known p) as Hold' by (unfold known; rewrite Hold; by destruct (ch_key e)).
  assert (quiet (System c p' m (q || wakes (known p') (workload_events e)) d run) →
    same_known (known p) (known p') ∧ quiet (System c p m q d run)) as Hq.
  { intros ([Hq Hw]%orb_false_iff & Hqc & Hqw & Hqs). simpl in *.
    assert (same_known (known p) (known p')) as Hs.
    { assert (∀ w, known p = Some w → named w) as Hn by apply (proj1 (proj2 Hpn) ()).
      assert (∀ w, known p' = Some w → named w) as Hn' by apply (proj1 (proj2 Hpn') ()).
      rewrite <-Hold' in Hn |- *. rewrite Hnew in Hn' |- *. destruct e as [[] old new]. by apply (unrequested_same (known p')). }
    split; [done|]. split; [done|]. split; [|split].
    - eapply Forall_impl; [exact Hqc|]. intros c0 Hc0. simpl. by rewrite (child_wakes_same _ (known p')).
    - apply (delivers_pending _ _ _ _ Hd). split; [simpl; by rewrite (workload_wakes_same _ (known p'))|].
      eapply Forall_impl; [exact Hqw|]. intros c0 Hc0. simpl. by rewrite (workload_wakes_same _ (known p')).
    - destruct Hmn as (_ & _ & Hmn). simpl in *. rewrite Forall_forall in *. intros [n old new] Hin.
      rewrite (secret_wakes_same _ (known p')) by (done || (intros meta [Ho|Ho]; [by apply (Hmo _ Hin)|by apply (Hmn _ Hin)])).
      by apply Hqs. }
  apply (inv_kept _ _ Hi); try done.
  - by intros [_ ?]%Hq.
  - intros [Hs _]%Hq h Ha. eapply Forall_impl; [exact Ha|]. intros call. by apply agrees_known.
  - intros [Hs _]%Hq Hf w Hkw Hlive. simpl in *. rewrite Hkw in Hs. destruct (known p) as [w0|] eqn:Ek; [|done].
    pose proof Hs as (_ & _ & _ & _ & _ & Hdt). apply (all_tended_same _ _ w0 w Hs). apply Hf; [done|]. by rewrite <-Hdt.
Qed.

(** *** The reconciliation *)

Lemma writes_streams f f' e x :
  writes f f' e x → streams f → everywhere child_named f →
  inf_seen f' = inf_seen f ∧ streams f' ∧ everywhere child_named f' ∧ ∀ p, quiet_children p f' → quiet_children p f.
Proof.
  unfold writes. destruct (written_object e) as [o|]; [|by intros ->]. intros [Hs Hf'] Hf He.
  destruct Hf' as [->|Hf']; [done|]. pose proof (served_keyed _ _ _ _ (proj1 He) Hs) as Hkey'. rewrite Hf'.
  split; [done|]. split; [by apply streams_changed|]. split.
  - apply everywhere_changed; [|done]. intros o'. apply Hkey'.
  - intros p Hq. by apply Forall_app in Hq as [? _].
Qed.

Lemma inv_call c c' p m q d h e f x :
  api_contract any_text (Call e x) → read_by (inf_seen c) (known p) (inf_seen m) e x → writes c c' e x →
  inv (System c p m q d (Some (h, Vis e f))) → inv (System c' p m q d (Some (h ++ [Call e x], f x))).
Proof.
  intros Hx Hr Hw [[Hc Hcn] Hp Hm Hrun _]. simpl in *.
  destruct (writes_streams _ _ _ _ Hw Hc Hcn) as (Hseen & Hc' & Hcn' & Hquiet).
  destruct (Hrun _ _ eq_refl) as (Hafter & Hcon & Hagree).
  assert (well_built any_text r) as Hb by (split; [done|]; rewrite Hbuilder; intros ? [= <-]; typeclasses eauto).
  assert (own_write ns name h e) as Hown
    by exact (wp_issues [] _ _ _ _ (Reconcile_own r ns name Hb) (after_issues _ _ _ _ Hafter) Hcon).
  split; simpl; try done. intros h' t [= <- <-].
  split; [by apply after_call|]. split; [apply Forall_app; split; [done|]; by constructor|].
  intros (Hq & Hqc & Hqw & Hqs). simpl in *.
  assert (Forall (agrees (inf_seen c) (known p) (inf_seen m)) h) as Ha by (by apply Hagree; split; [|split; [apply Hquiet|]]).
  unfold all_agree. simpl. rewrite Hseen. apply Forall_app. split; [done|]. constructor; [|done].
  apply (call_agrees c c' (known p) (inf_seen m) h); try done; [by apply Hquiet|apply Hcn].
Qed.

Lemma inv_finish c p m q d h out :
  inv (System c p m q d (Some (h, Ret out))) → inv (System c p m q (d || comes_back out) None).
Proof.
  intros [Hc Hp Hm Hrun Hrest]. destruct (Hrun _ _ eq_refl) as (Hafter & Hcon & Hagree).
  split; simpl; try done. intros Hq [_ Hout]%orb_false_iff _ w Hw Hlive. simpl in *.
  specialize (Hagree Hq). unfold all_agree in Hagree. simpl in Hagree. rewrite Hw in Hagree.
  apply (Reconcile_tended _ _ h out); try done; [apply (proj2 Hc)|by apply (proj1 (proj2 (proj1 (proj2 Hp))) ())|by apply after_returns].
Qed.

Lemma inv_requested c p m q d d' run : inv (System c p m q d run) → inv (System c p m true d' run).
Proof.
  intros [Hc Hp Hm Hrun Hrest]. split; simpl; try done; [|by intros [? _]].
  intros h t E. destruct (Hrun h t E) as (? & ? & _). split; [done|]. split; [done|]. by intros [? _].
Qed.

Lemma inv_step y y' : step y y' → inv y → inv y'.
Proof.
  destruct 1 as [c p m q d run k new Hnew|c p m q d run new Hnew Hch|c p m q d run n new Hnew|c c' p m q d run e Hd|
    c p p' m q d run e Hd|c p m m' q d run e Hd|c p m q d run|c p m q run|c p m d|
    c c' p m q d h e f x Hx Hr Hw|c p m q d h out|c p m q d run].
  - by apply inv_child_changed.
  - by apply inv_workload_changed.
  - by apply inv_secret_changed.
  - by apply inv_child_seen.
  - by apply inv_workload_seen.
  - by apply inv_secret_seen.
  - apply inv_requested.
  - apply inv_requested.
  - intros [Hc Hp Hm Hrun Hrest]. split; try done. intros h t [= <- <-]. split; [done|]. split; [done|]. intros _. constructor.
  - by apply inv_call.
  - apply inv_finish.
  - intros [[_ [Hc _]] (_ & [Hp _] & _) (_ & [Hm _] & _) _ _]. by apply inv_started.
Qed.

Lemma reachable_inv c p m y :
  keyed c → map_Forall (λ _, named) p → map_Forall secret_named m → rtc step (started c p m) y → inv y.
Proof.
  intros Hc Hp Hm Hy. pose proof (inv_started c p m Hc Hp Hm) as Hi.
  induction Hy as [y|y y1 y2 Hstep _ IH]; [done|]. apply IH. by eapply inv_step.
Qed.

(** C2. The operator never sleeps on a wrong cluster.  Whatever other clients do, however stale the
    informers' copies, in whatever order the watch events of different objects arrive, and wherever
    the manager restarts: when nothing is on its way, queued, scheduled or running, the Secrets the
    live workload names are in the API server, and every typed child is there as the plan wants it
    that the builder makes of the current specification and the current Secret versions. *)
Theorem loop_rests_when_tended c p m y w :
  keyed c → map_Forall (λ _, named) p → map_Forall secret_named m → rtc step (started c p m) y → at_rest y →
  inf_stored (sy_workload y) !! () = Some w → Time_IsZero (w_DeletionTimestamp w) = true →
  all_tended (inf_stored (sy_children y)) (inf_stored (sy_secrets y)) w.
Proof.
  intros Hc Hp Hm Hy (Ec & Ep & Em & Hq & Hd & Hr) Hw Hlive.
  destruct (reachable_inv c p m y Hc Hp Hm Hy) as [[Hsc _] [Hsp _] [Hsm _] _ Hrest].
  rewrite (streams_settled _ Hsc Ec), (streams_settled _ Hsm Em). rewrite (streams_settled _ Hsp Ep) in Hw.
  apply Hrest; try done. unfold quiet, quiet_children. rewrite Ec, Ep, Em. split_and!; [done|constructor..].
Qed.

End System.

(** ** An executable loop *)

Section Witness.
Import Ref Sample World RequestsRef.

Definition loop_reconciler : AIWorkloadReconciler := with_setup_defaults reconciler.

Definition loop_registration : registration := {|
  reg_Index := (SecretReferenceIndex, secretIndex); reg_For := primaryPredicate;
  reg_Owns := [KDeployment; KService; KServiceAccount; KNetworkPolicy; KHorizontalPodAutoscaler; KPodDisruptionBudget];
  reg_WatchesSecretMetadata := RequestsForSecret loop_reconciler; reg_Named := r_ControllerName loop_reconciler |}.

Abbreviation loop_step := (step loop_registration loop_reconciler ns "sample").
Abbreviation loop_inv := (inv loop_registration loop_reconciler ns "sample").

Lemma loop_registered : ∃ calls r0, SetupWithManager calls r0 = Ok (loop_reconciler, loop_registration).
Proof. exists {| rc_IndexField := None; rc_Complete := None |}, reconciler. reflexivity. Qed.

Lemma loop_lookup lookup : r_CapabilityLookup (r_gates loop_reconciler) = Some lookup → lookup_ok any_text lookup.
Proof. intros [= <-]. apply HasResource_ok. Qed.

(** Reads are answered from the copies, and the rest by the sample server. *)
Definition other_read (srv : server) (c : objects) (e : event) : option (server * answer e) :=
  if of_server e then Sample.handler srv e else '(_, x) ← ClusterRef.handle (0%N, c) e; Some (srv, x).

Definition serve_read (srv : server) (c : objects) (p : option AIWorkload) (m : gmap string ObjectMeta) (e : event)
    : option (server * answer e) :=
  match e return option (server * answer e) with
  | EGetWorkload namespace n =>
      Some (srv, if bool_decide (namespace = ns) && bool_decide (n = "sample") then answer_of p else inl not_found)
  | EGetSecretMetadata namespace n => Some (srv, if bool_decide (namespace = ns) then answer_of (m !! n) else inl not_found)
  | e => other_read srv c e
  end.

Definition serve_write (n : N) (c : informer key Object) (e : event) : option (N * answer e * informer key Object) :=
  '(st, x) ← ClusterRef.handle (n, inf_stored c) e;
  Some (st.1, x,
    match written_object e, answer_error e x with
    | Some o, None => changed (object_key o) (st.2 !! object_key o) c
    | _, _ => c
    end).

(** The loop without anyone else: it runs, delivers, lets delays pass and starts, in this order. *)
Definition next (st : server * N) (y : system) : option ((server * N) * system) :=
  let '(System c p m q d run) := y in
  match run with
  | Some (h, Ret out) => Some (st, System c p m q (d || comes_back out) None)
  | Some (h, Vis e f) =>
      if written_object e is Some _ then
        '(n, x, c') ← serve_write st.2 c e;
        Some ((st.1, n), System c' p m q d (Some (h ++ [Call e x], f x)))
      else
        '(srv, x) ← serve_read st.1 (inf_seen c) (known p) (inf_seen m) e;
        Some ((srv, st.2), System c p m q d (Some (h ++ [Call e x], f x)))
  | None =>
      match c, p, m with
      | Informer s seen (e :: l), _, _ =>
          Some (st, System (Informer s (copied e seen) l) p m
            (q || wakes loop_registration ns "sample" (known p) (child_events e)) d None)
      | _, Informer s seen (e :: l), _ =>
          let p' := Informer s (copied e seen) l in
          Some (st, System c p' m (q || wakes loop_registration ns "sample" (known p') (workload_events e)) d None)
      | _, _, Informer s seen (e :: l) =>
          Some (st, System c p (Informer s (copied e seen) l)
            (q || wakes loop_registration ns "sample" (known p) (secret_events e)) d None)
      | _, _, _ =>
          if d then Some (st, System c p m true false None)
          else if q then Some (st, System c p m false d (Some ([], Reconcile loop_reconciler ns "sample")))
          else None
      end
  end.

Fixpoint drive (n : nat) (st : server * N) (y : system) : system :=
  match n with
  | 0 => y
  | S n => match next st y with Some (st', y') => drive n st' y' | None => y end
  end.

Lemma other_read_sound srv c e srv' x :
  keyed c → other_read srv c e = Some (srv', x) →
  api_contract any_text (Call e x) ∧ (cached_read e = true → served c c e x).
Proof.
  intros Hk. unfold other_read. destruct (of_server e) eqn:Es; intros Hx.
  - split; [by apply (server_contract _ _ _ _ Es Hx)|]. by destruct e.
  - apply bind_Some in Hx as ([st y] & Hy & [= <- <-]).
    split; [by apply (children_contract (0%N, c) e st y)|]. intros Hc. apply ClusterRef.handle_served in Hy. simpl in Hy.
    assert (st.2 = c) as Hst by (eapply served_silent; [|done]; by destruct e). by rewrite Hst in Hy.
Qed.

Lemma serve_read_sound srv c p m e srv' x :
  keyed c → (∀ w, p = Some w → named ns "sample" w) → serve_read srv c p m e = Some (srv', x) →
  api_contract any_text (Call e x) ∧ read_by ns "sample" c p m e x.
Proof.
  intros Hk Hp Hx. destruct e; try exact (other_read_sound srv c _ srv' x Hk Hx); simpl in Hx; injection Hx as <- <-.
  - case_bool_decide as Hns; [case_bool_decide as Hn|]; simpl.
    + subst. destruct p as [w|]; simpl.
      * destruct (Hp w eq_refl) as [Hwn Hwm]. split; [|done]. split; [by intros ? [= <-]|by intros ? [=]].
      * split; [|done]. split; [by intros ? [=]|by intros ? [= <-]].
    + split; [|done]. split; [by intros ? [=]|by intros ? [= <-]].
    + split; [|done]. split; [by intros ? [=]|by intros ? [= <-]].
  - case_bool_decide as Hns; simpl.
    + destruct (m !! name); simpl; (split; [split; [done|]|done]); [by intros ? [=]|by intros ? [= <-]].
    + split; [|done]. split; [done|by intros ? [= <-]].
Qed.

Lemma serve_write_sound n c e n' x c' o :
  keyed (inf_stored c) → written_object e = Some o → serve_write n c e = Some (n', x, c') →
  api_contract any_text (Call e x) ∧ writes c c' e x.
Proof.
  intros Hk Ho Hx. apply bind_Some in Hx as ([st y] & Hy & [= <- <- <-]).
  assert (of_server e = false) as Es by (by destruct e).
  split; [by apply (children_contract (n, inf_stored c) e st y)|]. apply ClusterRef.handle_served in Hy. simpl in Hy.
  unfold writes. rewrite Ho. destruct (answer_error e y) as [err|] eqn:Ee.
  - assert (st.2 = inf_stored c) as Hst by (destruct e; try done; simpl in Ee; subst y; simpl in Hy; first [done|by destruct Hy as [Hy _]]).
    rewrite Hst in Hy. split; [done|]. by left.
  - assert (partial_alter (λ _, st.2 !! object_key o) (object_key o) (inf_stored c) = st.2) as Hst.
    { apply map_eq. intros k. destruct (decide (object_key o = k)) as [<-|Hne]; [by rewrite lookup_partial_alter_eq|].
      rewrite lookup_partial_alter_ne by done. symmetry. eapply served_frame; [exact Hy|]. rewrite Ho. intros ? [= <-]. done. }
    simpl. rewrite Hst. split; [done|]. right. done.
Qed.

Lemma next_step st y st' y' : loop_inv y → next st y = Some (st', y') → loop_step y y'.
Proof.
  intros [[_ Hc] (_ & Hp & _) _ _ _]. destruct y as [c p m q d run]. simpl in *.
  assert (∀ w, known p = Some w → named ns "sample" w) as Hpn by apply (proj1 (proj2 Hp) ()).
  destruct run as [[h [out|e f]]|]; simpl.
  - intros [= <- <-]. constructor.
  - destruct (written_object e) as [o|] eqn:Eo; intros Hx.
    + apply bind_Some in Hx as ([[n x] c'] & Hx & [= <- <-]).
      destruct (serve_write_sound _ _ _ _ _ _ _ (proj1 Hc) Eo Hx) as [Hcon Hw].
      apply step_call; try done. by destruct e.
    + apply bind_Some in Hx as ([srv x] & Hx & [= <- <-]).
      destruct (serve_read_sound _ _ _ _ _ _ _ (proj1 (proj2 Hc)) Hpn Hx) as [Hcon Hr].
      apply step_call; try done. unfold writes. by rewrite Eo.
  - destruct c as [s seen [|e l]]; [|intros [= <- <-]; apply step_child_seen; by apply (delivers_first e s seen [] l)].
    destruct p as [sp seenp [|e l]]; [|intros [= <- <-]; apply step_workload_seen; by apply (delivers_first e sp seenp [] l)].
    destruct m as [sm seenm [|e l]]; [|intros [= <- <-]; apply step_secret_seen; by apply (delivers_first e sm seenm [] l)].
    destruct d; [intros [= <- <-]; constructor|]. destruct q; [|done]. intros [= <- <-]. constructor.
Qed.

Lemma loop_inv_step y y' : loop_step y y' → loop_inv y → loop_inv y'.
Proof. exact (inv_step loop_registration loop_reconciler ns "sample" loop_registered eq_refl eq_refl loop_lookup y y'). Qed.

Lemma drive_reachable n st y : loop_inv y → rtc loop_step y (drive n st y) ∧ loop_inv (drive n st y).
Proof.
  revert st y. induction n as [|n IH]; intros st y Hy; simpl; [done|].
  destruct (next st y) as [[st' y']|] eqn:En; [|done]. pose proof (next_step _ _ _ _ Hy En) as Hs.
  destruct (IH st' y' (loop_inv_step _ _ Hs Hy)) as [Hr Hi]. split; [|done]. by eapply rtc_l.
Qed.

(** A workload with an external Secret, two Secrets, and no children. *)
Definition secret_at (n version : string) : ObjectMeta := {|
  om_Name := n; om_Namespace := ns; om_UID := n; om_ResourceVersion := version; om_Generation := 0;
  om_DeletionTimestamp := None; om_Labels := None; om_Annotations := None; om_OwnerReferences := [];
  om_Finalizers := []; om_other := [] |}.

Definition first_secrets : gmap string ObjectMeta :=
  <["direct" := secret_at "direct" "5"]> (<["target" := secret_at "target" "7"]> ∅).
Definition first_system : system := started ∅ {[() := rich_workload]} first_secrets.

Definition drive_fuel : nat := 600.
Definition rested : system := drive drive_fuel (cluster rich_workload, 0%N) first_system.

(** Then another client deletes the Deployment, and the target of the external Secret is rotated. *)
Definition deployment_key : key := (1%Z, ns, ChildName "sample").
Definition disturb (y : system) : system :=
  match y with
  | System c p m q d run =>
      System (changed deployment_key None c) p (changed "target" (Some (secret_at "target" "8")) m) q d run
  end.
Definition disturbed : system := disturb rested.
Definition rested_again : system := drive drive_fuel (cluster rich_workload, 100%N) disturbed.

Definition is_rest (y : system) : bool :=
  match inf_pending (sy_children y), inf_pending (sy_workload y), inf_pending (sy_secrets y), sy_running y with
  | [], [], [], None => negb (sy_queued y) && negb (sy_due y)
  | _, _, _, _ => false
  end.

Definition revision_of (y : system) : option string :=
  match inf_stored (sy_children y) !! deployment_key with
  | Some (ODeployment d) => map_of (om_Annotations (pt_meta (dp_Template d))) !! externalSecretRevisionKey
  | _ => None
  end.

Lemma is_rest_spec y : is_rest y = true → at_rest y.
Proof.
  unfold is_rest, at_rest. destruct y as [[cs cc []] [ps pc []] [ms mc []] q d []]; simpl; try done.
  by intros [->%negb_true_iff ->%negb_true_iff]%andb_true_iff.
Qed.

Definition differ (a b : option string) : bool :=
  match a, b with
  | Some a, Some b => negb (String.eqb a b)
  | _, _ => false
  end.

(** What the two runs come to. *)
Definition summary (y y' : system) : bool * option AIWorkload :=
  (is_rest y && is_rest y' && (size (inf_stored (sy_children y')) =? 6)%nat && differ (revision_of y) (revision_of y'),
   inf_stored (sy_workload y') !! ()).

(** The loop brings the workload up, and brings the lost child back with the new revision. *)
Lemma rests_twice : summary rested rested_again = (true, Some rich_workload).
Proof. vm_compute. reflexivity. Qed.

Lemma summary_rest y y' w : summary y y' = (true, Some w) →
  at_rest y' ∧ size (inf_stored (sy_children y')) = 6%nat ∧ inf_stored (sy_workload y') !! () = Some w.
Proof.
  unfold summary. intros [= Hs Hw]. rewrite !andb_true_iff, Nat.eqb_eq in Hs. destruct Hs as [[[_ Hr] Hs] _].
  split; [by apply is_rest_spec|done].
Qed.

Lemma first_children : keyed ∅.
Proof. intros k o Hk. discriminate Hk. Qed.

Lemma first_workload : map_Forall (λ _, named ns "sample") ({[() := rich_workload]} : gmap () AIWorkload).
Proof. intros [] w Hw. rewrite lookup_singleton_eq in Hw. injection Hw as <-. split; reflexivity. Qed.

Lemma first_named : map_Forall (secret_named ns) first_secrets.
Proof.
  intros n meta Hn. unfold first_secrets in Hn. rewrite !lookup_insert in Hn. repeat case_decide; by simplify_eq.
Qed.

Lemma first_inv : loop_inv first_system.
Proof. apply inv_started; [exact first_children|exact first_workload|exact first_named]. Qed.

Lemma rested_reached : rtc loop_step first_system rested ∧ loop_inv rested.
Proof. apply drive_reachable, first_inv. Qed.

Lemma disturb_step y : rtc loop_step y (disturb y).
Proof.
  destruct y as [c p m q d run]. eapply rtc_l; [by apply (step_child _ _ _ _ _ _ _ _ _ _ deployment_key None)|].
  apply rtc_once, step_secret. by intros ? [= <-].
Qed.

Lemma loop_inv_reached y y' : rtc loop_step y y' → loop_inv y → loop_inv y'.
Proof. induction 1; [done|]. intros Hy. by eapply IHrtc, loop_inv_step. Qed.

Lemma loop_rests_when_tended_witness :
  ∃ y w, rtc loop_step first_system y ∧ at_rest y ∧ inf_stored (sy_workload y) !! () = Some w ∧
    size (inf_stored (sy_children y)) = 6%nat ∧ all_tended (inf_stored (sy_children y)) (inf_stored (sy_secrets y)) w.
Proof.
  destruct rested_reached as [Hr Hi]. pose proof (disturb_step rested) as Hd.
  destruct (drive_reachable drive_fuel (cluster rich_workload, 100%N) disturbed (loop_inv_reached _ _ Hd Hi)) as [Ha _].
  assert (rtc loop_step first_system rested_again) as Hy
    by (etransitivity; [exact Hr|]; etransitivity; [exact Hd|exact Ha]).
  destruct (summary_rest _ _ _ rests_twice) as (Hrest & Hsize & Hw).
  exists rested_again, rich_workload. split; [exact Hy|]. split; [exact Hrest|]. split; [exact Hw|].
  split; [exact Hsize|].
  exact (loop_rests_when_tended loop_registration loop_reconciler ns "sample" loop_registered eq_refl eq_refl loop_lookup
    ∅ {[() := rich_workload]} first_secrets rested_again rich_workload first_children first_workload first_named
    Hy Hrest Hw eq_refl).
Defined.

End Witness.
