(* ===== verification/Budget.v ===== *)
(** * The budget of a reconciliation

    How many requests one pass may make of the Kubernetes API, a read its client answers from a cache
    counted as one: a bound by the specification, and with the limits of the schema a constant.
    [credit R n t Q]: under answers that satisfy [R], [t] makes at most [n] requests, and [Q] holds of
    its result and the number it leaves of them. *)
From S2P Require Import Prelude Errors GoStd Kube Api Naming Intent Builder Effects Capability Engine Conditions.
From S2P Require Import Status Failures Gates Controller Contract Safety Gating ReconcileTheorems Ordering Settling.
From S2P Require Import Schema Convergence Repeats.
From S2P Require Import KubeReference Sample.

(** A call of the API client or of discovery; the clock, metrics and event records are not. *)
Definition is_request (e : event) : bool :=
  match e with
  | EEventf _ _ _ _ _ | ERecordResource _ _ | ERecordFailure _ | ENow | EPanic => false
  | _ => true
  end.

Definition requests_of (h : history) : nat := length (filter (λ c, is_request (call_event c) = true) h).

Section Credit.
Context (R : call event answer → Prop).

Fixpoint credit {A} (n : nat) (t : program A) (Q : nat → A → Prop) : Prop :=
  match t with
  | Ret a => Q n a
  | Vis e k =>
      if is_request e then
        match n with 0 => False | S n' => ∀ x, R (Call e x) → credit n' (k x) Q end
      else ∀ x, R (Call e x) → credit n (k x) Q
  end.

(** More credit at the start is more credit at the end. *)
Lemma credit_mono {A} n m (t : program A) (Q Q' : nat → A → Prop) :
  credit n t Q → n ≤ m → (∀ l l' a, Q l a → l + m ≤ l' + n → Q' l' a) → credit m t Q'.
Proof.
  intros Ht Hnm HQ. revert n m Ht Hnm HQ. induction t as [a|e k IH]; intros n m Ht Hnm HQ; simpl in *.
  { eapply HQ; [exact Ht|lia]. }
  destruct (is_request e); [|eauto]. destruct n as [|n]; [done|]. destruct m as [|m]; [lia|].
  intros x Hx. eapply IH; [eauto|lia|]. intros l l' a Ha Hl. eapply HQ; [exact Ha|lia].
Qed.

(** A part spends from the credit, the rest from what it leaves. *)
Lemma credit_seq {A B} n (t : program A) (f : A → program B) (Q1 : nat → A → Prop) Q :
  credit n t Q1 → (∀ l a, Q1 l a → credit l (f a) Q) → credit n (t ≫= f) Q.
Proof.
  intros Ht Hf. revert n Ht. induction t as [a|e k IH]; intros n Ht; simpl in *; [by apply Hf|].
  destruct (is_request e); [|eauto]. destruct n as [|n]; [done|]. eauto.
Qed.

(** A complete run spends no more than it was given. *)
Lemma credit_returns {A} n (t : program A) Q h a :
  credit n t Q → returns t h a → Forall R h → ∃ l, requests_of h + l = n ∧ Q l a.
Proof.
  revert n h. induction t as [b|e k IH]; intros n h Ht; simpl in *.
  - intros [-> ->] _. exists n. split; [unfold requests_of; simpl; lia|done].
  - intros (x & h' & -> & Hr) [Hx Hh]%Forall_cons.
    destruct (is_request e) eqn:Ee.
    + destruct n as [|n]; [done|]. unfold requests_of. rewrite filter_cons_True by done. simpl.
      destruct (IH x n h' (Ht x Hx) Hr Hh) as (l & Hl & HQ). unfold requests_of in Hl. exists l. split; [lia|done].
    + unfold requests_of. rewrite filter_cons_False by (simpl; by rewrite Ee). by apply (IH x n h'); [apply Ht|..].
Qed.

Lemma credit_bound {A} n (t : program A) h a :
  returns t h a → Forall R h → credit n t (λ _ _, True) → requests_of h ≤ n.
Proof. intros Hr Hh Ht. destruct (credit_returns n t _ h a Ht Hr Hh) as (l & <- & _). lia. Qed.

(** A safety triple adds what it says of the result. *)
Lemma credit_safe {A} G n (t : program A) (Q : nat → A → Prop) (Q' : A → Prop) :
  credit n t Q → safe R G t Q' → credit n t (λ l a, Q l a ∧ Q' a).
Proof.
  revert n. induction t as [a|e k IH]; intros n Ht; simpl in *; [done|].
  intros [_ Hk]. destruct (is_request e); [|auto]. destruct n; [done|]. auto.
Qed.

End Credit.

(** A part that makes at most [n] requests, whatever the answers. *)
Abbreviation costs n t := (credit (λ _, True) n t (λ _ _, True)).

Lemma credit_impl {A} (R R' : call event answer → Prop) n (t : program A) (Q : nat → A → Prop) :
  credit R n t Q → (∀ c, R' c → R c) → credit R' n t Q.
Proof.
  intros Ht HR. revert n Ht. induction t as [a|e k IH]; intros n Ht; simpl in *; [done|].
  destruct (is_request e); [|auto]. destruct n; [done|]. auto.
Qed.

Lemma costs_mono {A} n m (t : program A) : costs n t → n ≤ m → costs m t.
Proof. intros. by eapply credit_mono. Qed.

(** What a part that costs [n] leaves of a larger credit. *)
Lemma costs_leaves {A} R n m c (t : program A) : costs n t → n + m ≤ c → credit R c t (λ l _, m ≤ l).
Proof. intros Ht Hc. eapply credit_impl; [eapply credit_mono; [exact Ht|lia|intros; simpl; lia]|done]. Qed.

Lemma costs_credit {A} R n m (t : program A) : costs n t → n ≤ m → credit R m t (λ _ _, True).
Proof. intros Ht Hl. eapply credit_impl; [by eapply costs_mono|done]. Qed.

Lemma costs_seq {A B} n m (t : program A) (f : A → program B) : costs n t → (∀ a, costs m (f a)) → costs (n + m) (t ≫= f).
Proof. intros Ht Hf. eapply credit_seq; [exact (costs_leaves _ n m _ t Ht (le_n _))|]. intros l a Hl. by eapply costs_mono. Qed.

(** ** The parts *)

(** Steps through a program without loops, one answer at a time. *)
Ltac spend :=
  repeat first
    [ done
    | progress simpl
    | progress intros
    | match goal with
      | |- credit _ _ (match ?x with _ => _ end) _ => destruct x
      | |- credit _ _ (if ?x then _ else _) _ => destruct x
      | |- context [match ?x with _ => _ end] => destruct x
      end
    | progress unfold pure_value, pure_call, or_panic, panic ].

Section Parts.
Context `{Conditions, ApiErrors, UnstructuredHelpers, OwnerHelpers}.
Context `{SemanticDeepEqual AIWorkloadStatus, SemanticDeepEqual Object}.
Implicit Types (w : AIWorkload) (i : Intent).

Lemma set_condition_costs typ status reason message w : costs 0 (set_condition typ status reason message w).
Proof. unfold set_condition. spend. Qed.

Lemma patchStatus_costs before after : costs 3 (patchStatus before after).
Proof. unfold patchStatus. spend. Qed.

Lemma validateTenant_costs g w : costs 1 (validateTenant g w).
Proof. unfold validateTenant. spend. Qed.

Definition one_request (lookup : ResourceLookup) : Prop := ∀ resource, costs 1 (lookup resource).

Lemma HasResource_costs : one_request HasResource.
Proof. intros resource. unfold HasResource. spend. Qed.

Lemma Detect_costs lookup rq : one_request lookup → costs (length (rq_Resources rq)) (Detect lookup rq).
Proof.
  intros Hl. unfold Detect. generalize (rq_Resources rq). intros resources.
  induction resources as [|resource resources IH]; simpl; [done|]. apply (costs_seq 1); [apply Hl|]. spend.
Qed.

Lemma resolve_reference_costs via ns direct reference : costs 3 (resolve_reference via ns direct reference).
Proof. unfold resolve_reference. spend. Qed.

Lemma resolve_references_costs via ns direct references resolved :
  costs (3 * length references) (resolve_references via ns direct references resolved).
Proof.
  revert resolved. induction references as [|reference references IH]; intros resolved; [done|]. simpl length.
  replace (3 * S (length references)) with (3 + 3 * length references) by lia.
  simpl resolve_references. apply costs_seq; [apply resolve_reference_costs|]. intros [err|y]; [done|apply IH].
Qed.

Lemma observeAutoscaling_costs w : costs 1 (observeAutoscaling w).
Proof. unfold observeAutoscaling. spend. Qed.

Lemma observeAvailability_costs w : costs 1 (observeAvailability w).
Proof. unfold observeAvailability. spend. Qed.

Lemma setAssessmentConditions_costs w a : costs 0 (setAssessmentConditions w a).
Proof. unfold setAssessmentConditions, set_condition. spend. Qed.

Lemma observeAndReportStatus_costs recorder w : costs 6 (observeAndReportStatus recorder w).
Proof.
  unfold observeAndReportStatus. apply (costs_seq 1 5); [done|]. intros [err|deployment]; [done|].
  apply (costs_seq 1 4); [apply observeAutoscaling_costs|]. intros [w1 [err|]]; [done|].
  apply (costs_seq 1 3); [apply observeAvailability_costs|]. intros [w2 [err|]]; [done|].
  apply (costs_seq 0 3); [apply setAssessmentConditions_costs|]. intros w3.
  apply (costs_seq 3 0); [apply patchStatus_costs|]. spend.
Qed.

Lemma set_failure_conditions_costs types f w : costs 0 (set_failure_conditions types f w).
Proof. revert w. induction types as [|typ types IH]; intros w; simpl; [done|]. intros. apply IH. Qed.

Lemma set_gate_condition_costs found typ f w : costs 0 (set_gate_condition found typ f w).
Proof. unfold set_gate_condition. spend. Qed.

Lemma reportFailure_costs recorder telemetry w cause : costs 3 (reportFailure recorder telemetry w cause).
Proof.
  unfold reportFailure. apply (costs_seq 0 3); [apply set_failure_conditions_costs|]. intros w1.
  do 3 (apply (costs_seq 0 3); [apply set_gate_condition_costs|]; intros ?).
  apply (costs_seq 3 0); [apply patchStatus_costs|]. spend.
Qed.

Lemma observeExposure_costs g w st : costs 1 (observeExposure g w st).
Proof. unfold observeExposure. spend. Qed.

Lemma validate_gateway_costs g w : costs 1 (validate_gateway g w).
Proof. unfold validate_gateway. spend. Qed.

Lemma validate_secrets_costs ns names : costs (length names) (validate_secrets ns names).
Proof. induction names as [|n names IH]; simpl; [done|]. intros [err|m] _; spend. Qed.

Lemma mutate_costs i o : costs 0 (mutate i o).
Proof. unfold mutate. spend. Qed.

Lemma Apply_costs w i : costs 2 (Apply w i).
Proof.
  unfold Apply. destruct (negb _); [done|]. apply (costs_seq 0 2); [spend|]. intros [err|ordered]; [done|].
  apply (costs_seq 0 2); [spend|]. intros o. apply (costs_seq 1 1); [spend|]. intros [err|current].
  - destruct (IsNotFound err); [|done]. unfold apply_create. destruct (i_Absent i); [done|].
    apply (costs_seq 0 1); [apply mutate_costs|]. spend.
  - destruct (negb _); [done|]. destruct (negb _); [done|]. destruct (i_Absent i); [unfold apply_delete; spend|].
    unfold apply_patch. apply (costs_seq 0 1); [apply mutate_costs|]. spend.
Qed.

Lemma apply_plan_costs r w plan : costs (2 * length plan) (apply_plan r w plan).
Proof.
  induction plan as [|i plan IH]; [done|]. replace (2 * length (i :: plan)) with (2 + 2 * length plan) by (simpl; lia).
  simpl apply_plan. apply costs_seq; [apply Apply_costs|]. intros [err|outcome].
  - eapply costs_mono; [apply (costs_seq 0 0); [by destruct (r_Telemetry r)|done]|lia].
  - apply (costs_seq 0); [by destruct (r_Telemetry r)|]. intros _. exact IH.
Qed.

Context (g : gate_config).
Hypothesis Hlookup : ∀ lookup, r_CapabilityLookup g = Some lookup → one_request lookup.

Lemma validateExternalSecrets_costs w :
  costs (2 + 3 * length (sp_ExternalSecrets (w_Spec w))) (validateExternalSecrets g w).
Proof.
  unfold validateExternalSecrets. case_bool_decide; [done|].
  destruct (r_CapabilityLookup g) as [lookup|]; [|done].
  change (RequirementFor ExternalSecrets) with (head requirements). cbv iota beta.
  simpl head. cbv iota beta.
  apply costs_seq; [exact (Detect_costs lookup _ (Hlookup _ eq_refl))|]. intros o.
  destruct (ob_State o); [|done..]. eapply costs_mono; [apply costs_seq with (m := 0);
    [apply resolve_references_costs|]|lia]. spend.
Qed.

(** The workload of an exposed route is left alone; without one, its condition may go. *)
Lemma validateExposure_credit k w :
  credit (λ _, True) (5 + k) (validateExposure g w) (λ l '(w', out),
    match out with
    | inl _ => k ≤ l
    | inr st => if xs_manageRoute st then w' = w ∧ 2 + k ≤ l else w' = w ∧ k ≤ l ∨ 3 + k ≤ l
    end).
Proof.
  unfold validateExposure. set (previous := match FindStatusCondition _ _ with Some _ => true | None => false end).
  clearbody previous. destruct (negb _ && _); [simpl; left; split; [done|lia]|].
  destruct (r_CapabilityLookup g) as [lookup|]; [|simpl; lia].
  change (RequirementFor GatewayAPI) with (head (drop 1 requirements)). simpl head. cbv iota beta.
  eapply credit_seq; [eapply (costs_leaves _ 2 (3 + k)); [exact (Detect_costs lookup _ (Hlookup _ eq_refl))|lia]|].
  intros l o Hl. simpl in Hl.
  destruct (ob_State o); [|destruct (negb _); simpl; [right|]; lia|simpl; lia]. destruct (negb _); [simpl; split; [done|lia]|].
  eapply credit_mono with (n := 1 + (l - 1)) (Q := λ l' '(w', out),
    l - 1 ≤ l' ∧ (∀ st, out = inr st → w' = w ∧ xs_manageRoute st = true)).
  - eapply credit_seq; [eapply costs_leaves; [apply validate_gateway_costs|done]|].
    intros l' [err|] Hl'; simpl in *; [done|].
    split; [done|]. by intros st [= <-].
  - lia.
  - intros l1 l2 [w' [err|st]] [Hl1 Hst] Hl2; [lia|]. destruct (Hst st eq_refl) as [-> ->]. split; [done|lia].
Qed.

End Parts.

(** ** The pass *)

Lemma same_workload_spec w w' : same_workload w w' → w_Spec w' = w_Spec w.
Proof. unfold same_workload. intuition congruence. Qed.

(** What a pass may cost after the read of the workload. *)
Definition budget (w : AIWorkload) : nat :=
  39 + 3 * length (sp_ExternalSecrets (w_Spec w)) + length (sp_SecretRefs (w_Spec w)).

#[global] Arguments budget : simpl never.

(** An accepted plan has at most one intent of each kind. *)
Lemma accepted_plan_length p plan :
  Forall (valid_intent p) plan → NoDup (childOrder ∘ i_Object <$> plan) → length plan ≤ 7.
Proof.
  intros Hv Hnd. rewrite <-(length_fmap (childOrder ∘ i_Object)).
  change 7 with (length [0; 1; 2; 3; 4; 5; 6]%Z). apply submseteq_length, NoDup_submseteq; [done|].
  intros k (i & -> & Hi)%list_elem_of_fmap. rewrite Forall_forall in Hv.
  destruct (Hv i Hi) as (object & Ei & Ho & _). revert Ho. simpl. rewrite Ei.
  destruct object; simpl; try case_bool_decide; intros; try lia; set_solver.
Qed.

Section Pass.
Context `{ConditionsLaws, ApiErrors, UnstructuredHelpersLaws, OwnerHelpers}.
Context `{SemanticDeepEqual AIWorkloadStatus, SemanticDeepEqual Object}.
Context (r : AIWorkloadReconciler).
Hypothesis Hbuilt : well_built any_text r.
Hypothesis Hlookup : ∀ lookup, r_CapabilityLookup (r_gates r) = Some lookup → one_request lookup.

Context `{!SemanticDeepEqualLaws AIWorkloadStatus}.

Let R := api_contract any_text.

(** A part that costs [n] and has a safety triple. *)
Lemma credit_part {A B} G n m c (t : program A) (f : A → program B) Q Q1 :
  costs n t → safe R G t Q1 → n + m ≤ c → (∀ l a, m ≤ l → Q1 a → credit R l (f a) Q) → credit R c (t ≫= f) Q.
Proof.
  intros Ht Hs Hc Hf. eapply credit_seq; [eapply credit_safe; [by eapply costs_leaves|exact Hs]|].
  intros l a [Hl Ha]. by apply Hf.
Qed.

(** The gates leave [k], and two more with a route to manage. *)
Lemma run_gates_credit k w0 w n :
  follows any_text w0 w → n = 14 + 3 * length (sp_ExternalSecrets (w_Spec w0)) + k →
  credit R n (run_gates r w) (λ l '(w', out), follows any_text w0 w' ∧
    match out with
    | inl _ => k ≤ l
    | inr (_, st) => (if xs_manageRoute st then 2 + k else k) ≤ l
    end).
Proof.
  intros Hw ->. unfold run_gates. set (e := length _).
  eapply (credit_part _ 1 (13 + 3 * e + k)); [apply validateTenant_costs|by apply validateTenant_safe|lia|].
  intros l1 [w1 [err|]] Hl1 [Hw1 _]; [split; [done|lia]|].
  eapply (credit_part _ 3 (10 + 3 * e + k)); [apply patchStatus_costs|by apply patchStatus_safe|lia|].
  intros l2 [w2 [err|b]] Hl2 [Hw2 _]; [split; [done|lia]|].
  assert (e = length (sp_ExternalSecrets (w_Spec w2))) as He by (unfold e; by rewrite (same_workload_spec _ _ (proj1 Hw2))).
  eapply (credit_part _ (2 + 3 * e) (8 + k));
    [rewrite He; by apply validateExternalSecrets_costs
    |exact (validateExternalSecrets_safe any_text w0 _ (proj1 Hbuilt) _ Hw2)|lia|].
  intros l3 [w3 [err|ext]] Hl3 [Hw3 _]; [split; [done|lia]|].
  eapply (credit_part _ 3 (5 + k)); [apply patchStatus_costs|by apply patchStatus_safe|lia|].
  intros l4 [w4 [err|b4]] Hl4 [Hw4 _]; [split; [done|lia]|].
  eapply credit_seq.
  { eapply credit_safe; [|exact (validateExposure_safe any_text w0 _ (proj1 Hbuilt) _ Hw4)].
    pose proof (validateExposure_credit (r_gates r) Hlookup (l4 - 5) w4) as Hx.
    replace (5 + (l4 - 5)) with l4 in Hx by lia. eapply credit_impl; [exact Hx|done]. }
  intros l5 [w5 [err|st]] [Hl5 [[Hw5 _] _]]; [split; [done|lia]|].
  assert (w5 = w4 ∧ (if xs_manageRoute st then 2 + k else k) ≤ l5 ∨ 3 + k ≤ l5 ∧ xs_manageRoute st = false) as [[-> Hl]|[Hl Hm]].
  { destruct (xs_manageRoute st); [destruct Hl5; left; split; [done|lia]|].
    destruct Hl5 as [[-> Hl5]|Hl5]; [left|right]; (split; [done|lia]) || (split; [lia|done]). }
  - rewrite patchStatus_same. by split.
  - eapply (credit_part _ 3 k); [apply patchStatus_costs|by apply patchStatus_safe|lia|].
    intros l6 [w6 [err|b6]] Hl6 [Hw6 _]; (split; [done|]); [lia|]. by rewrite Hm.
Qed.

Lemma reconcile_children_costs build w external exposure :
  PlanBuilder build →
  costs (14 + length (sp_SecretRefs (w_Spec w))) (reconcile_children r build w external exposure).
Proof.
  intros Hb. unfold reconcile_children. destruct (build_plan _ _ _ _) as [plan|err|] eqn:Ep; [|done|spend].
  pose proof (build_plan_intents _ _ _ _ _ _ Ep) as (_ & Hv & _).
  assert (NoDup (childOrder ∘ i_Object <$> plan)) as Hnd
    by (apply sorted_orders, (build_plan_sorted _ _ _ _ _ Ep)).
  cbn. apply (costs_seq 14).
  { eapply costs_mono; [apply apply_plan_costs|]. pose proof (accepted_plan_length _ _ Hv Hnd). lia. }
  intros [err|]; [done|]. apply validate_secrets_costs.
Qed.

Lemma report_status_costs w st : costs (if xs_manageRoute st then 13 else 9) (report_status r w st).
Proof.
  assert (∀ n w err, 3 ≤ n → costs n (reportFailure (r_Recorder r) (r_Telemetry r) w err)) as Hfail
    by (intros; by eapply costs_mono; [apply reportFailure_costs|]).
  assert (∀ w delay, costs 9 ('(workload, err) ← observeAndReportStatus (r_Recorder r) w;
      match err with
      | Some err => reportFailure (r_Recorder r) (r_Telemetry r) workload err
      | None => Ret ({| RequeueAfter := delay |}, None)
      end)) as Hobs.
  { intros w' delay. apply (costs_seq 6 3); [apply observeAndReportStatus_costs|].
    intros [w3 [err|]]; [by apply Hfail|done]. }
  unfold report_status. destruct (xs_manageRoute st) eqn:Em.
  - apply (costs_seq 1 12); [apply observeExposure_costs|]. intros [w1 [err|delay]]; [apply Hfail; lia|].
    apply (costs_seq 3 9); [apply patchStatus_costs|]. intros [w2 [err|b]]; [apply Hfail; lia|]. apply Hobs.
  - unfold observeExposure. rewrite Em. cbn. rewrite patchStatus_same. cbn. apply Hobs.
Qed.

(** A complete pass: nothing outside the watched namespaces, else the read and what it answers allows. *)
Lemma Reconcile_spends ns name h out :
  returns (Reconcile r ns name) h out → Forall R h →
  h = [] ∨ ∃ x h', h = Call (EGetWorkload ns name) x :: h' ∧
    requests_of h' ≤ match x with inl _ => 0 | inr w => budget w end.
Proof.
  unfold Reconcile. case_bool_decide; [by intros [-> _]; left|]. destruct (negb _); [by intros [-> _]; left|].
  intros (x & h' & -> & Hr) [[Hok _] Hh]%Forall_cons. right. exists x, h'. split; [done|].
  apply (credit_bound R _ _ _ _ Hr Hh). clear Hr. destruct x as [err|w]; [done|]. cbn.
  destruct (r_Builder r) as [build|] eqn:Eb; [|done].
  destruct (Time_IsZero (w_DeletionTimestamp w)); [|done]. cbn.
  assert (follows any_text w w) as Hw by (by split; [|apply Hok]).
  set (refs := length (sp_SecretRefs (w_Spec w))).
  eapply credit_seq; [apply (run_gates_credit (25 + refs) w w); [done|unfold budget; lia]|].
  intros l [w1 [err|[external exposure]]] [Hw1 Hl]; [by eapply costs_credit; [apply reportFailure_costs|lia]|].
  eapply costs_credit; [eapply (costs_seq (14 + refs))|].
  - unfold refs. rewrite <-(same_workload_spec _ _ (proj1 Hw1)). apply reconcile_children_costs, Hbuilt, Eb.
  - intros [err|]; [|apply report_status_costs].
    destruct (errors_Is _ _); [done|]. eapply costs_mono; [apply reportFailure_costs|by destruct (xs_manageRoute exposure); lia].
  - destruct (xs_manageRoute exposure); lia.
Qed.

End Pass.

Section Bound.
Context `{ConditionsLaws, ApiErrors, UnstructuredHelpersLaws, OwnerHelpers, Quantities}.
Context `{SemanticDeepEqual AIWorkloadStatus, SemanticDeepEqual Object}.
Context `{!SemanticDeepEqualLaws AIWorkloadStatus}.

(** The limits of the schema bound the lists a pass walks through. *)
Lemma admitted_budget w : valid_AIWorkloadSpec (w_Spec w) = true → budget w ≤ 119.
Proof.
  unfold valid_AIWorkloadSpec, budget. rewrite !andb_true_iff, !Nat.leb_le. intros Hv.
  assert (length (sp_SecretRefs (w_Spec w)) ≤ 32 ∧ length (sp_ExternalSecrets (w_Spec w)) ≤ 16) by tauto. lia.
Qed.

(** C13. A reconciliation ends with a result against every environment that answers its calls, and its
    work is bounded: after the read of the workload it makes at most 39 requests of the API,
    and three more for each external Secret and one more for each Secret reference, conflicts and
    error reports included; none when the read fails; so at most 120 in all for a workload the schema
    admits.  The witness meets the bound. *)
Theorem Reconcile_within_budget {S} (handler : S → ∀ e, option (S * answer e)) r ns name s :
  well_built any_text r →
  (∀ lookup, r_CapabilityLookup (r_gates r) = Some lookup → one_request lookup) →
  (∀ s e, e ≠ EPanic → ∃ s' x, handler s e = Some (s', x) ∧ api_contract any_text (Call e x)) →
  let h := log handler s (Reconcile r ns name) in
  ∃ s' result err, run handler s (Reconcile r ns name) = Some (s', (result, err)) ∧
    (h = [] ∨ ∃ x h', h = Call (EGetWorkload ns name) x :: h' ∧
       requests_of h' ≤ match x with inl _ => 0 | inr w => budget w end) ∧
    ((∀ w h', h = Call (EGetWorkload ns name) (inr w) :: h' → valid_AIWorkloadSpec (w_Spec w) = true) →
     requests_of h ≤ 120).
Proof.
  intros Hb Hl Hh h. destruct (run_safe handler _ _ s _ _
    (Reconcile_safe any_text r (proj1 Hb) (proj2 Hb) ns name)) as (s' & [result err] & Hr & _).
  { intros s0 e He. apply Hh. by intros ->. }
  exists s', result, err. split; [done|]. apply run_returns in Hr. fold h in Hr.
  assert (Forall (api_contract any_text) h) as Hc.
  { apply (log_Forall handler (λ _, True)); [|done]. intros s0 e s1 x _ E. split; [done|].
    assert (e ≠ EPanic) as Hne by (intros ->; destruct x).
    destruct (Hh s0 e Hne) as (? & ? & E' & Hx). by simplify_eq. }
  destruct (Reconcile_spends r Hb Hl ns name h (result, err) Hr Hc) as [Hs|(x & h' & Hs & Hle)].
  { split; [by left|]. rewrite Hs. unfold requests_of. simpl. lia. }
  split; [right; eauto|]. intros Hv. rewrite Hs in *. unfold requests_of in *. rewrite filter_cons_True by done. simpl.
  destruct x as [e|w]; [lia|]. pose proof (admitted_budget w (Hv w h' eq_refl)). lia.
Qed.

End Bound.

(** ** Witnesses *)

Section Witnesses.
Import Ref Sample.

Lemma reconciler_lookup lookup : r_CapabilityLookup (r_gates reconciler) = Some lookup → one_request lookup.
Proof. intros [= <-]. apply HasResource_costs. Qed.

(** The workload the first call of a history read. *)
Definition first_read (h : history) : option AIWorkload :=
  match h with
  | Call (EGetWorkload _ _) (inr w) :: _ => Some w
  | _ => None
  end.

(** A NetworkPolicy an earlier specification left behind. *)
Definition old_policy : Object :=
  let o := ONetworkPolicy (new_NetworkPolicy (stamp 1 (new_meta (ChildName "sample") ns))) in
  default o (set_controller full_workload o).

Definition leftover : server := with_children (λ _, [old_policy]) (cluster full_workload).

Definition counted (n : nat) (s : server) (e : event) : option ((server * nat) * answer e) :=
  match handler s e with Some (s', x) => Some ((s', n), x) | None => None end.

(** A cluster another writer competes for: every second status patch conflicts, and so does the
    fourth retry. *)
Definition contended (s : server * nat) (e : event) : option ((server * nat) * answer e) :=
  match e return option ((server * nat) * answer e) with
  | EPatchStatus before after =>
      if Nat.even s.2 || bool_decide (s.2 = 7) then Some ((s.1, S s.2), inl (api_error Conflict "conflict"))
      else counted (S s.2) s.1 (EPatchStatus before after)
  | e => counted s.2 s.1 e
  end.

Lemma contended_contract s e :
  e ≠ EPanic → ∃ s' x, contended s e = Some (s', x) ∧ api_contract any_text (Call e x).
Proof.
  intros He. assert (∀ n, ∃ s' x, counted n s.1 e = Some (s', x) ∧ api_contract any_text (Call e x)) as Hc.
  { intros n. destruct (cluster_contract s.1 e He) as (s' & x & Hs & Hx). exists (s', n), x. split; [|done].
    unfold counted. by rewrite Hs. }
  destruct e; try apply Hc. unfold contended. destruct (_ || _); [|apply Hc].
  eexists _, _. split; [reflexivity|]. split; [done|]. by intros err [= <-].
Qed.

(** Competition makes the pass spend all it may: the bound is the best one. *)
Lemma Reconcile_within_budget_witness :
  let h := log contended (leftover, 0) full_run in
  ∃ s' result err, run contended (leftover, 0) full_run = Some (s', (result, err)) ∧
    requests_of h = 1 + budget full_workload ∧ requests_of h ≤ 120.
Proof.
  destruct (Reconcile_within_budget contended reconciler ns "sample" (leftover, 0) (reconciler_well_built _)
    reconciler_lookup contended_contract) as (s' & result & err & Hr & _ & Hle).
  exists s', result, err. split; [exact Hr|]. split; [vm_compute; reflexivity|]. apply Hle. intros w h' Hw.
  assert (first_read (log contended (leftover, 0) full_run) = Some full_workload) as Hf by (vm_compute; reflexivity).
  assert (Some w = Some full_workload) as E by (rewrite <-Hf; exact (f_equal first_read (eq_sym Hw))).
  injection E as ->. vm_compute. reflexivity.
Defined.

End Witnesses.
